(* ===== verification/_CoqProject ===== *)
-Q . S2P
Prelude.v
Device.v
Ide.v
Str.v
Fat16.v
FatTable.v
FatDir.v
FatFile.v
FsSpec.v
FsTheorems.v
FsOverwrite.v
FsRefine.v
FsShadow.v
FsMore.v
FsBounds.v
FsFormat.v
Vga.v
VgaTheorems.v
Editor.v
EditorTheorems.v
Float64.v
BTreeMap.v
HashMap.v
Memory.v
Paging.v
PagingDemo.v
Executor.v
Lisp.v
LispTheorems.v
LispEval.v
LispEvalTheorems.v
LispSemantics.v
Shell.v
Kernel.v
Keyboard.v
Interrupts.v
InterruptTheorems.v
Startup.v
StartupTheorems.v
Power.v
Scheduling.v
Pong.v
Commands.v
Machine.v
Utf8.v
FileCommands.v
EditorSession.v
ShellTheorems.v
MachineTheorems.v
Boot.v
