(* ===== verification/Prelude.v ===== *)
(** * SilOS: a verification of the kernel's own logic

    SilOS is a single-core hobby kernel: it boots, mounts a FAT16 volume over an
    ATA drive, and runs a shell on the VGA text screen, with file commands, a text
    editor, a Lisp interpreter and a game.  This library models the Rust code
    under src/src/ as executable functions and proves what makes it correct.

    ** The program's parts and the files that model them

    - The drive.  Device.v: the block-device interface the filesystem is written
      against ([BlockDevice]), its contract ([BlockDeviceOk]) and a drive in memory
      ([MemDisk]) on which everything evaluates.  Ide.v: the ATA driver (ide.rs)
      over an interface of I/O ports; from the PIO protocol ([AtaOk]), with the
      drive's write cache and its busy times, the driver meets the contract
      ([Ata_device_ok]).  [holds] is a drive at rest with given contents,
      [flushing] one that was told to flush and was not waited for.
    - The filesystem (fat16.rs).  Fat16.v: every function, one definition each.
      FatTable.v (table entries, chains, free clusters), FatDir.v (directory slots
      and entries), FatFile.v (cluster contents, the allocation loop): lemmas.
      FsSpec.v, FsTheorems.v, FsOverwrite.v, FsRefine.v, FsShadow.v, FsMore.v,
      FsBounds.v, FsFormat.v: the theorems.
    - The screen (vga_buffer.rs, canvas.rs).  Vga.v and VgaTheorems.v.
    - The editor (editor/mod.rs).  Editor.v, EditorTheorems.v: the editing
      operations; the session [run_editor] is in Commands.v, its theorem in
      EditorSession.v.
    - The interpreter (parser.rs).  Float64.v (binary64 numbers, their parsing and
      printing), BTreeMap.v (ordered maps), Lisp.v (tokenizer, parser, printer),
      LispTheorems.v, LispEval.v (builtins, special forms, [interpret]),
      LispEvalTheorems.v; LispSemantics.v: the language as a big-step semantics.
    - The command line (shell.rs).  Shell.v.
    - The machine.  Kernel.v gathers the statics of the kernel in one record and
      makes it a block device and a console; Pong.v (pong.rs); Commands.v and
      Machine.v (commands.rs, input.rs, the middle of main.rs): the commands, the
      command table, the shell task, mounting and the test file.  Utf8.v,
      FileCommands.v, ShellTheorems.v, MachineTheorems.v: theorems on the whole
      machine.  Power.v (power.rs): switching off.
    - Tasks.  Executor.v (task/mod.rs, task/executor.rs): tasks, the run queue and
      [run_ready_tasks]; futures are a parameter, the bounded queue of crossbeam is
      the interface [QueueOps] with its laws [QueueOk].  Keyboard.v
      (task/keyboard.rs): the scancode queue and the key task, as steps that
      interrupts and other tasks interleave with.  Scheduling.v: that task and the
      shell in one run queue.
    - Interrupts.  Interrupts.v (interrupts.rs, and the locks of vga_buffer.rs):
      handlers, descriptor table, controllers, and the screen operations as
      sequences of steps between which interrupts fall; InterruptTheorems.v.
    - Start-up.  Startup.v (gdt.rs, serial.rs, lib.rs, the unit tests): descriptor
      tables, [init], the test runner; StartupTheorems.v.  Boot.v (main.rs):
      [kernel_main] from its entry to the executor, the composition of all parts.
    - Memory.  Memory.v (memory.rs, allocator.rs): the frame allocators and the
      mapping of the heap, over a mapper that is a parameter.  Paging.v: the walk
      of the page tables and the processor's translation; PagingDemo.v implements
      the crate's types and its mapper, which takes the frames of missing tables
      from the frame allocator, on a concrete memory.  HashMap.v (hashmap.rs): the hash
      map.
    - This file: outcomes, stateful computations, machine integers, slices, the
      tactics and lemmas all files share.  Str.v: Rust strings and UTF-8.

    ** How code is translated

    A function that changes state is a [proc S A], from a state to an outcome: a
    value and a new state, a panic, or [Hang] for a computation that does not come
    back.  [runs m s Q] is total correctness: [m] comes back, and [Q] holds.
    Arithmetic is checked at its width, as in the development profile of
    Cargo.toml ([chk], [chk_i]); [as] casts truncate ([wrap]); indexing,
    slicing and [copy_from_slice] panic out of range; a byte index into a string
    panics inside a character.  [Result] and [Option] are values.  A component is
    a Section over the interfaces it calls; the machine record implements them.
    Async code is sequential between yields: [yield_now] lets the next batch of
    key events arrive, and a theorem quantifies over all batches.  The machine of
    the commands runs a screen operation at once: [operations_not_torn] is the
    reason this is sound for the masked operations, and [clear_command_deadlocks]
    the exception.  The locks of drive, filesystem, shell, key queue and command
    table are taken by tasks only, never by a handler and never twice, and appear
    in the power-off sequence alone.

    ** What the theorems show

    - Filesystem: [represents] relates a disk to a finite map from names to
      contents; reading is lookup, creating and overwriting are insertion, no two
      files share a cluster; the error paths and what they leave; termination on
      damaged tables; formatting gives a volume that mounts.  Creating an existing
      name, a full disk and the over-long table are the places where the code does
      less than it means to.
    - Driver: it reads and writes the addressed sector and no other, and flushing
      empties the cache; a write on a drive that is slow to store a sector stays
      in the cache, and an access right behind a bare flush command never ends.
    - Screen: printing appends to a scrollback of which the screen shows the end.
    - Editor: the keys act as on a flat text cut at the cursor; a session edits
      the file on the volume.
    - Interpreter: the parser terminates and reads back what is printed; [eval]
      returns exactly what the big-step semantics gives; a program panics only in
      the reader, in a command it runs or in the console; environments stay
      ordered and scoped; a total rule for loops.
    - Shell and commands: a turn of the shell runs the words of the edited line;
      [mkdir], [edit], [cat], [run], [bind] and [echo] from the command line to
      drive and screen; booting; switching off flushes the drive first.
    - Tasks: no queued scancode is lost and no wake-up is missed under any
      interleaving; a round of quiet tasks ends with the run queue empty;
      a task that wakes itself at every poll keeps the executor from idling; keys
      reach the shell by its second poll; the processor never halts with a task
      queued.
    - Interrupts: masked screen operations neither deadlock with the handlers nor
      are torn by them; the unmasked command [clear] can deadlock.
    - Start-up: interrupts come on last, with every table in place; the unit tests
      pass and the test runner reports what tests do; [kernel_main] reaches the
      executor with everything set up.
    - Memory: [translate_addr] agrees with the processor's walk; the heap is mapped
      to frames of its own and nothing else moves; the hash map keeps the first
      value put under a key, for hashes below the number of buckets, and [put]
      panics above.

    ** Fuel and bounds

    [chain_fuel] (65538) exceeds the number of 16-bit cluster numbers, [read_fuel]
    and [write_fuel] the number of clusters a content or a table can have, and the
    theorems prove that they suffice.  [parse_fuel] is twice the tokens plus one
    ([parse_terminates]).  The fuel of [eval], [for], [run_cmd] and of the
    interactive loops bounds programs that need not end; [eval_mono] shows that
    more of it does not change an answer, [eval_is_semantics] that some amount is
    enough for every program that returns a value, and the theorems on loops give
    the amount that is enough.  The polls of the driver are bounded by [patience], a
    bound on the drive.  Volumes have at most 255 sectors per table copy and at
    most 2032 root entries ([wf_fs]), beyond which the 16-bit arithmetic of the
    code overflows.

    ** What is not modelled

    The crates the kernel is built on are parameters with their laws: the types of
    x86_64 (page tables, descriptor tables), pic8259, the queues and wakers, the
    keyboard decoder, the heap allocator (only the range it is given), the UART
    (the characters sent).  Stack depth and heap exhaustion; the pacing loop of the
    game; interrupts during the tests of the test runner, whose bodies run at once;
    the text of panic messages; code that nothing calls ([Dummy],
    [add_processed_char], [EditorModel]) and the kernels under src/tests.  Left for
    later: the machine over the ATA driver instead of the drive in memory, the
    whole shell task under the executor (Scheduling.v takes its polls), the
    capacity the driver reports, and longer Lisp programs from the command
    line. *)

From Corelib Require Export ssreflect.
From stdpp Require Export base option list numbers gmap strings.

#[global] Open Scope general_if_scope.
#[global] Open Scope Z_scope.

(** ** Outcomes *)

(** The ways a Rust panic is raised by the modelled code. *)
Inductive panic :=
  | PIndex                  (** slice or array index out of range *)
  | POverflow               (** checked integer arithmetic *)
  | PDivZero
  | PCharBoundary           (** byte index inside a UTF-8 sequence *)
  | PExpect (msg : string). (** [unwrap], [expect], [panic!] *)

(** [Hang] is a computation that does not return: a busy wait on a device that
    never answers, or a loop whose fuel ran out. *)
Inductive outcome (A : Type) :=
  | Done (a : A)
  | Panic (p : panic)
  | Hang.
Arguments Done {_} _.
Arguments Panic {_} _.
Arguments Hang {_}.

Inductive result (A E : Type) :=
  | Ok (a : A)
  | Err (e : E).
Arguments Ok {_ _} _.
Arguments Err {_ _} _.

#[export] Instance outcome_ret : MRet outcome := λ A a, Done a.
#[export] Instance outcome_bind : MBind outcome := λ A B f m,
  match m with
  | Done a => f a
  | Panic p => Panic p
  | Hang => Hang
  end.

(** ** Stateful computations *)

Definition proc (S A : Type) : Type := S → outcome (A * S).

#[export] Instance proc_ret {S} : MRet (proc S) := λ A a s, Done (a, s).
#[export] Instance proc_bind {S} : MBind (proc S) := λ A B f m s,
  match m s with
  | Done (a, s') => f a s'
  | Panic p => Panic p
  | Hang => Hang
  end.

Definition lift {S A} (o : outcome A) : proc S A := λ s,
  match o with
  | Done a => Done (a, s)
  | Panic p => Panic p
  | Hang => Hang
  end.

Definition get_state {S} : proc S S := λ s, Done (s, s).
Definition put_state {S} (s : S) : proc S unit := λ _, Done (tt, s).

(** [for x in xs { if let Some(v) = f(x) { return Some(v) } } None] *)
Fixpoint for_find {S X R} (f : X → proc S (option R)) (xs : list X)
  : proc S (option R) :=
  match xs with
  | [] => mret None
  | x :: xs =>
      r ← f x;
      match r with
      | Some v => mret (Some v)
      | None => for_find f xs
      end
  end.

(** [for x in xs { f(x) }] *)
Fixpoint for_each {S X} (f : X → proc S unit) (xs : list X) : proc S unit :=
  match xs with
  | [] => mret tt
  | x :: xs => f x ;; for_each f xs
  end.

(** ** Total correctness *)

(** [returns o Q]: the computation comes back, and its value satisfies [Q]. *)
Definition returns {A} (o : outcome A) (Q : A → Prop) : Prop :=
  match o with Done a => Q a | _ => False end.

(** [runs m s Q]: started in [s], [m] comes back (it neither panics nor hangs)
    with a value and a state satisfying [Q]. *)
Definition runs {S A} (m : proc S A) (s : S) (Q : A → S → Prop) : Prop :=
  match m s with Done (a, s') => Q a s' | _ => False end.

Section runs.
Context {S : Type}.
Implicit Types s : S.

Lemma runs_ret {A} (a : A) s (Q : A → S → Prop) : Q a s → runs (mret a) s Q.
Proof. done. Qed.

Lemma runs_bind {A B} (m : proc S A) (f : A → proc S B) s Q :
  runs m s (λ a s', runs (f a) s' Q) → runs (m ≫= f) s Q.
Proof. rw /runs /mbind /proc_bind. destruct (m s) as [[a s']| |]; done. Qed.

Lemma runs_bind_inv {A B} (m : proc S A) (f : A → proc S B) s Q :
  runs (m ≫= f) s Q → runs m s (λ a s', runs (f a) s' Q).
Proof. rw /runs /mbind /proc_bind. destruct (m s) as [[a s']| |]; done. Qed.

Lemma runs_mono {A} (m : proc S A) s (P Q : A → S → Prop) :
  runs m s P → (∀ a s', P a s' → Q a s') → runs m s Q.
Proof. rw /runs. destruct (m s) as [[a s']| |]; naive_solver. Qed.

Lemma runs_lift {A} (o : outcome A) s (Q : A → S → Prop) :
  returns o (λ a, Q a s) → runs (lift o) s Q.
Proof. rw /runs /lift /returns. by destruct o. Qed.

Lemma runs_lift_done {A} (o : outcome A) a s (Q : A → S → Prop) :
  o = Done a → Q a s → runs (lift o) s Q.
Proof. by intros ->. Qed.

Lemma runs_Done {A} (m : proc S A) s Q :
  runs m s Q ↔ ∃ a s', m s = Done (a, s') ∧ Q a s'.
Proof.
  rw /runs. destruct (m s) as [[a s']| |]; split; naive_solver.
Qed.

Lemma runs_and {A} (m : proc S A) s (P Q : A → S → Prop) :
  runs m s P → runs m s Q → runs m s (λ a s', P a s' ∧ Q a s').
Proof. rw /runs. destruct (m s) as [[a s']| |]; naive_solver. Qed.

(** A search loop whose body answers [g x] and keeps the invariant [I]
    computes the first answer of [g] along the list. *)
Definition first_some {X R} (g : X → option R) (xs : list X) : option R :=
  head (omap g xs).

Lemma first_some_cons {X R} (g : X → option R) x xs :
  first_some g (x :: xs) =
    match g x with Some r => Some r | None => first_some g xs end.
Proof. rw /first_some /=. by destruct (g x). Qed.

Lemma runs_for_find {X R} (I : S → Prop) (g : X → option R)
    (f : X → proc S (option R)) xs s :
  I s →
  (∀ x s, x ∈ xs → I s → runs (f x) s (λ r s', r = g x ∧ I s')) →
  runs (for_find f xs) s (λ r s', r = first_some g xs ∧ I s').
Proof.
  revert s. induction xs as [|x xs IH]; intros s HI Hf; simpl.
  { by apply runs_ret. }
  apply runs_bind. eapply runs_mono.
  { apply Hf; [set_solver|done]. }
  intros r s' [-> HI']. rw first_some_cons.
  destruct (g x); [by apply runs_ret|].
  apply IH; [done|]. intros; apply Hf; [set_solver|done].
Qed.

(** A [for] loop under an invariant indexed by the iterations done. *)
Lemma runs_for_each {X} (I : list X → S → Prop) (f : X → proc S unit) xs s :
  I [] s →
  (∀ done x rest s, xs = done ++ x :: rest → I done s →
     runs (f x) s (λ _ s', I (done ++ [x]) s')) →
  runs (for_each f xs) s (λ _ s', I xs s').
Proof.
  intros H0 Hf.
  cut (∀ todo done s, xs = done ++ todo → I done s →
         runs (for_each f todo) s (λ _ s', I xs s')).
  { intros H. by apply (H xs []). }
  induction todo as [|x todo IH]; intros dn s1 -> HI; simpl.
  { apply runs_ret. by rw app_nil_r. }
  apply runs_bind. eapply runs_mono; [by eapply Hf|].
  intros [] s' HI'. apply (IH (dn ++ [x])); [by rw -assoc|done].
Qed.
End runs.

(** ** Machine integers *)

(** Checked arithmetic at width [w] (the development profile panics when an
    operation leaves the range of its type). *)
Definition chk (w z : Z) : outcome Z :=
  if (0 <=? z) && (z <? 2 ^ w) then Done z else Panic POverflow.

Definition chk_div (a b : Z) : outcome Z :=
  if b =? 0 then Panic PDivZero else Done (a / b).

(** [as u8], [as u16], [as u32]: truncation to the width. *)
Definition wrap (w z : Z) : Z := z mod 2 ^ w.

Lemma chk_Done w z : 0 ≤ z < 2 ^ w → chk w z = Done z.
Proof.
  intros. rw /chk. destruct (Z.leb_spec 0 z), (Z.ltb_spec z (2 ^ w)); simpl; lia || done.
Qed.

Lemma chk_Panic w z : z < 0 ∨ 2 ^ w ≤ z → chk w z = Panic POverflow.
Proof.
  intros. rw /chk. destruct (Z.leb_spec 0 z), (Z.ltb_spec z (2 ^ w)); simpl; lia || done.
Qed.

(** The head of an outcome sequence. *)
Lemma bind_Done {A B} (m : outcome A) (f : A → outcome B) a r :
  m = Done a → f a = r → m ≫= f = r.
Proof. by intros ->. Qed.

Lemma chk_div_Done a b : b ≠ 0 → chk_div a b = Done (a / b).
Proof. intros. rw /chk_div. by destruct (Z.eqb_spec b 0). Qed.

Definition isize_min : Z := - 2 ^ 63.
Definition isize_max : Z := 2 ^ 63 - 1.

(** Checked arithmetic on [isize] and [i64]. *)
Definition chk_i (z : Z) : outcome Z :=
  if (isize_min <=? z) && (z <=? isize_max) then Done z else Panic POverflow.

Lemma chk_i_Done z : isize_min ≤ z ≤ isize_max → chk_i z = Done z.
Proof.
  intros. rw /chk_i. destruct (Z.leb_spec isize_min z), (Z.leb_spec z isize_max); simpl; lia || done.
Qed.

(** A byte. *)
Definition is_byte (b : Z) : Prop := 0 ≤ b < 256.
#[export] Instance is_byte_dec b : Decision (is_byte b).
Proof. rw /is_byte. apply _. Defined.

(** ** Slices *)

(** Length of a slice, as the [usize] the source sees. *)
Notation zlen l := (Z.of_nat (length l)).

(** [Option::unwrap] *)
Definition unwrap {A} (o : option A) : outcome A :=
  match o with Some a => Done a | None => Panic (PExpect "unwrap on None") end.

(** [l[i]] *)
Definition idx {A} (l : list A) (i : Z) : outcome A :=
  match l !! Z.to_nat i with
  | Some v => if 0 <=? i then Done v else Panic PIndex
  | None => Panic PIndex
  end.

(** [l[i] = v] *)
Definition set_idx {A} (l : list A) (i : Z) (v : A) : outcome (list A) :=
  if (0 <=? i) && (i <? zlen l) then Done (<[Z.to_nat i := v]> l) else Panic PIndex.

(** [&l[a..b]] *)
Definition slice {A} (l : list A) (a b : Z) : outcome (list A) :=
  if (0 <=? a) && (a <=? b) && (b <=? zlen l)
  then Done (take (Z.to_nat (b - a)) (drop (Z.to_nat a) l))
  else Panic PIndex.

(** Overwrite [length v] elements of [l] from position [i] on. *)
Definition splice {A} (l : list A) (i : nat) (v : list A) : list A :=
  take i l ++ v ++ drop (i + length v) l.

(** [l[a..a + v.len()].copy_from_slice(v)] *)
Definition copy_at {A} (l : list A) (a : Z) (v : list A) : outcome (list A) :=
  if (0 <=? a) && (a + zlen v <=? zlen l)
  then Done (splice l (Z.to_nat a) v) else Panic PIndex.

Lemma idx_Done {A} (l : list A) i v :
  0 ≤ i → l !! Z.to_nat i = Some v → idx l i = Done v.
Proof. intros ? Hl. rw /idx Hl. by destruct (Z.leb_spec 0 i); [|lia]. Qed.

Lemma set_idx_Done {A} (l : list A) i v :
  0 ≤ i < zlen l → set_idx l i v = Done (<[Z.to_nat i := v]> l).
Proof.
  intros. rw /set_idx.
  destruct (Z.leb_spec 0 i), (Z.ltb_spec i (zlen l)); simpl; lia || done.
Qed.

Lemma slice_Done {A} (l : list A) a b :
  0 ≤ a ≤ b → b ≤ zlen l →
  slice l a b = Done (take (Z.to_nat (b - a)) (drop (Z.to_nat a) l)).
Proof.
  intros. rw /slice.
  destruct (Z.leb_spec 0 a), (Z.leb_spec a b), (Z.leb_spec b (zlen l)); simpl; lia || done.
Qed.

Lemma copy_at_Done {A} (l : list A) a v :
  0 ≤ a → a + zlen v ≤ zlen l → copy_at l a v = Done (splice l (Z.to_nat a) v).
Proof.
  intros. rw /copy_at.
  destruct (Z.leb_spec 0 a), (Z.leb_spec (a + zlen v) (zlen l)); simpl; lia || done.
Qed.

(** ** Automation *)

Create HintDb len.
#[export] Hint Rewrite @length_app @length_take @length_drop @length_insert
  @length_replicate @length_fmap @length_nil @length_cons @length_seqZ : len.

(** Lengths of list expressions, then linear arithmetic. *)
Ltac len := autorewrite with len in *; simpl in *; try lia.

(** Linear arithmetic with constant division and modulo. *)
Ltac dlia := zify; Z.to_euclidean_division_equations; lia.

(** One step of a [runs] goal: the head of a bind. *)
Ltac rbind := apply runs_bind.

(** A checked operation at the head of an [outcome] equation. *)
Ltac obind := eapply bind_Done.

(** A checked operation at the head of a [runs] goal. *)
Ltac rlift := rbind; eapply runs_lift_done.

Lemma length_splice {A} (l v : list A) i :
  (i + length v ≤ length l)%nat → length (splice l i v) = length l.
Proof. intros. rw /splice. len. Qed.

Lemma splice_lookup_old {A} (l v : list A) i k :
  (i + length v ≤ length l)%nat → (k < i ∨ i + length v ≤ k)%nat →
  splice l i v !! k = l !! k.
Proof.
  intros Hl [Hk|Hk]; rw /splice.
  - rw lookup_app_l; [len|]. by rw lookup_take_lt.
  - rw lookup_app_r; [len|]. rw lookup_app_r; [len|].
    rw lookup_drop. f_equal. len.
Qed.

Lemma splice_lookup_new {A} (l v : list A) i k :
  (i + length v ≤ length l)%nat → (i ≤ k < i + length v)%nat →
  splice l i v !! k = v !! (k - i)%nat.
Proof.
  intros Hl Hk. rw /splice.
  rw lookup_app_r; [len|]. rw lookup_app_l; [len|]. f_equal. len.
Qed.

(** The spliced window reads back. *)
Lemma take_drop_splice {A} (l v : list A) i :
  (i + length v ≤ length l)%nat → take (length v) (drop i (splice l i v)) = v.
Proof.
  intros Hl. rw /splice drop_app_length'; [len|]. by rw take_app_length.
Qed.

(** A disjoint window is untouched. *)
Lemma take_drop_splice_ne {A} (l v : list A) i j n :
  (i + length v ≤ length l)%nat → (j + n ≤ i ∨ i + length v ≤ j)%nat →
  take n (drop j (splice l i v)) = take n (drop j l).
Proof.
  intros Hl Hj. apply list_eq. intros k.
  destruct (decide (k < n)%nat) as [Hk|Hk].
  - rw !lookup_take_lt ?lookup_drop; try done.
    apply splice_lookup_old; lia.
  - rw !lookup_take_ge //; lia.
Qed.

(** ** Searching lists *)

Section first_some.
Context {X R : Type}.
Implicit Types (g : X → option R).

Lemma first_some_app g xs ys :
  first_some g (xs ++ ys) =
    match first_some g xs with Some r => Some r | None => first_some g ys end.
Proof.
  induction xs as [|x xs IH]; [done|]. simpl. rw !first_some_cons IH.
  by destruct (g x).
Qed.

Lemma first_some_None g xs : first_some g xs = None ↔ ∀ x, x ∈ xs → g x = None.
Proof.
  induction xs as [|x xs IH]; [set_solver|]. rw first_some_cons.
  destruct (g x) eqn:E; split; intros H.
  - done.
  - rw H in E; [set_solver|done].
  - intros y [->|?]%elem_of_cons; [done|]. by apply IH.
  - apply IH. set_solver.
Qed.

Lemma first_some_Some g xs r :
  first_some g xs = Some r ↔
  ∃ pre x post, xs = pre ++ x :: post ∧ g x = Some r ∧ ∀ y, y ∈ pre → g y = None.
Proof.
  split.
  - induction xs as [|x xs IH]; [done|]. rw first_some_cons.
    destruct (g x) eqn:E; intros H.
    + exists [], x, xs. simplify_eq. set_solver.
    + destruct (IH H) as (pre & y & post & -> & Hy & Hpre).
      exists (x :: pre), y, post. split; [done|]. split; [done|].
      intros z [->|?]%elem_of_cons; auto.
  - intros (pre & x & post & -> & Hx & Hpre).
    rw first_some_app. assert (first_some g pre = None) as -> by by apply first_some_None.
    by rw first_some_cons Hx.
Qed.

Lemma first_some_fmap {Y} (f : Y → X) g ys :
  first_some g (f <$> ys) = first_some (λ y, g (f y)) ys.
Proof. induction ys as [|y ys IH]; [done|]. simpl. by rw !first_some_cons IH. Qed.

Lemma first_some_ext g g' xs :
  (∀ x, x ∈ xs → g x = g' x) → first_some g xs = first_some g' xs.
Proof.
  induction xs as [|x xs IH]; intros H; [done|]. rw !first_some_cons.
  rw (H x); [set_solver|]. destruct (g' x); [done|]. apply IH. set_solver.
Qed.
End first_some.

(** Nested search loops search the concatenation. *)
Lemma first_some_bind {X Y R} (g : Y → option R) (f : X → list Y) xs :
  first_some g (xs ≫= f) = first_some (λ x, first_some g (f x)) xs.
Proof.
  induction xs as [|x xs IH]; [done|].
  by rw bind_cons first_some_cons first_some_app IH.
Qed.

(** The first element of a filtered list. *)
Lemma head_filter {X} (P : X → Prop) `{!∀ x, Decision (P x)} (xs : list X) :
  head (filter P xs) = first_some (λ x, if decide (P x) then Some x else None) xs.
Proof.
  induction xs as [|x xs IH]; [done|]. rw first_some_cons filter_cons.
  by case_decide.
Qed.

Lemma seqZ_head (a n : Z) :
  0 < n → seqZ a n = a :: seqZ (a + 1) (n - 1).
Proof. intros. rw seqZ_cons; [lia|]. f_equal. Qed.

(** ** Filters *)

Lemma filter_ext_in {X} (P Q : X → Prop) `{!∀ x, Decision (P x), !∀ x, Decision (Q x)} (xs : list X) :
  (∀ x, x ∈ xs → P x ↔ Q x) → filter P xs = filter Q xs.
Proof.
  induction xs as [|x xs IH]; intros Hext; [done|]. rw !filter_cons.
  assert (filter P xs = filter Q xs) as -> by (apply IH; set_solver).
  specialize (Hext x). repeat case_decide; set_solver.
Qed.

Lemma filter_all {X} (P : X → Prop) `{!∀ x, Decision (P x)} (xs : list X) :
  (∀ x, x ∈ xs → P x) → filter P xs = xs.
Proof.
  induction xs as [|x xs IH]; intros Hall; [done|].
  rw filter_cons_True; [set_solver|]. f_equal. apply IH. set_solver.
Qed.

(** Striking out the first survivor of a filter. *)
Lemma filter_tail {X} (P Q : X → Prop) `{!∀ x, Decision (P x), !∀ x, Decision (Q x)} (xs : list X) c cs :
  NoDup xs → filter P xs = c :: cs → (∀ x, x ∈ xs → Q x ↔ P x ∧ x ≠ c) → filter Q xs = cs.
Proof.
  induction xs as [|x xs IH]; intros Hnd HP HQ; [done|]. apply NoDup_cons in Hnd as [Hx Hnd].
  rw filter_cons in HP. rw filter_cons. destruct (decide (P x)) as [Px|Px].
  - simplify_eq. destruct (decide (Q c)) as [Qc|Qc].
    { apply HQ in Qc; [|set_solver]. naive_solver. }
    apply filter_ext_in. intros y Hy. rw HQ; [set_solver|]. split; [naive_solver|].
    intros; split; [done|]. by intros ->.
  - destruct (decide (Q x)) as [Qx|Qx]; [apply HQ in Qx; set_solver|].
    apply IH; [done..|]. set_solver.
Qed.

(** A range cut into blocks of [b]. *)
Lemma seqZ_blocks (b : Z) (n : nat) :
  0 ≤ b →
  seqZ 0 (b * Z.of_nat n) = seqZ 0 (Z.of_nat n) ≫= λ k, (λ i, k * b + i) <$> seqZ 0 b.
Proof.
  intros Hb. induction n as [|n IH]; [by rw Z.mul_0_r|].
  rw seqZ_S bind_app.
  replace (b * Z.of_nat (S n)) with (b * Z.of_nat n + b) by lia.
  rw seqZ_app; [lia..|]. rw IH. f_equal. rw !Z.add_0_l /= app_nil_r.
  rw fmap_add_seqZ. f_equal. lia.
Qed.
