(* ===== verification/Device.v ===== *)
(** * The block device

    What the filesystem needs from the drive: the operations of
    [AtaDrive] (src/src/ide.rs) it calls, as a type class, and the laws a
    working drive obeys.  The filesystem (file Fat16) is written against
    [BlockDevice] and its theorems are proved from [BlockDeviceOk].  [MemDisk]
    is a drive held in memory, on which every definition of the development
    evaluates. *)

From S2P Require Import Prelude.

(** The sector size of every transfer ([u8; 512]). *)
Definition SECTOR : Z := 512.

(** ** The interface *)

Class BlockDevice (D : Type) := {
  read_sector : Z → proc D (list Z);
  write_sector_bytes : Z → list Z → proc D unit;
  (** the bare [command.write(0xE7)] that [format_drive] ends with *)
  flush_command : proc D unit;
  flush_cache : proc D unit;
}.

(** A sector: 512 bytes. *)
Definition is_sector (b : list Z) : Prop := length b = 512%nat ∧ Forall is_byte b.

(** The contents of a disk, by logical block address. *)
Definition disk : Type := Z → list Z.

(** Functional update of one sector. *)
Definition upd (s : disk) (lba : Z) (b : list Z) : disk :=
  λ l, if decide (l = lba) then b else s l.

Lemma upd_eq s lba b : upd s lba b lba = b.
Proof. rw /upd. by case_decide. Qed.
Lemma upd_ne s lba l b : l ≠ lba → upd s lba b l = s l.
Proof. intros. rw /upd. by case_decide. Qed.

(** [holds d s]: the drive [d] is at rest, in working order, and stores the disk
    [s] on its sectors [0 .. capacity).  The operations meet their contracts on
    those sectors.  [flushing d s]: it stores [s], but the bare flush command was
    just written to it; the contract says nothing about requests it gets before it
    is at rest again. *)
Class BlockDeviceOk (D : Type) `{!BlockDevice D} := {
  capacity : Z;
  holds : D → disk → Prop;
  flushing : D → disk → Prop;
  capacity_u28 : 0 ≤ capacity ≤ 2 ^ 28;
  holds_sector d s l : holds d s → 0 ≤ l < capacity → is_sector (s l);
  holds_ext d s s' :
    holds d s → (∀ l, 0 ≤ l < capacity → s' l = s l) → holds d s';
  read_sector_ok d s lba :
    holds d s → 0 ≤ lba < capacity →
    runs (read_sector lba) d (λ b d', b = s lba ∧ holds d' s);
  write_sector_ok d s lba b :
    holds d s → 0 ≤ lba < capacity → is_sector b →
    runs (write_sector_bytes lba b) d (λ _ d', holds d' (upd s lba b));
  flush_command_ok d s :
    holds d s → runs flush_command d (λ _ d', flushing d' s);
  flush_cache_ok d s :
    holds d s → runs flush_cache d (λ _ d', holds d' s);
}.
Global Arguments capacity D {_ _}.

(** ** A drive in memory *)

(** A drive of [md_size] sectors; a sector that was never written is zero.  A
    request outside the drive is never answered: the driver's wait for DRQ does
    not end.  It has no cache, so that a flush is over at once. *)
Record MemDisk := { md_size : Z; md_data : gmap Z (list Z) }.

Definition zero_sector : list Z := replicate 512 0.

Definition md_sector (d : MemDisk) (lba : Z) : list Z :=
  default zero_sector (md_data d !! lba).

Definition in_disk (d : MemDisk) (lba : Z) : bool :=
  (0 <=? lba) && (lba <? md_size d).

Definition md_read (lba : Z) : proc MemDisk (list Z) := λ d,
  if in_disk d lba then Done (md_sector d lba, d) else Hang.

Definition md_write (lba : Z) (b : list Z) : proc MemDisk unit := λ d,
  if in_disk d lba
  then Done (tt, {| md_size := md_size d; md_data := <[lba := b]> (md_data d) |})
  else Hang.

#[export] Instance MemDisk_device : BlockDevice MemDisk := {|
  read_sector := md_read;
  write_sector_bytes := md_write;
  flush_command := mret tt;
  flush_cache := mret tt;
|}.

Definition blank_disk (size : Z) : MemDisk := {| md_size := size; md_data := ∅ |}.

(** The drive of the user guide: 32 MiB, 65536 sectors. *)
Definition STORAGE_SECTORS : Z := 65536.

Definition md_holds (cap : Z) (d : MemDisk) (s : disk) : Prop :=
  md_size d = cap ∧
  ∀ l, 0 ≤ l < cap → is_sector (md_sector d l) ∧ s l = md_sector d l.

Lemma in_disk_true d lba : 0 ≤ lba < md_size d → in_disk d lba = true.
Proof.
  intros. rw /in_disk. destruct (Z.leb_spec 0 lba), (Z.ltb_spec lba (md_size d)); done || lia.
Qed.

Lemma zero_sector_ok : is_sector zero_sector.
Proof.
  split; [done|]. apply Forall_replicate. rw /is_byte. lia.
Qed.

Program Definition MemDisk_ok (cap : Z) (Hcap : 0 ≤ cap ≤ 2 ^ 28) : BlockDeviceOk MemDisk := {|
  capacity := cap;
  holds := md_holds cap;
  flushing := md_holds cap;
|}.
Next Obligation. done. Qed.
Next Obligation. intros cap Hcap d s l [_ H] Hl. destruct (H l Hl) as [? ->]. done. Qed.
Next Obligation.
  intros cap Hcap d s s' [? H] Hs. split; [done|]. intros l Hl.
  destruct (H l Hl) as [? E]. split; [done|by rw Hs].
Qed.
Next Obligation.
  intros cap Hcap d s lba [Hsz H] Hl. rw /runs /= /md_read in_disk_true; [lia|].
  split; [symmetry; by apply H|by split].
Qed.
Next Obligation.
  intros cap Hcap d s lba b [Hsz H] Hl Hb. rw /runs /= /md_write in_disk_true; [lia|].
  split; [done|]. intros l Hl'. rw /upd /md_sector /=. case_decide as E.
  - subst. by rw lookup_insert_eq.
  - rw lookup_insert_ne; [done|]. by apply H.
Qed.
Next Obligation. intros. by apply runs_ret. Qed.
Next Obligation. intros. by apply runs_ret. Qed.

Lemma blank_disk_holds cap (Hcap : 0 ≤ cap ≤ 2 ^ 28) :
  md_holds cap (blank_disk cap) (λ _, zero_sector).
Proof.
  split; [done|]. intros l _. rw /md_sector lookup_empty /=. split; [apply zero_sector_ok|done].
Qed.

(** Storage of the size the user guide creates. *)
Lemma storage_bound : 0 ≤ STORAGE_SECTORS ≤ 2 ^ 28.
Proof. done. Qed.
