(* ===== verification/Ide.v ===== *)
(** * The ATA driver: src/src/ide.rs

    The driver talks to the drive through I/O ports.  The ports are an interface;
    [AtaOk] states what the driver relies on: the PIO protocol of a drive that
    answers within [patience] polls and keeps what it was sent in a cache until a
    FLUSH CACHE is carried out.  The protocol says nothing about a command that is
    written while the drive is busy, which [write_sector_bytes] does unless the
    drive is done with the sector at once; [prompt] and [ignores_busy] are the two
    kinds of drives on which that is harmless for the contents.  For these the file
    shows that the driver meets the contract of the filesystem's block device. *)

From S2P Require Import Prelude Device.
#[local] Open Scope Z_scope.

(** ** Ports *)

Class Ports (C : Type) := {
  in8 : Z → proc C Z;
  out8 : Z → Z → proc C unit;
  in16 : Z → proc C Z;
  out16 : Z → Z → proc C unit;
}.

Definition DATA : Z := 0x1F0.
Definition SECTOR_COUNT : Z := 0x1F2.
Definition LBA_LOW : Z := 0x1F3.
Definition LBA_MID : Z := 0x1F4.
Definition LBA_HIGH : Z := 0x1F5.
Definition DEVICE : Z := 0x1F6.
Definition COMMAND : Z := 0x1F7.
Definition STATUS : Z := 0x1F7.

Section driver.
Context {C : Type} `{!Ports C} (patience : nat).

(** [while (self.status.read() & mask) != 0 {}]; the fuel bounds the polls. *)
Fixpoint wait_clear (fuel : nat) (mask : Z) : proc C unit :=
  match fuel with
  | O => λ _, Hang
  | S fuel => st ← in8 STATUS; if Z.land st mask =? 0 then mret tt else wait_clear fuel mask
  end.

(** [while (self.status.read() & mask) == 0 {}] *)
Fixpoint wait_set (fuel : nat) (mask : Z) : proc C unit :=
  match fuel with
  | O => λ _, Hang
  | S fuel => st ← in8 STATUS; if Z.land st mask =? 0 then wait_set fuel mask else mret tt
  end.

(** The five register writes before a command. *)
Definition set_address (lba : Z) : proc C unit :=
  out8 DEVICE (Z.lor 0xF0 (wrap 8 (Z.land (Z.shiftr lba 24) 0x0F))) ;;
  out8 SECTOR_COUNT 1 ;;
  out8 LBA_LOW (wrap 8 lba) ;;
  out8 LBA_MID (wrap 8 (Z.shiftr lba 8)) ;;
  out8 LBA_HIGH (wrap 8 (Z.shiftr lba 16)).

(** [for i in 0..256 { ... }] of [read_sector]. *)
Fixpoint read_words (ixs : list Z) (buffer : list Z) : proc C (list Z) :=
  match ixs with
  | [] => mret buffer
  | i :: ixs =>
    word ← in16 DATA;
    buffer ← lift (set_idx buffer (i * 2) (wrap 8 word));
    buffer ← lift (set_idx buffer (i * 2 + 1) (wrap 8 (Z.shiftr word 8)));
    read_words ixs buffer
  end.

Definition ata_read_sector (lba : Z) : proc C (list Z) :=
  set_address lba ;;
  out8 COMMAND 0x20 ;;
  wait_clear patience 0x80 ;;
  wait_set patience 0x08 ;;
  read_words (seqZ 0 256) (replicate 512 0).

(** [for i in (0..512).step_by(2) { ... }] of [write_sector_bytes]. *)
Definition write_words (bytes : list Z) : proc C unit :=
  for_each (λ i,
    hi ← lift (idx bytes (i + 1));
    lo ← lift (idx bytes i);
    out16 DATA (Z.lor (wrap 16 (Z.shiftl hi 8)) lo)) ((λ j, 2 * j) <$> seqZ 0 256).

Definition ata_write_sector_bytes (lba : Z) (bytes : list Z) : proc C unit :=
  set_address lba ;;
  out8 COMMAND 0x30 ;;
  wait_clear patience 0x80 ;;
  wait_set patience 0x08 ;;
  write_words bytes ;;
  out8 COMMAND 0xE7 ;;
  wait_clear patience 0x80.

Definition ata_flush_cache : proc C unit :=
  out8 COMMAND 0xE7 ;;
  wait_clear patience 0x80.

(** The polls of [get_max_lba]: [false] when it gives up after a million. *)
Fixpoint wait_timeout (fuel : nat) (timeout : Z) : proc C bool :=
  match fuel with
  | O => λ _, Hang
  | S fuel =>
    st ← in8 STATUS;
    if Z.land st 0x80 =? 0 then mret true
    else if 1000000 <? timeout + 1 then mret false else wait_timeout fuel (timeout + 1)
  end.

Fixpoint read_info (n : nat) : proc C (list Z) :=
  match n with
  | O => mret []
  | S n => w ← in16 DATA; ws ← read_info n; mret (w :: ws)
  end.

Definition get_max_lba : proc C Z :=
  out8 DEVICE 0xA0 ;;
  out8 COMMAND 0xEC ;;
  status ← in8 STATUS;
  if status =? 0 then mret 0
  else
    ok ← wait_timeout (Z.to_nat 1000001) 0;
    if negb ok then mret 0
    else
      st ← in8 STATUS;
      if negb (Z.land st 0x01 =? 0) then mret 0
      else
        wait_set patience 0x08 ;;
        info ← read_info 256;
        low ← lift (idx info 60);
        high ← lift (idx info 61);
        mret (Z.lor (wrap 32 (Z.shiftl high 16)) low).

(** The driver as the filesystem's block device. *)
Definition Ata_device : BlockDevice C := {|
  read_sector := ata_read_sector;
  write_sector_bytes := ata_write_sector_bytes;
  flush_command := out8 COMMAND 0xE7;
  flush_cache := ata_flush_cache;
|}.
End driver.

(** ** The drive *)

(** What the drive is doing between two accesses. *)
Inductive phase :=
  | Idle
  | Sending (words : list Z)                 (** words of a read still to fetch *)
  | Receiving (lba : Z) (words : list Z).    (** words of a write received *)

Record Registers := { r_count : Z; r_low : Z; r_mid : Z; r_high : Z; r_device : Z }.

(** [dr_disk]: the contents as reads see them; [dr_busy]: the status reads that
    still show BSY; [dr_synced]: once BSY is clear nothing is left in the cache
    only. *)
Record Drive := { dr_disk : disk; dr_regs : Registers; dr_busy : nat; dr_phase : phase; dr_synced : bool }.

(** The sector the registers name. *)
Definition address (r : Registers) : Z :=
  Z.land (r_device r) 0x0F * 2 ^ 24 + r_high r * 2 ^ 16 + r_mid r * 2 ^ 8 + r_low r.

(** Sixteen-bit words, low byte first. *)
Fixpoint to_words (b : list Z) : list Z :=
  match b with lo :: hi :: b => lo + 256 * hi :: to_words b | _ => [] end.
Definition of_words (ws : list Z) : list Z := ws ≫= λ w, [w mod 256; w / 256].

Definition set_reg (r : Registers) (port v : Z) : Registers := {|
  r_count := if decide (port = SECTOR_COUNT) then v else r_count r;
  r_low := if decide (port = LBA_LOW) then v else r_low r;
  r_mid := if decide (port = LBA_MID) then v else r_mid r;
  r_high := if decide (port = LBA_HIGH) then v else r_high r;
  r_device := if decide (port = DEVICE) then v else r_device r;
|}.

(** The second drive of the channel, in LBA mode, one sector. *)
Definition selected (r : Registers) : Prop := Z.land (r_device r) 0xF0 = 0xF0 ∧ r_count r = 1.

Definition rest (s : disk) (r : Registers) (b : bool) : Drive :=
  {| dr_disk := s; dr_regs := r; dr_busy := 0; dr_phase := Idle; dr_synced := b |}.

Definition phase_after (ws : list Z) : phase := match ws with [] => Idle | _ => Sending ws end.

(** The behaviour the driver relies on: [view c v] says that the controller [c]
    is in the state [v]. *)
Class AtaOk (C : Type) `{!Ports C} (cap : Z) (patience : nat) := {
  view : C → Drive → Prop;
  ata_cap : 0 ≤ cap ≤ 2 ^ 28;
  ata_patience : (0 < patience)%nat;
  (** BSY is shown while busy; otherwise DRQ is shown exactly during a transfer *)
  ata_status c s r n p b :
    view c {| dr_disk := s; dr_regs := r; dr_busy := n; dr_phase := p; dr_synced := b |} →
    runs (in8 STATUS) c (λ st c',
      view c' {| dr_disk := s; dr_regs := r; dr_busy := pred n; dr_phase := p; dr_synced := b |} ∧
      (Z.land st 0x80 = 0 ↔ n = O) ∧ (n = O → (Z.land st 0x08 = 0 ↔ p = Idle)));
  (** a register of a drive at rest takes the byte written to it *)
  ata_register c s r b port v :
    view c (rest s r b) → port ∈ [SECTOR_COUNT; LBA_LOW; LBA_MID; LBA_HIGH; DEVICE] → is_byte v →
    runs (out8 port v) c (λ _ c', view c' (rest s (set_reg r port v) b));
  (** READ SECTORS *)
  ata_read c s r b :
    view c (rest s r b) → selected r → 0 ≤ address r < cap →
    runs (out8 COMMAND 0x20) c (λ _ c', ∃ n, (n < patience)%nat ∧
      view c' {| dr_disk := s; dr_regs := r; dr_busy := n; dr_phase := Sending (to_words (s (address r))); dr_synced := b |});
  (** WRITE SECTORS *)
  ata_write c s r b :
    view c (rest s r b) → selected r → 0 ≤ address r < cap →
    runs (out8 COMMAND 0x30) c (λ _ c', ∃ n, (n < patience)%nat ∧
      view c' {| dr_disk := s; dr_regs := r; dr_busy := n; dr_phase := Receiving (address r) []; dr_synced := b |});
  (** a word of a read *)
  ata_data_in c s r w ws b :
    view c {| dr_disk := s; dr_regs := r; dr_busy := 0; dr_phase := Sending (w :: ws); dr_synced := b |} →
    runs (in16 DATA) c (λ w' c', w' = w ∧
      view c' {| dr_disk := s; dr_regs := r; dr_busy := 0; dr_phase := phase_after ws; dr_synced := b |});
  (** a word of a write; the last one makes the drive take the sector into its
      cache, with BSY set for as long as it likes *)
  ata_data_out c s r lba ws w b :
    view c {| dr_disk := s; dr_regs := r; dr_busy := 0; dr_phase := Receiving lba ws; dr_synced := b |} → 0 ≤ w < 65536 →
    runs (out16 DATA w) c (λ _ c',
      if decide (length ws = 255%nat) then ∃ n, (n < patience)%nat ∧
        view c' {| dr_disk := upd s lba (of_words (ws ++ [w])); dr_regs := r; dr_busy := n; dr_phase := Idle; dr_synced := false |}
      else view c' {| dr_disk := s; dr_regs := r; dr_busy := 0; dr_phase := Receiving lba (ws ++ [w]); dr_synced := b |});
  (** FLUSH CACHE, written at rest: BSY until the cache is on the medium *)
  ata_flush c s r b :
    view c (rest s r b) →
    runs (out8 COMMAND 0xE7) c (λ _ c', ∃ n, (n < patience)%nat ∧
      view c' {| dr_disk := s; dr_regs := r; dr_busy := n; dr_phase := Idle; dr_synced := true |});
}.

Section kinds.
Context {C : Type} `{!Ports C} (cap : Z) (patience : nat) `{!AtaOk C cap patience}.

(** A drive that is done with a sector when it has its last word. *)
Definition prompt : Prop := ∀ c s r lba ws w b,
  view c {| dr_disk := s; dr_regs := r; dr_busy := 0; dr_phase := Receiving lba ws; dr_synced := b |} →
  0 ≤ w < 65536 → length ws = 255%nat →
  runs (out16 DATA w) c (λ _ c', view c' (rest (upd s lba (of_words (ws ++ [w]))) r false)).

(** A drive that ignores commands while it is busy.  The standard leaves them
    undefined; the emulator the kernel is run on ignores them. *)
Definition ignores_busy : Prop := ∀ c s r n b cmd,
  view c {| dr_disk := s; dr_regs := r; dr_busy := S n; dr_phase := Idle; dr_synced := b |} →
  runs (out8 COMMAND cmd) c (λ _ c',
    view c' {| dr_disk := s; dr_regs := r; dr_busy := S n; dr_phase := Idle; dr_synced := b |}).
End kinds.

(** ** Words *)

Lemma to_words_length n b : length b = (2 * n)%nat → length (to_words b) = n.
Proof.
  revert b. induction n as [|n IH]; intros [|lo [|hi b]] Hl; simpl in Hl; try lia; [done|].
  simpl. f_equal. apply IH. lia.
Qed.

Lemma to_words_app n b1 b2 : length b1 = (2 * n)%nat → to_words (b1 ++ b2) = to_words b1 ++ to_words b2.
Proof.
  revert b1. induction n as [|n IH]; intros [|lo [|hi b]] Hl; simpl in Hl; try lia; [done|].
  simpl. f_equal. apply IH. lia.
Qed.

Lemma word_bytes lo hi : is_byte lo → is_byte hi → (lo + 256 * hi) mod 256 = lo ∧ (lo + 256 * hi) / 256 = hi.
Proof. rw /is_byte. intros. split; dlia. Qed.

Lemma of_to_words n b : length b = (2 * n)%nat → Forall is_byte b → of_words (to_words b) = b.
Proof.
  revert b. induction n as [|n IH]; intros [|lo [|hi b]] Hl Hb; simpl in Hl; try lia; [done|].
  apply Forall_cons in Hb as [Hlo [Hhi Hb]%Forall_cons]. destruct (word_bytes lo hi Hlo Hhi) as [E1 E2].
  rw /of_words /= E1 E2 /=. do 2 f_equal. apply IH; [lia|done].
Qed.

Lemma lor_word lo hi : is_byte lo → is_byte hi → Z.lor (wrap 16 (Z.shiftl hi 8)) lo = lo + 256 * hi.
Proof.
  rw /is_byte. intros Hlo Hhi. rw Z.shiftl_mul_pow2; [lia|]. rw /wrap Z.mod_small; [lia|].
  assert (Z.land (hi * 2 ^ 8) lo = 0) as Hz.
  { apply Z.bits_inj'. intros i Hi. rw Z.land_spec Z.bits_0. destruct (Z.lt_ge_cases i 8).
    - by rw Z.mul_pow2_bits_low.
    - rw -(Z.mod_small lo (2 ^ 8)); [lia|]. rw Z.mod_pow2_bits_high; [lia|]. by rw andb_false_r. }
  pose proof (Z.add_lor_land (hi * 2 ^ 8) lo). lia.
Qed.

(** ** Addresses *)

Lemma device_byte x : 0 ≤ x < 16 →
  is_byte (Z.lor 0xF0 x) ∧ Z.land (Z.lor 0xF0 x) 0xF0 = 0xF0 ∧ Z.land (Z.lor 0xF0 x) 0x0F = x.
Proof.
  intros Hx. assert (x ∈ seqZ 0 16) as Hin by (apply elem_of_seqZ; lia). clear Hx. revert x Hin.
  apply Forall_forall. refine (bool_decide_unpack _ _). vm_compute. exact I.
Qed.

Lemma lba_nibble lba : 0 ≤ lba < 2 ^ 28 →
  wrap 8 (Z.land (Z.shiftr lba 24) 0x0F) = lba / 2 ^ 24 ∧ 0 ≤ lba / 2 ^ 24 < 16.
Proof.
  intros Hl. assert (0 ≤ lba / 2 ^ 24 < 16) as Hr by dlia. split; [|done].
  rw Z.shiftr_div_pow2; [lia|]. rw (Z.land_ones _ 4); [lia|]. rw (Z.mod_small _ (2 ^ 4)); [lia|].
  rw /wrap Z.mod_small; lia.
Qed.

Lemma wrap_byte z : is_byte (wrap 8 z).
Proof. rw /is_byte /wrap. apply Z.mod_pos_bound. lia. Qed.

(** ** The driver meets the contract *)

Section contract.
Context {C : Type} `{!Ports C} (cap : Z) (patience : nat) `{!AtaOk C cap patience}.
Implicit Types (c : C) (s : disk) (r : Registers) (y : bool).

Lemma wait_clear_run fuel c s r n p y :
  view c {| dr_disk := s; dr_regs := r; dr_busy := n; dr_phase := p; dr_synced := y |} → (n < fuel)%nat →
  runs (wait_clear fuel 0x80) c (λ _ c', view c' {| dr_disk := s; dr_regs := r; dr_busy := 0; dr_phase := p; dr_synced := y |}).
Proof.
  revert c n. induction fuel as [|fuel IH]; intros c n Hv Hn; [lia|]. cbn [wait_clear]. rbind.
  eapply runs_mono; [by apply ata_status|]. intros st c' (Hv' & Hb & _).
  destruct (Z.eqb_spec (Z.land st 0x80) 0) as [E|E].
  - apply runs_ret. apply Hb in E as ->. done.
  - apply (IH c' (pred n) Hv'). destruct n; [|simpl; lia]. by destruct E; apply Hb.
Qed.

Lemma wait_set_run fuel c s r p y :
  view c {| dr_disk := s; dr_regs := r; dr_busy := 0; dr_phase := p; dr_synced := y |} → p ≠ Idle → (0 < fuel)%nat →
  runs (wait_set fuel 0x08) c (λ _ c', view c' {| dr_disk := s; dr_regs := r; dr_busy := 0; dr_phase := p; dr_synced := y |}).
Proof.
  intros Hv Hp Hf. destruct fuel as [|fuel]; [lia|]. cbn [wait_set]. rbind.
  eapply runs_mono; [by apply ata_status|]. intros st c' (Hv' & _ & Hd).
  destruct (Z.eqb_spec (Z.land st 0x08) 0) as [E|E]; [|by apply runs_ret]. by apply Hd in E.
Qed.

(** The registers after [set_address]. *)
Lemma set_address_run c s r lba y :
  view c (rest s r y) → 0 ≤ lba < cap →
  runs (set_address lba) c (λ _ c', ∃ r', view c' (rest s r' y) ∧ selected r' ∧ address r' = lba).
Proof.
  intros Hv Hl. assert (0 ≤ cap ≤ 2 ^ 28) as Hcap by apply (ata_cap (C := C) (patience := patience)).
  destruct (lba_nibble lba) as [Hn Hn']; [lia|]. destruct (device_byte _ Hn') as (Hd1 & Hd2 & Hd3).
  rw /set_address Hn.
  rbind. eapply runs_mono; [apply ata_register; [done|set_solver|done]|]. intros [] c1 H1.
  rbind. eapply runs_mono; [apply ata_register; [done|set_solver|done]|]. intros [] c2 H2.
  rbind. eapply runs_mono; [apply ata_register; [done|set_solver|apply wrap_byte]|]. intros [] c3 H3.
  rbind. eapply runs_mono; [apply ata_register; [done|set_solver|apply wrap_byte]|]. intros [] c4 H4.
  eapply runs_mono; [apply ata_register; [done|set_solver|apply wrap_byte]|]. intros [] c5 H5.
  eexists. split; [exact H5|]. split; [split; [exact Hd2|done]|].
  transitivity (Z.land (Z.lor 0xF0 (lba / 2 ^ 24)) 0x0F * 2 ^ 24 + wrap 8 (Z.shiftr lba 16) * 2 ^ 16 +
                wrap 8 (Z.shiftr lba 8) * 2 ^ 8 + wrap 8 lba); [reflexivity|].
  rw Hd3 /wrap !Z.shiftr_div_pow2; [lia..|].
  change (2 ^ 24) with 16777216. change (2 ^ 16) with 65536. change (2 ^ 8) with 256. dlia.
Qed.

(** The start of a transfer: address, command, the two waits, then [e]. *)
Lemma start_run {A} c s r lba cmd p y (e : proc C A) Q :
  view c (rest s r y) → 0 ≤ lba < cap → p lba ≠ Idle →
  (∀ c r', view c (rest s r' y) → selected r' → 0 ≤ address r' < cap →
     runs (out8 COMMAND cmd) c (λ _ c', ∃ n, (n < patience)%nat ∧
       view c' {| dr_disk := s; dr_regs := r'; dr_busy := n; dr_phase := p (address r'); dr_synced := y |})) →
  (∀ c' r', view c' {| dr_disk := s; dr_regs := r'; dr_busy := 0; dr_phase := p lba; dr_synced := y |} → runs e c' Q) →
  runs (set_address lba ;; out8 COMMAND cmd ;; wait_clear patience 0x80 ;; wait_set patience 0x08 ;; e) c Q.
Proof.
  intros Hv Hl Hp Hcmd He. rbind. eapply runs_mono; [by apply (set_address_run c s r lba y)|].
  intros [] c1 (r' & H1 & Hs & <-). rbind. eapply runs_mono; [by apply Hcmd|]. intros [] c2 (n & Hn & H2).
  rbind. eapply runs_mono; [by eapply (wait_clear_run patience c2 s r' n)|]. intros [] c3 H3.
  rbind. eapply runs_mono; [eapply (wait_set_run patience c3 s r'); [done..|lia]|]. intros [] c4 H4. by eapply He.
Qed.

Lemma insert_mid (l1 l2 : list Z) x x' i : i = length l1 → <[i := x']> (l1 ++ x :: l2) = l1 ++ x' :: l2.
Proof. intros ->. induction l1 as [|z l1 IH]; [done|]. simpl. by rw IH. Qed.

(** The words of a read, two bytes at a time. *)
Lemma read_words_run n c s r b1 b2 y :
  length b2 = (2 * n)%nat → Forall is_byte b2 → (∃ i, length b1 = (2 * i)%nat) →
  view c {| dr_disk := s; dr_regs := r; dr_busy := 0; dr_phase := phase_after (to_words b2); dr_synced := y |} →
  runs (read_words (seqZ (zlen b1 / 2) (Z.of_nat n)) (b1 ++ replicate (2 * n) 0)) c (λ b c',
    b = b1 ++ b2 ∧ view c' (rest s r y)).
Proof.
  revert c b1 b2. induction n as [|n IH]; intros c b1 b2 Hl Hb [i Hi] Hv.
  { destruct b2; [|done]. by apply runs_ret. }
  destruct b2 as [|lo [|hi b2]]; simpl in Hl; try lia.
  apply Forall_cons in Hb as [Hlo [Hhi Hb]%Forall_cons]. destruct (word_bytes lo hi Hlo Hhi) as [E1 E2].
  rw seqZ_cons; [lia|]. cbn [read_words]. rbind. eapply runs_mono; [apply (ata_data_in c s r (lo + 256 * hi) (to_words b2) y Hv)|].
  intros w c' [-> Hv']. replace (2 * S n)%nat with (S (S (2 * n))) by lia. cbn [replicate].
  assert (zlen b1 / 2 * 2 = zlen b1) as Eb by (rw Hi; dlia). rw Eb.
  rlift; [apply set_idx_Done; rw length_app /=; lia|]. rw insert_mid; [lia|].
  rlift; [apply set_idx_Done; rw length_app /=; lia|]. rw (cons_middle _ b1) app_assoc insert_mid; [len|].
  rw Z.shiftr_div_pow2; [lia|]. change (2 ^ 8) with 256. rw /wrap. change (2 ^ 8) with 256. rw E1 E2.
  rw (Z.mod_small hi 256) // -(app_assoc b1 [lo]).
  replace (Z.succ (zlen b1 / 2)) with (zlen (b1 ++ [lo; hi]) / 2) by (rw length_app Hi /=; dlia).
  replace (Z.pred (Z.of_nat (S n))) with (Z.of_nat n) by lia.
  eapply runs_mono; [change ([lo] ++ hi :: replicate (2 * n) 0) with ([lo; hi] ++ replicate (2 * n) 0);
    rewrite (app_assoc b1 [lo; hi] (replicate _ _)); apply (IH c' (b1 ++ [lo; hi]) b2);
    [lia|done|exists (S i); rw length_app /=; lia|done]|].
  intros b c2 [-> Hc2]. by rw -app_assoc.
Qed.

Lemma runs_and_impl {A} (m : proc C A) c (Q1 Q2 : A → C → Prop) (K : Prop) :
  runs m c Q1 → (K → runs m c Q2) → runs m c (λ a c', Q1 a c' ∧ (K → Q2 a c')).
Proof. rw /runs. destruct (m c) as [[a c']| |]; [|done..]. auto. Qed.

(** One word of a write, on a drive of either kind. *)
Lemma word_out_run c s r lba ws w y :
  view c {| dr_disk := s; dr_regs := r; dr_busy := 0; dr_phase := Receiving lba ws; dr_synced := y |} → 0 ≤ w < 65536 →
  runs (out16 DATA w) c (λ _ c',
    if decide (length ws = 255%nat) then
      (∃ n, (n < patience)%nat ∧
        view c' {| dr_disk := upd s lba (of_words (ws ++ [w])); dr_regs := r; dr_busy := n; dr_phase := Idle; dr_synced := false |}) ∧
      (prompt cap patience → view c' (rest (upd s lba (of_words (ws ++ [w]))) r false))
    else view c' {| dr_disk := s; dr_regs := r; dr_busy := 0; dr_phase := Receiving lba (ws ++ [w]); dr_synced := y |}).
Proof.
  intros Hv Hw. pose proof (ata_data_out c s r lba ws w y Hv Hw) as Ho. case_decide as E; [|done].
  rw /runs in Ho |- *. destruct (out16 DATA w c) as [[[] c']| |] eqn:Hout; [|done..]. split; [done|].
  intros Hp. specialize (Hp c s r lba ws w y Hv Hw E). by rw /runs Hout in Hp.
Qed.

(** The words of a write, from byte [length b1] on. *)
Lemma write_words_run n c s r lba b1 b2 y :
  length b1 = (2 * (255 - n))%nat → length b2 = (2 * S n)%nat → (n ≤ 255)%nat →
  Forall is_byte (b1 ++ b2) →
  view c {| dr_disk := s; dr_regs := r; dr_busy := 0; dr_phase := Receiving lba (to_words b1); dr_synced := y |} →
  runs (for_each (λ i, hi ← lift (idx (b1 ++ b2) (i + 1)); lo ← lift (idx (b1 ++ b2) i);
          out16 DATA (Z.lor (wrap 16 (Z.shiftl hi 8)) lo))
        ((λ j, 2 * j) <$> seqZ (255 - Z.of_nat n) (Z.of_nat (S n)))) c (λ _ c',
    (∃ k, (k < patience)%nat ∧
      view c' {| dr_disk := upd s lba (b1 ++ b2); dr_regs := r; dr_busy := k; dr_phase := Idle; dr_synced := false |}) ∧
    (prompt cap patience → view c' (rest (upd s lba (b1 ++ b2)) r false))).
Proof.
  revert c b1 b2. induction n as [|n IH]; intros c b1 b2 H1 H2 Hn Hb Hv;
    (destruct b2 as [|lo [|hi b2]]; simpl in H2; try lia); (rw seqZ_cons; [lia|]); rw fmap_cons;
    cbn [for_each]; rbind.
  all: pose proof Hb as (_ & [Hlo [Hhi _]%Forall_cons]%Forall_cons)%Forall_app.
  all: (rlift; [apply (idx_Done _ _ hi); [lia|];
    rw lookup_app_r; [lia|]; by replace (_ - length b1)%nat with 1%nat by lia|]).
  all: (rlift; [apply (idx_Done _ _ lo); [lia|];
    rw lookup_app_r; [lia|]; by replace (_ - length b1)%nat with 0%nat by lia|]).
  all: rw lor_word //; eapply runs_mono; [apply (word_out_run c s r lba (to_words b1) _ y Hv)|].
  all: try (rw /is_byte in Hlo Hhi; lia).
  all: intros [] c' Hv'; pose proof (to_words_length _ _ H1) as Hlen.
  - rw decide_True in Hv'; [lia|]. destruct b2; [|simpl in H2; lia].
    assert (to_words b1 ++ [lo + 256 * hi] = to_words (b1 ++ [lo; hi])) as E by by rw (to_words_app 255).
    rw E (of_to_words 256) in Hv'; [len..|done|]. by apply runs_ret.
  - rw decide_False in Hv'; [lia|].
    assert (to_words b1 ++ [lo + 256 * hi] = to_words (b1 ++ [lo; hi])) as E by by rw (to_words_app (255 - S n)).
    rw E in Hv'. replace (Z.succ (255 - Z.of_nat (S n))) with (255 - Z.of_nat n) by lia.
    replace (Z.pred (Z.of_nat (S (S n)))) with (Z.of_nat (S n)) by lia.
    change (lo :: hi :: b2) with ([lo; hi] ++ b2) in Hb |- *. rewrite (app_assoc b1 [lo; hi] b2) in Hb |- *.
    apply IH; [len..|lia|done|done].
Qed.

(** The drive is at rest and stores [s]; all of it is on the medium. *)
Definition ata_holds c (s : disk) : Prop :=
  ∃ s0 r y, view c (rest s0 r y) ∧ ∀ l, 0 ≤ l < cap → s l = s0 l ∧ is_sector (s0 l).
Definition ata_synced c : Prop := ∃ s r, view c (rest s r true).
(** It stores [s] and carries out a FLUSH CACHE. *)
Definition ata_flushing c (s : disk) : Prop :=
  ∃ s0 r n, (n < patience)%nat ∧
    view c {| dr_disk := s0; dr_regs := r; dr_busy := n; dr_phase := Idle; dr_synced := true |} ∧
    ∀ l, 0 ≤ l < cap → s l = s0 l ∧ is_sector (s0 l).

Lemma ata_read_run c s lba :
  ata_holds c s → 0 ≤ lba < cap →
  runs (ata_read_sector patience lba) c (λ b c', b = s lba ∧ ata_holds c' s).
Proof.
  intros (s0 & r & y & Hv & Hs) Hl. destruct (Hs lba Hl) as [-> [Hlen Hb]].
  apply (start_run c s0 r lba 0x20 (λ l, Sending (to_words (s0 l))) y); [done..| |].
  { intros c1 r' Hv1 Hsel Ha. by apply ata_read. }
  intros c1 r' Hv1. eapply runs_mono; [apply (read_words_run 256 c1 s0 r' [] (s0 lba) y); try done|].
  - by exists 0%nat.
  - pose proof (to_words_length 256 _ Hlen). by destruct (to_words (s0 lba)).
  - intros b c2 [-> Hc2]. split; [done|]. by exists s0, r', y.
Qed.

Lemma flush_command_run c s : ata_holds c s → runs (out8 COMMAND 0xE7) c (λ _ c', ata_flushing c' s).
Proof.
  intros (s0 & r & y & Hv & Hs). eapply runs_mono; [by eapply ata_flush|]. intros [] c1 (n & Hn & Hv1).
  by exists s0, r, n.
Qed.

(** The wait after the command. *)
Lemma flush_wait_run c s : ata_flushing c s → runs (wait_clear patience 0x80) c (λ _ c', ata_holds c' s ∧ ata_synced c').
Proof.
  intros (s0 & r & n & Hn & Hv & Hs). eapply runs_mono; [by eapply (wait_clear_run patience c)|].
  intros [] c1 Hv1. split; [by exists s0, r, true|by exists s0, r].
Qed.

Lemma ata_flush_run c s :
  ata_holds c s → runs (ata_flush_cache patience) c (λ _ c', ata_holds c' s ∧ ata_synced c').
Proof.
  intros Hc. rw /ata_flush_cache. rbind. eapply runs_mono; [by apply flush_command_run|].
  intros [] c1. apply flush_wait_run.
Qed.

(** The command and the wait after the last word: carried out on a drive that is
    done with the sector, possibly ignored on one that is not. *)
Lemma after_words_run c s0 s r :
  prompt cap patience ∨ ignores_busy cap patience →
  (∃ k, (k < patience)%nat ∧ view c {| dr_disk := s0; dr_regs := r; dr_busy := k; dr_phase := Idle; dr_synced := false |}) →
  (prompt cap patience → view c (rest s0 r false)) → (∀ l, 0 ≤ l < cap → s l = s0 l ∧ is_sector (s0 l)) →
  runs (ata_flush_cache patience) c (λ _ c', ata_holds c' s ∧ (prompt cap patience → ata_synced c')).
Proof.
  intros Hkind (k & Hk & Hv) Hp Hs.
  assert (∀ y, view c (rest s0 r y) → runs (ata_flush_cache patience) c (λ _ c', ata_holds c' s ∧ ata_synced c')) as Hrest.
  { intros y Hv0. apply (ata_flush_run c s). by exists s0, r, y. }
  apply runs_and_impl; [|intros Hpr; eapply runs_mono; [by eapply Hrest, Hp|]; by intros [] c' []].
  destruct Hkind as [Hpr|Hig]; [|destruct k as [|k]]; try (eapply runs_mono; [by eapply Hrest; eauto|]; by intros [] c' []).
  rw /ata_flush_cache. rbind. eapply runs_mono; [by apply Hig|]. intros [] c1 Hv1.
  eapply runs_mono; [by eapply (wait_clear_run patience c1)|]. intros [] c2 Hv2. by exists s0, r, false.
Qed.

Lemma ata_write_run c s lba b :
  prompt cap patience ∨ ignores_busy cap patience →
  ata_holds c s → 0 ≤ lba < cap → is_sector b →
  runs (ata_write_sector_bytes patience lba b) c (λ _ c',
    ata_holds c' (upd s lba b) ∧ (prompt cap patience → ata_synced c')).
Proof.
  intros Hkind (s0 & r & y & Hv & Hs) Hl [Hlen Hb].
  apply (start_run c s0 r lba 0x30 (λ l, Receiving l []) y); [done..| |].
  { intros c1 r' Hv1 Hsel Ha. by apply ata_write. }
  intros c1 r' Hv1. rbind. rw /write_words.
  eapply runs_mono; [apply (write_words_run 255 c1 s0 r' lba [] b y); [done..|lia|done|done]|].
  intros [] c2 [Hk Hp]. change (out8 COMMAND 0xE7 ;; wait_clear patience 0x80) with (ata_flush_cache patience).
  eapply after_words_run; [done..|].
  intros l Hl'. rw /upd. case_decide; [by subst|]. by apply Hs.
Qed.

(** C13. The driver implements the block device.  On a drive that follows the PIO
    protocol, [read_sector] returns the sector stored at the address, and
    [flush_cache] leaves nothing in the cache only.  On a drive that moreover is
    done with a sector at its last word, or ignores commands while busy,
    [write_sector_bytes] stores the 512 bytes at the address and nowhere else, on
    the medium when the drive is of the first kind.  All three return, and leave
    the drive at rest. *)
Theorem ata_driver_correct c s lba b :
  ata_holds c s → 0 ≤ lba < cap → is_sector b →
  runs (ata_read_sector patience lba) c (λ b' c', b' = s lba ∧ ata_holds c' s) ∧
  (prompt cap patience ∨ ignores_busy cap patience →
   runs (ata_write_sector_bytes patience lba b) c (λ _ c',
     ata_holds c' (upd s lba b) ∧ (prompt cap patience → ata_synced c'))) ∧
  runs (ata_flush_cache patience) c (λ _ c', ata_holds c' s ∧ ata_synced c').
Proof.
  intros Hc Hl Hb. split; [by apply ata_read_run|]. split; [|by apply ata_flush_run]. intros. by apply ata_write_run.
Qed.

(** The filesystem's contract, from the drive's. *)
Hypothesis Hkind : prompt cap patience ∨ ignores_busy cap patience.

Program Definition Ata_device_ok : @BlockDeviceOk C (Ata_device patience) := {|
  capacity := cap;
  holds := ata_holds;
  flushing := ata_flushing;
|}.
Next Obligation. apply (ata_cap (C := C) (patience := patience)). Qed.
Next Obligation. intros c s l (s0 & r & y & _ & Hs) Hl. by destruct (Hs l Hl) as [-> ?]. Qed.
Next Obligation.
  intros c s s' (s0 & r & y & Hv & Hs) Hext. exists s0, r, y. split; [done|]. intros l Hl.
  rw Hext //. by apply Hs.
Qed.
Next Obligation. intros. by apply ata_read_run. Qed.
Next Obligation. intros. eapply runs_mono; [by apply ata_write_run|]. by intros [] c' []. Qed.
Next Obligation. intros. by apply flush_command_run. Qed.
Next Obligation. intros. eapply runs_mono; [by apply ata_flush_run|]. by intros [] c' []. Qed.
End contract.

(** ** A drive in the model *)

(** A controller that is its own state: a command keeps it busy for two polls, a
    sector it has received for [lazy] polls.  While it is busy it ignores what is
    written to its registers, as the emulator does. *)
Definition with_phase (v : Drive) (busy : nat) (p : phase) : Drive :=
  {| dr_disk := dr_disk v; dr_regs := dr_regs v; dr_busy := busy; dr_phase := p; dr_synced := dr_synced v |}.

Definition sim_status (v : Drive) : Z :=
  match dr_busy v with O => match dr_phase v with Idle => 0x40 | _ => 0x48 end | _ => 0x80 end.

Definition sim_in8 (port : Z) : proc Drive Z := λ v,
  if decide (port = STATUS) then Done (sim_status v, with_phase v (pred (dr_busy v)) (dr_phase v)) else Done (0xFF, v).

Definition sim_command (cap cmd : Z) (v : Drive) : Drive :=
  let lba := address (dr_regs v) in
  if cmd =? 0xE7 then {| dr_disk := dr_disk v; dr_regs := dr_regs v; dr_busy := 2; dr_phase := Idle; dr_synced := true |}
  else if negb ((0 <=? lba) && (lba <? cap)) then v
  else if cmd =? 0x20 then with_phase v 2 (Sending (to_words (dr_disk v lba)))
  else if cmd =? 0x30 then with_phase v 2 (Receiving lba [])
  else v.

Definition sim_out8 (cap port x : Z) : proc Drive unit := λ v,
  Done (tt, match dr_busy v, dr_phase v with
            | O, Idle =>
              if decide (port = COMMAND) then sim_command cap x v
              else {| dr_disk := dr_disk v; dr_regs := set_reg (dr_regs v) port x; dr_busy := 0; dr_phase := Idle;
                      dr_synced := dr_synced v |}
            | _, _ => v
            end).

Definition sim_in16 (port : Z) : proc Drive Z := λ v,
  match dr_phase v with
  | Sending (w :: ws) => Done (w, with_phase v (dr_busy v) (phase_after ws))
  | _ => Done (0, v)
  end.

Definition sim_out16 (lazy : nat) (port w : Z) : proc Drive unit := λ v,
  Done (tt, match dr_phase v with
  | Receiving lba ws =>
    if decide (length ws = 255%nat)
    then {| dr_disk := upd (dr_disk v) lba (of_words (ws ++ [w])); dr_regs := dr_regs v; dr_busy := lazy;
            dr_phase := Idle; dr_synced := false |}
    else with_phase v (dr_busy v) (Receiving lba (ws ++ [w]))
  | _ => v
  end).

Definition sim_ports (cap : Z) (lazy : nat) : Ports Drive :=
  {| in8 := sim_in8; out8 := sim_out8 cap; in16 := sim_in16; out16 := sim_out16 lazy |}.

Section sim.
Context (cap : Z) (Hcap : 0 ≤ cap ≤ 2 ^ 28) (lazy : nat) (Hlazy : (lazy < 3)%nat).

Program Definition sim_ok : @AtaOk Drive (sim_ports cap lazy) cap 3 := {| view := λ c v, c = v |}.
Next Obligation. done. Qed.
Next Obligation. lia. Qed.
Next Obligation.
  intros c s r n p b ->. rw /runs /=. split; [done|]. rw /sim_status /=.
  destruct n; [destruct p|]; simpl; split; done || (split; intros; done || lia).
Qed.
Next Obligation.
  intros c s r b port v -> Hp _. rw /runs /= /sim_out8 /=. rw decide_False; [|done].
  intros ->. by repeat (apply elem_of_cons in Hp as [Hp|Hp]; [discriminate Hp|]); apply not_elem_of_nil in Hp.
Qed.
Next Obligation.
  intros c s r b -> _ Ha. exists 2%nat. split; [lia|]. rw /= /sim_command /=.
  by destruct (Z.leb_spec 0 (address r)), (Z.ltb_spec (address r) cap); try lia.
Qed.
Next Obligation.
  intros c s r b -> _ Ha. exists 2%nat. split; [lia|]. rw /= /sim_command /=.
  by destruct (Z.leb_spec 0 (address r)), (Z.ltb_spec (address r) cap); try lia.
Qed.
Next Obligation. intros c s r w ws b ->. done. Qed.
Next Obligation.
  intros c s r lba ws w b -> _. rw /runs /=. case_decide; [|done]. exists lazy. split; [lia|done].
Qed.
Next Obligation. intros c s r b ->. exists 2%nat. split; [lia|done]. Qed.

Lemma sim_ignores : @ignores_busy Drive (sim_ports cap lazy) cap 3 sim_ok.
Proof. intros c s r n b cmd ->. done. Qed.

Lemma sim_prompt : lazy = O → @prompt Drive (sim_ports cap lazy) cap 3 sim_ok.
Proof. intros E c s r lba ws w b -> _ Hws. rw /runs /=. by rw decide_True // E. Qed.
End sim.

Definition sim_disk : disk := λ _, zero_sector.
Definition sim_drive : Drive :=
  rest sim_disk {| r_count := 0; r_low := 0; r_mid := 0; r_high := 0; r_device := 0 |} true.

Lemma sim_cap : 0 ≤ 65536 ≤ 2 ^ 28.
Proof. done. Qed.

Definition sevens : list Z := replicate 512 7.
Lemma sevens_ok : is_sector sevens.
Proof. split; [done|]. apply Forall_replicate. done. Qed.

Section witness.
#[local] Instance demo_ports : Ports Drive := sim_ports 65536 0.
#[local] Instance demo_ok : AtaOk Drive 65536 3 := sim_ok 65536 sim_cap 0 ltac:(lia).

Lemma sim_holds : ata_holds 65536 3 sim_drive sim_disk.
Proof. eexists _, _, _. split; [reflexivity|]. intros l _. split; [done|apply zero_sector_ok]. Qed.

Lemma ata_driver_correct_witness :
  runs (ata_read_sector 3 70) sim_drive (λ b' c', b' = sim_disk 70 ∧ ata_holds 65536 3 c' sim_disk) ∧
  runs (ata_write_sector_bytes 3 70 sevens) sim_drive (λ _ c',
    ata_holds 65536 3 c' (upd sim_disk 70 sevens) ∧ ata_synced 65536 3 c') ∧
  runs (ata_flush_cache 3) sim_drive (λ _ c', ata_holds 65536 3 c' sim_disk ∧ ata_synced 65536 3 c').
Proof.
  assert (prompt 65536 3) as Hp by exact (sim_prompt 65536 sim_cap 0 ltac:(lia) eq_refl).
  assert (0 ≤ 70 < 65536) as Hlba by lia.
  destruct (ata_driver_correct 65536 3 sim_drive sim_disk 70 sevens sim_holds Hlba sevens_ok) as (Hr & Hw & Hf).
  split; [exact Hr|]. split; [|exact Hf]. eapply runs_mono; [exact (Hw (or_introl Hp))|].
  intros [] c' [H1 H2]. split; [exact H1|exact (H2 Hp)].
Defined.
End witness.

(** ** Where the driver writes a command to a busy drive *)

Section busy.
#[local] Instance lazy_ports : Ports Drive := sim_ports 65536 2.

(** [write_sector_bytes] writes FLUSH CACHE right behind the last word: a drive
    that is still busy with the sector, and ignores it, is left with the sector in
    its cache only. *)
Lemma lazy_write_unflushed :
  runs (ata_write_sector_bytes 3 70 sevens) sim_drive (λ _ c', dr_disk c' 70 = sevens ∧ dr_synced c' = false).
Proof. vm_compute. done. Qed.

Lemma wait_set_idle fuel s r b : wait_set fuel 0x08 (rest s r b) = Hang.
Proof. induction fuel as [|fuel IH]; [done|]. exact IH. Qed.

(** After the bare command of [format_drive] the next access, made at once, is
    ignored by the busy drive, and the driver waits for its data for ever. *)
Lemma access_after_bare_flush_hangs fuel lba s r b :
  (out8 COMMAND 0xE7 ;; ata_read_sector fuel lba) (rest s r b) = Hang.
Proof.
  assert (∀ v : Drive, dr_busy v = 2%nat → dr_phase v = Idle →
    (wait_clear fuel 0x80 ;; wait_set fuel 0x08 ;; read_words (seqZ 0 256) (replicate 512 0)) v = Hang) as Hw.
  { intros [s0 r0 n p y] Hb Hp. simpl in Hb, Hp. subst. rw /mbind /proc_bind.
    assert (wait_clear fuel 0x80 {| dr_disk := s0; dr_regs := r0; dr_busy := 2; dr_phase := Idle; dr_synced := y |} =
      if (fuel <? 3)%nat then Hang else Done (tt, rest s0 r0 y)) as -> by by destruct fuel as [|[|[|fuel]]].
    destruct (fuel <? 3)%nat; [done|]. by rw wait_set_idle. }
  exact (Hw {| dr_disk := s; dr_regs := r; dr_busy := 2; dr_phase := Idle; dr_synced := true |} eq_refl eq_refl).
Qed.
End busy.
