(* ===== verification/Str.v ===== *)
(** * Rust strings

    A [String] or [&str] is the list of its Unicode scalar values ([chars()]);
    [utf8_encode] gives its bytes ([as_bytes], [bytes]), [utf8_decode] is
    [core::str::from_utf8].  The file holds the operations of [core::str] and
    [alloc::string] that the kernel uses, and the console interface that the
    printing components share. *)

From S2P Require Import Prelude.
From Stdlib Require Import Ascii.
#[local] Open Scope Z_scope.

Definition rstring : Type := list Z.

(** A string literal of the source. *)
Definition str (s : string) : rstring :=
  (λ a, Z.of_N (N_of_ascii a)) <$> String.list_ascii_of_string s.
Arguments str _%_string_scope.

Definition LF : Z := 10.
Definition CR : Z := 13.
Definition BACKSPACE : Z := 8.
Definition ESC : Z := 27.
Definition SPACE : Z := 32.
Definition DOT : Z := 46.

(** ** Characters *)

(** A Unicode scalar value ([char]). *)
Definition is_char (c : Z) : Prop := 0 ≤ c < 0xD800 ∨ 0xE000 ≤ c < 0x110000.
#[export] Instance is_char_dec c : Decision (is_char c).
Proof. rw /is_char. apply _. Defined.

(** [c as u8] *)
Definition as_u8 (c : Z) : Z := wrap 8 c.

(** [char::is_whitespace]: the Unicode property White_Space. *)
Definition is_whitespace (c : Z) : bool :=
  ((9 <=? c) && (c <=? 13)) || (c =? 32) || (c =? 0x85) || (c =? 0xA0)
  || (c =? 0x1680) || ((0x2000 <=? c) && (c <=? 0x200A))
  || (c =? 0x2028) || (c =? 0x2029) || (c =? 0x202F) || (c =? 0x205F)
  || (c =? 0x3000).

(** [u8::to_ascii_uppercase] and [str::to_ascii_uppercase]. *)
Definition ascii_upper (c : Z) : Z := if (97 <=? c) && (c <=? 122) then c - 32 else c.
Definition to_ascii_uppercase (s : rstring) : rstring := ascii_upper <$> s.

(** ** UTF-8 *)

Definition utf8_char (c : Z) : list Z :=
  if c <? 0x80 then [c]
  else if c <? 0x800 then [0xC0 + c / 64; 0x80 + c mod 64]
  else if c <? 0x10000 then [0xE0 + c / 4096; 0x80 + c / 64 mod 64; 0x80 + c mod 64]
  else [0xF0 + c / 262144; 0x80 + c / 4096 mod 64; 0x80 + c / 64 mod 64; 0x80 + c mod 64].

Definition utf8_encode (s : rstring) : list Z := mjoin (utf8_char <$> s).

(** A continuation byte. *)
Definition is_cont (b : Z) : bool := (0x80 <=? b) && (b <=? 0xBF).

(** The first character of a byte sequence and the rest of it. *)
Definition utf8_step (l : list Z) : option (Z * list Z) :=
  match l with
  | [] => None
  | b0 :: l1 =>
    if b0 <? 0x80 then Some (b0, l1)
    else if b0 <? 0xC2 then None
    else if b0 <? 0xE0 then
      match l1 with
      | b1 :: r => if is_cont b1 then Some ((b0 - 0xC0) * 64 + (b1 - 0x80), r) else None
      | [] => None
      end
    else if b0 <? 0xF0 then
      match l1 with
      | b1 :: b2 :: r =>
        let c := (b0 - 0xE0) * 4096 + (b1 - 0x80) * 64 + (b2 - 0x80) in
        if is_cont b1 && is_cont b2 && (0x800 <=? c) && negb ((0xD800 <=? c) && (c <=? 0xDFFF))
        then Some (c, r) else None
      | _ => None
      end
    else if b0 <? 0xF5 then
      match l1 with
      | b1 :: b2 :: b3 :: r =>
        let c := (b0 - 0xF0) * 262144 + (b1 - 0x80) * 4096 + (b2 - 0x80) * 64 + (b3 - 0x80) in
        if is_cont b1 && is_cont b2 && is_cont b3 && (0x10000 <=? c) && (c <? 0x110000)
        then Some (c, r) else None
      | _ => None
      end
    else None
  end.

Fixpoint utf8_decode_fuel (fuel : nat) (l : list Z) : option rstring :=
  match l with
  | [] => Some []
  | _ =>
    match fuel with
    | O => None
    | S n =>
      '(c, r) ← utf8_step l;
      s ← utf8_decode_fuel n r;
      Some (c :: s)
    end
  end.

(** [core::str::from_utf8]; each step consumes at least one byte. *)
Definition utf8_decode (l : list Z) : option rstring := utf8_decode_fuel (length l) l.

(** [str::len]: the number of bytes. *)
Definition str_len (s : rstring) : Z := zlen (utf8_encode s).

(** ** Numbers *)

Fixpoint digits_fuel (fuel : nat) (n : Z) (acc : rstring) : rstring :=
  match fuel with
  | O => acc
  | S f => let acc := (48 + n mod 10) :: acc in
           if n <? 10 then acc else digits_fuel f (n / 10) acc
  end.

(** [Display] of an unsigned integer (64 bits have at most 20 digits). *)
Definition show_nat (n : Z) : rstring := digits_fuel 20 n [].

(** ** Splitting and joining *)

(** [slice.join(sep)] *)
Fixpoint join (sep : rstring) (ss : list rstring) : rstring :=
  match ss with
  | [] => []
  | [s] => s
  | s :: ss => s ++ sep ++ join sep ss
  end.

(** [str::split_whitespace]: the maximal runs of non-whitespace characters.
    [cur] is the run being read. *)
Fixpoint split_ws_aux (s cur : rstring) : list rstring :=
  match s with
  | [] => match cur with [] => [] | _ => [cur] end
  | c :: s =>
    if is_whitespace c
    then match cur with [] => split_ws_aux s [] | _ => cur :: split_ws_aux s [] end
    else split_ws_aux s (cur ++ [c])
  end.
Definition split_whitespace (s : rstring) : list rstring := split_ws_aux s [].

(** [str::split] on one character: always at least one piece. *)
Fixpoint split_char_aux (sep : Z) (s cur : rstring) : list rstring :=
  match s with
  | [] => [cur]
  | c :: s => if c =? sep then cur :: split_char_aux sep s []
              else split_char_aux sep s (cur ++ [c])
  end.
Definition split_char (sep : Z) (s : rstring) : list rstring := split_char_aux sep s [].

(** ** The console *)

(** What the printing components need: [print!]. *)
Class Console (S : Type) := print : rstring → proc S unit.

(** [println!(s)] is [print!("{}\n", s)]. *)
Definition println {S} `{!Console S} (s : rstring) : proc S unit := print (s ++ [LF]).
