(* ===== verification/Fat16.v ===== *)
(** * The FAT16 filesystem: src/src/fat16.rs

    The filesystem keeps no state of its own beyond the parsed BIOS parameter
    block; every operation is a computation on a block device.  Arithmetic is
    written at the width the source uses, with the overflow check of the
    development profile. *)

From S2P Require Import Prelude Device Str.
#[local] Open Scope Z_scope.

(** ** On-disk records *)

Record Bpb := {
  jump : list Z;
  oem_name : list Z;
  bytes_per_sector : Z;
  sectors_per_cluster : Z;
  reserved_sectors : Z;
  fat_count : Z;
  root_entries : Z;
  total_sectors_16 : Z;
  media_type : Z;
  sectors_per_fat : Z;
}.

Record DirectoryEntry := {
  filename : list Z;
  extension : list Z;
  attributes : Z;
  reserved : Z;
  creation_time_ms : Z;
  creation_time : Z;
  creation_date : Z;
  last_access_date : Z;
  cluster_high : Z;
  modified_time : Z;
  modified_date : Z;
  cluster_low : Z;
  file_size : Z;
}.

Record Fat16FileSystem := { bpb : Bpb }.

(** [u16::from_le_bytes], [u32::from_le_bytes] on the bytes at [off]; the
    offsets used are constants inside the buffer. *)
Definition byte_at (b : list Z) (off : nat) : Z := default 0 (b !! off).
Definition le16 (b : list Z) (off : nat) : Z := byte_at b off + 256 * byte_at b (off + 1).
Definition le32 (b : list Z) (off : nat) : Z := le16 b off + 65536 * le16 b (off + 2).

(** [to_le_bytes] *)
Definition le16_bytes (v : Z) : list Z := [v mod 256; v / 256 mod 256].
Definition le32_bytes (v : Z) : list Z := le16_bytes (v mod 65536) ++ le16_bytes (v / 65536).

(** [core::ptr::read(buffer.as_ptr() as *const Bpb)]: the packed layout. *)
Definition Bpb_of_bytes (b : list Z) : Bpb := {|
  jump := take 3 b;
  oem_name := take 8 (drop 3 b);
  bytes_per_sector := le16 b 11;
  sectors_per_cluster := byte_at b 13;
  reserved_sectors := le16 b 14;
  fat_count := byte_at b 16;
  root_entries := le16 b 17;
  total_sectors_16 := le16 b 19;
  media_type := byte_at b 21;
  sectors_per_fat := le16 b 22;
|}.

(** The 32 bytes of a packed [DirectoryEntry]. *)
Definition DirectoryEntry_bytes (e : DirectoryEntry) : list Z :=
  filename e ++ extension e ++
  [attributes e; reserved e; creation_time_ms e] ++
  le16_bytes (creation_time e) ++ le16_bytes (creation_date e) ++
  le16_bytes (last_access_date e) ++ le16_bytes (cluster_high e) ++
  le16_bytes (modified_time e) ++ le16_bytes (modified_date e) ++
  le16_bytes (cluster_low e) ++ le32_bytes (file_size e).

Definition DirectoryEntry_of_bytes (b : list Z) : DirectoryEntry := {|
  filename := take 8 b;
  extension := take 3 (drop 8 b);
  attributes := byte_at b 11;
  reserved := byte_at b 12;
  creation_time_ms := byte_at b 13;
  creation_time := le16 b 14;
  creation_date := le16 b 16;
  last_access_date := le16 b 18;
  cluster_high := le16 b 20;
  modified_time := le16 b 22;
  modified_date := le16 b 24;
  cluster_low := le16 b 26;
  file_size := le32 b 28;
|}.

Section ops.
Context {D : Type} `{!BlockDevice D, !Console D}.
Implicit Types (fs : Fat16FileSystem).

(** ** Mounting *)

(** The value [init] stores into [FS], if it stores one. *)
Definition init : proc D (option Fat16FileSystem) :=
  buffer ← read_sector 0;
  let b := Bpb_of_bytes buffer in
  if negb (bytes_per_sector b =? 512) then
    println (str "[FS] Error: Invalid BPB found. Disk might not be FAT16 or has an MBR.") ;;
    mret None
  else
    println (str "[FS] FAT16 Initialized. Sectors per cluster: " ++
             show_nat (sectors_per_cluster b)) ;;
    mret (Some {| bpb := b |}).

(** ** Geometry *)

Definition cluster_to_lba fs (cluster : Z) : outcome Z :=
  let b := bpb fs in
  r ← chk 16 (root_entries b * 32);
  m ← chk 16 (bytes_per_sector b - 1);
  n ← chk 16 (r + m);
  root_dir_sectors ← chk_div n (bytes_per_sector b);
  fats ← chk 32 (fat_count b * sectors_per_fat b);
  x ← chk 32 (reserved_sectors b + fats);
  first_data_sector ← chk 32 (x + root_dir_sectors);
  c ← chk 32 (cluster - 2);
  off ← chk 32 (c * sectors_per_cluster b);
  chk 32 (first_data_sector + off).

(** [reserved_sectors as u32 + (fat_count as u32 * sectors_per_fat as u32)] *)
Definition root_dir_start fs : outcome Z :=
  fats ← chk 32 (fat_count (bpb fs) * sectors_per_fat (bpb fs));
  chk 32 (reserved_sectors (bpb fs) + fats).

(** [((root_entries * 32) + 511) / 512] in [u16] *)
Definition root_dir_sectors fs : outcome Z :=
  r ← chk 16 (root_entries (bpb fs) * 32);
  n ← chk 16 (r + 511);
  mret (n / 512).

(** ** The file allocation table *)

Definition get_fat_entry fs (cluster : Z) : proc D Z :=
  let fat_offset := cluster * 2 in
  fat_sector ← lift (chk 32 (reserved_sectors (bpb fs) + fat_offset / 512));
  let ent_offset := fat_offset mod 512 in
  buffer ← read_sector fat_sector;
  lo ← lift (idx buffer ent_offset);
  hi ← lift (idx buffer (ent_offset + 1));
  mret (lo + 256 * hi).

Definition find_free_cluster fs : proc D (option Z) :=
  let fat_start := reserved_sectors (bpb fs) in
  for_find (λ s,
    lba ← lift (chk 32 (fat_start + s));
    buffer ← read_sector lba;
    for_find (λ i,
      lo ← lift (idx buffer i);
      hi ← lift (idx buffer (i + 1));
      if lo + 256 * hi =? 0 then
        c ← lift (x ← chk 16 (s * 256); chk 16 (x + i / 2));
        mret (Some c)
      else mret None)
      ((λ k, 2 * k) <$> seqZ 0 256))
    (seqZ 0 (sectors_per_fat (bpb fs))).

Definition set_fat_entry fs (cluster next_cluster : Z) : proc D unit :=
  let fat_offset := cluster * 2 in
  fat_sector_lba ← lift (chk 32 (reserved_sectors (bpb fs) + fat_offset / 512));
  let byte_offset := fat_offset mod 512 in
  buffer ← read_sector fat_sector_lba;
  buffer ← lift (set_idx buffer byte_offset (next_cluster mod 256));
  buffer ← lift (set_idx buffer (byte_offset + 1) (next_cluster / 256 mod 256));
  write_sector_bytes fat_sector_lba buffer.

(** [while current >= 2 && current < 0xFFF8]; a freed cluster reads back as 0,
    so the loop visits no cluster twice. *)
Fixpoint free_chain_loop (fuel : nat) fs (current : Z) : proc D unit :=
  match fuel with
  | O => λ _, Hang
  | S fuel =>
    if (2 <=? current) && (current <? 0xFFF8) then
      next_cluster ← get_fat_entry fs current;
      set_fat_entry fs current 0 ;;
      free_chain_loop fuel fs next_cluster
    else mret tt
  end.

(** One iteration per entry in use at most, one on a freed entry, and one to
    leave the loop. *)
Definition chain_fuel : nat := Z.to_nat 65538.

Definition free_cluster_chain fs (start_cluster : Z) : proc D unit :=
  free_chain_loop chain_fuel fs start_cluster.

(** ** The root directory *)

(** The offsets [i * 32], [i] in [0..16]. *)
Definition slot_offsets : list Z := (λ i, i * 32) <$> seqZ 0 16.

Definition find_empty_root_slot fs : proc D (option (Z * Z)) :=
  start ← lift (root_dir_start fs);
  sectors ← lift (root_dir_sectors fs);
  for_find (λ sector_offset,
    lba ← lift (chk 32 (start + sector_offset));
    buffer ← read_sector lba;
    for_find (λ offset,
      first_byte ← lift (idx buffer offset);
      mret (if (first_byte =? 0x00) || (first_byte =? 0xE5)
            then Some (lba, offset) else None))
      slot_offsets)
    (seqZ 0 sectors).

Definition list_eqb (a b : list Z) : bool := bool_decide (a = b).

(** The body of the scan of [find_file] and [find_file_location]: [Some None]
    ends the search without an entry, [None] goes on. *)
Definition match_slot {R} (buffer name ext : list Z) (offset : Z)
    (k : DirectoryEntry → R) : outcome (option (option R)) :=
  first_byte ← idx buffer offset;
  if first_byte =? 0x00 then mret (Some None)
  else if first_byte =? 0xE5 then mret None
  else
    n ← slice buffer offset (offset + 8);
    e ← slice buffer (offset + 8) (offset + 11);
    if list_eqb n name && list_eqb e ext
    then mret (Some (Some (k (DirectoryEntry_of_bytes (drop (Z.to_nat offset) buffer)))))
    else mret None.

Definition find_file_location fs (name ext : list Z)
    : proc D (option (Z * Z * DirectoryEntry)) :=
  start ← lift (root_dir_start fs);
  sectors ← lift (root_dir_sectors fs);
  r ← for_find (λ sector_offset,
        lba ← lift (chk 32 (start + sector_offset));
        buffer ← read_sector lba;
        for_find (λ offset,
          lift (match_slot buffer name ext offset (λ entry, (lba, offset, entry))))
          slot_offsets)
        (seqZ 0 sectors);
  mret (mjoin r).

Definition find_file fs (name ext : list Z) : proc D (option DirectoryEntry) :=
  start ← lift (root_dir_start fs);
  sectors ← lift (root_dir_sectors fs);
  r ← for_find (λ sector_offset,
        lba ← lift (chk 32 (start + sector_offset));
        buffer ← read_sector lba;
        for_find (λ offset,
          lift (match_slot buffer name ext offset (λ entry, entry)))
          slot_offsets)
        (seqZ 0 sectors);
  mret (mjoin r).

(** ** Reading *)

(** [for i in 0..sectors_per_cluster] of [read_file]: extends [file_data] and
    counts [bytes_remaining] down, leaving the loop at zero. *)
Fixpoint read_sectors (lba : Z) (idxs : list Z) (file_data : list Z) (bytes_remaining : Z)
    : proc D (list Z * Z) :=
  match idxs with
  | [] => mret (file_data, bytes_remaining)
  | i :: idxs =>
    l ← lift (chk 32 (lba + i));
    sector_data ← read_sector l;
    let to_copy := Z.min bytes_remaining 512 in
    part ← lift (slice sector_data 0 to_copy);
    let file_data := file_data ++ part in
    bytes_remaining ← lift (chk 32 (bytes_remaining - to_copy));
    if bytes_remaining =? 0 then mret (file_data, bytes_remaining)
    else read_sectors lba idxs file_data bytes_remaining
  end.

Fixpoint read_loop (fuel : nat) fs (current_cluster : Z) (file_data : list Z)
    (bytes_remaining : Z) : proc D (list Z) :=
  match fuel with
  | O => λ _, Hang
  | S fuel =>
    if current_cluster <? 0xFFF8 then
      lba ← lift (cluster_to_lba fs current_cluster);
      '(file_data, bytes_remaining) ←
        read_sectors lba (seqZ 0 (sectors_per_cluster (bpb fs))) file_data bytes_remaining;
      if bytes_remaining =? 0 then mret file_data
      else
        next ← get_fat_entry fs current_cluster;
        read_loop fuel fs next file_data bytes_remaining
    else mret file_data
  end.

(** With sectors in the clusters every iteration but the last consumes 512
    bytes; without, the chain ends or repeats within 65536 steps. *)
Definition read_fuel (size : Z) : nat := Z.to_nat (size / 512 + 65538).

Definition read_file fs (entry : DirectoryEntry) : proc D (list Z) :=
  read_loop (read_fuel (file_size entry)) fs (cluster_low entry) [] (file_size entry).

(** ** Writing *)

(** [for sector_idx in 0..sectors_per_cluster]: one cluster's chunk. *)
Fixpoint write_chunk (cluster_lba : Z) (chunk : list Z) (idxs : list Z) : proc D unit :=
  match idxs with
  | [] => mret tt
  | sector_idx :: idxs =>
    let sector_start := sector_idx * 512 in
    if zlen chunk <=? sector_start then mret tt
    else
      let copy_len := Z.min 512 (zlen chunk - sector_start) in
      part ← lift (slice chunk sector_start (sector_start + copy_len));
      buffer ← lift (copy_at zero_sector 0 part);
      lba ← lift (chk 32 (cluster_lba + sector_idx));
      write_sector_bytes lba buffer ;;
      write_chunk cluster_lba chunk idxs
  end.

Definition is_empty (data : list Z) : bool := match data with [] => true | _ => false end.

(** The allocation loop that [write_new_file] and [overwrite_file] share:
    the first cluster of the new chain, or the error. *)
Fixpoint write_loop (fuel : nat) fs (data : list Z) (bytes_written : Z)
    (previous_cluster : option Z) (first_cluster : Z) : proc D (result Z string) :=
  match fuel with
  | O => λ _, Hang
  | S fuel =>
    if (bytes_written <? zlen data) || is_empty data then
      free ← find_free_cluster fs;
      match free with
      | None => mret (Err "Disk full"%string)
      | Some current_cluster =>
        set_fat_entry fs current_cluster 0xFFFF ;;
        first_cluster ←
          match previous_cluster with
          | None => mret current_cluster
          | Some p => set_fat_entry fs p current_cluster ;; mret first_cluster
          end;
        cluster_lba ← lift (cluster_to_lba fs current_cluster);
        let bytes_per_cluster := sectors_per_cluster (bpb fs) * 512 in
        let chunk_size := Z.min (zlen data - bytes_written) bytes_per_cluster in
        chunk ← lift (slice data bytes_written (bytes_written + chunk_size));
        write_chunk cluster_lba chunk (seqZ 0 (sectors_per_cluster (bpb fs))) ;;
        if is_empty data then mret (Ok first_cluster)
        else write_loop fuel fs data (bytes_written + chunk_size)
                        (Some current_cluster) first_cluster
      end
    else mret (Ok first_cluster)
  end.

(** Every iteration takes a free entry of the table, so their number bounds the
    iterations; one more leaves the loop. *)
Definition write_fuel fs : nat := Z.to_nat (256 * sectors_per_fat (bpb fs) + 1).

Definition new_entry (name ext : list Z) (first_cluster size : Z) : DirectoryEntry := {|
  filename := name;
  extension := ext;
  attributes := 0x20;
  reserved := 0;
  creation_time_ms := 0;
  creation_time := 0;
  creation_date := 0;
  last_access_date := 0;
  cluster_high := 0;
  modified_time := 0;
  modified_date := 0;
  cluster_low := first_cluster;
  file_size := wrap 32 size;
|}.

(** Read-modify-write of one directory slot. *)
Definition store_entry (dir_lba dir_offset : Z) (entry : DirectoryEntry) : proc D unit :=
  dir_buffer ← read_sector dir_lba;
  dir_buffer ← lift (copy_at dir_buffer dir_offset (DirectoryEntry_bytes entry));
  write_sector_bytes dir_lba dir_buffer.

Definition write_new_file fs (name ext data : list Z) : proc D (result unit string) :=
  slot ← find_empty_root_slot fs;
  match slot with
  | None => mret (Err "Root directory full"%string)
  | Some (dir_lba, dir_offset) =>
    r ← write_loop (write_fuel fs) fs data 0 None 0;
    match r with
    | Err e => mret (Err e)
    | Ok first_cluster =>
      store_entry dir_lba dir_offset (new_entry name ext first_cluster (zlen data)) ;;
      mret (Ok tt)
    end
  end.

Definition set_entry_data (entry : DirectoryEntry) (first_cluster size : Z)
    : DirectoryEntry := {|
  filename := filename entry;
  extension := extension entry;
  attributes := attributes entry;
  reserved := reserved entry;
  creation_time_ms := creation_time_ms entry;
  creation_time := creation_time entry;
  creation_date := creation_date entry;
  last_access_date := last_access_date entry;
  cluster_high := cluster_high entry;
  modified_time := modified_time entry;
  modified_date := modified_date entry;
  cluster_low := first_cluster;
  file_size := wrap 32 size;
|}.

Definition overwrite_file fs (name ext new_data : list Z) : proc D (result unit string) :=
  loc ← find_file_location fs name ext;
  match loc with
  | None => mret (Err "File not found"%string)
  | Some (dir_lba, dir_offset, entry) =>
    (if 2 <=? cluster_low entry then free_cluster_chain fs (cluster_low entry) else mret tt) ;;
    r ← write_loop (write_fuel fs) fs new_data 0 None 0;
    match r with
    | Err e => mret (Err e)
    | Ok first_cluster =>
      store_entry dir_lba dir_offset (set_entry_data entry first_cluster (zlen new_data)) ;;
      mret (Ok tt)
    end
  end.

(** ** Formatting *)

Definition boot_sector : outcome (list Z) :=
  b ← copy_at zero_sector 0 [0xEB; 0x3C; 0x90];
  b ← copy_at b 3 (str "myOS    ");
  b ← copy_at b 11 (le16_bytes 512);
  b ← set_idx b 13 4;
  b ← copy_at b 14 (le16_bytes 1);
  b ← set_idx b 16 2;
  b ← copy_at b 17 (le16_bytes 512);
  b ← copy_at b 19 (le16_bytes 65535);
  b ← set_idx b 21 0xF8;
  b ← copy_at b 22 (le16_bytes 64);
  b ← set_idx b 510 0x55;
  set_idx b 511 0xAA.

(** The sector at [offset] of a freshly formatted table. *)
Definition fresh_fat_sector (offset : Z) : outcome (list Z) :=
  if offset =? 0 then
    b ← set_idx zero_sector 0 0xF8;
    b ← set_idx b 1 0xFF;
    b ← set_idx b 2 0xFF;
    set_idx b 3 0xFF
  else mret zero_sector.

Definition format_drive : proc D (result unit string) :=
  let sectors_per_fat := 64 in
  let fat_count := 2 in
  let reserved_sectors := 1 in
  let root_entries := 512 in
  b ← lift boot_sector;
  write_sector_bytes 0 b ;;
  let fat_start_lba := reserved_sectors in
  for_each (λ fat_idx,
    let current_fat_start := fat_start_lba + fat_idx * sectors_per_fat in
    for_each (λ offset,
      fat_sector ← lift (fresh_fat_sector offset);
      write_sector_bytes (current_fat_start + offset) fat_sector)
      (seqZ 0 sectors_per_fat))
    (seqZ 0 fat_count) ;;
  let root_dir_start := fat_start_lba + fat_count * sectors_per_fat in
  let root_dir_sectors := (root_entries * 32 + 511) / 512 in
  for_each (λ offset, write_sector_bytes (root_dir_start + offset) zero_sector)
    (seqZ 0 root_dir_sectors) ;;
  flush_command ;;
  println (str "Formatted drive!") ;;
  mret (Ok tt).

End ops.
