(* ===== verification/FatTable.v ===== *)
(** * The allocation table: what each table operation does to the disk

    The abstract view of the table ([fat_get], [fat_set], [free_clusters]) on
    the contents of the disk, and the theorems that the operations of file
    Fat16 implement it on every working device. *)

From S2P Require Import Prelude Device Str Fat16.
#[local] Open Scope Z_scope.

(** ** Little-endian words *)

Lemma byte_at_byte b off : Forall is_byte b → is_byte (byte_at b off).
Proof.
  intros Hb. rw /byte_at. destruct (b !! off) eqn:E; simpl.
  - by eapply Forall_lookup_1.
  - rw /is_byte. lia.
Qed.

Lemma le16_range b off : Forall is_byte b → 0 ≤ le16 b off < 65536.
Proof.
  intros Hb. pose proof (byte_at_byte b off Hb). pose proof (byte_at_byte b (off + 1) Hb).
  rw /le16. rw /is_byte in H H0. lia.
Qed.

(** ** Volume geometry *)

Definition root_start (fs : Fat16FileSystem) : Z :=
  reserved_sectors (bpb fs) + fat_count (bpb fs) * sectors_per_fat (bpb fs).
Definition root_sectors (fs : Fat16FileSystem) : Z := (root_entries (bpb fs) * 32 + 511) / 512.
Definition data_start (fs : Fat16FileSystem) : Z := root_start fs + root_sectors fs.

(** The number of entries the allocator scans. *)
Definition nclusters (fs : Fat16FileSystem) : Z := 256 * sectors_per_fat (bpb fs).

(** A volume whose tables and directory lie on a drive of [cap] sectors, with a
    table small enough that no cluster number is an end-of-chain mark. *)
Record wf_fs (cap : Z) (fs : Fat16FileSystem) : Prop := {
  wf_bps : bytes_per_sector (bpb fs) = 512;
  wf_spc : 1 ≤ sectors_per_cluster (bpb fs) ≤ 255;
  wf_res : 1 ≤ reserved_sectors (bpb fs) ≤ 65535;
  wf_fats : 1 ≤ fat_count (bpb fs) ≤ 255;
  wf_spf : 1 ≤ sectors_per_fat (bpb fs) ≤ 255;
  wf_root : 0 ≤ root_entries (bpb fs) ≤ 2032;
  wf_cap : data_start fs ≤ cap;
}.

(** The first sector of a cluster. *)
Definition cluster_lba (fs : Fat16FileSystem) (c : Z) : Z :=
  data_start fs + (c - 2) * sectors_per_cluster (bpb fs).

(** A cluster whose table entry is in the table and whose sectors are on the
    drive. *)
Definition valid_cluster (cap : Z) (fs : Fat16FileSystem) (c : Z) : Prop :=
  2 ≤ c < nclusters fs ∧ cluster_lba fs c + sectors_per_cluster (bpb fs) ≤ cap.
#[export] Instance valid_cluster_dec cap fs c : Decision (valid_cluster cap fs c).
Proof. rw /valid_cluster. apply _. Defined.

(** ** The abstract table *)

Definition fat_lba (fs : Fat16FileSystem) (c : Z) : Z := reserved_sectors (bpb fs) + c * 2 / 512.
Definition fat_off (c : Z) : Z := (c * 2) mod 512.

Definition fat_get (fs : Fat16FileSystem) (s : disk) (c : Z) : Z :=
  le16 (s (fat_lba fs c)) (Z.to_nat (fat_off c)).

Definition fat_set (fs : Fat16FileSystem) (s : disk) (c v : Z) : disk :=
  upd s (fat_lba fs c)
    (<[Z.to_nat (fat_off c + 1) := v / 256 mod 256]>
      (<[Z.to_nat (fat_off c) := v mod 256]> (s (fat_lba fs c)))).

(** The free clusters, in the order the allocator takes them. *)
Definition free_clusters (fs : Fat16FileSystem) (s : disk) : list Z :=
  filter (λ c, fat_get fs s c = 0) (seqZ 0 (nclusters fs)).

(** A sector of the first copy of the table. *)
Definition in_fat (fs : Fat16FileSystem) (l : Z) : Prop :=
  reserved_sectors (bpb fs) ≤ l < reserved_sectors (bpb fs) + sectors_per_fat (bpb fs).

Lemma fat_off_range c : 0 ≤ fat_off c ∧ fat_off c + 1 < 512.
Proof. rw /fat_off. dlia. Qed.

Lemma fat_lba_in_fat fs c : 0 ≤ c < nclusters fs → in_fat fs (fat_lba fs c).
Proof. rw /nclusters /in_fat /fat_lba. intros. dlia. Qed.

Lemma in_fat_bounds cap fs l : wf_fs cap fs → in_fat fs l → 0 ≤ l < root_start fs ∧ 0 ≤ l < cap.
Proof.
  intros [] Hl. rw /in_fat in Hl. rw /data_start /root_sectors /root_start in wf_cap0.
  rw /root_start. assert (0 ≤ (root_entries (bpb fs) * 32 + 511) / 512) by dlia. nia.
Qed.

Lemma fat_lba_range cap fs c :
  wf_fs cap fs → 0 ≤ c < nclusters fs → 0 ≤ fat_lba fs c < cap.
Proof. intros Hwf Hc. eapply in_fat_bounds; [done|]. by apply fat_lba_in_fat. Qed.

Lemma data_start_nonneg cap fs : wf_fs cap fs → root_start fs ≤ data_start fs ∧ 1 ≤ root_start fs.
Proof. intros []. rw /data_start /root_sectors /root_start. split; [dlia|nia]. Qed.

Lemma is_sector_insert b i v : is_sector b → is_byte v → is_sector (<[i := v]> b).
Proof.
  intros [Hl Hb] Hv. split; [by rw length_insert|]. by apply Forall_insert.
Qed.

Lemma fat_set_sector fs s c v :
  is_sector (s (fat_lba fs c)) → is_sector (fat_set fs s c v (fat_lba fs c)).
Proof.
  intros Hs. rw /fat_set upd_eq. repeat apply is_sector_insert; [done|..]; rw /is_byte; dlia.
Qed.

Lemma fat_get_set_eq fs s c v :
  is_sector (s (fat_lba fs c)) → 0 ≤ v < 65536 → fat_get fs (fat_set fs s c v) c = v.
Proof.
  intros [Hlen _] Hv. pose proof (fat_off_range c).
  rw /fat_get /fat_set upd_eq /le16 /byte_at.
  rw list_lookup_insert_ne; [lia|]. rw list_lookup_insert_eq; [lia|].
  replace (Z.to_nat (fat_off c) + 1)%nat with (Z.to_nat (fat_off c + 1)) by lia.
  rw list_lookup_insert_eq; [rw length_insert; lia|]. simpl. dlia.
Qed.

Lemma fat_get_set_ne fs s c c' v :
  0 ≤ c → 0 ≤ c' → c ≠ c' → fat_get fs (fat_set fs s c v) c' = fat_get fs s c'.
Proof.
  intros Hc Hc' Hne. rw /fat_get /fat_set.
  destruct (decide (fat_lba fs c' = fat_lba fs c)) as [E|E]; [|by rw upd_ne].
  rw E upd_eq /le16 /byte_at.
  assert (Z.to_nat (fat_off c') ≠ Z.to_nat (fat_off c) ∧
          Z.to_nat (fat_off c') + 1 ≠ Z.to_nat (fat_off c) ∧
          Z.to_nat (fat_off c') ≠ Z.to_nat (fat_off c + 1) ∧
          Z.to_nat (fat_off c') + 1 ≠ Z.to_nat (fat_off c + 1))%nat as (?&?&?&?).
  { rw /fat_lba in E. rw /fat_off. clear -E Hne Hc Hc'. dlia. }
  rw !list_lookup_insert_ne; done.
Qed.

Lemma fat_set_other fs s c v l :
  0 ≤ c < nclusters fs → ~ in_fat fs l → fat_set fs s c v l = s l.
Proof.
  intros Hc Hl. rw /fat_set upd_ne; [|done]. intros ->. by apply Hl, fat_lba_in_fat.
Qed.

Lemma fat_get_ext fs s s' c :
  (∀ l, in_fat fs l → s' l = s l) → 0 ≤ c < nclusters fs → fat_get fs s' c = fat_get fs s c.
Proof. intros Hs Hc. rw /fat_get Hs; [by apply fat_lba_in_fat|done]. Qed.

(** ** Free clusters *)

Lemma elem_free fs s c : c ∈ free_clusters fs s ↔ 0 ≤ c < nclusters fs ∧ fat_get fs s c = 0.
Proof. rw /free_clusters list_elem_of_filter elem_of_seqZ. naive_solver lia. Qed.

Lemma free_clusters_ext fs s s' :
  (∀ c, 0 ≤ c < nclusters fs → fat_get fs s' c = 0 ↔ fat_get fs s c = 0) →
  free_clusters fs s' = free_clusters fs s.
Proof.
  intros H. apply filter_ext_in. intros c Hc%elem_of_seqZ. apply H. lia.
Qed.

(** Allocating the first free cluster leaves the others, in order. *)
Lemma free_clusters_alloc fs s c cs v :
  free_clusters fs s = c :: cs → is_sector (s (fat_lba fs c)) → 0 < v < 65536 →
  free_clusters fs (fat_set fs s c v) = cs.
Proof.
  intros Hf Hs Hv.
  assert (0 ≤ c < nclusters fs) as Hc by (apply (elem_free fs s c); rw Hf; set_solver).
  eapply filter_tail; [apply NoDup_seqZ|exact Hf|].
  intros x Hx%elem_of_seqZ. destruct (decide (x = c)) as [->|Hne].
  - rw fat_get_set_eq; [done|lia|]. lia.
  - rw fat_get_set_ne; [lia..|]. naive_solver.
Qed.

(** Giving a used cluster another non-zero mark changes no free cluster. *)
Lemma free_clusters_set fs s c v :
  0 ≤ c < nclusters fs → fat_get fs s c ≠ 0 → is_sector (s (fat_lba fs c)) → 0 < v < 65536 →
  free_clusters fs (fat_set fs s c v) = free_clusters fs s.
Proof.
  intros Hc Hu Hs Hv. apply free_clusters_ext. intros x Hx.
  destruct (decide (x = c)) as [->|Hne].
  - rw fat_get_set_eq; [done|lia|]. lia.
  - by rw fat_get_set_ne; [lia..|].
Qed.

Lemma free_clusters_same fs s s' :
  (∀ l, in_fat fs l → s' l = s l) → free_clusters fs s' = free_clusters fs s.
Proof. intros H. apply free_clusters_ext. intros c Hc. by rw (fat_get_ext fs s s'). Qed.

(** ** The operations implement the abstract table *)

Section table_ops.
Context {D : Type} `{!BlockDevice D, !BlockDeviceOk D}.
Context (fs : Fat16FileSystem).
Implicit Types (d : D) (s : disk).

(** Reading a sector of a working drive. *)
Lemma read_run {A} d s lba (k : list Z → proc D A) Q :
  holds d s → 0 ≤ lba < capacity D →
  (∀ d', holds d' s → is_sector (s lba) → runs (k (s lba)) d' Q) →
  runs (read_sector lba ≫= k) d Q.
Proof.
  intros Hd Hl Hk. rbind. eapply runs_mono; [by apply read_sector_ok|].
  intros b d' [-> Hd']. apply Hk; [done|]. by eapply holds_sector.
Qed.

Lemma fat_lba_chk c :
  0 ≤ fat_lba fs c < capacity D →
  chk 32 (reserved_sectors (bpb fs) + c * 2 / 512) = Done (fat_lba fs c).
Proof.
  intros Hc. pose proof (@capacity_u28 D _ _). rw /fat_lba in Hc. rw /fat_lba.
  apply chk_Done. lia.
Qed.

Lemma sector_lookup b i : is_sector b → 0 ≤ i < 512 → b !! Z.to_nat i = Some (byte_at b (Z.to_nat i)).
Proof.
  intros [Hlen _] Hi. rw /byte_at. destruct (lookup_lt_is_Some_2 b (Z.to_nat i)) as [v ->]; [lia|].
  done.
Qed.

Lemma sector_idx b i : is_sector b → 0 ≤ i < 512 → idx b i = Done (byte_at b (Z.to_nat i)).
Proof. intros Hb Hi. apply idx_Done; [lia|]. by apply sector_lookup. Qed.

Lemma get_fat_entry_spec d s c :
  holds d s → 0 ≤ fat_lba fs c < capacity D →
  runs (get_fat_entry fs c) d (λ v d', v = fat_get fs s c ∧ holds d' s).
Proof.
  intros Hd Hc. rw /get_fat_entry. rlift; [by apply fat_lba_chk|].
  eapply read_run; [done..|]. intros d' Hd' Hsec.
  pose proof (fat_off_range c). rw /fat_off in H.
  rlift; [apply sector_idx; [done|lia]|]. rlift; [apply sector_idx; [done|lia]|].
  apply runs_ret. split; [|done]. rw /fat_get /le16 /fat_off. do 3 f_equal. lia.
Qed.

Lemma set_fat_entry_spec d s c v :
  holds d s → 0 ≤ fat_lba fs c < capacity D →
  runs (set_fat_entry fs c v) d (λ _ d', holds d' (fat_set fs s c v)).
Proof.
  intros Hd Hc. rw /set_fat_entry. rlift; [by apply fat_lba_chk|].
  eapply read_run; [done..|]. intros d' Hd' Hsec.
  pose proof (fat_off_range c). rw /fat_off in H. destruct Hsec as [Hlen Hb].
  rlift; [apply set_idx_Done; rw Hlen; lia|].
  rlift; [apply set_idx_Done; rw length_insert Hlen; lia|].
  apply write_sector_ok; [done..|].
  repeat apply is_sector_insert; [done|..]; rw /is_byte; dlia.
Qed.

(** The status word the allocator looks at in sector [k] of the table, at
    offset [2 * i], is the entry of cluster [256 * k + i]. *)
Lemma fat_get_split s k i :
  0 ≤ k → 0 ≤ i < 256 →
  fat_get fs s (k * 256 + i) = le16 (s (reserved_sectors (bpb fs) + k)) (Z.to_nat (2 * i)).
Proof.
  intros Hk Hi. rw /fat_get /fat_lba /fat_off.
  replace ((k * 256 + i) * 2 / 512) with k by dlia.
  by replace (((k * 256 + i) * 2) mod 512) with (2 * i) by dlia.
Qed.

Context (Hwf : wf_fs (capacity D) fs).

Lemma find_free_inner d s k :
  holds d s → 0 ≤ k < sectors_per_fat (bpb fs) →
  let buffer := s (reserved_sectors (bpb fs) + k) in
  is_sector buffer →
  runs (for_find (λ i,
      lo ← lift (idx buffer i);
      hi ← lift (idx buffer (i + 1));
      if lo + 256 * hi =? 0 then
        c ← lift (x ← chk 16 (k * 256); chk 16 (x + i / 2));
        mret (Some c)
      else mret None)
      ((λ k, 2 * k) <$> seqZ 0 256)) d
    (λ r d', r = first_some (λ i, if decide (fat_get fs s (k * 256 + i) = 0)
                                  then Some (k * 256 + i) else None) (seqZ 0 256)
             ∧ holds d' s).
Proof.
  intros Hd Hk buffer Hb. destruct Hwf. eapply runs_mono.
  - eapply (runs_for_find (λ d, holds d s)
      (λ i, if decide (fat_get fs s (k * 256 + i / 2) = 0) then Some (k * 256 + i / 2) else None));
      [done|].
    intros x d1 (i & -> & Hi%elem_of_seqZ)%list_elem_of_fmap Hd1.
    rlift; [apply sector_idx; [done|lia]|]. rlift; [apply sector_idx; [done|lia]|].
    replace (2 * i / 2) with i by dlia.
    rw fat_get_split; [lia..|]. fold buffer. rw /le16.
    replace (Z.to_nat (2 * i + 1)) with (Z.to_nat (2 * i) + 1)%nat by lia.
    destruct (Z.eqb_spec (byte_at buffer (Z.to_nat (2 * i)) +
                          256 * byte_at buffer (Z.to_nat (2 * i) + 1)) 0) as [E|E];
      case_decide; try done.
    rlift; [|by apply runs_ret]. rw chk_Done /=; [lia|]. apply chk_Done. lia.
  - intros r d' [-> Hd']. split; [|done]. rw first_some_fmap. apply first_some_ext.
    intros i _. by replace (2 * i / 2) with i by dlia.
Qed.

(** The allocator answers the first free cluster of the table. *)
Lemma find_free_cluster_spec d s :
  holds d s →
  runs (find_free_cluster fs) d (λ r d', r = head (free_clusters fs s) ∧ holds d' s).
Proof.
  intros Hd. rw /find_free_cluster. pose proof Hwf as [].
  eapply runs_mono.
  - eapply (runs_for_find (λ d, holds d s)); [done|].
    intros k d1 Hk%elem_of_seqZ Hd1.
    assert (in_fat fs (reserved_sectors (bpb fs) + k)) as Hin by (rw /in_fat; lia).
    apply (in_fat_bounds (capacity D)) in Hin as [_ Hin]; [|done].
    pose proof (@capacity_u28 D _ _).
    rlift; [apply chk_Done; lia|]. eapply read_run; [done|lia|]. intros d2 Hd2 Hsec.
    eapply find_free_inner; [done|lia|done].
  - intros r d' [-> Hd']. split; [|done]. rw /free_clusters head_filter /nclusters.
    replace (256 * sectors_per_fat (bpb fs)) with
      (256 * Z.of_nat (Z.to_nat (sectors_per_fat (bpb fs)))) by lia.
    rw seqZ_blocks ?Z2Nat.id; [lia..|]. rw first_some_bind. apply first_some_ext.
    intros k _. by rw first_some_fmap.
Qed.
End table_ops.

(** ** Cluster chains *)

(** [chain fs s c cs]: following the table from [c] visits exactly the valid
    clusters [cs] and ends on an end-of-chain mark. *)
Fixpoint chain (cap : Z) (fs : Fat16FileSystem) (s : disk) (c : Z) (cs : list Z) : Prop :=
  match cs with
  | [] => 0xFFF8 ≤ c
  | c' :: cs => c' = c ∧ valid_cluster cap fs c ∧ chain cap fs s (fat_get fs s c) cs
  end.

Lemma chain_valid cap fs s c cs : chain cap fs s c cs → Forall (valid_cluster cap fs) cs.
Proof. revert c. induction cs as [|c' cs IH]; intros c; simpl; [done|]. naive_solver. Qed.

Lemma chain_used cap fs s c cs :
  wf_fs cap fs → chain cap fs s c cs → Forall (λ x, fat_get fs s x ≠ 0) cs.
Proof.
  intros Hwf. revert c. induction cs as [|c' cs IH]; intros c; [done|].
  intros (-> & Hv & Hc). constructor; [|by eapply IH].
  destruct cs as [|c2 cs]; simpl in Hc; [lia|].
  destruct Hc as (_ & [? _] & _). lia.
Qed.

(** A chain depends only on the entries of its own clusters. *)
Lemma chain_ext cap fs s s' c cs :
  (∀ x, x ∈ cs → fat_get fs s' x = fat_get fs s x) → chain cap fs s c cs → chain cap fs s' c cs.
Proof.
  revert c. induction cs as [|c' cs IH]; intros c H; [done|].
  intros (-> & Hv & Hc). split; [done|]. split; [done|].
  rw H; [set_solver|]. apply IH; [set_solver|done].
Qed.

(** The table is a function, so a chain is determined by its head, and a chain
    that ends repeats no cluster. *)
Lemma chain_unique cap fs s c cs1 cs2 :
  wf_fs cap fs → chain cap fs s c cs1 → chain cap fs s c cs2 → cs1 = cs2.
Proof.
  intros []. revert c cs2. induction cs1 as [|c1 cs1 IH]; intros c [|c2 cs2]; simpl; [done|..].
  - rw /valid_cluster /nclusters. lia.
  - rw /valid_cluster /nclusters. lia.
  - intros (-> & _ & H1) (-> & _ & H2). f_equal. by eapply IH.
Qed.

Lemma chain_suffix cap fs s c pre x post :
  chain cap fs s c (pre ++ x :: post) → chain cap fs s x (x :: post).
Proof.
  revert c. induction pre as [|y pre IH]; intros c; simpl.
  - by intros (-> & ? & ?).
  - intros (-> & _ & H). by eapply IH.
Qed.

Lemma chain_NoDup cap fs s c cs : wf_fs cap fs → chain cap fs s c cs → NoDup cs.
Proof.
  intros Hwf. revert c. induction cs as [|x cs IH]; intros c Hc; [constructor|].
  pose proof Hc as (-> & _ & Hc'). constructor; [|by eapply IH].
  intros (pre & post & ->)%list_elem_of_split.
  assert (c :: pre ++ c :: post = c :: post) as E.
  { eapply chain_unique; [done|exact Hc|]. by apply (chain_suffix cap fs s c (c :: pre)). }
  apply (f_equal length) in E. len.
Qed.

Section free_chain.
Context {D : Type} `{!BlockDevice D, !BlockDeviceOk D}.
Context (fs : Fat16FileSystem) (Hwf : wf_fs (capacity D) fs).
Implicit Types (d : D) (s : disk).

(** The entries a chain can run through, used ones first to go. *)
Definition used_entries s : nat :=
  length (filter (λ x, fat_get fs s x ≠ 0) (seqZ 0 65536)).

Lemma used_entries_free s c :
  0 ≤ c < 65536 → is_sector (s (fat_lba fs c)) → fat_get fs s c ≠ 0 →
  (used_entries (fat_set fs s c 0) < used_entries s)%nat.
Proof.
  intros Hc Hs Hu. rw /used_entries.
  assert (seqZ 0 65536 = seqZ 0 c ++ c :: seqZ (c + 1) (65535 - c)) as ->.
  { replace 65536 with (c + (65536 - c)) by lia. rw seqZ_app; [lia..|]. f_equal.
    rw seqZ_head; [lia|]. f_equal. f_equal. lia. }
  rw !filter_app !filter_cons. rw (decide_True _ _ Hu).
  rw decide_False; [rw fat_get_set_eq; [done|lia|]; lia|].
  rw (filter_ext_in _ (λ x, fat_get fs s x ≠ 0) (seqZ 0 c)).
  { intros x Hx%elem_of_seqZ. by rw fat_get_set_ne; [lia..|]. }
  rw (filter_ext_in _ (λ x, fat_get fs s x ≠ 0) (seqZ (c + 1) _)).
  { intros x Hx%elem_of_seqZ. by rw fat_get_set_ne; [lia..|]. }
  len.
Qed.

Lemma fat_set_zero_mono s c x :
  0 ≤ c → is_sector (s (fat_lba fs c)) → 0 ≤ x →
  fat_get fs (fat_set fs s c 0) x = 0 ∨ fat_get fs (fat_set fs s c 0) x = fat_get fs s x.
Proof.
  intros Hc Hs Hx. destruct (decide (x = c)) as [->|Hne].
  - left. by apply fat_get_set_eq.
  - right. by apply fat_get_set_ne.
Qed.

Lemma free_chain_loop_total fuel d s c :
  reserved_sectors (bpb fs) + 256 ≤ capacity D →
  holds d s → 0 ≤ c < 65536 → (used_entries s + 2 ≤ fuel)%nat →
  runs (free_chain_loop fuel fs c) d (λ _ d', ∃ s', holds d' s' ∧
    ∀ x, 0 ≤ x < 65536 → fat_get fs s' x = 0 ∨ fat_get fs s' x = fat_get fs s x).
Proof.
  intros Hcap. revert d s c. induction fuel as [|fuel IH]; intros d s c Hd Hc Hf; [lia|].
  destruct Hwf. simpl.
  destruct (Z.leb_spec 2 c), (Z.ltb_spec c 65528); simpl; try (apply runs_ret; by eauto).
  assert (0 ≤ fat_lba fs c < capacity D) as Hl by (rw /fat_lba; dlia).
  assert (is_sector (s (fat_lba fs c))) as Hsec by by eapply holds_sector.
  rbind. eapply runs_mono; [by apply get_fat_entry_spec|]. intros v d1 [-> Hd1].
  rbind. eapply runs_mono; [by apply set_fat_entry_spec|]. intros [] d2 Hd2.
  assert (0 ≤ fat_get fs s c < 65536) as Hv by (apply le16_range, Hsec).
  destruct (decide (fat_get fs s c = 0)) as [E|E].
  { rw E. destruct fuel; [lia|]. apply runs_ret. exists (fat_set fs s c 0). split; [done|].
    intros; apply fat_set_zero_mono; [lia|done|lia]. }
  eapply runs_mono; [apply IH; [done|lia|]|].
  { pose proof (used_entries_free s c). lia || (specialize (H1 ltac:(lia) Hsec E); lia). }
  intros [] d3 (s' & Hs' & Hx). exists s'. split; [done|]. intros x Hr.
  destruct (Hx x Hr) as [?| ->]; [by left|]. apply fat_set_zero_mono; [lia|done|lia].
Qed.

(** Freeing a chain zeroes exactly its clusters. *)
Lemma free_chain_loop_chain fuel d s c cs :
  holds d s → chain (capacity D) fs s c cs → c < 65536 → (length cs < fuel)%nat →
  runs (free_chain_loop fuel fs c) d (λ _ d', ∃ s', holds d' s' ∧
    (∀ x, 0 ≤ x < nclusters fs →
       fat_get fs s' x = if decide (x ∈ cs) then 0 else fat_get fs s x) ∧
    (∀ l, ~ in_fat fs l → s' l = s l)).
Proof.
  revert fuel d s c. induction cs as [|c' cs IH]; intros fuel d s c Hd Hc Hc16 Hf;
    (destruct fuel as [|fuel]; [simpl in Hf; lia|]); simpl.
  - simpl in Hc. destruct (Z.ltb_spec c 65528); [lia|]. rw andb_false_r. apply runs_ret. eauto.
  - pose proof (chain_NoDup _ _ _ _ _ Hwf Hc) as Hnd.
    destruct Hc as (-> & Hv & Hc). pose proof Hv as [Hr _]. pose proof Hwf as [].
    destruct (Z.leb_spec 2 c); [|lia]. destruct (Z.ltb_spec c 65528); [|rw /nclusters in Hr; lia].
    simpl. assert (0 ≤ fat_lba fs c < capacity D) as Hl by (apply fat_lba_range; [done|lia]).
    assert (is_sector (s (fat_lba fs c))) as Hsec by by eapply holds_sector.
    rbind. eapply runs_mono; [by apply get_fat_entry_spec|]. intros v d1 [-> Hd1].
    rbind. eapply runs_mono; [by apply set_fat_entry_spec|]. intros [] d2 Hd2.
    apply NoDup_cons in Hnd as [Hnin Hnd].
    eapply runs_mono; [apply IH; [exact Hd2|..]|].
    + eapply chain_ext; [|exact Hc]. intros x Hx.
      pose proof (proj1 (Forall_forall _ _) (chain_valid _ _ _ _ _ Hc) x Hx) as [? _].
      apply fat_get_set_ne; [lia..|set_solver].
    + pose proof (le16_range (s (fat_lba fs c)) (Z.to_nat (fat_off c)) (proj2 Hsec)).
      rw /fat_get. lia.
    + simpl in Hf. lia.
    + intros [] d3 (s' & Hs' & Hg & Ho). exists s'. split; [done|]. split.
      * intros x Hx. rw Hg; [done|]. destruct (decide (x ∈ cs)) as [Hi|Hi].
        { by rw decide_True; [set_solver|]. }
        destruct (decide (x = c)) as [->|Hne].
        { rw decide_True; [set_solver|]. by apply fat_get_set_eq. }
        rw fat_get_set_ne; [lia..|done|]. by rw decide_False; [set_solver|].
      * intros l Hl'. rw Ho; [done|]. apply fat_set_other; [lia|done].
Qed.
End free_chain.
