(* ===== verification/FatDir.v ===== *)
(** * The root directory: slots, search and update

    The directory as the list of its slots, the search functions of file Fat16
    as searches of that list, and the round trip of a directory entry. *)

From S2P Require Import Prelude Device Str Fat16 FatTable.
#[local] Open Scope Z_scope.

(** ** Directory entries *)

Definition is_u16 (v : Z) : Prop := 0 ≤ v < 65536.

(** An entry whose fields are in the range of their types. *)
Record wf_entry (e : DirectoryEntry) : Prop := {
  we_name : length (filename e) = 8%nat ∧ Forall is_byte (filename e);
  we_ext : length (extension e) = 3%nat ∧ Forall is_byte (extension e);
  we_bytes : Forall is_byte [attributes e; reserved e; creation_time_ms e];
  we_words : Forall is_u16 [creation_time e; creation_date e; last_access_date e;
               cluster_high e; modified_time e; modified_date e; cluster_low e];
  we_size : 0 ≤ file_size e < 2 ^ 32;
}.

Lemma le16_bytes_byte v : Forall is_byte (le16_bytes v).
Proof. rw /le16_bytes. repeat constructor; rw /is_byte; dlia. Qed.

Lemma le16_cons a b l : is_byte a → le16 (a :: b :: l) 0 = a + 256 * b.
Proof. done. Qed.

Lemma le16_of_bytes v l : is_u16 v → le16 (le16_bytes v ++ l) 0 = v.
Proof. rw /is_u16 /le16 /le16_bytes /byte_at /=. intros. dlia. Qed.

Lemma le16_app_r l1 l2 k : le16 (l1 ++ l2) (length l1 + k) = le16 l2 k.
Proof.
  rw /le16 /byte_at -Nat.add_assoc !lookup_app_r; [lia..|]. do 4 f_equal; lia.
Qed.

Lemma le32_of_bytes v l : 0 ≤ v < 2 ^ 32 → le32 (le32_bytes v ++ l) 0 = v.
Proof.
  intros Hv. rw /le32 /le32_bytes -app_assoc le16_of_bytes; [rw /is_u16; dlia|].
  rw (le16_app_r (le16_bytes (v mod 65536)) _ 0) le16_of_bytes; [rw /is_u16; dlia|]. dlia.
Qed.

Lemma DirectoryEntry_bytes_sector e :
  wf_entry e → length (DirectoryEntry_bytes e) = 32%nat ∧ Forall is_byte (DirectoryEntry_bytes e).
Proof.
  intros [[Hn Hn'] [He He'] Hb _ _]. rw /DirectoryEntry_bytes. split.
  - rw !length_app Hn He. done.
  - repeat (apply Forall_app; split); try done; try apply le16_bytes_byte.
Qed.

(** Reading back the packed bytes of an entry gives the entry. *)
Lemma DirectoryEntry_roundtrip e l :
  wf_entry e → DirectoryEntry_of_bytes (DirectoryEntry_bytes e ++ l) = e.
Proof.
  intros [[Hn _] [He _] _ Hw Hs]. destruct e as [n x a r cm ct cd la ch mt md cl sz]; simpl in *.
  repeat match goal with H : length ?l = _ |- _ =>
    destruct l; simpl in H; [discriminate|apply (f_equal pred) in H; simpl in H] end.
  repeat match goal with H : length ?l = 0%nat |- _ => apply nil_length_inv in H; subst end.
  rw !Forall_cons in Hw. destruct Hw as (H1 & H2 & H3 & H4 & H5 & H6 & H7 & _).
  rw /DirectoryEntry_of_bytes /DirectoryEntry_bytes /=.
  f_equal; [..|change (le32 _ 28) with (le32 (le32_bytes sz ++ l) 0); by apply le32_of_bytes];
  match goal with |- le16 _ _ = ?v =>
    transitivity (le16 (le16_bytes v ++ []) 0); [reflexivity|by apply le16_of_bytes] end.
Qed.

(** ** Slots *)

(** The slots in the order the searches visit them: (sector, offset). *)
Definition root_slots (fs : Fat16FileSystem) : list (Z * Z) :=
  seqZ 0 (root_sectors fs) ≫= λ k, pair (root_start fs + k) <$> slot_offsets.

(** The 32 bytes of a slot. *)
Definition slot_window (s : disk) (p : Z * Z) : list Z :=
  take 32 (drop (Z.to_nat p.2) (s p.1)).

Definition window_free (w : list Z) : bool :=
  (byte_at w 0 =? 0x00) || (byte_at w 0 =? 0xE5).

(** The verdict of a search on one slot: [Some None] stops it empty-handed. *)
Definition window_match (name ext w : list Z) : option (option DirectoryEntry) :=
  if byte_at w 0 =? 0x00 then Some None
  else if byte_at w 0 =? 0xE5 then None
  else if list_eqb (take 8 w) name && list_eqb (take 3 (drop 8 w)) ext
  then Some (Some (DirectoryEntry_of_bytes w)) else None.

(** The abstract directory operations. *)
Definition empty_slot (fs : Fat16FileSystem) (s : disk) : option (Z * Z) :=
  first_some (λ p, if window_free (slot_window s p) then Some p else None) (root_slots fs).

Definition locate_file (fs : Fat16FileSystem) (s : disk) (name ext : list Z)
    : option (Z * Z * DirectoryEntry) :=
  mjoin (first_some (λ p, fmap (M:=option) (pair p) <$> window_match name ext (slot_window s p))
                    (root_slots fs)).

Definition lookup_file (fs : Fat16FileSystem) (s : disk) (name ext : list Z)
    : option DirectoryEntry :=
  mjoin (first_some (λ p, window_match name ext (slot_window s p)) (root_slots fs)).

Definition dir_set (s : disk) (p : Z * Z) (e : DirectoryEntry) : disk :=
  upd s p.1 (splice (s p.1) (Z.to_nat p.2) (DirectoryEntry_bytes e)).

(** A sector of the root directory. *)
Definition in_root (fs : Fat16FileSystem) (l : Z) : Prop := root_start fs ≤ l < data_start fs.

Lemma elem_slot_offsets off : off ∈ slot_offsets ↔ ∃ i, off = i * 32 ∧ 0 ≤ i < 16.
Proof.
  rw /slot_offsets list_elem_of_fmap. setoid_rewrite elem_of_seqZ. naive_solver lia.
Qed.

Lemma elem_root_slots fs lba off :
  (lba, off) ∈ root_slots fs ↔ in_root fs lba ∧ ∃ i, off = i * 32 ∧ 0 ≤ i < 16.
Proof.
  rw /root_slots list_elem_of_bind /in_root /data_start. split.
  - intros (k & (o & [= -> ->] & Ho%elem_slot_offsets)%list_elem_of_fmap & Hk%elem_of_seqZ).
    split; [lia|done].
  - intros [Hl Ho%elem_slot_offsets]. exists (lba - root_start fs). split; [|apply elem_of_seqZ; lia].
    apply list_elem_of_fmap. exists off. split; [f_equal; lia|done].
Qed.

Lemma NoDup_root_slots fs : NoDup (root_slots fs).
Proof.
  apply NoDup_bind.
  - intros x1 x2 [a b] Hx1 Hx2 (o1 & [= -> ->] & _)%list_elem_of_fmap
      (o2 & [= E _] & _)%list_elem_of_fmap. lia.
  - intros k _. apply NoDup_fmap; [by intros ?? [=]|].
    apply NoDup_fmap; [intros ???; lia|apply NoDup_seqZ].
  - apply NoDup_seqZ.
Qed.

Lemma byte_at_take b n i : (i < n)%nat → byte_at (take n b) i = byte_at b i.
Proof. intros. by rw /byte_at lookup_take_lt. Qed.

Lemma byte_at_drop b n i : byte_at (drop n b) i = byte_at b (n + i).
Proof. by rw /byte_at lookup_drop. Qed.

(** Only the first 32 bytes matter to an entry. *)
Lemma DirectoryEntry_of_take b : DirectoryEntry_of_bytes (take 32 b) = DirectoryEntry_of_bytes b.
Proof.
  rw /DirectoryEntry_of_bytes /le32 /le16 !byte_at_take; [lia..|].
  f_equal.
  - rw take_take. done.
  - rw !take_drop_commute take_take. done.
Qed.

Lemma match_slot_window {R} buffer name ext off (k : DirectoryEntry → R) :
  is_sector buffer → off ∈ slot_offsets →
  match_slot buffer name ext off k =
    Done (fmap (M:=option) k <$> window_match name ext (take 32 (drop (Z.to_nat off) buffer))).
Proof.
  intros Hb (i & -> & Hi)%elem_slot_offsets. pose proof Hb as [Hlen _].
  rw /match_slot sector_idx; [done|lia|]. rw /window_match.
  rw byte_at_take ?byte_at_drop ?Nat.add_0_r; [lia|].
  cbn [mbind outcome_bind]. case_match; [done|]. case_match; [done|].
  rw !slice_Done; [lia..|]. cbn [mbind outcome_bind].
  rw DirectoryEntry_of_take.
  replace (take 8 (take 32 (drop (Z.to_nat (i * 32)) buffer)))
    with (take (Z.to_nat (i * 32 + 8 - i * 32)) (drop (Z.to_nat (i * 32)) buffer)).
  2:{ rw take_take. f_equal. lia. }
  replace (take 3 (drop 8 (take 32 (drop (Z.to_nat (i * 32)) buffer))))
    with (take (Z.to_nat (i * 32 + 11 - (i * 32 + 8))) (drop (Z.to_nat (i * 32 + 8)) buffer)).
  2:{ rw (take_drop_commute (take 32 _)) take_take -(take_drop_commute _ 3 8) drop_drop. f_equal; [lia|]. f_equal. lia. }
  by case_match.
Qed.

Lemma length_slot_window s p fs :
  p ∈ root_slots fs → is_sector (s p.1) → length (slot_window s p) = 32%nat.
Proof.
  destruct p as [lba off]. intros [_ (i & -> & Hi)]%elem_root_slots [Hlen _].
  rw /slot_window /=. rw length_take length_drop Hlen. lia.
Qed.

Lemma slot_window_set s p e fs :
  p ∈ root_slots fs → is_sector (s p.1) → wf_entry e →
  slot_window (dir_set s p e) p = DirectoryEntry_bytes e.
Proof.
  destruct p as [lba off]. intros [_ (i & -> & Hi)]%elem_root_slots [Hlen _] He.
  destruct (DirectoryEntry_bytes_sector e He) as [Hel _].
  rw /slot_window /dir_set /= upd_eq. rw -{1}Hel. simpl in Hlen. apply take_drop_splice. lia.
Qed.

Lemma slot_window_set_ne s p q e fs :
  p ∈ root_slots fs → q ∈ root_slots fs → p ≠ q → is_sector (s p.1) → wf_entry e →
  slot_window (dir_set s p e) q = slot_window s q.
Proof.
  destruct p as [lba off], q as [lba' off'].
  intros [_ (i & -> & Hi)]%elem_root_slots [_ (j & -> & Hj)]%elem_root_slots Hne [Hlen _] He.
  destruct (DirectoryEntry_bytes_sector e He) as [Hel _].
  rw /slot_window /dir_set /=. destruct (decide (lba' = lba)) as [->|Hl]; [|by rw upd_ne].
  assert (i ≠ j) by (intros ->; done).
  simpl in Hlen. rw upd_eq. apply take_drop_splice_ne; lia.
Qed.

Lemma dir_set_sector s p e fs :
  p ∈ root_slots fs → is_sector (s p.1) → wf_entry e → is_sector (dir_set s p e p.1).
Proof.
  destruct p as [lba off]. intros [_ (i & -> & Hi)]%elem_root_slots [Hlen Hb] He.
  destruct (DirectoryEntry_bytes_sector e He) as [Hel Heb].
  rw /dir_set /= upd_eq. simpl in Hlen, Hb. split.
  - rw length_splice; lia.
  - rw /splice. apply Forall_app; split; [by apply Forall_take|].
    apply Forall_app; split; [done|by apply Forall_drop].
Qed.

(** ** The searches implement the abstract directory *)

Section dir_ops.
Context {D : Type} `{!BlockDevice D, !BlockDeviceOk D}.
Context (fs : Fat16FileSystem) (Hwf : wf_fs (capacity D) fs).
Implicit Types (d : D) (s : disk).

Lemma root_dir_start_Done : root_dir_start fs = Done (root_start fs).
Proof.
  destruct Hwf. rw /root_dir_start /root_start chk_Done /=; [nia|]. apply chk_Done. nia.
Qed.

Lemma root_dir_sectors_Done : root_dir_sectors fs = Done (root_sectors fs).
Proof.
  destruct Hwf. rw /root_dir_sectors /root_sectors chk_Done /=; [lia|].
  rw chk_Done /=; [lia|]. done.
Qed.

Lemma in_root_cap l : in_root fs l → 0 ≤ l < capacity D.
Proof.
  intros Hl. pose proof (data_start_nonneg _ _ Hwf). rw /in_root in Hl. destruct Hwf. lia.
Qed.

(** A scan of the directory, sector by sector and slot by slot, is a search of
    the list of slots. *)
Lemma scan_root {R} (f : Z → list Z → Z → proc D (option R)) (g : Z * Z → option R) d s :
  holds d s →
  (∀ lba off d, (lba, off) ∈ root_slots fs → holds d s → is_sector (s lba) →
     runs (f lba (s lba) off) d (λ r d', r = g (lba, off) ∧ holds d' s)) →
  runs (for_find (λ k,
          lba ← lift (chk 32 (root_start fs + k));
          buffer ← read_sector lba;
          for_find (f lba buffer) slot_offsets) (seqZ 0 (root_sectors fs))) d
    (λ r d', r = first_some g (root_slots fs) ∧ holds d' s).
Proof.
  intros Hd Hf. pose proof (@capacity_u28 D _ _) as Hcap. eapply runs_mono.
  - apply (runs_for_find (λ d, holds d s)
      (λ k, first_some (λ off, g (root_start fs + k, off)) slot_offsets)); [done|].
    intros k d1 Hk%elem_of_seqZ Hd1.
    assert (in_root fs (root_start fs + k)) as Hin by (rw /in_root /data_start; lia).
    pose proof (in_root_cap _ Hin).
    rlift; [apply chk_Done; lia|]. eapply read_run; [done|lia|]. intros d2 Hd2 Hsec.
    apply (runs_for_find (λ d, holds d s)); [done|]. intros off d3 Hoff Hd3.
    apply Hf; [|done..]. apply elem_root_slots. split; [done|]. by apply elem_slot_offsets.
  - intros r d' [-> Hd']. split; [|done]. rw /root_slots first_some_bind.
    apply first_some_ext. intros k _. by rw first_some_fmap.
Qed.

Lemma find_empty_root_slot_spec d s :
  holds d s → runs (find_empty_root_slot fs) d (λ r d', r = empty_slot fs s ∧ holds d' s).
Proof.
  intros Hd. rw /find_empty_root_slot.
  rlift; [apply root_dir_start_Done|]. rlift; [apply root_dir_sectors_Done|].
  apply scan_root; [done|]. intros lba off d1 [_ (i & -> & Hi)]%elem_root_slots Hd1 Hsec.
  rlift; [apply sector_idx; [done|lia]|]. apply runs_ret. split; [|done].
  rw /slot_window /window_free /= byte_at_take ?byte_at_drop ?Nat.add_0_r; [lia|done].
Qed.

Lemma find_file_location_spec d s name ext :
  holds d s →
  runs (find_file_location fs name ext) d (λ r d', r = locate_file fs s name ext ∧ holds d' s).
Proof.
  intros Hd. rw /find_file_location.
  rlift; [apply root_dir_start_Done|]. rlift; [apply root_dir_sectors_Done|].
  rbind. eapply runs_mono; [eapply scan_root; [done|]|].
  - intros lba off d1 [_ Ho%elem_slot_offsets]%elem_root_slots Hd1 Hsec.
    eapply runs_lift_done; [by apply match_slot_window|]. split; [|done].
    instantiate (1 := λ p, fmap (M:=option) (pair p) <$> window_match name ext (slot_window s p)).
    done.
  - intros r d' [-> Hd']. by apply runs_ret.
Qed.

Lemma find_file_spec d s name ext :
  holds d s →
  runs (find_file fs name ext) d (λ r d', r = lookup_file fs s name ext ∧ holds d' s).
Proof.
  intros Hd. rw /find_file.
  rlift; [apply root_dir_start_Done|]. rlift; [apply root_dir_sectors_Done|].
  rbind. eapply runs_mono; [eapply scan_root; [done|]|].
  - intros lba off d1 [_ Ho%elem_slot_offsets]%elem_root_slots Hd1 Hsec.
    eapply runs_lift_done; [by apply match_slot_window|]. split; [|done].
    instantiate (1 := λ p, window_match name ext (slot_window s p)). simpl.
    rw /slot_window /=. destruct (window_match _ _ _) as [[]|]; done.
  - intros r d' [-> Hd']. by apply runs_ret.
Qed.

Lemma store_entry_spec d s p e :
  holds d s → p ∈ root_slots fs → wf_entry e →
  runs (store_entry p.1 p.2 e) d (λ _ d', holds d' (dir_set s p e)).
Proof.
  intros Hd Hp He. destruct p as [lba off]. simpl.
  pose proof Hp as [Hin (i & Hi & Hi')]%elem_root_slots. apply in_root_cap in Hin.
  rw /store_entry. eapply read_run; [done..|]. intros d1 Hd1 Hsec.
  destruct (DirectoryEntry_bytes_sector e He) as [Hel _].
  rlift; [apply copy_at_Done; [lia|rw Hel (proj1 Hsec); lia]|].
  apply write_sector_ok; [done..|].
  pose proof (dir_set_sector s (lba, off) e fs Hp Hsec He) as H.
  by rw /dir_set /= upd_eq in H.
Qed.
End dir_ops.

(** ** The abstract directory *)

Section dir_facts.
Context (fs : Fat16FileSystem).
Implicit Types (s : disk).

Lemma window_match_entry e l :
  wf_entry e → byte_at (filename e) 0 ≠ 0x00 → byte_at (filename e) 0 ≠ 0xE5 →
  window_match (filename e) (extension e) (DirectoryEntry_bytes e ++ l) = Some (Some e).
Proof.
  intros He H0 HE. pose proof (DirectoryEntry_roundtrip e l He) as Hr.
  pose proof (f_equal filename Hr) as Hn. pose proof (f_equal extension Hr) as Hx.
  destruct He as [[Hl _] _ _ _ _].
  rw /window_match Hr. simpl in Hn, Hx.
  assert (byte_at (DirectoryEntry_bytes e ++ l) 0 = byte_at (filename e) 0) as ->.
  { rw /DirectoryEntry_bytes /byte_at -app_assoc lookup_app_l; [lia|done]. }
  destruct (Z.eqb_spec (byte_at (filename e) 0) 0); [done|].
  destruct (Z.eqb_spec (byte_at (filename e) 0) 229); [done|].
  rw Hn Hx /list_eqb !bool_decide_true; done.
Qed.

(** A match on a free slot is never an entry. *)
Lemma window_match_other e name ext :
  wf_entry e → byte_at (filename e) 0 ≠ 0x00 → byte_at (filename e) 0 ≠ 0xE5 →
  (filename e, extension e) ≠ (name, ext) → window_match name ext (DirectoryEntry_bytes e) = None.
Proof.
  intros He H0 HE Hne. pose proof (window_match_entry e [] He H0 HE) as Hw. rw app_nil_r in Hw.
  revert Hw. rw /window_match. repeat (case_match; try done). intros _.
  rw /list_eqb in H2 H3. rw !andb_true_iff !bool_decide_eq_true in H2 H3.
  destruct H2, H3. congruence.
Qed.

Lemma window_free_match name ext w e :
  window_free w = true → window_match name ext w ≠ Some (Some e).
Proof.
  rw /window_free /window_match. destruct (_ =? 0); [done|]. simpl. by destruct (_ =? 229).
Qed.

Lemma window_match_stop name ext w : window_match name ext w = Some None → window_free w = true.
Proof.
  rw /window_free /window_match. destruct (_ =? 0); [done|]. simpl.
  destruct (_ =? 229); [done|]. by case_match.
Qed.

Lemma empty_slot_elem s p : empty_slot fs s = Some p → p ∈ root_slots fs.
Proof.
  intros (pre & q & post & E & Hq & _)%first_some_Some. case_match; simplify_eq. rw E. set_solver.
Qed.

Lemma locate_lookup s name ext p e :
  locate_file fs s name ext = Some (p, e) →
  p ∈ root_slots fs ∧ lookup_file fs s name ext = Some e ∧
  window_match name ext (slot_window s p) = Some (Some e).
Proof.
  rw /locate_file /lookup_file. destruct (first_some _ _) as [o|] eqn:E; [|done].
  simpl. intros ->. apply first_some_Some in E as (pre & q & post & E & Hq & Hpre).
  rw fmap_Some in Hq. destruct Hq as (o & Ho & Ho'). destruct o as [e'|]; simplify_eq/=.
  split; [rw E; set_solver|]. split; [|done].
  assert (first_some (λ p, window_match name ext (slot_window s p)) (root_slots fs) = Some (Some e'))
    as ->; [|done].
  apply first_some_Some. exists pre, q, post. split; [done|]. split; [done|].
  intros y Hy. specialize (Hpre y Hy). by rw fmap_None in Hpre.
Qed.

(** The slots before the first free one hold entries; if none of them has the
    name, the search goes past them all. *)
Lemma search_prefix s name ext pre post :
  root_slots fs = pre ++ post → (∀ q, q ∈ pre → window_free (slot_window s q) = false) →
  lookup_file fs s name ext = None →
  ∀ q, q ∈ pre → window_match name ext (slot_window s q) = None.
Proof.
  intros E Hpre Hnone. apply first_some_None.
  destruct (first_some _ pre) as [o|] eqn:Ef; [|done]. exfalso.
  rw /lookup_file E first_some_app Ef /= in Hnone. subst o.
  apply first_some_Some in Ef as (pre' & z & post' & -> & Hz & _).
  apply window_match_stop in Hz. rw Hpre in Hz; [set_solver|done].
Qed.

(** Filling the first free slot with an entry of a new name makes that name
    found. *)
Lemma lookup_new s p e :
  wf_entry e → byte_at (filename e) 0 ≠ 0x00 → byte_at (filename e) 0 ≠ 0xE5 →
  empty_slot fs s = Some p → is_sector (s p.1) →
  lookup_file fs s (filename e) (extension e) = None →
  lookup_file fs (dir_set s p e) (filename e) (extension e) = Some e.
Proof.
  intros He H0 HE Hp Hsec Hnone. pose proof (empty_slot_elem _ _ Hp) as Hpin.
  apply first_some_Some in Hp as (pre & q & post & E & Hq & Hpre). case_match; simplify_eq.
  pose proof (NoDup_root_slots fs) as Hnd. rw E in Hnd. apply NoDup_app in Hnd as (_ & Hd & _).
  assert (∀ q, q ∈ pre → window_free (slot_window s q) = false) as Hused.
  { intros q Hq'. specialize (Hpre q Hq'). by case_match. }
  rw /lookup_file.
  assert (first_some (λ q, window_match (filename e) (extension e) (slot_window (dir_set s p e) q))
            (root_slots fs) = Some (Some e)) as ->; [|done].
  apply first_some_Some. exists pre, p, post. split; [done|]. split.
  - rw (slot_window_set s p e fs Hpin Hsec He). rw -(app_nil_r (DirectoryEntry_bytes e)).
    by apply window_match_entry.
  - intros q Hq'. rw (slot_window_set_ne s p q e fs Hpin); [rw E; set_solver| |done..|].
    { intros <-. apply (Hd p Hq'). set_solver. }
    by eapply search_prefix.
Qed.

(** A search for another name is not disturbed by filling the first free slot,
    provided it did not run past that slot. *)
Lemma lookup_other s p e name ext e' :
  wf_entry e → byte_at (filename e) 0 ≠ 0x00 → byte_at (filename e) 0 ≠ 0xE5 →
  (filename e, extension e) ≠ (name, ext) →
  empty_slot fs s = Some p → is_sector (s p.1) →
  lookup_file fs s name ext = Some e' →
  lookup_file fs (dir_set s p e) name ext = Some e'.
Proof.
  intros He H0 HE Hne Hp Hsec Hl. pose proof (empty_slot_elem _ _ Hp) as Hpin.
  rw /lookup_file in Hl. rw /lookup_file.
  destruct (first_some _ (root_slots fs)) as [o|] eqn:Ef in Hl; [|done]. simpl in Hl. subst o.
  assert (window_match name ext (slot_window (dir_set s p e) p) = None) as Hm.
  { rw (slot_window_set s p e fs Hpin Hsec He). by apply window_match_other. }
  apply first_some_Some in Ef as (pre & q & post & E & Hq & Hpre).
  assert (q ≠ p) as Hqp.
  { intros ->. apply first_some_Some in Hp as (pre2 & p2 & post2 & _ & Hp2 & _).
    destruct (window_free _) eqn:Hf; simplify_eq. by eapply window_free_match in Hf. }
  assert (∀ z, z ∈ root_slots fs → z ≠ p →
    slot_window (dir_set s p e) z = slot_window s z) as Hz.
  { intros z Hz Hzp. by eapply slot_window_set_ne. }
  assert (first_some (λ q, window_match name ext (slot_window (dir_set s p e) q))
            (root_slots fs) = Some (Some e')) as ->; [|done].
  apply first_some_Some. exists pre, q, post. split; [done|]. split.
  - rw Hz; [rw E; set_solver|done|done].
  - intros z Hzin. destruct (decide (z = p)) as [->|Hzp]; [done|].
    rw Hz; [rw E; set_solver|done|]. by apply Hpre.
Qed.
End dir_facts.
