(* ===== verification/FatFile.v ===== *)
(** * File contents: reading a chain and writing a new one *)

From S2P Require Import Prelude Device Str Fat16 FatTable FatDir.
#[local] Open Scope Z_scope.

(** ** The bytes of a chain *)

(** The sectors from [lba] on, concatenated. *)
Definition sectors_bytes (s : disk) (lba n : Z) : list Z := mjoin (s <$> seqZ lba n).

Definition cluster_bytes (fs : Fat16FileSystem) (s : disk) (c : Z) : list Z :=
  sectors_bytes s (cluster_lba fs c) (sectors_per_cluster (bpb fs)).

Definition chain_bytes (fs : Fat16FileSystem) (s : disk) (cs : list Z) : list Z :=
  mjoin (cluster_bytes fs s <$> cs).

Definition bytes_per_cluster (fs : Fat16FileSystem) : Z := sectors_per_cluster (bpb fs) * 512.

Lemma sectors_bytes_cons s lba n :
  0 < n → sectors_bytes s lba n = s lba ++ sectors_bytes s (lba + 1) (n - 1).
Proof. intros. rw /sectors_bytes seqZ_head; [lia|done]. Qed.

Lemma sectors_bytes_ext s s' lba n :
  (∀ l, lba ≤ l < lba + n → s' l = s l) → sectors_bytes s' lba n = sectors_bytes s lba n.
Proof.
  intros H. rw /sectors_bytes. f_equal. apply list_fmap_ext. intros i l Hl.
  apply H. apply elem_of_seqZ. by eapply list_elem_of_lookup_2.
Qed.

Lemma length_sectors_bytes s lba n :
  0 ≤ n → (∀ l, lba ≤ l < lba + n → length (s l) = 512%nat) →
  zlen (sectors_bytes s lba n) = n * 512.
Proof.
  intros Hn. revert lba. pattern n. apply natlike_ind; [by intros lba _; rw /sectors_bytes seqZ_nil| |done].
  intros m Hm IH lba H. rw sectors_bytes_cons; [lia|]. rw length_app Nat2Z.inj_add H; [lia|].
  replace (Z.succ m - 1) with m by lia. rw IH; [|lia]. intros; apply H; lia.
Qed.

Section content.
Context {D : Type} `{!BlockDevice D, !BlockDeviceOk D}.
Context (fs : Fat16FileSystem) (Hwf : wf_fs (capacity D) fs).
Implicit Types (d : D) (s : disk).

Lemma cluster_lba_bounds c :
  valid_cluster (capacity D) fs c →
  data_start fs ≤ cluster_lba fs c ∧
  cluster_lba fs c + sectors_per_cluster (bpb fs) ≤ capacity D.
Proof. intros [Hc Hl]. destruct Hwf. rw /cluster_lba in Hl |- *. nia. Qed.

Lemma cluster_to_lba_Done c :
  valid_cluster (capacity D) fs c → cluster_to_lba fs c = Done (cluster_lba fs c).
Proof.
  intros Hv. pose proof (cluster_lba_bounds c Hv) as [H1 H2]. destruct Hv as [Hc _].
  pose proof (@capacity_u28 D _ _). pose proof (data_start_nonneg _ _ Hwf).
  assert (0 ≤ root_sectors fs) by (destruct Hwf; rw /root_sectors; dlia).
  pose proof Hwf as [Hbps Hspc Hres Hfats Hspf Hroot Hcp]. rw /cluster_lba in H1 H2 |- *.
  rw /data_start /root_sectors /root_start in H1 H2 H3 H0 Hcp |- *.
  rw /cluster_to_lba Hbps.
  obind; [apply chk_Done; lia|]. obind; [apply chk_Done; lia|]. obind; [apply chk_Done; lia|].
  obind; [apply chk_div_Done; lia|]. change (512 - 1) with 511.
  obind; [apply chk_Done; nia|]. obind; [apply chk_Done; lia|]. obind; [apply chk_Done; lia|].
  obind; [apply chk_Done; lia|]. obind; [apply chk_Done; lia|]. apply chk_Done. lia.
Qed.

Lemma holds_length d s l : holds d s → 0 ≤ l < capacity D → length (s l) = 512%nat.
Proof. intros Hd Hl. by destruct (holds_sector d s l Hd Hl). Qed.

Lemma length_cluster_bytes d s c :
  holds d s → valid_cluster (capacity D) fs c →
  zlen (cluster_bytes fs s c) = bytes_per_cluster fs.
Proof.
  intros Hd Hv. pose proof (cluster_lba_bounds c Hv). pose proof (data_start_nonneg _ _ Hwf).
  rw /cluster_bytes /bytes_per_cluster. apply length_sectors_bytes; [destruct Hwf; lia|].
  intros l Hl. eapply holds_length; [done|lia].
Qed.

(** ** Reading *)

Lemma read_sectors_spec d s lba k n acc rem :
  holds d s → 0 ≤ lba + k → lba + k + n ≤ capacity D → 0 ≤ n → 0 ≤ rem < 2 ^ 32 →
  runs (read_sectors lba (seqZ k n) acc rem) d (λ r d',
    r = (acc ++ take (Z.to_nat rem) (sectors_bytes s (lba + k) n),
         rem - Z.min rem (n * 512)) ∧ holds d' s).
Proof.
  intros Hd Hk Hcap Hn. revert k acc rem d Hd Hk Hcap. pattern n.
  apply natlike_ind; [| |done].
  - intros k acc rem d Hd _ _ Hrem. rw seqZ_nil; [lia|]. apply runs_ret.
    rw /sectors_bytes seqZ_nil; [lia|]. rw take_nil app_nil_r. split; [|done]. f_equal. lia.
  - intros m Hm IH k acc rem d Hd Hk Hcap Hrem. rw seqZ_head; [lia|]. simpl.
    pose proof (@capacity_u28 D _ _).
    rlift; [apply chk_Done; lia|]. eapply read_run; [done|lia|]. intros d1 Hd1 [Hlen _].
    rlift; [apply slice_Done; rw ?Hlen; lia|].
    rlift; [apply chk_Done; lia|]. rw drop_0 sectors_bytes_cons; [lia|].
    destruct (Z.eqb_spec (rem - Z.min rem 512) 0) as [E|E].
    + apply runs_ret. split; [|done]. f_equal; [|lia]. f_equal.
      rw take_app_le; [rw Hlen; lia|]. f_equal. lia.
    + replace (Z.succ m - 1) with m by lia.
      eapply runs_mono; [apply IH; [done|lia..]|]. intros r d2 [-> Hd2]. split; [|done].
      rw -app_assoc. f_equal; [|lia]. f_equal.
      rw take_app !(take_ge (s (lba + k))); [rw Hlen; lia..|]. f_equal. rw Hlen.
      f_equal; [lia|]. f_equal. lia.
Qed.

(** [read_file]'s loop returns the bytes of the chain it follows. *)
Lemma read_loop_spec fuel d s c cs acc rem :
  holds d s → chain (capacity D) fs s c cs → 0 ≤ rem < 2 ^ 32 →
  rem ≤ zlen (chain_bytes fs s cs) → rem / 512 + 2 ≤ Z.of_nat fuel →
  runs (read_loop fuel fs c acc rem) d (λ r d',
    r = acc ++ take (Z.to_nat rem) (chain_bytes fs s cs) ∧ holds d' s).
Proof.
  revert d c cs acc rem. induction fuel as [|fuel IH]; intros d c cs acc rem Hd Hc Hrem Hlen Hf.
  { exfalso. revert Hf. dlia. }
  destruct cs as [|c' cs]; simpl in Hc.
  - simpl. destruct (Z.ltb_spec c 65528); [lia|]. apply runs_ret. simpl in Hlen.
    assert (rem = 0) as -> by lia. by rw app_nil_r.
  - destruct Hc as (-> & Hv & Hc). pose proof (cluster_lba_bounds c Hv) as [Hb1 Hb2].
    pose proof (data_start_nonneg _ _ Hwf) as [? ?]. pose proof Hwf as [Hbps Hspc Hres Hfats Hspf Hroot Hcp].
    pose proof Hv as [Hcr _]. rw /nclusters in Hcr.
    simpl. destruct (Z.ltb_spec c 65528); [|lia].
    rlift; [by apply cluster_to_lba_Done|].
    rbind. eapply runs_mono; [apply read_sectors_spec; [done|lia..]|].
    intros [acc1 rem1] d1 [[= -> ->] Hd1]. rw Z.add_0_r.
    change (sectors_bytes s (cluster_lba fs c) (sectors_per_cluster (bpb fs)))
      with (cluster_bytes fs s c).
    pose proof (length_cluster_bytes d s c Hd Hv) as Hcl. rw /bytes_per_cluster in Hcl.
    change (chain_bytes fs s (c :: cs)) with (cluster_bytes fs s c ++ chain_bytes fs s cs) in Hlen |- *.
    destruct (Z.eqb_spec (rem - Z.min rem (sectors_per_cluster (bpb fs) * 512)) 0) as [E|E].
    + apply runs_ret. split; [|done]. f_equal. rw take_app_le; [lia|done].
    + rbind. eapply runs_mono; [apply get_fat_entry_spec; [done|apply fat_lba_range; [done|rw /nclusters; lia]]|].
      intros v d2 [-> Hd2].
      eapply runs_mono; [apply IH; [done|done|lia|rw length_app in Hlen; lia|]|].
      { apply Z.le_trans with ((rem - 512) / 512 + 2); [|revert Hf; dlia].
        apply Z.add_le_mono_r, Z.div_le_mono; lia. }
      intros r d3 [-> Hd3]. split; [|done]. rw -app_assoc. f_equal.
      rw take_app !(take_ge (cluster_bytes fs s c)); [lia..|]. f_equal. f_equal. lia.
Qed.

(** [read_file] returns the first [file_size] bytes of the entry's chain and
    leaves the disk as it was. *)
Lemma read_file_spec d s e cs :
  holds d s → chain (capacity D) fs s (cluster_low e) cs →
  0 ≤ file_size e < 2 ^ 32 → file_size e ≤ zlen (chain_bytes fs s cs) →
  runs (read_file fs e) d (λ r d',
    r = take (Z.to_nat (file_size e)) (chain_bytes fs s cs) ∧ holds d' s).
Proof.
  intros Hd Hc Hs Hl. rw /read_file. eapply runs_mono; [eapply read_loop_spec; try done|done].
  rw /read_fuel. dlia.
Qed.
End content.

(** ** Writing one cluster *)

Section write.
Context {D : Type} `{!BlockDevice D, !BlockDeviceOk D}.
Context (fs : Fat16FileSystem) (Hwf : wf_fs (capacity D) fs).
Implicit Types (d : D) (s : disk).

(** A sector buffer holding [part], padded with zeros. *)
Lemma padded_sector (part : list Z) :
  (length part ≤ 512)%nat → Forall is_byte part →
  copy_at zero_sector 0 part = Done (part ++ drop (length part) zero_sector) ∧
  is_sector (part ++ drop (length part) zero_sector).
Proof.
  intros Hl Hb. destruct zero_sector_ok as [Hz Hzb]. split.
  - rw copy_at_Done; [lia|rw Hz; lia|]. done.
  - split; [rw length_app length_drop Hz; lia|].
    apply Forall_app; split; [done|by apply Forall_drop].
Qed.

Lemma write_chunk_spec d s lba k n chunk :
  holds d s → 0 ≤ k → 0 ≤ lba → lba + k + n ≤ capacity D → 0 ≤ n →
  zlen chunk ≤ (k + n) * 512 → Forall is_byte chunk →
  runs (write_chunk lba chunk (seqZ k n)) d (λ _ d', ∃ s', holds d' s' ∧
    (∀ l, ~ (lba + k ≤ l < lba + k + n) → s' l = s l) ∧
    take (length chunk - Z.to_nat (k * 512)) (sectors_bytes s' (lba + k) n) =
      drop (Z.to_nat (k * 512)) chunk).
Proof.
  intros Hd Hk Hlba Hcap Hn Hlen Hb. revert k d s Hd Hk Hcap Hlen. pattern n.
  apply natlike_ind; [| |done].
  - intros k d s Hd Hk _ Hlen. rw seqZ_nil; [lia|]. apply runs_ret. exists s.
    split; [done|]. split; [done|]. rw drop_ge; [lia|]. by rw /sectors_bytes seqZ_nil ?take_nil.
  - intros m Hm IH k d s Hd Hk Hcap Hlen. rw seqZ_head; [lia|]. simpl.
    destruct (Z.leb_spec (zlen chunk) (k * 512)) as [Hle|Hlt].
    { apply runs_ret. exists s. split; [done|]. split; [done|].
      rw drop_ge; [lia|]. by replace (length chunk - Z.to_nat (k * 512))%nat with 0%nat by lia. }
    pose proof (@capacity_u28 D _ _).
    set (len := Z.min 512 (zlen chunk - k * 512)).
    rlift; [apply slice_Done; lia|]. rw Z.add_simpl_l.
    set (part := take (Z.to_nat len) (drop (Z.to_nat (k * 512)) chunk)).
    assert (length part = Z.to_nat len) as Hpl by (rw length_take length_drop; lia).
    destruct (padded_sector part) as [Hc Hsec]; [lia|by apply Forall_take, Forall_drop|].
    rlift; [exact Hc|]. rlift; [apply chk_Done; lia|].
    rbind. eapply runs_mono; [apply write_sector_ok; [done|lia|done]|]. intros [] d1 Hd1.
    replace (Z.succ m - 1) with m by lia.
    eapply runs_mono; [apply (IH (k + 1) d1); [done|lia..]|].
    intros [] d2 (s' & Hd2 & Ho & Ht). exists s'. split; [done|]. split.
    { intros l Hl. rw Ho; [lia|]. rw upd_ne; [lia|done]. }
    rw sectors_bytes_cons; [lia|]. replace (Z.succ m - 1) with m by lia.
    rw (Ho (lba + k)); [lia|]. rw upd_eq. replace (lba + k + 1) with (lba + (k + 1)) by lia.
    destruct (decide (512 ≤ zlen chunk - k * 512)) as [Hge|Hsm].
    + rw (drop_ge zero_sector); [rw Hpl (proj1 zero_sector_ok); lia|]. rw app_nil_r.
      rw take_app (take_ge part); [lia|].
      replace (length chunk - Z.to_nat (k * 512) - length part)%nat
        with (length chunk - Z.to_nat ((k + 1) * 512))%nat by lia.
      rw Ht /part. rw -{2}(take_drop (Z.to_nat len) (drop (Z.to_nat (k * 512)) chunk)).
      f_equal. rw drop_drop. f_equal. lia.
    + rw -app_assoc take_app_le; [lia|]. rw take_ge; [lia|]. rw /part take_ge //. rw length_drop. lia.
Qed.

(** ** Linking a cluster into a chain *)

Definition in_cluster (c l : Z) : Prop :=
  cluster_lba fs c ≤ l < cluster_lba fs c + sectors_per_cluster (bpb fs).

Lemma in_cluster_region c l :
  valid_cluster (capacity D) fs c → in_cluster c l →
  0 ≤ l < capacity D ∧ data_start fs ≤ l ∧ ~ in_fat fs l.
Proof.
  intros Hv Hl. pose proof (cluster_lba_bounds fs Hwf c Hv). rw /in_cluster in Hl.
  pose proof (data_start_nonneg _ _ Hwf). split; [lia|]. split; [lia|].
  intros Hf%(in_fat_bounds (capacity D)); [lia|done].
Qed.

Lemma in_cluster_disj c c' l : c ≠ c' → in_cluster c l → ~ in_cluster c' l.
Proof. intros Hne. rw /in_cluster /cluster_lba. destruct Hwf. nia. Qed.

Lemma cluster_bytes_ext s s' c :
  (∀ l, in_cluster c l → s' l = s l) → cluster_bytes fs s' c = cluster_bytes fs s c.
Proof. apply sectors_bytes_ext. Qed.

Lemma fat_get_same s s' c :
  (∀ l, in_fat fs l → s' l = s l) → 0 ≤ c < nclusters fs → fat_get fs s' c = fat_get fs s c.
Proof. intros. by apply fat_get_ext. Qed.

Definition disk_ok (s : disk) : Prop := ∀ l, 0 ≤ l < capacity D → is_sector (s l).

Lemma holds_disk_ok d s : holds d s → disk_ok s.
Proof. intros Hd l Hl. by eapply holds_sector. Qed.

Lemma fat_set_disk_ok s c v :
  disk_ok s → 0 ≤ c < nclusters fs → disk_ok (fat_set fs s c v).
Proof.
  intros Hs Hc l Hl. destruct (decide (l = fat_lba fs c)) as [->|Hne].
  - apply fat_set_sector, Hs. by apply fat_lba_range.
  - rw /fat_set upd_ne; [done|]. by apply Hs.
Qed.

(** The table after a cluster [c] is marked as the end of a chain and, if there
    is a previous cluster, linked after it. *)
Definition link (s : disk) (prev : option Z) (c : Z) : disk :=
  match prev with
  | None => fat_set fs s c 0xFFFF
  | Some p => fat_set fs (fat_set fs s c 0xFFFF) p c
  end.

(** The previous cluster of an allocation loop: a cluster in use. *)
Definition wf_prev (s : disk) (prev : option Z) : Prop :=
  ∀ p, prev = Some p → 0 ≤ p < nclusters fs ∧ fat_get fs s p ≠ 0.

Record linked (s s' : disk) (prev : option Z) (c : Z) : Prop := {
  ln_end : fat_get fs s' c = 0xFFFF;
  ln_prev : ∀ p, prev = Some p → fat_get fs s' p = c;
  ln_other : ∀ x, 0 ≤ x < nclusters fs → x ≠ c → prev ≠ Some x → fat_get fs s' x = fat_get fs s x;
  ln_frame : ∀ l, ~ in_fat fs l → s' l = s l;
}.

Lemma link_linked s prev c cs :
  disk_ok s → wf_prev s prev → free_clusters fs s = c :: cs → 0 < c →
  linked s (link s prev c) prev c ∧ free_clusters fs (link s prev c) = cs.
Proof.
  intros Hs Hp Hf Hc0.
  assert (0 ≤ c < nclusters fs ∧ fat_get fs s c = 0) as [Hc Hz].
  { apply elem_free. rw Hf. set_solver. }
  pose proof (fat_lba_range _ fs c Hwf Hc) as Hlc. pose proof Hwf as [_ _ _ _ Hspf _ _].
  assert (nclusters fs < 65536) as Hn by (rw /nclusters; lia).
  pose proof (free_clusters_alloc fs s c cs 0xFFFF Hf (Hs _ Hlc) ltac:(lia)) as Ha.
  destruct prev as [p|]; simpl; split.
  - destruct (Hp p eq_refl) as [Hpr Hpu]. assert (p ≠ c) by congruence.
    pose proof (fat_lba_range _ fs p Hwf Hpr) as Hlp.
    pose proof (fat_set_disk_ok s c 0xFFFF Hs Hc _ Hlp) as Hs1.
    split.
    + rw fat_get_set_ne; [lia..|]. by apply fat_get_set_eq; [apply Hs|lia].
    + intros ? [= <-]. apply fat_get_set_eq; [done|lia].
    + intros x Hx Hxc Hxp. rw !fat_get_set_ne; congruence || lia.
    + intros l Hl. by rw !fat_set_other.
  - destruct (Hp p eq_refl) as [Hpr Hpu]. assert (p ≠ c) by congruence.
    rw free_clusters_set; [done| |..|done].
    + rw fat_get_set_ne; [lia..|]. done.
    + apply fat_set_disk_ok; [done|done|]. by apply fat_lba_range.
    + lia.
  - split.
    + by apply fat_get_set_eq; [apply Hs|lia].
    + done.
    + intros x Hx Hxc _. rw fat_get_set_ne; lia || done.
    + intros l Hl. by rw fat_set_other.
  - done.
Qed.

(** ** The allocation loop *)

(** The number of clusters [n] bytes take. *)
Definition clusters_needed (n : Z) : Z := (n + bytes_per_cluster fs - 1) / bytes_per_cluster fs.

Lemma clusters_needed_0 : clusters_needed 0 = 0.
Proof. rw /clusters_needed /bytes_per_cluster. destruct Hwf. apply Z.div_small. lia. Qed.

Lemma clusters_needed_step n :
  0 < n → clusters_needed n = 1 + clusters_needed (n - Z.min n (bytes_per_cluster fs)).
Proof.
  intros Hn. pose proof Hwf as [_ Hspc _ _ _ _ _].
  assert (0 < bytes_per_cluster fs) as Hb by (rw /bytes_per_cluster; lia).
  rw /clusters_needed. destruct (Z.le_ge_cases n (bytes_per_cluster fs)).
  - rw Z.min_l; [lia|]. rw Z.sub_diag (Z.div_small (0 + _ - 1)); [lia|].
    symmetry. apply (Z.div_unique _ _ _ (n - 1)); lia.
  - rw Z.min_r; [lia|].
    replace (n + bytes_per_cluster fs - 1)
      with (n - bytes_per_cluster fs + bytes_per_cluster fs - 1 + 1 * bytes_per_cluster fs) by lia.
    rw Z.div_add; lia.
Qed.

(** What an allocation loop that took the clusters [cs] for the bytes [todo] has
    done to the disk. *)
Record written (s s' : disk) (prev : option Z) (cs todo : list Z) : Prop := {
  wr_other : ∀ x, 0 ≤ x < nclusters fs → x ∉ cs → prev ≠ Some x →
               fat_get fs s' x = fat_get fs s x;
  wr_prev : ∀ p, prev = Some p → fat_get fs s' p = default (fat_get fs s p) (head cs);
  wr_chain : ∀ c, head cs = Some c → chain (capacity D) fs s' c cs;
  wr_data : take (length todo) (chain_bytes fs s' cs) = todo;
  wr_frame : ∀ l, ~ in_fat fs l → (∀ c, c ∈ cs → ~ in_cluster c l) → s' l = s l;
}.

Lemma written_nil s prev : written s s prev [] [].
Proof. split; try done. Qed.

(** One more cluster in front of what the rest of the loop wrote. *)
Lemma written_cons s s2 s3 s4 prev c cs chunk todo :
  valid_cluster (capacity D) fs c → c ∉ cs → prev ≠ Some c →
  (∀ p, prev = Some p → 0 ≤ p < nclusters fs ∧ p ∉ cs) →
  Forall (valid_cluster (capacity D) fs) cs →
  linked s s2 prev c →
  (∀ l, ~ in_cluster c l → s3 l = s2 l) →
  take (length chunk) (cluster_bytes fs s3 c) = chunk →
  (todo ≠ [] → length chunk = length (cluster_bytes fs s3 c)) →
  (todo ≠ [] ↔ cs ≠ []) →
  written s3 s4 (Some c) cs todo →
  written s s4 prev (c :: cs) (chunk ++ todo).
Proof.
  intros Hv Hnin Hpc Hp Hcs Hln H3 Hchunk Hfull Hempty Hw. pose proof Hv as [Hcr _].
  assert (∀ x, 0 ≤ x < nclusters fs → fat_get fs s3 x = fat_get fs s2 x) as Hfat.
  { intros x Hx. apply fat_get_same; [|done]. intros l Hl. apply H3. intros Hc.
    by apply (in_cluster_region c l Hv Hc). }
  assert (∀ l, in_cluster c l → s4 l = s3 l) as Hc4.
  { intros l Hl. destruct (in_cluster_region c l Hv Hl) as (_ & _ & Hnf).
    eapply wr_frame; [done|done|]. intros c' Hc'. eapply in_cluster_disj; [|done]. by intros ->. }
  split.
  - intros x Hx Hxc Hxp. rw (wr_other _ _ _ _ _ Hw); [done|set_solver|set_solver|].
    rw Hfat; [done|]. apply (ln_other _ _ _ _ Hln); [done|set_solver|done].
  - intros p ->. destruct (Hp p eq_refl) as [Hpr Hpn].
    rw (wr_other _ _ _ _ _ Hw); [done|done|congruence|].
    rw Hfat; [done|]. simpl. by apply (ln_prev _ _ _ _ Hln).
  - intros c' [= <-]. split; [done|]. split; [done|].
    rw (wr_prev _ _ _ _ _ Hw c eq_refl).
    destruct cs as [|c2 cs]; simpl.
    + rw Hfat; [lia|]. rw (ln_end _ _ _ _ Hln). lia.
    + apply (wr_chain _ _ _ _ _ Hw). done.
  - change (chain_bytes fs s4 (c :: cs)) with (cluster_bytes fs s4 c ++ chain_bytes fs s4 cs).
    rw (cluster_bytes_ext s3 s4 c Hc4) length_app. pose proof (wr_data _ _ _ _ _ Hw) as Hd.
    destruct todo as [|b todo].
    + rw app_nil_r Nat.add_0_r take_app_le; [|done].
      rw -{1}Hchunk length_take. lia.
    + rw take_app. rw Hfull; [done|]. rw take_ge; [lia|].
      rw Hfull in Hchunk; [done|]. rw take_ge in Hchunk; [lia|]. rw Hchunk. f_equal.
      rw -{2}Hd. f_equal. lia.
  - intros l Hl Hc. rw (wr_frame _ _ _ _ _ Hw l Hl); [set_solver|]. rw H3; [set_solver|].
    by apply (ln_frame _ _ _ _ Hln).
Qed.

(** The body of one iteration, up to the recursive call. *)
Lemma write_step d s prev c cs chunk sl {A} (k : Z → proc D A) first Q :
  sl = Done chunk → holds d s → wf_prev s prev → free_clusters fs s = c :: cs →
  valid_cluster (capacity D) fs c →
  Forall is_byte chunk → zlen chunk ≤ bytes_per_cluster fs →
  (∀ d3 s3, holds d3 s3 →
     linked s (link s prev c) prev c →
     (∀ l, ~ in_cluster c l → s3 l = link s prev c l) →
     take (length chunk) (cluster_bytes fs s3 c) = chunk →
     free_clusters fs s3 = cs →
     runs (k (match prev with None => c | Some _ => first end)) d3 Q) →
  runs (set_fat_entry fs c 0xFFFF ;;
        first_cluster ←
          match prev with
          | None => mret c
          | Some p => set_fat_entry fs p c ;; mret first
          end;
        cluster_lba ← lift (cluster_to_lba fs c);
        chunk ← lift sl;
        write_chunk cluster_lba chunk (seqZ 0 (sectors_per_cluster (bpb fs))) ;;
        k first_cluster) d Q.
Proof.
  intros Hsl Hd Hp Hf Hv Hb Hl Hk. pose proof Hv as [Hc _]. pose proof Hwf as [_ Hspc _ _ _ _ _].
  destruct (link_linked s prev c cs (holds_disk_ok d s Hd) Hp Hf ltac:(lia)) as [Hln Hfree].
  pose proof (cluster_lba_bounds fs Hwf c Hv) as [Hlb1 Hlb2].
  pose proof (data_start_nonneg _ _ Hwf).
  rbind. eapply runs_mono; [apply set_fat_entry_spec; [done|apply fat_lba_range; [done|lia]]|].
  intros [] d1 Hd1. rbind.
  assert (runs (match prev with
          | None => mret c
          | Some p => set_fat_entry fs p c ;; mret first
          end) d1 (λ f d2, f = match prev with None => c | Some _ => first end ∧
                           holds d2 (link s prev c))) as Hlink.
  { destruct prev as [p|]; [|by apply runs_ret]. destruct (Hp p eq_refl) as [Hpr _].
    rbind. eapply runs_mono; [apply set_fat_entry_spec; [done|by apply fat_lba_range]|].
    intros [] d2 Hd2. by apply runs_ret. }
  eapply runs_mono; [exact Hlink|]. intros f d2 [-> Hd2].
  rlift; [by apply cluster_to_lba_Done|]. rlift; [exact Hsl|].
  rbind. eapply runs_mono; [apply write_chunk_spec; [done|lia|lia|lia|lia|rw /bytes_per_cluster in Hl; lia|done]|].
  intros [] d3 (s3 & Hd3 & Ho & Ht). rw Z.add_0_r in Ho. rw Z.add_0_r in Ht.
  rw drop_0 Nat.sub_0_r in Ht. eapply Hk; [exact Hd3|done|..|].
  - intros l Hl'. apply Ho. exact Hl'.
  - exact Ht.
  - rw -Hfree. apply free_clusters_same. intros l Hlf. apply Ho.
    intros Hc'. by apply (in_cluster_region c l Hv Hc').
Qed.

Lemma NoDup_free s : NoDup (free_clusters fs s).
Proof. apply NoDup_filter, NoDup_seqZ. Qed.

(** One iteration takes one cluster of those needed; none is needed exactly when no
    byte is left. *)
Lemma clusters_needed_nat m :
  0 < m → Z.to_nat (clusters_needed m) = S (Z.to_nat (clusters_needed (m - Z.min m (bytes_per_cluster fs)))).
Proof.
  intros Hm. pose proof Hwf as [_ Hspc _ _ _ _ _].
  assert (0 < bytes_per_cluster fs) as Hbpc by (rw /bytes_per_cluster; lia).
  assert (0 ≤ clusters_needed (m - Z.min m (bytes_per_cluster fs))) by (apply Z.div_pos; lia).
  pose proof (clusters_needed_step m Hm). lia.
Qed.

Lemma clusters_needed_none m : 0 ≤ m → Z.to_nat (clusters_needed m) = 0%nat ↔ m = 0.
Proof.
  intros Hm. split; [|intros ->; by rw clusters_needed_0].
  intros E. destruct (decide (m = 0)) as [|Hn]; [done|]. rw clusters_needed_nat in E; [lia|done].
Qed.

(** The cluster just written is a link the next one can be chained to. *)
Lemma written_prev s s3 prev c :
  valid_cluster (capacity D) fs c → linked s (link s prev c) prev c →
  (∀ l, ~ in_cluster c l → s3 l = link s prev c l) → wf_prev s3 (Some c).
Proof.
  intros Hvc Hln Ho ? [= <-]. pose proof Hvc as [Hcr _]. split; [lia|].
  rw (fat_get_same (link s prev c) s3); [|lia|].
  - intros l Hl. apply Ho. intros Hc. by apply (in_cluster_region c l Hvc Hc).
  - rw (ln_end _ _ _ _ Hln). lia.
Qed.

(** The loop of [write_new_file] and [overwrite_file]: it takes the first free
    clusters, one for every [bytes_per_cluster] bytes, and stores the bytes that
    are left in them, in order. *)
Lemma write_loop_spec fuel d s data bw prev first :
  holds d s → Forall is_byte data → data ≠ [] → 0 ≤ bw ≤ zlen data → wf_prev s prev →
  let n := Z.to_nat (clusters_needed (zlen data - bw)) in
  let cs := take n (free_clusters fs s) in
  (n ≤ length (free_clusters fs s))%nat → Forall (valid_cluster (capacity D) fs) cs →
  (n < fuel)%nat →
  runs (write_loop fuel fs data bw prev first) d (λ r d', ∃ s', holds d' s' ∧
    r = Ok (match prev with None => default first (head cs) | Some _ => first end) ∧
    written s s' prev cs (drop (Z.to_nat bw) data)).
Proof.
  intros Hd Hb Hne. revert d s bw prev first Hd.
  induction fuel as [|fuel IH]; intros d s bw prev first Hd Hbw Hp n cs Hn Hv Hfuel; [lia|].
  assert (is_empty data = false) as Hemp by by destruct data. simpl. rw Hemp orb_false_r.
  destruct (Z.ltb_spec bw (zlen data)) as [Hlt|Hge].
  2:{ assert (n = 0%nat) as Hn0.
      { rw /n. replace (zlen data - bw) with 0 by lia. by rw clusters_needed_0. }
      apply runs_ret. exists s. split; [done|]. rw /cs Hn0 /=. split; [by destruct prev|].
      rw drop_ge; [lia|]. apply written_nil. }
  set (sz := Z.min (zlen data - bw) (bytes_per_cluster fs)).
  pose proof Hwf as [_ Hspc _ _ _ _ _].
  assert (0 < bytes_per_cluster fs) as Hbpc by (rw /bytes_per_cluster; lia).
  set (n' := Z.to_nat (clusters_needed (zlen data - (bw + sz)))).
  assert (n = S n') as HnS.
  { rw /n /n' clusters_needed_nat; [lia|]. by rw Z.sub_add_distr. }
  rbind. eapply runs_mono; [by apply find_free_cluster_spec|]. intros r d1 [-> Hd1].
  destruct (free_clusters fs s) as [|c rest] eqn:Hf; [simpl in Hn; lia|]. simpl.
  change (sectors_per_cluster (bpb fs) * 512) with (bytes_per_cluster fs). fold sz.
  assert (cs = c :: take n' rest) as Hcs by (by rw /cs HnS).
  rw Hcs in Hv. apply Forall_cons in Hv as [Hvc Hv].
  pose proof (NoDup_free s) as Hnd. rw Hf in Hnd. apply NoDup_cons in Hnd as [Hnin _].
  assert (c ∉ take n' rest) as Hnin' by (intros Hc; by apply Hnin, (subseteq_take n')).
  pose proof Hvc as [Hcr _].
  assert (fat_get fs s c = 0) as Hc0 by (apply (elem_free fs s c); rw Hf; set_solver).
  assert (prev ≠ Some c) as Hpc by (intros ->; by destruct (Hp c eq_refl)).
  set (chunk := take (Z.to_nat sz) (drop (Z.to_nat bw) data)).
  assert (zlen chunk = sz) as Hcl by (rw length_take length_drop; lia).
  eapply (write_step d1 s prev c rest chunk); [|done..| |lia|].
  { rw slice_Done; [lia..|]. by rw Z.add_simpl_l. }
  { by apply Forall_take, Forall_drop. }
  intros d3 s3 Hd3 Hln Ho Ht Hfr.
  pose proof (written_prev s s3 prev c Hvc Hln Ho) as Hp3.
  eapply runs_mono; [apply IH; [done|lia|done|..]|].
  { rw Hfr. simpl in Hn. fold n'. lia. }
  { by rw Hfr. }
  { fold n'. lia. }
  intros r d4 (s4 & Hd4 & -> & Hw). rw Hfr in Hw. fold n' in Hw.
  exists s4. split; [done|]. split; [rw Hcs; by destruct prev|].
  rw Hcs. rw -(take_drop (Z.to_nat sz) (drop (Z.to_nat bw) data)) drop_drop.
  replace (Z.to_nat bw + Z.to_nat sz)%nat with (Z.to_nat (bw + sz)) by lia.
  eapply (written_cons s (link s prev c) s3); try done.
  - intros p ->. destruct (Hp p eq_refl) as [? Hpu]. split; [done|]. intros Hin.
    apply Hpu, (elem_free fs s). rw Hf. apply list_elem_of_further. by apply (subseteq_take n').
  - intros Htodo. apply Nat2Z.inj. rw (length_cluster_bytes fs Hwf d3 s3 c Hd3 Hvc) Hcl.
    assert (length (drop (Z.to_nat (bw + sz)) data) ≠ 0%nat) as Hl0 by (by intros ?%nil_length_inv).
    rw length_drop in Hl0. lia.
  - pose proof (clusters_needed_none (zlen data - (bw + sz)) ltac:(lia)) as Hz. fold n' in Hz. simpl in Hn.
    rw -!length_zero_iff_nil length_take length_drop. lia.
Qed.
End write.
