(* ===== verification/FsSpec.v ===== *)
(** * The filesystem contract

    [stored] says that a name of the root directory holds a content.  The
    theorems say what the public operations do to it: reading returns the
    content, writing a new file or overwriting one stores it, and nothing else
    changes. *)

From S2P Require Import Prelude Device Str Fat16 FatTable FatDir FatFile.
#[local] Open Scope Z_scope.

(** ** Stored files *)

(** The entry [e] describes a chain whose first [file_size e] bytes are
    [content]. *)
Definition entry_content (cap : Z) (fs : Fat16FileSystem) (s : disk) (e : DirectoryEntry)
    (content : list Z) : Prop :=
  ∃ cs, chain cap fs s (cluster_low e) cs ∧
        file_size e = zlen content ∧ zlen content < 2 ^ 32 ∧
        take (length content) (chain_bytes fs s cs) = content.

Definition stored (cap : Z) (fs : Fat16FileSystem) (s : disk) (name ext content : list Z) : Prop :=
  ∃ e, lookup_file fs s name ext = Some e ∧ entry_content cap fs s e content.

(** The clusters a file of these bytes takes; an empty file takes one. *)
Definition alloc_count (fs : Fat16FileSystem) (data : list Z) : nat :=
  if is_empty data then 1%nat else Z.to_nat (clusters_needed fs (zlen data)).

(** The clusters the allocator will take are there and lie on the drive. *)
Definition enough (cap : Z) (fs : Fat16FileSystem) (free data : list Z) : Prop :=
  (alloc_count fs data ≤ length free)%nat ∧
  Forall (valid_cluster cap fs) (take (alloc_count fs data) free).
#[export] Instance enough_dec cap fs free data : Decision (enough cap fs free data).
Proof. rw /enough. apply _. Defined.

(** A usable 8.3 name, as the commands build it. *)
Record wf_name (name ext : list Z) : Prop := {
  wn_name : length name = 8%nat ∧ Forall is_byte name;
  wn_ext : length ext = 3%nat ∧ Forall is_byte ext;
  wn_first : byte_at name 0 ≠ 0x00 ∧ byte_at name 0 ≠ 0xE5;
}.

Section contract.
Context {D : Type} `{!BlockDevice D, !BlockDeviceOk D}.
Context (fs : Fat16FileSystem) (Hwf : wf_fs (capacity D) fs).
Implicit Types (d : D) (s : disk).

Notation stored := (stored (capacity D) fs).
Notation enough := (enough (capacity D) fs).

Lemma alloc_count_pos data : (0 < alloc_count fs data)%nat.
Proof.
  rw /alloc_count. destruct data as [|b data]; simpl; [lia|].
  rw (clusters_needed_step fs Hwf); [simpl; lia|].
  assert (0 ≤ clusters_needed fs (zlen (b :: data) - Z.min (zlen (b :: data)) (bytes_per_cluster fs)))
    as H; [|simpl in H |- *; lia].
  apply Z.div_pos; destruct Hwf; rw /bytes_per_cluster; lia.
Qed.

(** The shared allocation loop, from its start. *)
Lemma write_loop_run d s data :
  holds d s → Forall is_byte data → enough (free_clusters fs s) data →
  runs (write_loop (write_fuel fs) fs data 0 None 0) d (λ r d', ∃ s' c,
    let cs := take (alloc_count fs data) (free_clusters fs s) in
    holds d' s' ∧ head cs = Some c ∧ r = Ok c ∧ written fs s s' None cs data).
Proof.
  intros Hd Hb [Hn Hv]. pose proof (alloc_count_pos data) as Hpos.
  pose proof Hwf as [_ Hspc _ _ Hspf _ _].
  assert (length (free_clusters fs s) ≤ Z.to_nat (nclusters fs))%nat as Hlen.
  { rw /free_clusters. etrans; [apply length_filter|]. by rw length_seqZ. }
  destruct (decide (data = [])) as [->|Hne].
  - rw /alloc_count /= in Hn Hv |- *.
    destruct (free_clusters fs s) as [|c rest] eqn:Hf; [simpl in Hn; lia|]. simpl in Hv |- *.
    apply Forall_cons in Hv as [Hv _]. rw take_0.
    rw /write_fuel. replace (Z.to_nat (256 * _ + 1)) with (S (Z.to_nat (nclusters fs)))
      by (rw /nclusters; lia). simpl.
    rbind. eapply runs_mono; [by apply find_free_cluster_spec|]. intros r d1 [-> Hd1].
    rw Hf /=.
    eapply (write_step fs Hwf d1 s None c rest [] _ _ 0); [|done..|rw /bytes_per_cluster /=; lia|].
    { rw slice_Done; [simpl; lia..|]. by rw drop_nil take_nil. }
    intros d3 s3 Hd3 Hln Ho _ _. apply runs_ret. exists s3, c. split; [done|]. split; [done|].
    split; [done|]. apply (written_cons fs Hwf s (link fs s None c) s3 s3 None c [] [] []); try done.
    all: try apply written_nil; set_solver.
  - assert (alloc_count fs data = Z.to_nat (clusters_needed fs (zlen data))) as Ha.
    { rw /alloc_count. by destruct data. }
    eapply runs_mono; [apply (write_loop_spec fs Hwf); try done|].
    + lia.
    + by rw Z.sub_0_r -Ha.
    + by rw Z.sub_0_r -Ha.
    + rw Z.sub_0_r -Ha /write_fuel. rw /nclusters in Hlen. lia.
    + intros r d' (s' & Hd' & -> & Hw). rw Z.sub_0_r -Ha drop_0 in Hw |- *.
      destruct (free_clusters fs s) as [|c rest]; [simpl in Hn; lia|].
      destruct (alloc_count fs data) as [|m]; [lia|]. simpl in Hw |- *.
      exists s', c. done.
Qed.

(** ** Writing a new file *)

Lemma new_entry_wf name ext c n :
  wf_name name ext → 0 ≤ c < 65536 → 0 ≤ n < 2 ^ 32 →
  wf_entry (new_entry name ext c n) ∧ file_size (new_entry name ext c n) = n.
Proof.
  intros [Hn Hx _] Hc Hs.
  assert (file_size (new_entry name ext c n) = n) as E by (rw /= /wrap Z.mod_small; lia).
  split; [|done]. split; [done|done| | |by rw E].
  - repeat constructor; rw /is_byte /=; lia.
  - simpl. repeat constructor; rw /is_u16; lia.
Qed.

Lemma slot_window_frame s s' p :
  p ∈ root_slots fs → (∀ l, in_root fs l → s' l = s l) → slot_window s' p = slot_window s p.
Proof.
  destruct p as [lba off]. intros [Hin _]%elem_root_slots Hs. rw /slot_window /=. by rw Hs.
Qed.

Lemma empty_slot_frame s s' :
  (∀ l, in_root fs l → s' l = s l) → empty_slot fs s' = empty_slot fs s.
Proof.
  intros Hs. apply first_some_ext. intros p Hp. by rw (slot_window_frame s s').
Qed.

Lemma lookup_file_frame s s' name ext :
  (∀ l, in_root fs l → s' l = s l) → lookup_file fs s' name ext = lookup_file fs s name ext.
Proof.
  intros Hs. rw /lookup_file. f_equal. apply first_some_ext. intros p Hp.
  by rw (slot_window_frame s s').
Qed.

Lemma in_root_not_fat l : in_root fs l → ~ in_fat fs l.
Proof.
  intros Hr Hf%(in_fat_bounds (capacity D)); [|done]. rw /in_root in Hr. lia.
Qed.

Lemma in_root_not_cluster l c :
  valid_cluster (capacity D) fs c → in_root fs l → ~ in_cluster fs c l.
Proof.
  intros Hv Hr Hl. destruct (in_cluster_region fs Hwf c l Hv Hl) as (_ & ? & _).
  rw /in_root in Hr. lia.
Qed.

(** An allocation touches no sector of the directory. *)
Lemma written_root s s' prev cs todo :
  written fs s s' prev cs todo → Forall (valid_cluster (capacity D) fs) cs →
  ∀ l, in_root fs l → s' l = s l.
Proof.
  intros Hw Hv l Hl. eapply wr_frame; [done|by apply in_root_not_fat|].
  intros c Hc. apply in_root_not_cluster; [|done]. by eapply Forall_forall in Hv.
Qed.

Lemma dir_set_frame s p e l : l ≠ p.1 → dir_set s p e l = s l.
Proof. intros. by rw /dir_set upd_ne. Qed.

(** Chains and their bytes do not depend on the directory. *)
Lemma entry_content_dir s p e e' content :
  p ∈ root_slots fs → entry_content (capacity D) fs s e content →
  entry_content (capacity D) fs (dir_set s p e') e content.
Proof.
  destruct p as [lba off]. intros [Hin _]%elem_root_slots (cs & Hc & Hs & Hlt & Ht).
  pose proof (chain_valid _ _ _ _ _ Hc) as Hv.
  exists cs. split; [|split; [done|split; [done|]]].
  - eapply chain_ext; [|done]. intros x Hx. apply fat_get_same.
    + intros l Hl. apply dir_set_frame. intros ->. by eapply in_root_not_fat.
    + eapply Forall_forall in Hv as [? _]; [|done]. lia.
  - rewrite <-Ht at 2. f_equal. rw /chain_bytes. f_equal. apply list_fmap_ext.
    intros i c Hi%list_elem_of_lookup_2. apply cluster_bytes_ext. intros l Hl.
    apply dir_set_frame. intros ->. eapply in_root_not_cluster; [|done..].
    by eapply Forall_forall in Hv.
Qed.

(** The file just written. *)
Lemma written_content s s' cs c data name ext :
  written fs s s' None cs data → head cs = Some c → zlen data < 2 ^ 32 →
  wf_name name ext → 0 ≤ c < 65536 →
  entry_content (capacity D) fs s' (new_entry name ext c (zlen data)) data.
Proof.
  intros Hw Hh Hl Hn Hc. exists cs. destruct (new_entry_wf name ext c (zlen data)) as [_ E]; [done|lia..|].
  rw E. split; [by apply (wr_chain _ _ _ _ _ _ Hw)|]. split; [done|]. split; [done|].
  apply (wr_data _ _ _ _ _ _ Hw).
Qed.

(** A file that was stored keeps its chain and its bytes. *)
Lemma written_other s s' cs todo e content :
  written fs s s' None cs todo → Forall (valid_cluster (capacity D) fs) cs →
  (∀ x, x ∈ cs → fat_get fs s x = 0) →
  entry_content (capacity D) fs s e content → entry_content (capacity D) fs s' e content.
Proof.
  intros Hw Hv Hz (os & Hc & Hs & Hlt & Ht).
  pose proof (chain_valid _ _ _ _ _ Hc) as Hov. pose proof (chain_used _ _ _ _ _ Hwf Hc) as Hou.
  rw !Forall_forall in Hv Hov Hou.
  assert (∀ x, x ∈ os → x ∉ cs) as Hdisj by (intros x Hx Hx'; by apply (Hou x Hx), Hz).
  exists os. split; [|split; [done|split; [done|]]].
  - eapply chain_ext; [|done]. intros x Hx. apply (wr_other _ _ _ _ _ _ Hw); [|auto|done].
    destruct (Hov x Hx) as [? _]. lia.
  - rewrite <-Ht at 2. f_equal. rw /chain_bytes. f_equal. apply list_fmap_ext.
    intros i c Hi%list_elem_of_lookup_2. apply cluster_bytes_ext. intros l Hl.
    apply (wr_frame _ _ _ _ _ _ Hw).
    + by destruct (in_cluster_region fs Hwf c l (Hov c Hi) Hl) as (_ & _ & ?).
    + intros c' Hc'. apply (in_cluster_disj fs Hwf c c' l); [|done]. intros ->. by eapply Hdisj.
Qed.

(** Everything [write_new_file] does when there is room. *)
Lemma write_new_file_run d s name ext data p :
  holds d s → wf_name name ext → Forall is_byte data → zlen data < 2 ^ 32 →
  empty_slot fs s = Some p → enough (free_clusters fs s) data →
  runs (write_new_file fs name ext data) d (λ r d', ∃ s1 c,
    let cs := take (alloc_count fs data) (free_clusters fs s) in
    let e := new_entry name ext c (zlen data) in
    r = Ok tt ∧ holds d' (dir_set s1 p e) ∧ wf_entry e ∧ 0 ≤ c < 65536 ∧
    written fs s s1 None cs data ∧ head cs = Some c ∧ is_sector (s1 p.1)).
Proof.
  intros Hd Hn Hb Hl Hp He. pose proof (empty_slot_elem _ _ _ Hp) as Hpin.
  rw /write_new_file. rbind. eapply runs_mono; [by apply find_empty_root_slot_spec|].
  intros r d1 [-> Hd1]. rw Hp. destruct p as [lba off].
  rbind. eapply runs_mono; [by apply write_loop_run|].
  intros r d2 (s1 & c & Hd2 & Hh & -> & Hw).
  assert (0 ≤ c < 65536) as Hc.
  { destruct He as [_ Hv]. destruct (take _ _) as [|c' cs]; simplify_eq/=.
    apply Forall_cons in Hv as [[? _] _]. pose proof Hwf as [_ _ _ _ ? _ _].
    rw /nclusters in H. lia. }
  destruct (new_entry_wf name ext c (zlen data)) as [Hwe _]; [done|lia..|].
  rbind. eapply runs_mono; [by apply (store_entry_spec fs Hwf d2 s1 (lba, off))|].
  intros [] d3 Hd3. apply runs_ret. exists s1, c. split_and!; try done; try lia.
  eapply holds_sector; [done|]. apply elem_root_slots in Hpin as [? _]. by apply (in_root_cap fs Hwf).
Qed.
End contract.
