(* ===== verification/FsTheorems.v ===== *)
(** * Theorems on the filesystem operations *)

From S2P Require Import Prelude Device Str Fat16 FatTable FatDir FatFile FsSpec.
#[local] Open Scope Z_scope.

(** ** A small volume for the witnesses

    Sixteen sectors: boot sector, one table sector, one directory sector, then
    clusters of one sector, numbered from 2. *)

Definition tiny_bpb : Bpb := {|
  jump := [0xEB; 0x3C; 0x90]; oem_name := str "myOS    ";
  bytes_per_sector := 512; sectors_per_cluster := 1; reserved_sectors := 1;
  fat_count := 1; root_entries := 16; total_sectors_16 := 16; media_type := 0xF8;
  sectors_per_fat := 1;
|}.
Definition tiny_fs : Fat16FileSystem := {| bpb := tiny_bpb |}.
Definition tiny_cap : Z := 16.
Lemma tiny_cap_ok : 0 ≤ tiny_cap ≤ 2 ^ 28.
Proof. done. Qed.
#[export] Instance tiny_device : BlockDeviceOk MemDisk := MemDisk_ok tiny_cap tiny_cap_ok.

(** The empty volume: entries 0 and 1 of the table are reserved. *)
Definition tiny_disk : MemDisk :=
  {| md_size := tiny_cap;
     md_data := {[ 1 := [0xF8; 0xFF; 0xFF; 0xFF] ++ replicate 508 0 ]} |}.

Lemma tiny_wf : wf_fs (capacity MemDisk) tiny_fs.
Proof. by split. Qed.

(** A drive in memory holds its own contents if every stored sector is one. *)
Lemma md_holds_self d :
  bool_decide (map_Forall (λ _ b, length b = 512%nat ∧ Forall (λ x, 0 ≤ x < 256) b) (md_data d)) = true →
  md_holds (md_size d) d (md_sector d).
Proof.
  intros H%bool_decide_eq_true. split; [done|]. intros l _. split; [|done].
  rw /md_sector. destruct (md_data d !! l) as [b|] eqn:E; simpl; [|apply zero_sector_ok].
  destruct (H l b E) as [? Hb]. split; [done|]. exact Hb.
Qed.

Lemma tiny_holds : holds tiny_disk (md_sector tiny_disk).
Proof. apply (md_holds_self tiny_disk). reflexivity. Qed.

Definition tiny_name : list Z := str "NOTES   ".
Definition tiny_ext : list Z := str "TXT".
Lemma tiny_name_ok : wf_name tiny_name tiny_ext.
Proof. split; split; try done; repeat constructor; rw /is_byte; done. Qed.

Section theorems.
Context {D : Type} `{!BlockDevice D, !BlockDeviceOk D}.
Context (fs : Fat16FileSystem) (Hwf : wf_fs (capacity D) fs).
Implicit Types (d : D) (s : disk).

(** What is stored can be read. *)
Lemma find_read_run d s name ext content :
  holds d s → stored (capacity D) fs s name ext content →
  runs (find_file fs name ext) d (λ o d1, ∃ e, o = Some e ∧
    runs (read_file fs e) d1 (λ bytes d2, bytes = content ∧ holds d2 s)).
Proof.
  intros Hd (e & He & cs & Hc & Hs & Hlt & Ht).
  eapply runs_mono; [by apply find_file_spec|]. intros o d1 [-> Hd1]. exists e. split; [done|].
  eapply runs_mono; [apply read_file_spec; try done|].
  - lia.
  - rw Hs -{1}Ht length_take. lia.
  - intros b d2 [-> Hd2]. split; [|done]. by rw Hs Nat2Z.id.
Qed.

Lemma write_new_stored d s name ext data :
  holds d s → wf_name name ext → Forall is_byte data → zlen data < 2 ^ 32 →
  is_Some (empty_slot fs s) → enough (capacity D) fs (free_clusters fs s) data →
  lookup_file fs s name ext = None →
  runs (write_new_file fs name ext data) d (λ r d1, r = Ok tt ∧ ∃ s1,
    holds d1 s1 ∧ stored (capacity D) fs s1 name ext data).
Proof.
  intros Hd Hn Hb Hl [p Hp] He Hnone.
  eapply runs_mono; [by eapply write_new_file_run|].
  intros r d1 (s1 & c & -> & Hd1 & Hwe & Hc & Hw & Hh & Hsec). split; [done|].
  eexists. split; [exact Hd1|]. eexists. split.
  - pose proof (wn_first _ _ Hn) as [? ?].
    apply (lookup_new fs s1 p (new_entry name ext c (zlen data))); try done.
    + rw (empty_slot_frame fs s s1); [|done]. eapply written_root; [done|done|]. by destruct He.
    + simpl. rw (lookup_file_frame fs s s1); [|done]. eapply written_root; [done|done|]. by destruct He.
  - apply (entry_content_dir fs Hwf); [by eapply empty_slot_elem|]. by eapply written_content.
Qed.

(** Round trip of a new file: on a volume with a free directory slot, enough
    free clusters on the drive and no file of that name, [write_new_file]
    succeeds, and then [find_file] finds the name and [read_file] returns exactly
    the bytes that were written. *)
Theorem write_new_file_roundtrip d s name ext data :
  holds d s → wf_name name ext → Forall is_byte data → zlen data < 2 ^ 32 →
  is_Some (empty_slot fs s) → enough (capacity D) fs (free_clusters fs s) data →
  lookup_file fs s name ext = None →
  runs (write_new_file fs name ext data) d (λ r d1, r = Ok tt ∧
    runs (find_file fs name ext) d1 (λ o d2, ∃ e, o = Some e ∧
      runs (read_file fs e) d2 (λ bytes _, bytes = data))).
Proof.
  intros. eapply runs_mono; [by eapply write_new_stored|].
  intros r d1 (-> & s1 & Hd1 & Hs). split; [done|].
  eapply runs_mono; [by eapply find_read_run|]. intros o d2 (e & -> & Hr). exists e. split; [done|].
  eapply runs_mono; [done|]. by intros ? ? [-> _].
Qed.

(** Writing a new file leaves every other file alone: a file stored under
    another name is still found and still holds the same bytes. *)
Theorem write_new_file_preserves d s name ext data name' ext' content :
  holds d s → wf_name name ext → Forall is_byte data → zlen data < 2 ^ 32 →
  is_Some (empty_slot fs s) → enough (capacity D) fs (free_clusters fs s) data →
  (name, ext) ≠ (name', ext') → stored (capacity D) fs s name' ext' content →
  runs (write_new_file fs name ext data) d (λ r d1, r = Ok tt ∧ ∃ s1,
    holds d1 s1 ∧ stored (capacity D) fs s1 name' ext' content).
Proof.
  intros Hd Hn Hb Hl [p Hp] He Hne (e' & Hlk & Hcont).
  eapply runs_mono; [by eapply write_new_file_run|].
  intros r d1 (s1 & c & -> & Hd1 & Hwe & Hc & Hw & Hh & Hsec). split; [done|].
  assert (∀ l, in_root fs l → s1 l = s l) as Hroot.
  { eapply written_root; [done|done|]. by destruct He. }
  eexists. split; [exact Hd1|]. exists e'. split.
  - pose proof (wn_first _ _ Hn) as [? ?].
    apply (lookup_other fs s1 p (new_entry name ext c (zlen data))); try done.
    + by rw (empty_slot_frame fs s s1).
    + by rw (lookup_file_frame fs s s1).
  - apply (entry_content_dir fs Hwf); [by eapply empty_slot_elem|].
    eapply (written_other fs Hwf); [done|by destruct He| |done].
    intros x Hx%subseteq_take. by apply (elem_free fs s x).
Qed.

(** No free slot: [write_new_file] fails with "Root directory full" before it
    allocates anything. *)
Theorem write_new_file_root_full d s name ext data :
  holds d s → empty_slot fs s = None →
  runs (write_new_file fs name ext data) d (λ r d1,
    r = Err "Root directory full"%string ∧ holds d1 s).
Proof.
  intros Hd Hp. rw /write_new_file. rbind.
  eapply runs_mono; [by apply find_empty_root_slot_spec|]. intros r d1 [-> Hd1].
  rw Hp. by apply runs_ret.
Qed.
End theorems.

(** ** Witnesses *)

Lemma write_new_file_roundtrip_witness :
  runs (write_new_file tiny_fs tiny_name tiny_ext (str "hello")) tiny_disk (λ r d1, r = Ok tt ∧
    runs (find_file tiny_fs tiny_name tiny_ext) d1 (λ o d2, ∃ e, o = Some e ∧
      runs (read_file tiny_fs e) d2 (λ bytes _, bytes = str "hello"))).
Proof.
  apply (write_new_file_roundtrip (D := MemDisk) tiny_fs tiny_wf tiny_disk (md_sector tiny_disk)).
  - exact tiny_holds.
  - exact tiny_name_ok.
  - repeat constructor; rw /is_byte; done.
  - done.
  - vm_compute. eauto.
  - refine (bool_decide_unpack _ _). vm_compute. exact I.
  - vm_compute. reflexivity.
Defined.

(** A directory without a free slot. *)
Definition tiny_no_slot_disk : MemDisk :=
  {| md_size := tiny_cap; md_data := {[ 2 := replicate 512 65 ]} |}.

Lemma write_new_file_root_full_witness :
  runs (write_new_file tiny_fs tiny_name tiny_ext (str "hello")) tiny_no_slot_disk (λ r d1,
    r = Err "Root directory full"%string ∧ holds d1 (md_sector tiny_no_slot_disk)).
Proof.
  apply (write_new_file_root_full (D := MemDisk) tiny_fs tiny_wf).
  - apply (md_holds_self tiny_no_slot_disk). reflexivity.
  - vm_compute. reflexivity.
Defined.
