(* ===== verification/FsOverwrite.v ===== *)
(** * Running out of clusters, and overwriting a file *)

From S2P Require Import Prelude Device Str Fat16 FatTable FatDir FatFile FsSpec FsTheorems.
#[local] Open Scope Z_scope.

Section full.
Context {D : Type} `{!BlockDevice D, !BlockDeviceOk D}.
Context (fs : Fat16FileSystem) (Hwf : wf_fs (capacity D) fs).
Implicit Types (d : D) (s : disk).

(** The allocation loop on a volume with too few clusters: it takes every free
    cluster, then fails; it does not give them back. *)
Lemma write_loop_full fuel d s data bw prev first :
  holds d s → Forall is_byte data → data ≠ [] → 0 ≤ bw ≤ zlen data → wf_prev fs s prev →
  Z.of_nat (length (free_clusters fs s)) < clusters_needed fs (zlen data - bw) →
  Forall (valid_cluster (capacity D) fs) (free_clusters fs s) →
  (length (free_clusters fs s) < fuel)%nat →
  runs (write_loop fuel fs data bw prev first) d (λ r d', ∃ s', holds d' s' ∧
    r = Err "Disk full"%string ∧ free_clusters fs s' = [] ∧ ∀ l, in_root fs l → s' l = s l).
Proof.
  intros Hd Hb Hne. revert d s bw prev first Hd.
  induction fuel as [|fuel IH]; intros d s bw prev first Hd Hbw Hp Hn Hv Hfuel; [lia|].
  assert (is_empty data = false) as Hemp by by destruct data. simpl. rw Hemp orb_false_r.
  destruct (Z.ltb_spec bw (zlen data)) as [Hlt|Hge].
  2:{ exfalso. replace (zlen data - bw) with 0 in Hn by lia. rw clusters_needed_0 in Hn; [done|lia]. }
  rbind. eapply runs_mono; [by apply find_free_cluster_spec|]. intros r d1 [-> Hd1].
  destruct (free_clusters fs s) as [|c rest] eqn:Hf; simpl.
  { apply runs_ret. exists s. done. }
  set (sz := Z.min (zlen data - bw) (sectors_per_cluster (bpb fs) * 512)).
  pose proof Hwf as [_ Hspc _ _ _ _ _]. apply Forall_cons in Hv as [Hvc Hv].
  pose proof (clusters_needed_step fs Hwf (zlen data - bw) ltac:(lia)) as Hstep.
  rw /bytes_per_cluster in Hstep. fold sz in Hstep.
  set (chunk := take (Z.to_nat sz) (drop (Z.to_nat bw) data)).
  assert (zlen chunk = sz) as Hcl by (rw length_take length_drop; lia).
  eapply (write_step fs Hwf d1 s prev c rest chunk); [|done..| |rw /bytes_per_cluster; lia|].
  { rw slice_Done; [lia..|]. by rw Z.add_simpl_l. }
  { by apply Forall_take, Forall_drop. }
  intros d3 s3 Hd3 Hln Ho Ht Hfr. pose proof Hvc as [Hcr _].
  eapply runs_mono; [apply IH; [done|lia|..]|].
  - intros ? [= <-]. split; [lia|]. rw (fat_get_same fs (link fs s prev c) s3); [|lia|].
    + intros l Hl. apply Ho. intros Hc. by apply (in_cluster_region fs Hwf c l Hvc Hc).
    + rw (ln_end _ _ _ _ _ Hln). lia.
  - rw Hfr. simpl in Hn. replace (zlen data - (bw + sz)) with (zlen data - bw - sz) by lia. lia.
  - by rw Hfr.
  - rw Hfr. simpl in Hfuel. lia.
  - intros r d4 (s4 & Hd4 & -> & Hf4 & Hr). exists s4. split_and!; try done.
    intros l Hl. rw Hr; [done|]. rw Ho; [by eapply in_root_not_cluster|].
    apply (ln_frame _ _ _ _ _ Hln). by eapply in_root_not_fat.
Qed.

Lemma write_loop_full_run d s data :
  holds d s → Forall is_byte data →
  (length (free_clusters fs s) < alloc_count fs data)%nat →
  Forall (valid_cluster (capacity D) fs) (free_clusters fs s) →
  runs (write_loop (write_fuel fs) fs data 0 None 0) d (λ r d', ∃ s', holds d' s' ∧
    r = Err "Disk full"%string ∧ free_clusters fs s' = [] ∧ ∀ l, in_root fs l → s' l = s l).
Proof.
  intros Hd Hb Hn Hv. pose proof Hwf as [_ _ _ _ Hspf _ _].
  assert (length (free_clusters fs s) ≤ Z.to_nat (nclusters fs))%nat as Hlen.
  { rw /free_clusters. etrans; [apply length_filter|]. by rw length_seqZ. }
  destruct (decide (data = [])) as [->|Hne].
  - rw /alloc_count /= in Hn. rw /write_fuel.
    replace (Z.to_nat (256 * _ + 1)) with (S (Z.to_nat (nclusters fs))) by (rw /nclusters; lia).
    simpl. rbind. eapply runs_mono; [by apply find_free_cluster_spec|]. intros r d1 [-> Hd1].
    destruct (free_clusters fs s) as [|c rest] eqn:Hf; simpl in Hn |- *; [|lia].
    apply runs_ret. by exists s.
  - apply write_loop_full; try done.
    + lia.
    + rw Z.sub_0_r. rw /alloc_count in Hn. destruct data; [done|]. simpl in Hn |- *. lia.
    + rw /write_fuel. rw /nclusters in Hlen. lia.
Qed.

(** C35. Not enough clusters: when the content needs more clusters than are free,
    and every free cluster lies on the drive (as on a drive as large as its
    table says), [write_new_file] fails with "Disk full" and the directory is
    unchanged, but every free cluster of the volume has been taken and stays
    taken: no free cluster is left. *)
Theorem write_new_file_disk_full d s name ext data :
  holds d s → Forall is_byte data → is_Some (empty_slot fs s) →
  (length (free_clusters fs s) < alloc_count fs data)%nat →
  Forall (valid_cluster (capacity D) fs) (free_clusters fs s) →
  runs (write_new_file fs name ext data) d (λ r d1, ∃ s1, holds d1 s1 ∧
    r = Err "Disk full"%string ∧ free_clusters fs s1 = [] ∧
    ∀ n x, lookup_file fs s1 n x = lookup_file fs s n x).
Proof.
  intros Hd Hb [[lba off] Hp] Hn Hv. rw /write_new_file. rbind.
  eapply runs_mono; [by apply find_empty_root_slot_spec|]. intros r d1 [-> Hd1]. rw Hp.
  rbind. eapply runs_mono; [by apply write_loop_full_run|].
  intros r d2 (s1 & Hd2 & -> & Hf & Hr). apply runs_ret. exists s1. split_and!; try done.
  intros n x. by apply lookup_file_frame.
Qed.
End full.

(** ** Overwriting *)

Lemma wf_entry_of_bytes w :
  length w = 32%nat → Forall is_byte w → wf_entry (DirectoryEntry_of_bytes w).
Proof.
  intros Hl Hb. split.
  - split; [by rw /= length_take Hl|by apply Forall_take].
  - split; [by rw /= length_take length_drop Hl|by apply Forall_take, Forall_drop].
  - repeat constructor; by apply byte_at_byte.
  - repeat constructor; by apply le16_range.
  - pose proof (le16_range w 28 Hb). pose proof (le16_range w 30 Hb). rw /= /le32 /=. lia.
Qed.

Lemma window_match_entry_inv name ext w e :
  window_match name ext w = Some (Some e) →
  e = DirectoryEntry_of_bytes w ∧ filename e = name ∧ extension e = ext ∧
  byte_at w 0 ≠ 0x00 ∧ byte_at w 0 ≠ 0xE5.
Proof.
  rw /window_match /list_eqb. destruct (Z.eqb_spec (byte_at w 0) 0); [done|].
  destruct (Z.eqb_spec (byte_at w 0) 229); [done|].
  destruct (bool_decide_reflect (take 8 w = name)) as [E1|]; [|done].
  destruct (bool_decide_reflect (take 3 (drop 8 w) = ext)) as [E2|]; [|done].
  simpl. intros [= <-]. done.
Qed.

Lemma set_entry_data_wf e c n :
  wf_entry e → 0 ≤ c < 65536 → 0 ≤ n < 2 ^ 32 →
  wf_entry (set_entry_data e c n) ∧ file_size (set_entry_data e c n) = n.
Proof.
  intros [Hn Hx Hb Hw _] Hc Hs.
  assert (file_size (set_entry_data e c n) = n) as E by (rw /= /wrap Z.mod_small; lia).
  split; [|done]. split; [done|done|done| |by rw E].
  rw !Forall_cons in Hw. destruct Hw as (?&?&?&?&?&?&_&_). by rw /= !Forall_cons.
Qed.

Section replace.
Context (fs : Fat16FileSystem).
Implicit Types (s : disk).

Lemma lookup_locate s name ext e :
  lookup_file fs s name ext = Some e → ∃ p, locate_file fs s name ext = Some (p, e).
Proof.
  rw /lookup_file /locate_file. destruct (first_some _ _) as [o|] eqn:E; [|done].
  simpl. intros ->. apply first_some_Some in E as (pre & q & post & E & Hq & Hpre).
  exists q. assert (first_some (λ p, fmap (M:=option) (pair p) <$> window_match name ext (slot_window s p))
    (root_slots fs) = Some (Some (q, e))) as ->; [|done].
  apply first_some_Some. exists pre, q, post. split; [done|]. split; [by rw Hq|].
  intros y Hy. by rw (Hpre y Hy).
Qed.

Lemma located_entry s name ext p e :
  locate_file fs s name ext = Some (p, e) → is_sector (s p.1) →
  p ∈ root_slots fs ∧ wf_entry e ∧ filename e = name ∧ extension e = ext ∧
  byte_at name 0 ≠ 0x00 ∧ byte_at name 0 ≠ 0xE5.
Proof.
  intros (Hp & _ & Hm)%locate_lookup Hs. apply window_match_entry_inv in Hm as (-> & Hn & Hx & H0 & HE).
  pose proof (length_slot_window s p fs Hp Hs) as Hl.
  split; [done|]. split.
  - apply wf_entry_of_bytes; [done|]. apply Forall_take, Forall_drop, Hs.
  - rw -Hn /= byte_at_take; [lia|]. done.
Qed.

Lemma located_name s name ext p e :
  locate_file fs s name ext = Some (p, e) → filename e = name ∧ extension e = ext.
Proof. by intros (_ & _ & (_ & ? & ? & _)%window_match_entry_inv)%locate_lookup. Qed.

Lemma locate_frame s s' name ext :
  (∀ l, in_root fs l → s' l = s l) → locate_file fs s' name ext = locate_file fs s name ext.
Proof.
  intros Hs. rw /locate_file. f_equal. apply first_some_ext. intros p Hp.
  by rw (slot_window_frame fs s s').
Qed.

(** Replacing the entry of a name by one of the same name. *)
Lemma lookup_replace s name ext p e e' :
  locate_file fs s name ext = Some (p, e) → is_sector (s p.1) → wf_entry e' →
  filename e' = name → extension e' = ext →
  lookup_file fs (dir_set s p e') name ext = Some e'.
Proof.
  intros Hloc Hs He' <- <-. destruct (located_entry _ _ _ _ _ Hloc Hs) as (Hp & _ & _ & _ & H0 & HE).
  rw /locate_file in Hloc. destruct (first_some _ _) as [o|] eqn:E; [|done]. simpl in Hloc. subst o.
  apply first_some_Some in E as (pre & q & post & E & Hq & Hpre).
  apply fmap_Some in Hq as ([e1|] & Hq & Hq'); simplify_eq/=.
  pose proof (NoDup_root_slots fs) as Hnd. rw E in Hnd. apply NoDup_app in Hnd as (_ & Hd & _).
  rw /lookup_file.
  assert (first_some (λ z, window_match (filename e') (extension e') (slot_window (dir_set s q e') z))
    (root_slots fs) = Some (Some e')) as ->; [|done].
  apply first_some_Some. exists pre, q, post. split; [done|]. split.
  - rw (slot_window_set s q e' fs Hp Hs He'). rw -(app_nil_r (DirectoryEntry_bytes e')).
    by apply window_match_entry.
  - intros z Hz. rw (slot_window_set_ne s q z e' fs Hp); [rw E; set_solver| |done..|].
    { intros <-. apply (Hd q Hz). set_solver. }
    specialize (Hpre z Hz). by rw fmap_None in Hpre.
Qed.

(** A search for another name gives the same answer after the replacement. *)
Lemma lookup_replace_other s name ext p e e' name' ext' :
  locate_file fs s name ext = Some (p, e) → is_sector (s p.1) → wf_entry e' →
  filename e' = name → extension e' = ext → (name, ext) ≠ (name', ext') →
  lookup_file fs (dir_set s p e') name' ext' = lookup_file fs s name' ext'.
Proof.
  intros Hloc Hs He' Hn Hx Hne.
  destruct (located_entry _ _ _ _ _ Hloc Hs) as (Hp & _ & _ & _ & H0 & HE).
  apply locate_lookup in Hloc as (_ & _ & Hm).
  assert (∀ w e1, window_match name ext w = Some (Some e1) → window_match name' ext' w = None) as Hno.
  { intros w e1 (-> & Hn1 & Hx1 & H01 & HE1)%window_match_entry_inv.
    destruct (window_match name' ext' w) as [[e2|]|] eqn:Hm2; [| |done].
    - apply window_match_entry_inv in Hm2 as (-> & Hn2 & Hx2 & _). congruence.
    - apply window_match_stop in Hm2. rw /window_free in Hm2.
      destruct (Z.eqb_spec (byte_at w 0) 0), (Z.eqb_spec (byte_at w 0) 229); done. }
  rw /lookup_file. f_equal. apply first_some_ext. intros z Hz.
  destruct (decide (z = p)) as [->|Hzp]; [|by rw (slot_window_set_ne s p z e' fs)].
  rw (slot_window_set s p e' fs Hp Hs He') (Hno _ _ Hm) -(app_nil_r (DirectoryEntry_bytes e')).
  eapply Hno. subst name ext. by apply window_match_entry.
Qed.
End replace.

(** The clusters available once the chain [cs] is freed. *)
Definition reusable (fs : Fat16FileSystem) (s : disk) (cs : list Z) : list Z :=
  filter (λ c, fat_get fs s c = 0 ∨ c ∈ cs) (seqZ 0 (nclusters fs)).

Section overwrite.
Context {D : Type} `{!BlockDevice D, !BlockDeviceOk D}.
Context (fs : Fat16FileSystem) (Hwf : wf_fs (capacity D) fs).
Implicit Types (d : D) (s : disk).

(** The state between freeing the old chain and allocating the new one. *)
Record freed (s s' : disk) (cs : list Z) : Prop := {
  fr_fat : ∀ x, 0 ≤ x < nclusters fs →
             fat_get fs s' x = if decide (x ∈ cs) then 0 else fat_get fs s x;
  fr_frame : ∀ l, ~ in_fat fs l → s' l = s l;
}.

Lemma freed_reusable s s' cs : freed s s' cs → free_clusters fs s' = reusable fs s cs.
Proof.
  intros Hf. apply filter_ext_in. intros x Hx%elem_of_seqZ. rw (fr_fat _ _ _ Hf); [lia|].
  case_decide; naive_solver.
Qed.

(** A file whose clusters are not among the freed ones. *)
Lemma freed_content s s' cs e cs' content :
  freed s s' cs → chain (capacity D) fs s (cluster_low e) cs' → (∀ x, x ∈ cs → x ∈ cs' → False) →
  entry_content (capacity D) fs s e content → entry_content (capacity D) fs s' e content.
Proof.
  intros Hf Hc Hdisj (cs1 & Hc1 & Hs & Hlt & Ht).
  rw (chain_unique _ _ _ _ _ _ Hwf Hc1 Hc) in Ht. clear Hc1.
  pose proof (chain_valid _ _ _ _ _ Hc) as Hv. rw !Forall_forall in Hv.
  exists cs'. split; [|split; [done|split; [done|]]].
  - eapply chain_ext; [|done]. intros x Hx. rw (fr_fat _ _ _ Hf); [destruct (Hv x Hx); lia|].
    case_decide; [|done]. by exfalso; eapply Hdisj.
  - rewrite <-Ht at 2. f_equal. rw /chain_bytes. f_equal. apply list_fmap_ext.
    intros i c Hi%list_elem_of_lookup_2. apply cluster_bytes_ext. intros l Hl.
    apply (fr_frame _ _ _ Hf). by destruct (in_cluster_region fs Hwf c l (Hv c Hi) Hl) as (_ & _ & ?).
Qed.

Lemma free_cluster_chain_run d s c cs :
  holds d s → chain (capacity D) fs s c cs → c < 65536 →
  runs (if 2 <=? c then free_cluster_chain fs c else mret tt) d (λ _ d', ∃ s',
    holds d' s' ∧ freed s s' cs).
Proof.
  intros Hd Hc Hlt. assert (2 ≤ c) as H2.
  { destruct cs as [|c' cs]; simpl in Hc; [lia|]. destruct Hc as (_ & [? _] & _). lia. }
  destruct (Z.leb_spec 2 c); [|lia].
  eapply runs_mono; [eapply free_chain_loop_chain; try done|].
  - pose proof (chain_NoDup _ _ _ _ _ Hwf Hc) as Hnd. pose proof (chain_valid _ _ _ _ _ Hc) as Hv.
    assert (cs ⊆ seqZ 0 (nclusters fs)) as Hsub.
    { intros x Hx. rw !Forall_forall in Hv. destruct (Hv x Hx) as [? _]. apply elem_of_seqZ. lia. }
    pose proof (NoDup_submseteq _ _ Hnd Hsub) as Hsm%submseteq_length.
    rw length_seqZ in Hsm. pose proof Hwf as [_ _ _ _ ? _ _]. rw /nclusters in Hsm. rw /chain_fuel. lia.
  - intros [] d' (s' & Hd' & Hg & Ho). exists s'. split; [done|]. by split.
Qed.

Lemma overwrite_file_run d s name ext data p e cs :
  holds d s → locate_file fs s name ext = Some (p, e) →
  chain (capacity D) fs s (cluster_low e) cs →
  Forall is_byte data → zlen data < 2 ^ 32 → enough (capacity D) fs (reusable fs s cs) data →
  runs (overwrite_file fs name ext data) d (λ r d', ∃ s1 s2 c,
    let ncs := take (alloc_count fs data) (reusable fs s cs) in
    let e' := set_entry_data e c (zlen data) in
    r = Ok tt ∧ holds d' (dir_set s2 p e') ∧ wf_entry e' ∧ file_size e' = zlen data ∧
    freed s s1 cs ∧ written fs s1 s2 None ncs data ∧ head ncs = Some c ∧
    is_sector (s2 p.1) ∧ (∀ l, in_root fs l → s2 l = s l)).
Proof.
  intros Hd Hloc Hc Hb Hl He. rw /overwrite_file. rbind.
  assert (p ∈ root_slots fs) as Hp by by apply locate_lookup in Hloc as (? & _).
  assert (0 ≤ p.1 < capacity D) as Hp1.
  { destruct p as [lba off]. apply elem_root_slots in Hp as [? _]. by apply (in_root_cap fs Hwf). }
  destruct (located_entry fs s name ext p e Hloc) as (_ & Hwe & Hn & Hx & _); [by eapply holds_sector|].
  eapply runs_mono; [by apply find_file_location_spec|]. intros r d1 [-> Hd1]. rw Hloc.
  destruct p as [lba off]. rbind.
  eapply runs_mono; [eapply free_cluster_chain_run; [done..|]|].
  { destruct Hwe as [_ _ _ Hw _]. rw !Forall_cons in Hw. rw /is_u16 in Hw. lia. }
  intros [] d2 (s1 & Hd2 & Hf). rbind.
  pose proof (freed_reusable _ _ _ Hf) as Hre. rw -Hre in He.
  eapply runs_mono; [by apply write_loop_run|].
  intros r d3 (s2 & c & Hd3 & Hh & -> & Hw). rw Hre in Hh Hw.
  assert (0 ≤ c < 65536) as Hcr.
  { destruct He as [_ Hv]. rw Hre in Hv. destruct (take _ _) as [|c' ncs]; simplify_eq/=.
    apply Forall_cons in Hv as [[? _] _]. pose proof Hwf as [_ _ _ _ ? _ _]. rw /nclusters in H. lia. }
  destruct (set_entry_data_wf e c (zlen data) Hwe) as [Hwe' Hsz]; [lia..|].
  rbind. eapply runs_mono; [by apply (store_entry_spec fs Hwf d3 s2 (lba, off))|].
  intros [] d4 Hd4. apply runs_ret. exists s1, s2, c. split_and!; try done.
  - by eapply holds_sector.
  - intros l Hlr. rw (written_root fs Hwf s1 s2 _ _ _ Hw); [|done|].
    + rw -Hre. by destruct He.
    + apply (fr_frame _ _ _ Hf). by apply (in_root_not_fat fs Hwf).
Qed.

(** The overwritten file and its new content. *)
Lemma overwrite_stored d s name ext data e cs :
  holds d s → lookup_file fs s name ext = Some e →
  chain (capacity D) fs s (cluster_low e) cs →
  Forall is_byte data → zlen data < 2 ^ 32 → enough (capacity D) fs (reusable fs s cs) data →
  runs (overwrite_file fs name ext data) d (λ r d', r = Ok tt ∧ ∃ s',
    holds d' s' ∧ stored (capacity D) fs s' name ext data).
Proof.
  intros Hd Hlk Hc Hb Hl He. destruct (lookup_locate _ _ _ _ _ Hlk) as [p Hloc].
  eapply runs_mono; [by eapply overwrite_file_run|].
  intros r d' (s1 & s2 & c & -> & Hd' & Hwe & Hsz & Hf & Hw & Hh & Hsec & Hr).
  split; [done|]. eexists. split; [exact Hd'|]. eexists. split.
  - apply (lookup_replace fs s2 name ext p e); [|done..| |].
    + rw -Hloc. by apply locate_frame.
    + by destruct (located_name fs s name ext p e Hloc).
    + by destruct (located_name fs s name ext p e Hloc).
  - apply (entry_content_dir fs Hwf); [by apply locate_lookup in Hloc as (? & _)|].
    eexists. split; [by eapply wr_chain|]. split; [done|]. split; [done|]. by apply (wr_data _ _ _ _ _ _ Hw).
Qed.

(** Another file whose chain shares no cluster with the overwritten one. *)
Lemma overwrite_other d s name ext data e cs name' ext' e' cs' content :
  holds d s → lookup_file fs s name ext = Some e →
  chain (capacity D) fs s (cluster_low e) cs →
  Forall is_byte data → zlen data < 2 ^ 32 → enough (capacity D) fs (reusable fs s cs) data →
  (name, ext) ≠ (name', ext') → lookup_file fs s name' ext' = Some e' →
  chain (capacity D) fs s (cluster_low e') cs' → cs ## cs' →
  entry_content (capacity D) fs s e' content →
  runs (overwrite_file fs name ext data) d (λ r d', r = Ok tt ∧ ∃ s',
    holds d' s' ∧ stored (capacity D) fs s' name' ext' content).
Proof.
  intros Hd Hlk Hc Hb Hl He Hne Hlk' Hc' Hdisj Hcont. destruct (lookup_locate _ _ _ _ _ Hlk) as [p Hloc].
  eapply runs_mono; [by eapply overwrite_file_run|].
  intros r d' (s1 & s2 & c & -> & Hd' & Hwe & Hsz & Hf & Hw & Hh & Hsec & Hr).
  split; [done|]. eexists. split; [exact Hd'|]. exists e'. split.
  - rw (lookup_replace_other fs s2 name ext p e); [|done..| | |done|].
    + rw -Hloc. by apply locate_frame.
    + by destruct (located_name fs s name ext p e Hloc).
    + by destruct (located_name fs s name ext p e Hloc).
    + by rw (lookup_file_frame fs s s2).
  - apply (entry_content_dir fs Hwf); [by apply locate_lookup in Hloc as (? & _)|].
    eapply (written_other fs Hwf); [done|by destruct He| |].
    + intros x Hx%subseteq_take. rw -(freed_reusable s s1 cs Hf) in Hx. by apply elem_free in Hx as [_ ?].
    + eapply freed_content; [done|exact Hc'| |done]. by intros x ??; eapply Hdisj.
Qed.
End overwrite.
