(* ===== verification/FsRefine.v ===== *)
(** * The filesystem as a map from names to contents

    The abstract filesystem is a finite map from 8.3 names to byte strings.
    [represents] relates a disk to such a map; the theorems show that finding,
    reading, creating and overwriting a file act on the disk as lookup and
    insertion act on the map. *)

From S2P Require Import Prelude Device Str Fat16 FatTable FatDir FatFile FsSpec FsTheorems FsOverwrite.
#[local] Open Scope Z_scope.

(** Contents by name and extension. *)
Definition files : Type := gmap (list Z * list Z) (list Z).

(** A slot that was never used is followed only by such slots. *)
Definition clean (fs : Fat16FileSystem) (s : disk) : Prop :=
  ∀ pre p post, root_slots fs = pre ++ p :: post → byte_at (slot_window s p) 0 = 0x00 →
    ∀ q, q ∈ post → byte_at (slot_window s q) 0 = 0x00.

Record represents (cap : Z) (fs : Fat16FileSystem) (s : disk) (m : files) : Prop := {
  rp_clean : clean fs s;
  rp_none : ∀ n x, m !! (n, x) = None → lookup_file fs s n x = None;
  rp_some : ∀ n x b, m !! (n, x) = Some b → stored cap fs s n x b;
  (** no two files share a cluster *)
  rp_disj : ∀ n1 x1 e1 cs1 n2 x2 e2 cs2,
    lookup_file fs s n1 x1 = Some e1 → chain cap fs s (cluster_low e1) cs1 →
    lookup_file fs s n2 x2 = Some e2 → chain cap fs s (cluster_low e2) cs2 →
    (n1, x1) ≠ (n2, x2) → cs1 ## cs2;
}.

Section directory.
Context (fs : Fat16FileSystem).
Implicit Types (s : disk).

Lemma elem_mid_eq {X} (xs pre post pre' post' : list X) p :
  NoDup xs → xs = pre ++ p :: post → xs = pre' ++ p :: post' → pre = pre' ∧ post = post'.
Proof.
  intros Hnd -> E2. revert pre' E2 Hnd.
  induction pre as [|y pre IH]; intros [|z pre'] E2 Hnd; simpl in E2, Hnd.
  - by injection E2.
  - injection E2 as <- ->. apply NoDup_cons in Hnd as [Hn _]. set_solver.
  - injection E2 as -> <-. apply NoDup_cons in Hnd as [Hn _]. set_solver.
  - injection E2 as <- E2. apply NoDup_cons in Hnd as [_ Hnd].
    destruct (IH pre' E2 Hnd) as [-> ->]. done.
Qed.

Lemma clean_frame s s' : (∀ l, in_root fs l → s' l = s l) → clean fs s → clean fs s'.
Proof.
  intros Hs Hc pre p post E Hp q Hq.
  rw (slot_window_frame fs s s') in Hp; [rw E; set_solver|done|].
  rw (slot_window_frame fs s s'); [rw E; set_solver|done|]. by eapply Hc.
Qed.

(** Storing an entry with a proper name keeps the directory clean when no slot
    before it is unused. *)
Lemma clean_set s p e pre post :
  root_slots fs = pre ++ p :: post → is_sector (s p.1) → wf_entry e →
  byte_at (filename e) 0 ≠ 0x00 →
  (∀ q, q ∈ pre → byte_at (slot_window s q) 0 ≠ 0x00) →
  clean fs s → clean fs (dir_set s p e).
Proof.
  intros E Hs He H0 Hpre Hc pre' q post' E' Hq r Hr.
  assert (p ∈ root_slots fs) as Hp by (rw E; set_solver).
  assert (q ∈ root_slots fs) as Hqin by (rw E'; set_solver).
  assert (r ∈ root_slots fs) as Hrin by (rw E'; set_solver).
  destruct (decide (p = q)) as [<-|Hpq].
  { rw (slot_window_set s p e fs Hp Hs He) in Hq. exfalso. apply H0. rw -Hq.
    destruct He as [[Hl _] _ _ _ _]. rw /DirectoryEntry_bytes /byte_at lookup_app_l; [lia|done]. }
  rw (slot_window_set_ne s p q e fs) in Hq; [done..|].
  destruct (decide (p = r)) as [<-|Hpr].
  - exfalso. eapply (Hpre q); [|done].
    assert (q ∈ pre ++ p :: post) as [?|[->|Hqp]%elem_of_cons]%elem_of_app by (rw -E; done); [done..|].
    exfalso. apply list_elem_of_split in Hqp as (l1 & l2 & ->). rw E in E'.
    pose proof (NoDup_root_slots fs) as Hnd. rw E in Hnd.
    destruct (elem_mid_eq (pre ++ p :: l1 ++ q :: l2) (pre ++ p :: l1) l2 pre' post' q) as [_ <-];
      [done|by rw -assoc|done|].
    apply list_elem_of_split in Hr as (l3 & l4 & ->).
    apply NoDup_app in Hnd as (_ & _ & [Hn _]%NoDup_cons). set_solver.
  - rw (slot_window_set_ne s p r e fs); [done..|]. by eapply Hc.
Qed.

(** Replacing an entry by one of the same name. *)
Lemma clean_replace s name ext p e e' :
  locate_file fs s name ext = Some (p, e) → is_sector (s p.1) → wf_entry e' →
  filename e' = name → clean fs s → clean fs (dir_set s p e').
Proof.
  intros Hloc Hs He' Hn Hc.
  destruct (located_entry _ _ _ _ _ _ Hloc Hs) as (Hp & _ & _ & _ & H0 & _).
  pose proof Hloc as (_ & _ & (_ & _ & _ & Hp0 & _)%window_match_entry_inv)%locate_lookup.
  apply list_elem_of_split in Hp as (pre & post & E).
  eapply clean_set; [done..|by rw Hn| |done].
  intros q Hq Hq0. apply list_elem_of_split in Hq as (l1 & l2 & ->). apply Hp0.
  eapply (Hc l1 q (l2 ++ p :: post)); [by rw E -assoc|done|]. set_solver.
Qed.

(** In a clean directory a new entry changes no other search. *)
Lemma lookup_other_eq s p e name ext :
  clean fs s → wf_entry e → byte_at (filename e) 0 ≠ 0x00 → byte_at (filename e) 0 ≠ 0xE5 →
  (filename e, extension e) ≠ (name, ext) →
  empty_slot fs s = Some p → is_sector (s p.1) →
  lookup_file fs (dir_set s p e) name ext = lookup_file fs s name ext.
Proof.
  intros Hc He H0 HE Hne Hp Hs.
  apply first_some_Some in Hp as (pre & q & post & E & Hq & _).
  destruct (window_free (slot_window s q)) eqn:Hfree; simplify_eq.
  assert (p ∈ root_slots fs) as Hin by (rw E; set_solver).
  pose proof (NoDup_root_slots fs) as Hnd. rw E in Hnd.
  apply NoDup_app in Hnd as (_ & Hd & [Hn _]%NoDup_cons).
  assert (∀ r, r ∈ pre ++ post → slot_window (dir_set s p e) r = slot_window s r) as Hold.
  { intros r Hr. apply (slot_window_set_ne s p r e fs); [done|rw E; set_solver| |done..].
    intros <-. apply elem_of_app in Hr as [Hr|Hr]; [|done]. apply (Hd p Hr). set_solver. }
  assert (window_match name ext (slot_window (dir_set s p e) p) = None) as Hnew.
  { rw (slot_window_set s p e fs Hin Hs He). by apply window_match_other. }
  rw /lookup_file E !first_some_app !first_some_cons Hnew.
  rw (first_some_ext _ (λ r, window_match name ext (slot_window s r)) pre).
  { intros r Hr. by rw Hold; [set_solver|]. }
  rw (first_some_ext _ (λ r, window_match name ext (slot_window s r)) post).
  { intros r Hr. by rw Hold; [set_solver|]. }
  destruct (first_some _ pre) as [o|]; [done|]. rw {2}/window_match. rw /window_free in Hfree.
  destruct (Z.eqb_spec (byte_at (slot_window s p) 0) 0) as [E0|_].
  - (* nothing follows an unused slot *)
    destruct (first_some _ post) as [[e'|]|] eqn:Ef; [|done..].
    apply first_some_Some in Ef as (l1 & r & l2 & -> & Hr & _).
    apply window_match_entry_inv in Hr as (_ & _ & _ & Hz & _). exfalso. apply Hz.
    eapply (Hc pre p); [done..|]. set_solver.
  - simpl in Hfree. by rw Hfree.
Qed.
End directory.

Section refine.
Context {D : Type} `{!BlockDevice D, !BlockDeviceOk D}.
Context (fs : Fat16FileSystem) (Hwf : wf_fs (capacity D) fs).
Implicit Types (d : D) (s : disk).

Notation represents := (represents (capacity D) fs).

(** ** Chains under the steps of the operations *)

Lemma written_chain s s' cs todo c os :
  written fs s s' None cs todo → (∀ x, x ∈ cs → fat_get fs s x = 0) →
  chain (capacity D) fs s c os → chain (capacity D) fs s' c os.
Proof.
  intros Hw Hz Hc. pose proof (chain_valid _ _ _ _ _ Hc) as Hv.
  pose proof (chain_used _ _ _ _ _ Hwf Hc) as Hu. rw !Forall_forall in Hv Hu.
  eapply chain_ext; [|done]. intros x Hx. apply (wr_other _ _ _ _ _ _ Hw); [| |done].
  - destruct (Hv x Hx) as [? _]. lia.
  - intros Hx'. by apply (Hu x Hx), Hz.
Qed.

Lemma freed_chain s s' cs c os :
  freed fs s s' cs → cs ## os →
  chain (capacity D) fs s c os → chain (capacity D) fs s' c os.
Proof.
  intros Hf Hd Hc. pose proof (chain_valid _ _ _ _ _ Hc) as Hv. rw !Forall_forall in Hv.
  eapply chain_ext; [|done]. intros x Hx. rw (fr_fat _ _ _ _ Hf); [destruct (Hv x Hx); lia|].
  case_decide; [set_solver|done].
Qed.

Lemma dir_set_chain s p e c os :
  p ∈ root_slots fs → chain (capacity D) fs s c os → chain (capacity D) fs (dir_set s p e) c os.
Proof.
  destruct p as [lba off]. intros [Hin _]%elem_root_slots Hc.
  pose proof (chain_valid _ _ _ _ _ Hc) as Hv. rw !Forall_forall in Hv.
  eapply chain_ext; [|done]. intros x Hx. apply fat_get_same.
  - intros l Hl. apply dir_set_frame. intros ->. by eapply (in_root_not_fat fs Hwf).
  - destruct (Hv x Hx). lia.
Qed.

(** A represented name is exactly a name the search finds. *)
Lemma represents_lookup s m n x e :
  represents s m → lookup_file fs s n x = Some e →
  ∃ b, m !! (n, x) = Some b ∧ entry_content (capacity D) fs s e b.
Proof.
  intros Hr He. destruct (m !! (n, x)) as [b|] eqn:Hm.
  - exists b. split; [done|]. destruct (rp_some _ _ _ _ Hr n x b Hm) as (e' & He' & Hc). by simplify_eq.
  - rw (rp_none _ _ _ _ Hr n x Hm) in He. done.
Qed.

(** A step that stores [data] under [(n, x)] with the entry [e] and the chain
    [cs], keeps every other search and, for the files it finds, chain and
    content, and takes no cluster of theirs. *)
Lemma represents_insert s s' m n x data e cs :
  represents s m → clean fs s' →
  lookup_file fs s' n x = Some e → entry_content (capacity D) fs s' e data →
  chain (capacity D) fs s' (cluster_low e) cs →
  (∀ n' x', (n, x) ≠ (n', x') → lookup_file fs s' n' x' = lookup_file fs s n' x') →
  (∀ n' x' e' cs' b, (n, x) ≠ (n', x') → lookup_file fs s n' x' = Some e' →
     chain (capacity D) fs s (cluster_low e') cs' → entry_content (capacity D) fs s e' b →
     chain (capacity D) fs s' (cluster_low e') cs' ∧ entry_content (capacity D) fs s' e' b ∧
     cs ## cs') →
  represents s' (<[(n, x) := data]> m).
Proof.
  intros Hr Hcl He Hcont Hch Hother Hkeep.
  assert (∀ n' x' e' cs', (n, x) ≠ (n', x') → lookup_file fs s' n' x' = Some e' →
    chain (capacity D) fs s' (cluster_low e') cs' →
    lookup_file fs s n' x' = Some e' ∧ chain (capacity D) fs s (cluster_low e') cs' ∧ cs ## cs') as Hold.
  { intros n' x' e' cs' Hne Hl' Hc'. rw Hother in Hl'; [done|]. split; [done|].
    destruct (represents_lookup _ _ _ _ _ Hr Hl') as (b & _ & Hb).
    destruct Hb as (cs1 & Hc1 & Hrest). pose proof Hc1 as Hc1'.
    destruct (Hkeep n' x' e' cs1 b Hne Hl' Hc1) as (Hc2 & _ & Hd); [by exists cs1|].
    by rw (chain_unique _ _ _ _ _ _ Hwf Hc' Hc2). }
  split; [done| | |].
  - intros n' x' [Hm Hne]%lookup_insert_None. rw Hother; [done|]. by apply (rp_none _ _ _ _ Hr).
  - intros n' x' b [[? <-]|[Hne Hm]]%lookup_insert_Some; simplify_eq.
    + exists e. done.
    + destruct (rp_some _ _ _ _ Hr n' x' b Hm) as (e' & He' & Hb). exists e'. rw Hother; [done|].
      split; [done|]. destruct Hb as (cs1 & Hc1 & Hrest).
      destruct (Hkeep n' x' e' cs1 b Hne He' Hc1) as (_ & ? & _); [by exists cs1|done].
  - intros n1 x1 e1 cs1 n2 x2 e2 cs2 Hl1 Hc1 Hl2 Hc2 Hne.
    destruct (decide ((n, x) = (n1, x1))) as [[= <- <-]|Hn1].
    { rw He in Hl1. injection Hl1 as <-. rw (chain_unique _ _ _ _ _ _ Hwf Hc1 Hch).
      by destruct (Hold _ _ _ _ Hne Hl2 Hc2) as (_ & _ & ?). }
    destruct (decide ((n, x) = (n2, x2))) as [[= <- <-]|Hn2].
    { rw He in Hl2. injection Hl2 as <-. rw (chain_unique _ _ _ _ _ _ Hwf Hc2 Hch).
      destruct (Hold _ _ _ _ Hn1 Hl1 Hc1) as (_ & _ & Hd). intros y Hy1 Hy2. by apply (Hd y). }
    destruct (Hold _ _ _ _ Hn1 Hl1 Hc1) as (? & ? & _). destruct (Hold _ _ _ _ Hn2 Hl2 Hc2) as (? & ? & _).
    by eapply (rp_disj _ _ _ _ Hr n1 x1 e1 cs1 n2 x2 e2 cs2).
Qed.

(** Reading, as the commands use it. *)
Lemma read_refines_step d s m n x :
  holds d s → represents s m →
  runs (find_file fs n x) d (λ o d1, holds d1 s ∧
    match o with
    | None => m !! (n, x) = None
    | Some e => runs (read_file fs e) d1 (λ bytes d2, m !! (n, x) = Some bytes ∧ holds d2 s)
    end).
Proof.
  intros Hd Hr. eapply runs_mono; [by apply find_file_spec|]. intros o d1 [-> Hd1]. split; [done|].
  destruct (lookup_file fs s n x) as [e|] eqn:He.
  - destruct (represents_lookup _ _ _ _ _ Hr He) as (b & Hm & cs & Hc & Hs & Hlt & Ht).
    eapply runs_mono; [apply (read_file_spec fs Hwf d1 s e cs); try done|].
    + lia.
    + rw Hs -{1}Ht length_take. lia.
    + intros bytes d2 [-> Hd2]. split; [|done]. by rw Hm Hs Nat2Z.id Ht.
  - destruct (m !! (n, x)) as [b|] eqn:Hm; [|done].
    destruct (rp_some _ _ _ _ Hr n x b Hm) as (e' & ? & _). congruence.
Qed.

(** C3. Reading refines lookup: on a disk that represents [m], [find_file] finds
    a name exactly when the map has it, and [read_file] of the entry returns the
    content the map gives; the disk is unchanged. *)
Theorem read_refines d s m n x :
  holds d s → represents s m →
  runs (find_file fs n x) d (λ o d1, holds d1 s ∧
    match o with
    | None => m !! (n, x) = None
    | Some e => runs (read_file fs e) d1 (λ bytes d2, m !! (n, x) = Some bytes ∧ holds d2 s)
    end).
Proof. apply read_refines_step. Qed.

(** Creating, as the commands use it. *)
Lemma write_new_file_refines_step d s m n x data :
  holds d s → represents s m → m !! (n, x) = None → wf_name n x →
  Forall is_byte data → zlen data < 2 ^ 32 →
  is_Some (empty_slot fs s) → enough (capacity D) fs (free_clusters fs s) data →
  runs (write_new_file fs n x data) d (λ r d', r = Ok tt ∧ ∃ s',
    holds d' s' ∧ represents s' (<[(n, x) := data]> m)).
Proof.
  intros Hd Hr Hm Hn Hb Hl [p Hp] He.
  pose proof (rp_none _ _ _ _ Hr n x Hm) as Hnone. pose proof (empty_slot_elem _ _ _ Hp) as Hpin.
  eapply runs_mono; [by eapply write_new_file_run|].
  intros r d1 (s1 & c & -> & Hd1 & Hwe & Hc & Hw & Hh & Hsec). split; [done|].
  eexists. split; [exact Hd1|]. pose proof (wn_first _ _ Hn) as [H0 HE]. destruct He as [_ Hv].
  assert (∀ l, in_root fs l → s1 l = s l) as Hroot by by eapply written_root.
  assert (empty_slot fs s1 = Some p) as Hp1 by by rw (empty_slot_frame fs s s1).
  assert (clean fs s1) as Hcl by by apply (clean_frame fs s s1 Hroot), Hr.
  assert (∀ y, y ∈ take (alloc_count fs data) (free_clusters fs s) → fat_get fs s y = 0) as Hz.
  { intros y Hy%subseteq_take. by apply (elem_free fs s y). }
  eapply (represents_insert s _ m n x data (new_entry n x c (zlen data))); [done|..].
  - apply first_some_Some in Hp1 as (pre & q & post & E & Hq & Hpre).
    destruct (window_free (slot_window s1 q)) eqn:Hfq; simplify_eq.
    eapply clean_set; try done. intros z Hz0. specialize (Hpre z Hz0).
    rw /window_free in Hpre. by destruct (Z.eqb_spec (byte_at (slot_window s1 z) 0) 0).
  - apply (lookup_new fs s1 p (new_entry n x c (zlen data))); try done.
    by rw /= (lookup_file_frame fs s s1).
  - apply (entry_content_dir fs Hwf); [done|]. by eapply written_content.
  - apply dir_set_chain; [done|]. by apply (wr_chain _ _ _ _ _ _ Hw).
  - intros n' x' Hne. rw (lookup_other_eq fs s1 p (new_entry n x c (zlen data))); try done.
    by apply lookup_file_frame.
  - intros n' x' e' cs' b Hne Hl' Hc' Hb'. split_and!.
    + apply dir_set_chain; [done|]. by eapply written_chain.
    + apply (entry_content_dir fs Hwf); [done|]. by eapply written_other.
    + intros y Hy Hy'. pose proof (chain_used _ _ _ _ _ Hwf Hc') as Hu.
      eapply Forall_forall in Hu; [|done]. by apply Hu, Hz.
Qed.

(** C1. Creating refines insertion: on a disk that represents [m], creating a
    file of a new name succeeds when a slot and enough clusters are free, and
    the disk then represents [m] with the new content; in particular no other
    name changes and no two files share a cluster. *)
Theorem write_new_file_refines d s m n x data :
  holds d s → represents s m → m !! (n, x) = None → wf_name n x →
  Forall is_byte data → zlen data < 2 ^ 32 →
  is_Some (empty_slot fs s) → enough (capacity D) fs (free_clusters fs s) data →
  runs (write_new_file fs n x data) d (λ r d', r = Ok tt ∧ ∃ s',
    holds d' s' ∧ represents s' (<[(n, x) := data]> m)).
Proof. apply write_new_file_refines_step. Qed.

(** Overwriting, as the commands use it. *)
Lemma overwrite_file_refines_step d s m n x data e cs :
  holds d s → represents s m → lookup_file fs s n x = Some e →
  chain (capacity D) fs s (cluster_low e) cs →
  Forall is_byte data → zlen data < 2 ^ 32 → enough (capacity D) fs (reusable fs s cs) data →
  runs (overwrite_file fs n x data) d (λ r d', r = Ok tt ∧ ∃ s',
    holds d' s' ∧ represents s' (<[(n, x) := data]> m)).
Proof.
  intros Hd Hr Hlk Hc Hb Hl He. destruct (lookup_locate _ _ _ _ _ Hlk) as [p Hloc].
  destruct (located_name _ _ _ _ _ _ Hloc) as [Hn Hx]. pose proof Hloc as (Hpin & _ & Hm)%locate_lookup.
  eapply runs_mono; [by eapply overwrite_file_run|].
  intros r d' (s1 & s2 & c & -> & Hd' & Hwe & Hsz & Hf & Hw & Hh & Hsec & Hroot).
  split; [done|]. eexists. split; [exact Hd'|].
  assert (locate_file fs s2 n x = Some (p, e)) as Hloc2 by by rw (locate_frame fs s s2).
  destruct (located_entry _ _ _ _ _ _ Hloc2 Hsec) as (_ & _ & _ & _ & H0 & HE).
  destruct He as [_ Hv].
  assert (∀ y, y ∈ take (alloc_count fs data) (reusable fs s cs) → fat_get fs s1 y = 0) as Hz.
  { intros y Hy%subseteq_take. rw -(freed_reusable fs s s1 cs Hf) in Hy. by apply (elem_free fs s1 y). }
  eapply (represents_insert s _ m n x data (set_entry_data e c (zlen data))); [done|..].
  - by eapply clean_replace; [exact Hloc2|..|apply (clean_frame fs s s2 Hroot), Hr].
  - by apply (lookup_replace fs s2 n x p e).
  - apply (entry_content_dir fs Hwf); [done|]. eexists. split; [by eapply wr_chain|].
    split; [done|]. split; [done|]. by apply (wr_data _ _ _ _ _ _ Hw).
  - apply dir_set_chain; [done|]. by apply (wr_chain _ _ _ _ _ _ Hw).
  - intros n' x' Hne. rw (lookup_replace_other fs s2 n x p e); try done. by apply lookup_file_frame.
  - intros n' x' e' cs' b Hne Hl' Hc' Hb'.
    assert (cs ## cs') as Hd2 by by eapply (rp_disj _ _ _ _ Hr n x e cs n' x' e' cs').
    assert (chain (capacity D) fs s1 (cluster_low e') cs') as Hc1 by by eapply freed_chain.
    split_and!.
    + apply dir_set_chain; [done|]. by eapply written_chain.
    + apply (entry_content_dir fs Hwf); [done|]. eapply written_other; [done..|].
      by eapply freed_content.
    + intros y Hy Hy'. pose proof (chain_used _ _ _ _ _ Hwf Hc1) as Hu.
      eapply Forall_forall in Hu; [|done]. by apply Hu, Hz.
Qed.

(** C2. Overwriting refines insertion: on a disk that represents [m], where the
    name holds a file whose clusters are [cs], [overwrite_file] succeeds when the
    free clusters and those of the old content are enough for the new one, and
    the disk then represents [m] with the new content. *)
Theorem overwrite_file_refines d s m n x data e cs :
  holds d s → represents s m → lookup_file fs s n x = Some e →
  chain (capacity D) fs s (cluster_low e) cs →
  Forall is_byte data → zlen data < 2 ^ 32 → enough (capacity D) fs (reusable fs s cs) data →
  runs (overwrite_file fs n x data) d (λ r d', r = Ok tt ∧ ∃ s',
    holds d' s' ∧ represents s' (<[(n, x) := data]> m)).
Proof. apply overwrite_file_refines_step. Qed.
End refine.

(** ** Small volumes *)

Section small.
Context (cap : Z) (fs : Fat16FileSystem).
Implicit Types (s : disk).

Lemma first_some_unused s name ext (ps : list (Z * Z)) :
  (∀ q, q ∈ ps → byte_at (slot_window s q) 0 = 0x00) →
  mjoin (first_some (λ q, window_match name ext (slot_window s q)) ps) = None.
Proof.
  destruct ps as [|q ps]; intros H; [done|].
  rw first_some_cons /window_match H; [set_solver|done].
Qed.

(** A directory of unused slots represents the empty map. *)
Lemma represents_empty s :
  (∀ q, q ∈ root_slots fs → byte_at (slot_window s q) 0 = 0x00) → represents cap fs s ∅.
Proof.
  intros H. assert (∀ n x, lookup_file fs s n x = None) as Hnone.
  { intros n x. by apply first_some_unused. }
  split.
  - intros pre p post E _ q Hq. apply H. rw E. set_solver.
  - done.
  - intros n x b Hb. by rw lookup_empty in Hb.
  - intros ???????? Hl. by rw Hnone in Hl.
Qed.

(** One file, in the first slot. *)
Lemma represents_single s p rest e b :
  root_slots fs = p :: rest → (∀ q, q ∈ rest → byte_at (slot_window s q) 0 = 0x00) →
  wf_entry e → byte_at (filename e) 0 ≠ 0x00 → byte_at (filename e) 0 ≠ 0xE5 →
  slot_window s p = DirectoryEntry_bytes e → entry_content cap fs s e b →
  represents cap fs s {[ (filename e, extension e) := b ]}.
Proof.
  intros E Hrest He H0 HE Hp Hb.
  assert (∀ n x, lookup_file fs s n x =
    if decide ((filename e, extension e) = (n, x)) then Some e else None) as Hl.
  { intros n x. rw /lookup_file E first_some_cons Hp. case_decide as Hd.
    - injection Hd as <- <-. pose proof (window_match_entry e [] He H0 HE) as Hw.
      rw app_nil_r in Hw. by rw Hw.
    - rw window_match_other //. by apply first_some_unused. }
  assert (byte_at (slot_window s p) 0 ≠ 0) as Hp0.
  { rw Hp. destruct He as [[Hlen _] _ _ _ _].
    rw /DirectoryEntry_bytes /byte_at lookup_app_l; [lia|done]. }
  split.
  - intros [|p' pre] q post E' Hq r Hr; rw E in E'; injection E' as <- ->; [done|].
    apply Hrest. set_solver.
  - intros n x Hn%lookup_singleton_None. rw Hl. by rw decide_False.
  - intros n x b' [Hk <-]%lookup_singleton_Some. exists e. split; [|done].
    rw Hl. by rw decide_True.
  - intros n1 x1 e1 cs1 n2 x2 e2 cs2 H1 _ H2 _ Hne. rw Hl in H1. rw Hl in H2.
    repeat case_decide; congruence.
Qed.
End small.

(** The small volume with one file of five bytes in cluster 2. *)
Definition tiny_entry : DirectoryEntry := new_entry tiny_name tiny_ext 2 5.
Definition tiny_file_disk : MemDisk :=
  {| md_size := tiny_cap;
     md_data := {[ 1 := [0xF8; 0xFF; 0xFF; 0xFF; 0xFF; 0xFF] ++ replicate 506 0;
                   2 := DirectoryEntry_bytes tiny_entry ++ replicate 480 0;
                   3 := str "hello" ++ replicate 507 0 ]} |}.

Lemma tiny_file_holds : holds tiny_file_disk (md_sector tiny_file_disk).
Proof. apply (md_holds_self tiny_file_disk). reflexivity. Qed.

Lemma tiny_chain : chain (capacity MemDisk) tiny_fs (md_sector tiny_file_disk) 2 [2].
Proof.
  split; [done|]. split; [refine (bool_decide_unpack _ _); vm_compute; exact I|].
  vm_compute. discriminate.
Qed.

Lemma tiny_content :
  entry_content (capacity MemDisk) tiny_fs (md_sector tiny_file_disk) tiny_entry (str "hello").
Proof. exists [2]. split; [exact tiny_chain|]. split; [done|]. split; [done|]. vm_compute. reflexivity. Qed.

Lemma tiny_represents :
  represents (capacity MemDisk) tiny_fs (md_sector tiny_file_disk)
    {[ (tiny_name, tiny_ext) := str "hello" ]}.
Proof.
  apply (represents_single (capacity MemDisk) tiny_fs (md_sector tiny_file_disk) (2, 0)
           (tail (root_slots tiny_fs)) tiny_entry (str "hello")).
  - reflexivity.
  - apply Forall_forall. refine (bool_decide_unpack _ _). vm_compute. exact I.
  - by destruct (new_entry_wf tiny_name tiny_ext 2 5 tiny_name_ok).
  - done.
  - done.
  - vm_compute. reflexivity.
  - exact tiny_content.
Qed.

Lemma tiny_represents_empty :
  represents (capacity MemDisk) tiny_fs (md_sector tiny_disk) ∅.
Proof.
  apply represents_empty. apply Forall_forall. refine (bool_decide_unpack _ _). vm_compute. exact I.
Qed.

(** ** Witnesses *)

Lemma read_refines_witness :
  runs (find_file tiny_fs tiny_name tiny_ext) tiny_file_disk (λ o d1, holds d1 (md_sector tiny_file_disk) ∧
    match o with
    | None => ({[ (tiny_name, tiny_ext) := str "hello" ]} : files) !! (tiny_name, tiny_ext) = None
    | Some e => runs (read_file tiny_fs e) d1 (λ bytes d2,
        ({[ (tiny_name, tiny_ext) := str "hello" ]} : files) !! (tiny_name, tiny_ext) = Some bytes ∧
        holds d2 (md_sector tiny_file_disk))
    end).
Proof.
  apply (read_refines (D := MemDisk) tiny_fs tiny_wf).
  - exact tiny_file_holds.
  - exact tiny_represents.
Defined.

Lemma write_new_file_refines_witness :
  runs (write_new_file tiny_fs tiny_name tiny_ext (str "hello")) tiny_disk (λ r d', r = Ok tt ∧ ∃ s',
    holds d' s' ∧
    represents (capacity MemDisk) tiny_fs s' (<[(tiny_name, tiny_ext) := str "hello"]> ∅)).
Proof.
  apply (write_new_file_refines (D := MemDisk) tiny_fs tiny_wf tiny_disk (md_sector tiny_disk)).
  - exact tiny_holds.
  - exact tiny_represents_empty.
  - done.
  - exact tiny_name_ok.
  - refine (bool_decide_unpack _ _). vm_compute. exact I.
  - done.
  - vm_compute. eauto.
  - refine (bool_decide_unpack _ _). vm_compute. exact I.
Defined.

Lemma overwrite_file_refines_witness :
  runs (overwrite_file tiny_fs tiny_name tiny_ext (replicate 700 65)) tiny_file_disk (λ r d', r = Ok tt ∧ ∃ s',
    holds d' s' ∧
    represents (capacity MemDisk) tiny_fs s'
      (<[(tiny_name, tiny_ext) := replicate 700 65]> {[ (tiny_name, tiny_ext) := str "hello" ]})).
Proof.
  apply (overwrite_file_refines (D := MemDisk) tiny_fs tiny_wf tiny_file_disk
           (md_sector tiny_file_disk) _ _ _ _ tiny_entry [2]).
  - exact tiny_file_holds.
  - exact tiny_represents.
  - vm_compute. reflexivity.
  - exact tiny_chain.
  - apply Forall_replicate. done.
  - done.
  - refine (bool_decide_unpack _ _). vm_compute. exact I.
Defined.
