(* ===== verification/FsShadow.v ===== *)
(** * Creating a name that exists

    [write_new_file] does not look for the name: a second entry of the same name
    is stored after the first, which every search finds. *)

From S2P Require Import Prelude Device Str Fat16 FatTable FatDir FatFile FsSpec FsTheorems FsOverwrite.
From S2P Require Import FsRefine.
#[local] Open Scope Z_scope.

Section shadow.
Context {D : Type} `{!BlockDevice D, !BlockDeviceOk D}.
Context (fs : Fat16FileSystem) (Hwf : wf_fs (capacity D) fs).
Implicit Types (d : D) (s : disk).

Notation represents := (represents (capacity D) fs).

(** A step that keeps every search and, for the files found, chain and content. *)
Lemma represents_keep s s' m :
  represents s m → clean fs s' →
  (∀ n x, lookup_file fs s' n x = lookup_file fs s n x) →
  (∀ n x e cs b, lookup_file fs s n x = Some e →
     chain (capacity D) fs s (cluster_low e) cs → entry_content (capacity D) fs s e b →
     chain (capacity D) fs s' (cluster_low e) cs ∧ entry_content (capacity D) fs s' e b) →
  represents s' m.
Proof.
  intros Hr Hcl Hl Hkeep.
  assert (∀ n x e cs, lookup_file fs s n x = Some e → chain (capacity D) fs s' (cluster_low e) cs →
    chain (capacity D) fs s (cluster_low e) cs) as Hback.
  { intros n x e cs He Hc. destruct (represents_lookup fs _ _ _ _ _ Hr He) as (b & _ & Hb).
    pose proof Hb as (cs1 & Hc1 & _). destruct (Hkeep n x e cs1 b He Hc1 Hb) as [Hc2 _].
    by rw (chain_unique _ _ _ _ _ _ Hwf Hc Hc2). }
  split; [done| | |].
  - intros n x Hm. rw Hl. by apply (rp_none _ _ _ _ Hr).
  - intros n x b Hm. destruct (rp_some _ _ _ _ Hr n x b Hm) as (e & He & Hb). exists e.
    rw Hl. split; [done|]. pose proof Hb as (cs & Hc & _). by apply (Hkeep n x e cs b).
  - intros n1 x1 e1 cs1 n2 x2 e2 cs2 H1 Hc1 H2 Hc2 Hne. rw Hl in H1. rw Hl in H2.
    eapply (rp_disj _ _ _ _ Hr n1 x1 e1 cs1 n2 x2 e2 cs2); [done|by eapply Hback|done|by eapply Hback|done].
Qed.

(** An entry stored in a slot that was never used is behind the first of its name. *)
Lemma lookup_shadowed s p e name ext e0 :
  p ∈ root_slots fs → byte_at (slot_window s p) 0 = 0x00 → is_sector (s p.1) → wf_entry e →
  lookup_file fs s name ext = Some e0 →
  lookup_file fs (dir_set s p e) name ext = Some e0.
Proof.
  intros Hp Hp0 Hs He Hlk. rw /lookup_file in Hlk |- *.
  destruct (first_some _ _) as [o|] eqn:Ef; [|done]. simpl in Hlk. subst o.
  apply first_some_Some in Ef as (pre & q & post & E & Hq & Hpre).
  assert (window_match name ext (slot_window s p) = Some None) as Hstop by by rw /window_match Hp0.
  assert (∀ r, r ∈ pre ++ [q] → slot_window (dir_set s p e) r = slot_window s r) as Hold.
  { intros r Hr. apply (slot_window_set_ne s p r e fs); [done|rw E; set_solver| |done..].
    intros <-. apply elem_of_app in Hr as [Hr|Hr%list_elem_of_singleton].
    - by rw Hpre in Hstop.
    - subst. congruence. }
  rw E first_some_app first_some_cons.
  rw (first_some_ext _ (λ r, window_match name ext (slot_window s r)) pre).
  { intros r Hr. by rw Hold; [set_solver|]. }
  assert (first_some (λ r, window_match name ext (slot_window s r)) pre = None) as ->
    by by apply first_some_None.
  rw Hold; [set_solver|]. by rw Hq.
Qed.

(** Creating an existing name, as the commands use it. *)
Lemma create_existing_step d s m n x old data p :
  holds d s → represents s m → m !! (n, x) = Some old → wf_name n x →
  Forall is_byte data → zlen data < 2 ^ 32 →
  empty_slot fs s = Some p → byte_at (slot_window s p) 0 = 0x00 →
  enough (capacity D) fs (free_clusters fs s) data →
  runs (write_new_file fs n x data) d (λ r d', r = Ok tt ∧ ∃ s', holds d' s' ∧ represents s' m).
Proof.
  intros Hd Hr Hm Hn Hb Hl Hp Hp0 He. pose proof (empty_slot_elem _ _ _ Hp) as Hpin.
  eapply runs_mono; [by eapply write_new_file_run|].
  intros r d1 (s1 & c & -> & Hd1 & Hwe & Hc & Hw & Hh & Hsec). split; [done|].
  eexists. split; [exact Hd1|]. pose proof (wn_first _ _ Hn) as [H0 HE]. destruct He as [_ Hv].
  assert (∀ l, in_root fs l → s1 l = s l) as Hroot by by eapply written_root.
  assert (empty_slot fs s1 = Some p) as Hp1 by by rw (empty_slot_frame fs s s1).
  assert (clean fs s1) as Hcl by by apply (clean_frame fs s s1 Hroot), Hr.
  assert (byte_at (slot_window s1 p) 0 = 0x00) as Hp01 by by rw (slot_window_frame fs s s1).
  assert (∀ y, y ∈ take (alloc_count fs data) (free_clusters fs s) → fat_get fs s y = 0) as Hz.
  { intros y Hy%subseteq_take. by apply (elem_free fs s y). }
  apply (represents_keep s _ m Hr).
  - pose proof Hp1 as Hp2. apply first_some_Some in Hp2 as (pre & q & post & E & Hq & Hpre).
    destruct (window_free (slot_window s1 q)) eqn:Hfq; simplify_eq.
    eapply clean_set; try done. intros z Hz0. specialize (Hpre z Hz0).
    rw /window_free in Hpre. by destruct (Z.eqb_spec (byte_at (slot_window s1 z) 0) 0).
  - intros n' x'. rw -(lookup_file_frame fs s s1 n' x' Hroot).
    destruct (decide ((n, x) = (n', x'))) as [[= <- <-]|Hne].
    + destruct (rp_some _ _ _ _ Hr n x old Hm) as (e0 & He0 & _).
      rw -(lookup_file_frame fs s s1 n x Hroot) in He0. rw He0. by apply lookup_shadowed.
    + by rw (lookup_other_eq fs s1 p (new_entry n x c (zlen data))).
  - intros n' x' e' cs' b Hl' Hc' Hb'. split.
    + apply (dir_set_chain fs Hwf); [done|]. by eapply (written_chain fs Hwf).
    + apply (entry_content_dir fs Hwf); [done|]. by eapply written_other.
Qed.

(** Creating a name that exists changes no file: on a disk that represents [m],
    when the name is in [m] and the next slot was never used, [write_new_file]
    reports success and the disk still represents [m]; the new content cannot be
    read and its clusters are taken. *)
Theorem create_existing_shadowed d s m n x old data p :
  holds d s → represents s m → m !! (n, x) = Some old → wf_name n x →
  Forall is_byte data → zlen data < 2 ^ 32 →
  empty_slot fs s = Some p → byte_at (slot_window s p) 0 = 0x00 →
  enough (capacity D) fs (free_clusters fs s) data →
  runs (write_new_file fs n x data) d (λ r d', r = Ok tt ∧ ∃ s', holds d' s' ∧ represents s' m).
Proof. apply create_existing_step. Qed.
End shadow.

Lemma create_existing_shadowed_witness :
  runs (write_new_file tiny_fs tiny_name tiny_ext (str "bye")) tiny_file_disk (λ r d', r = Ok tt ∧ ∃ s',
    holds d' s' ∧ represents (capacity MemDisk) tiny_fs s' {[ (tiny_name, tiny_ext) := str "hello" ]}).
Proof.
  apply (create_existing_shadowed (D := MemDisk) tiny_fs tiny_wf tiny_file_disk (md_sector tiny_file_disk) _ _ _
           (str "hello") (str "bye") (2, 32)).
  - exact tiny_file_holds.
  - exact tiny_represents.
  - vm_compute. reflexivity.
  - exact tiny_name_ok.
  - refine (bool_decide_unpack _ _). vm_compute. exact I.
  - done.
  - vm_compute. reflexivity.
  - vm_compute. reflexivity.
  - refine (bool_decide_unpack _ _). vm_compute. exact I.
Defined.
