(* ===== verification/FsMore.v ===== *)
(** * Error paths, termination and search equivalence of the filesystem *)

From S2P Require Import Prelude Device Str Fat16 FatTable FatDir FatFile FsSpec FsTheorems FsOverwrite.
From S2P Require Import FsRefine.
#[local] Open Scope Z_scope.

Section errors.
Context {D : Type} `{!BlockDevice D, !BlockDeviceOk D}.
Context (fs : Fat16FileSystem) (Hwf : wf_fs (capacity D) fs).
Implicit Types (d : D) (s : disk).

(** The search result with and without the position. *)
Lemma lookup_locate_eq s name ext :
  lookup_file fs s name ext = snd <$> locate_file fs s name ext.
Proof.
  rw /lookup_file /locate_file. induction (root_slots fs) as [|p ps IH]; [done|].
  rw !first_some_cons. by destruct (window_match name ext (slot_window s p)) as [[e|]|].
Qed.

(** [find_file] and [find_file_location] agree: on every disk the former
    returns the entry of the latter, and both leave the disk unchanged. *)
Theorem find_file_agrees d s name ext :
  holds d s →
  runs (find_file_location fs name ext) d (λ loc d1, holds d1 s ∧
    runs (find_file fs name ext) d1 (λ o d2, o = snd <$> loc ∧ holds d2 s)).
Proof.
  intros Hd. eapply runs_mono; [by apply find_file_location_spec|]. intros loc d1 [-> Hd1].
  split; [done|]. eapply runs_mono; [by apply find_file_spec|]. intros o d2 [-> Hd2].
  by rw lookup_locate_eq.
Qed.

(** Overwriting a name the directory does not have fails with "File not
    found" and changes nothing. *)
Theorem overwrite_file_missing d s name ext data :
  holds d s → lookup_file fs s name ext = None →
  runs (overwrite_file fs name ext data) d (λ r d1,
    r = Err "File not found"%string ∧ holds d1 s).
Proof.
  intros Hd Hn. rw lookup_locate_eq fmap_None in Hn. rw /overwrite_file. rbind.
  eapply runs_mono; [by apply find_file_location_spec|]. intros loc d1 [-> Hd1]. rw Hn.
  by apply runs_ret.
Qed.

(** Overwriting with a content that does not fit fails with "Disk full"
    after the old chain was freed and its clusters taken again: the directory
    still names the file, and no cluster of the volume is free. *)
Theorem overwrite_file_disk_full d s name ext data e cs :
  holds d s → lookup_file fs s name ext = Some e →
  chain (capacity D) fs s (cluster_low e) cs → Forall is_byte data →
  (length (reusable fs s cs) < alloc_count fs data)%nat →
  Forall (valid_cluster (capacity D) fs) (reusable fs s cs) →
  runs (overwrite_file fs name ext data) d (λ r d', ∃ s', holds d' s' ∧
    r = Err "Disk full"%string ∧ lookup_file fs s' name ext = Some e ∧ free_clusters fs s' = []).
Proof.
  intros Hd Hlk Hc Hb Hn Hv. destruct (lookup_locate _ _ _ _ _ Hlk) as [[lba off] Hloc].
  pose proof Hloc as (Hp & _)%locate_lookup. apply elem_root_slots in Hp as [Hp _].
  destruct (located_entry fs s name ext (lba, off) e Hloc) as (_ & [_ _ _ Hw _] & _).
  { eapply holds_sector; [done|]. by apply (in_root_cap fs Hwf). }
  rw /overwrite_file. rbind. eapply runs_mono; [by apply find_file_location_spec|].
  intros loc d1 [-> Hd1]. rw Hloc. rbind.
  eapply runs_mono; [eapply (free_cluster_chain_run fs Hwf d1 s); [done..|]|].
  { rw !Forall_cons in Hw. rw /is_u16 in Hw. lia. }
  intros [] d2 (s1 & Hd2 & Hf). pose proof (freed_reusable _ _ _ _ Hf) as Hre.
  rbind. eapply runs_mono; [apply (write_loop_full_run fs Hwf d2 s1); rw ?Hre; done|].
  intros r d3 (s2 & Hd3 & -> & Hfree & Hr). apply runs_ret. exists s2. split_and!; try done.
  rw (lookup_file_frame fs s1 s2 _ _ Hr) -Hlk. apply lookup_file_frame.
  intros l Hl. apply (fr_frame _ _ _ _ Hf). by apply (in_root_not_fat fs Hwf).
Qed.

(** C33. Freeing a chain terminates whatever the table holds, cycles included
    (a freed entry reads back as zero), and only ever clears entries. *)
Theorem free_cluster_chain_terminates d s c :
  reserved_sectors (bpb fs) + 256 ≤ capacity D → holds d s → 0 ≤ c < 65536 →
  runs (free_cluster_chain fs c) d (λ _ d', ∃ s', holds d' s' ∧
    ∀ x, 0 ≤ x < 65536 → fat_get fs s' x = 0 ∨ fat_get fs s' x = fat_get fs s x).
Proof.
  intros. apply free_chain_loop_total; try done.
  assert (used_entries fs s ≤ Z.to_nat 65536)%nat; [|rw /chain_fuel; lia].
  rw /used_entries. etrans; [apply length_filter|]. by rw length_seqZ.
Qed.

(** A table whose links lead to clusters of the drive or end a chain; cycles are
    allowed. *)
Definition closed_table s : Prop :=
  ∀ c, valid_cluster (capacity D) fs c →
    valid_cluster (capacity D) fs (fat_get fs s c) ∨ 0xFFF8 ≤ fat_get fs s c.

Lemma read_loop_total fuel d s c acc rem :
  holds d s → closed_table s → valid_cluster (capacity D) fs c ∨ 0xFFF8 ≤ c →
  0 ≤ rem < 2 ^ 32 → rem / 512 + 2 ≤ Z.of_nat fuel →
  runs (read_loop fuel fs c acc rem) d (λ r d',
    zlen r ≤ zlen acc + rem ∧ holds d' s).
Proof.
  revert d c acc rem. induction fuel as [|fuel IH]; intros d c acc rem Hd Hcl Hc Hrem Hf.
  { exfalso. revert Hf. dlia. }
  simpl. destruct (Z.ltb_spec c 65528) as [Hlt|Hge]; [|apply runs_ret; split; [lia|done]].
  destruct Hc as [Hv|?]; [|lia]. pose proof Hwf as [Hbps Hspc Hres Hfats Hspf Hroot Hcp].
  pose proof (data_start_nonneg _ _ Hwf) as [? ?]. pose proof (cluster_lba_bounds fs Hwf c Hv) as [Hb1 Hb2].
  pose proof Hv as [Hcr _].
  rlift; [by apply cluster_to_lba_Done|].
  rbind. eapply runs_mono; [apply read_sectors_spec; [done|lia..]|].
  intros [acc1 rem1] d1 [[= -> ->] Hd1]. rw Z.add_0_r.
  pose proof (length_cluster_bytes fs Hwf d s c Hd Hv) as Hl. rw /bytes_per_cluster /cluster_bytes in Hl.
  destruct (Z.eqb_spec (rem - Z.min rem (sectors_per_cluster (bpb fs) * 512)) 0) as [E|E].
  - apply runs_ret. split; [|done]. rw length_app length_take. lia.
  - rbind. eapply runs_mono; [apply get_fat_entry_spec; [done|by apply fat_lba_range; [done|lia]]|].
    intros v d2 [-> Hd2]. eapply runs_mono; [apply IH; [done|done|by apply Hcl|lia|]|].
    { apply Z.le_trans with ((rem - 512) / 512 + 2); [|revert Hf; dlia].
      apply Z.add_le_mono_r, Z.div_le_mono; lia. }
    intros r d3 [Hr Hd3]. split; [|done]. rw length_app length_take in Hr. lia.
Qed.

(** C34. [read_file] terminates on every closed table, even when the chain is a
    cycle, and returns at most [file_size] bytes. *)
Theorem read_file_terminates d s e :
  holds d s → closed_table s →
  valid_cluster (capacity D) fs (cluster_low e) ∨ 0xFFF8 ≤ cluster_low e →
  0 ≤ file_size e < 2 ^ 32 →
  runs (read_file fs e) d (λ r d', zlen r ≤ file_size e ∧ holds d' s).
Proof.
  intros Hd Hcl Hc Hs. rw /read_file. eapply runs_mono; [by apply read_loop_total; try done; rw /read_fuel; dlia|].
  intros r d' [? ?]. split; [simpl in *; lia|done].
Qed.
End errors.

(** ** Witnesses *)

Definition other_name : list Z := str "OTHER   ".
Lemma other_name_ok : wf_name other_name tiny_ext.
Proof. split; split; try done; repeat constructor; rw /is_byte; done. Qed.

Lemma write_new_file_preserves_witness :
  runs (write_new_file tiny_fs other_name tiny_ext (str "bye")) tiny_file_disk (λ r d1, r = Ok tt ∧ ∃ s1,
    holds d1 s1 ∧ stored (capacity MemDisk) tiny_fs s1 tiny_name tiny_ext (str "hello")).
Proof.
  apply (write_new_file_preserves (D := MemDisk) tiny_fs tiny_wf tiny_file_disk (md_sector tiny_file_disk)).
  - exact tiny_file_holds.
  - exact other_name_ok.
  - refine (bool_decide_unpack _ _). vm_compute. exact I.
  - done.
  - vm_compute. eauto.
  - refine (bool_decide_unpack _ _). vm_compute. exact I.
  - discriminate.
  - exists tiny_entry. split; [vm_compute; reflexivity|exact tiny_content].
Defined.

Lemma find_file_agrees_witness :
  runs (find_file_location tiny_fs tiny_name tiny_ext) tiny_file_disk (λ loc d1,
    holds d1 (md_sector tiny_file_disk) ∧
    runs (find_file tiny_fs tiny_name tiny_ext) d1 (λ o d2,
      o = snd <$> loc ∧ holds d2 (md_sector tiny_file_disk))).
Proof. apply (find_file_agrees (D := MemDisk) tiny_fs tiny_wf), tiny_file_holds. Defined.

Lemma overwrite_file_missing_witness :
  runs (overwrite_file tiny_fs other_name tiny_ext (str "x")) tiny_file_disk (λ r d1,
    r = Err "File not found"%string ∧ holds d1 (md_sector tiny_file_disk)).
Proof.
  apply (overwrite_file_missing (D := MemDisk) tiny_fs tiny_wf).
  - exact tiny_file_holds.
  - vm_compute. reflexivity.
Defined.

(** The file of [tiny_file_disk], with the clusters beyond the drive marked bad. *)
Definition tiny_packed_disk : MemDisk :=
  {| md_size := tiny_cap;
     md_data := <[1 := [0xF8; 0xFF; 0xFF; 0xFF; 0xFF; 0xFF] ++ replicate 24 0 ++ replicate 482 0xF7]>
                  (md_data tiny_file_disk) |}.

Lemma overwrite_file_disk_full_witness :
  runs (overwrite_file tiny_fs tiny_name tiny_ext (replicate 7000 65)) tiny_packed_disk (λ r d', ∃ s',
    holds d' s' ∧ r = Err "Disk full"%string ∧
    lookup_file tiny_fs s' tiny_name tiny_ext = Some tiny_entry ∧ free_clusters tiny_fs s' = []).
Proof.
  apply (overwrite_file_disk_full (D := MemDisk) tiny_fs tiny_wf tiny_packed_disk
           (md_sector tiny_packed_disk) _ _ _ tiny_entry [2]).
  - apply (md_holds_self tiny_packed_disk). reflexivity.
  - vm_compute. reflexivity.
  - split; [done|]. split; [refine (bool_decide_unpack _ _); vm_compute; exact I|].
    vm_compute. discriminate.
  - apply Forall_replicate. done.
  - apply Nat.ltb_lt. vm_compute. reflexivity.
  - refine (bool_decide_unpack _ _). vm_compute. exact I.
Defined.

(** A drive of 300 sectors whose table has the cycle 2, 3, 2. *)
Definition cyclic_disk (size : Z) : MemDisk :=
  {| md_size := size;
     md_data := {[ 1 := [0xF8; 0xFF; 0xFF; 0xFF; 3; 0; 2; 0] ++ replicate 504 0xFF ]} |}.
Lemma cap300_ok : 0 ≤ 300 ≤ 2 ^ 28.
Proof. done. Qed.

Lemma free_cluster_chain_terminates_witness :
  runs (free_cluster_chain tiny_fs 2) (cyclic_disk 300) (λ _ d', ∃ s', md_holds 300 d' s' ∧
    ∀ x, 0 ≤ x < 65536 →
      fat_get tiny_fs s' x = 0 ∨ fat_get tiny_fs s' x = fat_get tiny_fs (md_sector (cyclic_disk 300)) x).
Proof.
  apply (free_cluster_chain_terminates (D := MemDisk) (BlockDeviceOk0 := MemDisk_ok 300 cap300_ok) tiny_fs).
  - by split.
  - done.
  - apply (md_holds_self (cyclic_disk 300)). reflexivity.
  - done.
Defined.

Lemma read_file_terminates_witness :
  runs (read_file tiny_fs (new_entry tiny_name tiny_ext 2 2000)) (cyclic_disk 16) (λ r d',
    zlen r ≤ 2000 ∧ holds d' (md_sector (cyclic_disk 16))).
Proof.
  apply (read_file_terminates (D := MemDisk) tiny_fs tiny_wf (cyclic_disk 16) (md_sector (cyclic_disk 16))
           (new_entry tiny_name tiny_ext 2 2000)).
  - apply (md_holds_self (cyclic_disk 16)). reflexivity.
  - assert (Forall (λ c, valid_cluster 16 tiny_fs c →
      valid_cluster 16 tiny_fs (fat_get tiny_fs (md_sector (cyclic_disk 16)) c) ∨
      0xFFF8 ≤ fat_get tiny_fs (md_sector (cyclic_disk 16)) c) (seqZ 0 256)) as H.
    { refine (bool_decide_unpack _ _). vm_compute. exact I. }
    intros c Hc. rw !Forall_forall in H. apply H; [|exact Hc].
    apply elem_of_seqZ. destruct Hc as [? _]. rw /nclusters /= in H0. lia.
  - left. refine (bool_decide_unpack _ _). vm_compute. exact I.
  - done.
Defined.
