(* ===== verification/FsBounds.v ===== *)
(** * The filesystem's arithmetic on untrusted boot sectors: src/src/fat16.rs

    [init] accepts every boot sector whose sector size is 512; the other fields are
    whatever the drive holds.  Where the checked arithmetic on them overflows, and
    where it does not. *)

From S2P Require Import Prelude Device Fat16 FatTable.
#[local] Open Scope Z_scope.

(** The volume a boot sector describes. *)
Definition volume_of (b : list Z) : Fat16FileSystem := {| bpb := Bpb_of_bytes b |}.

(** C28. Address arithmetic on any boot sector: for every boot sector that [init]
    accepts and every 16-bit cluster number, [cluster_to_lba] panics exactly when
    the root directory has 2033 entries or more or the number is below 2, and
    otherwise gives the first sector of the cluster, which fits in 26 bits. *)
Theorem cluster_to_lba_exact b c :
  Forall is_byte b → le16 b 11 = 512 → 0 ≤ c < 65536 →
  cluster_to_lba (volume_of b) c =
    (if decide (2033 ≤ root_entries (Bpb_of_bytes b) ∨ c < 2) then Panic POverflow
     else Done (cluster_lba (volume_of b) c)) ∧
  (2 ≤ c → 0 ≤ cluster_lba (volume_of b) c < 2 ^ 26).
Proof.
  intros Hb Hs Hc. pose proof (le16_range b 17 Hb) as Hroot. pose proof (le16_range b 14 Hb) as Hres.
  pose proof (le16_range b 22 Hb) as Hspf. pose proof (byte_at_byte b 16 Hb) as Hfats. pose proof (byte_at_byte b 13 Hb) as Hspc.
  rw /is_byte in Hfats, Hspc. assert (0 ≤ (le16 b 17 * 32 + 511) / 512 < 4097) as Hdiv by dlia.
  assert (0 ≤ byte_at b 16 * le16 b 22 ≤ 255 * 65535) as Hprod by nia.
  assert (2 ≤ c → 0 ≤ (c - 2) * byte_at b 13 ≤ 65533 * 255) as Hoff by nia.
  split.
  - rw /cluster_to_lba /cluster_lba /data_start /root_start /root_sectors. cbn [bpb volume_of Bpb_of_bytes root_entries
      bytes_per_sector fat_count sectors_per_fat reserved_sectors sectors_per_cluster]. rw Hs.
    case_decide as E.
    + destruct (decide (2033 ≤ le16 b 17)) as [Hbig|Hsmall].
      * destruct (decide (le16 b 17 * 32 < 65536)); [|rw (chk_Panic 16 (le16 b 17 * 32)); [lia|done]].
        do 2 (obind; [apply chk_Done; lia|]). rw (chk_Panic 16 (le16 b 17 * 32 + (512 - 1))); [lia|done].
      * do 3 (obind; [apply chk_Done; lia|]). obind; [apply chk_div_Done; lia|]. change (512 - 1) with 511.
        do 3 (obind; [apply chk_Done; lia|]). rw (chk_Panic 32 (c - 2)); [lia|done].
    + do 3 (obind; [apply chk_Done; lia|]). obind; [apply chk_div_Done; lia|]. change (512 - 1) with 511.
      do 5 (obind; [apply chk_Done; lia|]). apply chk_Done. lia.
  - intros H2. rw /cluster_lba /data_start /root_start /root_sectors /=. lia.
Qed.

(** ** Witness *)

(** A boot sector with 2040 root entries, beside the usual one. *)
Definition odd_boot_sector : list Z :=
  replicate 11 0 ++ [0; 2; 4; 1; 0; 2] ++ le16_bytes 2040 ++ replicate 493 0.

Lemma cluster_to_lba_exact_witness :
  cluster_to_lba (volume_of odd_boot_sector) 5 =
    (if decide (2033 ≤ root_entries (Bpb_of_bytes odd_boot_sector) ∨ 5 < 2) then Panic POverflow
     else Done (cluster_lba (volume_of odd_boot_sector) 5)) ∧
  (2 ≤ 5 → 0 ≤ cluster_lba (volume_of odd_boot_sector) 5 < 2 ^ 26).
Proof.
  apply (cluster_to_lba_exact odd_boot_sector 5).
  - refine (bool_decide_unpack _ _). vm_compute. exact I.
  - vm_compute. reflexivity.
  - lia.
Defined.
