(* ===== verification/FsFormat.v ===== *)
(** * Formatting and mounting

    [format_drive] writes a volume that [init] mounts: the theorem gives its
    geometry, its empty directory and its free clusters.  The console is an
    interface: printing must leave the drive alone. *)

From S2P Require Import Prelude Device Str Fat16 FatTable FatDir FatFile FsSpec FsTheorems FsOverwrite FsRefine.
#[local] Open Scope Z_scope.

(** What the filesystem needs from [println!]. *)
Class ConsoleOk (D : Type) `{!BlockDevice D, !BlockDeviceOk D, !Console D} := {
  print_ok (d : D) s t : holds d s → runs (print t) d (λ _ d', holds d' s);
  print_flushing (d : D) s t : flushing d s → runs (print t) d (λ _ d', flushing d' s);
}.

(** The parameter block [format_drive] writes. *)
Definition format_bpb : Bpb := {|
  jump := [0xEB; 0x3C; 0x90]; oem_name := str "myOS    ";
  bytes_per_sector := 512; sectors_per_cluster := 4; reserved_sectors := 1;
  fat_count := 2; root_entries := 512; total_sectors_16 := 65535; media_type := 0xF8;
  sectors_per_fat := 64;
|}.
Definition format_fs : Fat16FileSystem := {| bpb := format_bpb |}.

(** [n] sectors from [base] on are given by [f]. *)
Definition fill (s : disk) (base n : Z) (f : Z → list Z) : disk :=
  λ l, if decide (base ≤ l < base + n) then f (l - base) else s l.

Definition fat_image (k : Z) : list Z :=
  if k =? 0 then [0xF8; 0xFF; 0xFF; 0xFF] ++ replicate 508 0 else zero_sector.

Lemma fresh_fat_sector_Done k : fresh_fat_sector k = Done (fat_image k).
Proof. rw /fresh_fat_sector /fat_image. destruct (k =? 0); reflexivity. Qed.

Lemma fat_image_sector k : is_sector (fat_image k).
Proof.
  rw /fat_image. destruct (k =? 0); [|apply zero_sector_ok].
  split; [reflexivity|]. refine (bool_decide_unpack _ _). vm_compute. exact I.
Qed.

Lemma boot_sector_Done :
  ∃ b, boot_sector = Done b ∧ is_sector b ∧ Bpb_of_bytes b = format_bpb.
Proof.
  eexists. split; [vm_compute; reflexivity|]. split; [|vm_compute; reflexivity].
  split; [reflexivity|]. refine (bool_decide_unpack _ _). vm_compute. exact I.
Qed.

Section format.
Context {D : Type} `{!BlockDevice D, !BlockDeviceOk D, !Console D, !ConsoleOk D}.
Implicit Types (d : D) (s : disk).

(** A loop that writes one sector per iteration. *)
Lemma fill_loop (body : Z → proc D unit) d s base n f :
  holds d s → 0 ≤ n →
  (∀ k d s, 0 ≤ k < n → holds d s →
     runs (body k) d (λ _ d', holds d' (upd s (base + k) (f k)))) →
  runs (for_each body (seqZ 0 n)) d (λ _ d', holds d' (fill s base n f)).
Proof.
  intros Hd Hn Hbody.
  eapply runs_mono; [apply (runs_for_each (λ dn d', holds d' (fill s base (zlen dn) f)))|].
  - eapply holds_ext; [done|]. intros l _. rw /fill decide_False; [simpl; lia|done].
  - intros dn k rest d1 E Hd1.
    assert (k = zlen dn) as ->.
    { assert (seqZ 0 n !! length dn = Some k) as [-> _]%lookup_seqZ by by rw E list_lookup_middle.
      lia. }
    assert (zlen dn < n).
    { apply (f_equal length) in E. rw length_app length_seqZ /= in E. lia. }
    eapply runs_mono; [apply Hbody; [lia|done]|]. intros [] d2 Hd2.
    eapply holds_ext; [done|]. intros l _. rw /fill /upd length_app /=.
    repeat case_decide; try lia; subst; f_equal; lia.
  - intros [] d1 Hd1. eapply holds_ext; [done|]. intros l _.
    by rw /fill length_seqZ Z2Nat.id.
Qed.

(** The disk after formatting. *)
Definition formatted (b : list Z) s : disk :=
  fill (fill (fill (upd s 0 b) 1 64 fat_image) 65 64 fat_image) 129 32 (λ _, zero_sector).

Lemma format_run d s :
  holds d s → 161 ≤ capacity D →
  ∃ b, Bpb_of_bytes b = format_bpb ∧
  runs format_drive d (λ r d', r = Ok tt ∧ flushing d' (formatted b s)).
Proof.
  intros Hd Hcap. destruct boot_sector_Done as (b & Hb & Hsec & Hbpb). exists b. split; [done|].
  rw /format_drive. rlift; [exact Hb|].
  rbind. eapply runs_mono; [by apply write_sector_ok; [done|lia|]|]. intros [] d1 Hd1.
  assert (∀ base d s, holds d s → 0 ≤ base → base + 64 ≤ capacity D →
    runs (for_each (λ offset, fat_sector ← lift (fresh_fat_sector offset);
      write_sector_bytes (base + offset) fat_sector) (seqZ 0 64)) d
      (λ _ d', holds d' (fill s base 64 fat_image))) as Hfat.
  { intros base d0 s0 Hd0 H0 Hc. apply fill_loop; [done|lia|]. intros k d2 s2 Hk Hd2.
    rlift; [apply fresh_fat_sector_Done|]. apply write_sector_ok; [done|lia|apply fat_image_sector]. }
  rbind. change (seqZ 0 2) with [0; 1]. rw /for_each -/for_each.
  rbind. eapply runs_mono; [apply Hfat; [done|lia..]|]. intros [] d2 Hd2.
  rbind. eapply runs_mono; [apply Hfat; [done|lia..]|]. intros [] d3 Hd3. apply runs_ret.
  rbind. eapply runs_mono; [eapply (fill_loop _ d3) with (base := 129) (n := 32) (f := λ _, zero_sector);
    [exact Hd3|lia|]|].
  { intros k d4 s4 Hk Hd4. apply write_sector_ok; [done|lia|apply zero_sector_ok]. }
  intros [] d4 Hd4. rbind. eapply runs_mono; [by apply flush_command_ok|]. intros [] d5 Hd5.
  rbind. eapply runs_mono; [by apply print_flushing|]. intros [] d6 Hd6. by apply runs_ret.
Qed.

(** ** The formatted volume *)

Lemma formatted_root b s l : in_root format_fs l → formatted b s l = zero_sector.
Proof.
  rw /in_root. change (root_start format_fs) with 129. change (data_start format_fs) with 161.
  intros Hl. rw /formatted /fill decide_True; [lia|done].
Qed.

Lemma formatted_fat b s k : 0 ≤ k < 64 → formatted b s (1 + k) = fat_image k.
Proof.
  intros Hk. rw /formatted /fill. repeat (case_decide; [try lia|try lia]). f_equal. lia.
Qed.

Lemma byte_at_zeros l n i : (length l ≤ i)%nat → byte_at (l ++ replicate n 0) i = 0.
Proof.
  intros Hi. rw /byte_at lookup_app_r //. destruct (replicate n 0 !! _) as [x|] eqn:E; [|done].
  by apply lookup_replicate in E as [-> _].
Qed.

Lemma fat_image_zero k i : k ≠ 0 ∨ (4 ≤ i)%nat → byte_at (fat_image k) i = 0.
Proof.
  intros H. rw /fat_image. destruct (Z.eqb_spec k 0).
  - apply byte_at_zeros. simpl. lia.
  - apply (byte_at_zeros [] 512). simpl. lia.
Qed.

Lemma formatted_entry b s c : 2 ≤ c < 16384 → fat_get format_fs (formatted b s) c = 0.
Proof.
  intros Hc. rw /fat_get /fat_lba. change (reserved_sectors (bpb format_fs)) with 1.
  rw formatted_fat; [dlia|]. rw /le16.
  assert (c * 2 / 512 ≠ 0 ∨ (4 ≤ Z.to_nat (fat_off c))%nat) as H by (rw /fat_off; dlia).
  rw !fat_image_zero; [lia..|done].
Qed.

Lemma formatted_free b s : free_clusters format_fs (formatted b s) = seqZ 2 16382.
Proof.
  rw /free_clusters. change (nclusters format_fs) with (2 + 16382).
  rw seqZ_app; [lia..|]. rw filter_app. rw (filter_all _ (seqZ (0 + 2) 16382)).
  { intros c [Hc1 Hc2]%elem_of_seqZ. apply formatted_entry. lia. }
  change (seqZ 0 2) with [0; 1]. rw !filter_cons.
  rw /fat_get /fat_lba. change (reserved_sectors (bpb format_fs)) with 1.
  change (0 * 2 / 512) with 0. change (1 * 2 / 512) with 0. by rw formatted_fat.
Qed.

Lemma format_wf : 161 ≤ capacity D → wf_fs (capacity D) format_fs.
Proof. intros H. split; simpl; try done; lia. Qed.

Lemma formatted_slot b s : empty_slot format_fs (formatted b s) = Some (129, 0).
Proof.
  rw /empty_slot. assert (∃ slots, root_slots format_fs = (129, 0) :: slots) as [slots ->] by (by eexists).
  rw first_some_cons. assert (slot_window (formatted b s) (129, 0) = replicate 32 0) as ->; [|done].
  rw /slot_window. cbn [fst snd]. by rw formatted_root.
Qed.

Lemma formatted_represents b s : represents (capacity D) format_fs (formatted b s) ∅.
Proof.
  apply represents_empty. intros [lba off] [Hr (i & -> & Hi)]%elem_root_slots.
  rw /slot_window /= formatted_root // byte_at_take; [lia|]. rw byte_at_drop.
  apply (byte_at_zeros [] 512). simpl. lia.
Qed.

(** C12. Formatting and mounting: on any drive of at least 161 sectors,
    [format_drive] succeeds, whatever the drive held, and leaves the drive flushing
    with the image of a volume; once the drive is at rest, [init] on that image
    mounts a volume with the geometry written, that represents the empty
    filesystem and whose free clusters are exactly 2 to 16383.  [format_drive] does
    not wait for the flush; an access before the drive is at rest is not covered. *)
Theorem format_then_init d s :
  holds d s → 161 ≤ capacity D →
  ∃ s', runs format_drive d (λ r d1, r = Ok tt ∧ flushing d1 s') ∧
    (∀ l, 161 ≤ l → s' l = s l) ∧
    ∀ d2, holds d2 s' → runs init d2 (λ o d3, o = Some format_fs ∧ holds d3 s' ∧
      wf_fs (capacity D) format_fs ∧ represents (capacity D) format_fs s' ∅ ∧
      free_clusters format_fs s' = seqZ 2 16382).
Proof.
  intros Hd Hcap. destruct (format_run d s Hd Hcap) as (b & Hb & Hrun).
  exists (formatted b s). split; [done|]. split.
  { intros l Hl. rw /formatted /fill /upd. by repeat (rw decide_False; [lia|]). }
  intros d1 Hd1. rw /init. rbind. eapply runs_mono; [by apply read_sector_ok; [|lia]|]. intros buf d2 [-> Hd2].
  assert (formatted b s 0 = b) as -> by reflexivity.
  rw Hb. rbind. eapply runs_mono; [by apply print_ok|]. intros [] d3 Hd3. apply runs_ret.
  split_and!; [done|done|by apply format_wf|apply formatted_represents|apply formatted_free].
Qed.

(** A drive that was never formatted is not mounted: when the bytes-per-sector
    field is not 512, [init] leaves the filesystem absent and the disk alone. *)
Theorem init_rejects d s :
  holds d s → 1 ≤ capacity D → le16 (s 0) 11 ≠ 512 →
  runs init d (λ o d', o = None ∧ holds d' s).
Proof.
  intros Hd Hcap Hne. rw /init. rbind. eapply runs_mono; [by apply read_sector_ok; [|lia]|].
  intros buf d1 [-> Hd1]. simpl. destruct (Z.eqb_spec (le16 (s 0) 11) 512); [done|]. simpl.
  rbind. eapply runs_mono; [by apply print_ok|]. intros [] d2 Hd2. by apply runs_ret.
Qed.

(** The table is longer than the drive: on the 65536-sector drive of the user
    guide, of the clusters the allocator treats as free exactly those up to
    16344 lie on the drive; the clusters 16345 to 16383 do not. *)
Theorem format_overcommits b s c :
  capacity D = STORAGE_SECTORS → c ∈ free_clusters format_fs (formatted b s) →
  valid_cluster (capacity D) format_fs c ↔ c ≤ 16344.
Proof.
  intros Hcap. rw formatted_free elem_of_seqZ Hcap /valid_cluster /cluster_lba.
  change (nclusters format_fs) with 16384. change (data_start format_fs) with 161.
  simpl. rw /STORAGE_SECTORS. lia.
Qed.
End format.

(** ** Witnesses *)

(** A console that discards what is printed. *)
#[local] Instance silent_console : Console MemDisk := λ _, mret tt.
#[local] Instance silent_console_ok `{!BlockDeviceOk MemDisk} : ConsoleOk MemDisk.
Proof. split; intros d s t Hd; by apply runs_ret. Qed.

Lemma cap161_ok : 0 ≤ 161 ≤ 2 ^ 28.
Proof. done. Qed.

Lemma format_then_init_witness :
  ∃ s', runs format_drive (blank_disk 161) (λ r d1, r = Ok tt ∧ md_holds 161 d1 s') ∧
    (∀ l, 161 ≤ l → s' l = zero_sector) ∧
    ∀ d2, md_holds 161 d2 s' → runs init d2 (λ o d3, o = Some format_fs ∧ md_holds 161 d3 s' ∧
      wf_fs 161 format_fs ∧ represents 161 format_fs s' ∅ ∧ free_clusters format_fs s' = seqZ 2 16382).
Proof.
  apply (format_then_init (D := MemDisk) (BlockDeviceOk0 := MemDisk_ok 161 cap161_ok)
           (blank_disk 161) (λ _, zero_sector)).
  - apply blank_disk_holds. done.
  - done.
Defined.

Lemma init_rejects_witness :
  runs init (blank_disk 161) (λ o d', o = None ∧ md_holds 161 d' (λ _, zero_sector)).
Proof.
  apply (init_rejects (D := MemDisk) (BlockDeviceOk0 := MemDisk_ok 161 cap161_ok)).
  - apply blank_disk_holds. done.
  - done.
  - done.
Defined.

Lemma format_overcommits_witness :
  ~ valid_cluster STORAGE_SECTORS format_fs 16383.
Proof.
  intros Hv. apply (format_overcommits (D := MemDisk)
    (BlockDeviceOk0 := MemDisk_ok STORAGE_SECTORS storage_bound) zero_sector (λ _, zero_sector) 16383)
    in Hv; [lia|done|].
  rw formatted_free. apply elem_of_seqZ. lia.
Defined.

(** A drive that has all the clusters of the table, and a content of one byte more
    than they hold. *)
Definition FULL_SECTORS : Z := 161 + 4 * 16382.
Definition too_much : list Z := replicate (Z.to_nat (16382 * 2048 + 1)) 65.

Lemma full_bound : 0 ≤ FULL_SECTORS ≤ 2 ^ 28.
Proof. done. Qed.

Lemma full_large : 161 ≤ FULL_SECTORS.
Proof. done. Qed.

Lemma too_much_count : alloc_count format_fs too_much = Z.to_nat 16383.
Proof.
  rw /alloc_count /too_much. assert (zlen (replicate (Z.to_nat (16382 * 2048 + 1)) 65) = 16382 * 2048 + 1) as E.
  { rw length_replicate Z2Nat.id //. }
  rw E. destruct (replicate _ _) as [|x l] eqn:Er; [|done]. discriminate E.
Qed.

Lemma too_much_bytes : Forall is_byte too_much.
Proof. rw /too_much. by apply Forall_replicate. Qed.

#[local] Opaque too_much.

Lemma full_clusters_valid b s : Forall (valid_cluster FULL_SECTORS format_fs) (free_clusters format_fs (formatted b s)).
Proof.
  rw formatted_free. apply Forall_forall. intros c Hc%elem_of_seqZ.
  rw /valid_cluster /cluster_lba. change (nclusters format_fs) with 16384. change (data_start format_fs) with 161.
  simpl. rw /FULL_SECTORS. lia.
Qed.

Lemma write_new_file_disk_full_witness :
  ∃ b, runs format_drive (blank_disk FULL_SECTORS) (λ _ d,
    runs (write_new_file format_fs tiny_name tiny_ext too_much) d (λ r d1, ∃ s1, md_holds FULL_SECTORS d1 s1 ∧
      r = Err "Disk full"%string ∧ free_clusters format_fs s1 = [] ∧
      ∀ n x, lookup_file format_fs s1 n x = lookup_file format_fs (formatted b (λ _, zero_sector)) n x)).
Proof.
  destruct (format_run (D := MemDisk) (BlockDeviceOk0 := MemDisk_ok FULL_SECTORS full_bound)
    (blank_disk FULL_SECTORS) (λ _, zero_sector)) as (b & _ & Hf);
    [exact (blank_disk_holds _ full_bound)|exact full_large|].
  exists b. eapply runs_mono; [exact Hf|]. intros r d [_ Hd].
  refine (write_new_file_disk_full (D := MemDisk) (BlockDeviceOk0 := MemDisk_ok FULL_SECTORS full_bound) format_fs
    _ d (formatted b (λ _, zero_sector)) tiny_name tiny_ext too_much Hd too_much_bytes _ _ (full_clusters_valid b _)).
  - exact (format_wf (D := MemDisk) (BlockDeviceOk0 := MemDisk_ok FULL_SECTORS full_bound) full_large).
  - rw formatted_slot. by eexists.
  - rw formatted_free length_seqZ too_much_count. lia.
Defined.
