(* ===== verification/Vga.v ===== *)
(** * The text screen: src/src/vga_buffer.rs and src/src/canvas.rs

    The VGA buffer is a list of 25 rows of 80 cells.  [Writer] prints on its
    last row and scrolls; [TextCanvas] writes cells directly; both act on the
    same memory.  The abstract screen is an unbounded scrollback of which the
    buffer shows the last 25 rows. *)

From S2P Require Import Prelude Str.
#[local] Open Scope Z_scope.

Inductive Color :=
  | Black | Blue | Green | Cyan | Red | Magenta | Brown | LightGray | DarkGray
  | LightBlue | LightGreen | LightCyan | LightRed | Pink | Yellow | White.

(** [color as u8] *)
Definition Color_u8 (c : Color) : Z :=
  match c with
  | Black => 0 | Blue => 1 | Green => 2 | Cyan => 3 | Red => 4 | Magenta => 5
  | Brown => 6 | LightGray => 7 | DarkGray => 8 | LightBlue => 9 | LightGreen => 10
  | LightCyan => 11 | LightRed => 12 | Pink => 13 | Yellow => 14 | White => 15
  end.

(** [ColorCode::new]: [background << 4 | foreground] in [u8]. *)
Definition ColorCode_new (foreground background : Color) : Z :=
  Z.lor (wrap 8 (Z.shiftl (Color_u8 background) 4)) (Color_u8 foreground).

Record ScreenChar := { ascii_character : Z; color_code : Z }.
#[export] Instance ScreenChar_eq : EqDecision ScreenChar.
Proof. solve_decision. Defined.

Definition BUFFER_HEIGHT : Z := 25.
Definition BUFFER_WIDTH : Z := 80.

Definition Buffer : Type := list (list ScreenChar).

Record Writer := {
  column_position : Z;
  writer_color : Z;
  buffer : Buffer;
}.

(** ** Cells *)

(** [chars[row][col].read()] and [chars[row][col].write(c)] *)
Definition cell_read (row col : Z) : proc Buffer ScreenChar :=
  b ← get_state;
  r ← lift (idx b row);
  lift (idx r col).

Definition cell_write (row col : Z) (c : ScreenChar) : proc Buffer unit :=
  b ← get_state;
  r ← lift (idx b row);
  r ← lift (set_idx r col c);
  b ← lift (set_idx b row r);
  put_state b.

Definition blank (color : Z) : ScreenChar := {| ascii_character := 32; color_code := color |}.

(** ** The canvas *)

Definition canvas_set_char (x y character color : Z) : proc Buffer unit :=
  if (x <? 80) && (y <? 25)
  then cell_write y x {| ascii_character := character; color_code := color |}
  else mret tt.

Definition canvas_clear : proc Buffer unit :=
  for_each (λ row, for_each (λ col, cell_write row col (blank (ColorCode_new Black Black)))
                     (seqZ 0 80)) (seqZ 0 25).

(** ** The writer *)

Definition on_buffer {A} (p : proc Buffer A) : proc Writer A := λ w,
  match p (buffer w) with
  | Done (a, b) => Done (a, {| column_position := column_position w;
                               writer_color := writer_color w; buffer := b |})
  | Panic e => Panic e
  | Hang => Hang
  end.

Definition set_column (c : Z) : proc Writer unit := λ w,
  Done (tt, {| column_position := c; writer_color := writer_color w; buffer := buffer w |}).

Definition delete_byte : proc Writer unit :=
  w ← get_state;
  if 0 <? column_position w then
    col ← lift (chk 64 (column_position w - 1));
    set_column col ;;
    on_buffer (cell_write 24 col (blank (writer_color w)))
  else mret tt.

Definition writer_clear : proc Writer unit :=
  w ← get_state;
  on_buffer (for_each (λ i, for_each (λ j, cell_write i j (blank (writer_color w)))
                              (seqZ 0 80)) (seqZ 0 24)).

Definition set_color (c : Z) : proc Writer unit := λ w,
  Done (tt, {| column_position := column_position w; writer_color := c; buffer := buffer w |}).

Definition clear_row (color row : Z) : proc Buffer unit :=
  for_each (λ col, cell_write row col (blank color)) (seqZ 0 80).

(** [for row in 1..25 { for col in 0..80 { ... } }] *)
Definition scroll_up : proc Buffer unit :=
  for_each (λ row,
    for_each (λ col, character ← cell_read row col; cell_write (row - 1) col character)
      (seqZ 0 80)) (seqZ 1 24).

Definition new_line : proc Writer unit :=
  on_buffer scroll_up ;;
  w ← get_state;
  on_buffer (clear_row (writer_color w) 24) ;;
  set_column 0.

Definition write_byte (byte : Z) : proc Writer unit :=
  if byte =? LF then new_line
  else
    w ← get_state;
    (if 80 <=? column_position w then new_line else mret tt) ;;
    w ← get_state;
    let col := column_position w in
    on_buffer (cell_write 24 col {| ascii_character := byte; color_code := writer_color w |}) ;;
    col ← lift (chk 64 (col + 1));
    set_column col.

(** Printable ASCII and the newline go through; any other byte prints as 0xFE. *)
Definition printable (byte : Z) : bool := ((0x20 <=? byte) && (byte <=? 0x7e)) || (byte =? LF).

Definition write_string (s : rstring) : proc Writer unit :=
  for_each (λ byte, write_byte (if printable byte then byte else 0xfe)) (utf8_encode s).

(** [WRITER] as it is initialised, over the memory [b] found at 0xb8000. *)
Definition WRITER_init (b : Buffer) : Writer :=
  {| column_position := 0; writer_color := ColorCode_new Green Black; buffer := b |}.

(** ** The screen: the writer and the cursor ports *)

Record Screen := { WRITER : Writer; crtc_writes : list (Z * Z) }.

Definition on_writer {A} (p : proc Writer A) : proc Screen A := λ s,
  match p (WRITER s) with
  | Done (a, w) => Done (a, {| WRITER := w; crtc_writes := crtc_writes s |})
  | Panic e => Panic e
  | Hang => Hang
  end.

(** [_print]: [write_str] always answers [Ok], so the [unwrap] does not fail. *)
Definition vga_print (s : rstring) : proc Screen unit := on_writer (write_string s).

Definition backspace : proc Screen unit := on_writer delete_byte.

Definition write_char_at (x y c color : Z) : proc Screen unit :=
  if (x <? BUFFER_WIDTH) && (y <? BUFFER_HEIGHT)
  then on_writer (on_buffer (cell_write y x {| ascii_character := c; color_code := color |}))
  else mret tt.

Definition clear_screen : proc Screen unit := on_writer writer_clear.

Definition port_write (port value : Z) : proc Screen unit := λ s,
  Done (tt, {| WRITER := WRITER s; crtc_writes := crtc_writes s ++ [(port, value)] |}).

Definition update_cursor (x y : Z) : proc Screen unit :=
  m ← lift (chk 64 (y * BUFFER_WIDTH));
  pos ← lift (chk 64 (m + x));
  port_write 0x3D4 0x0F ;;
  port_write 0x3D5 (wrap 8 (Z.land pos 0xFF)) ;;
  port_write 0x3D4 0x0E ;;
  port_write 0x3D5 (wrap 8 (Z.land (Z.shiftr pos 8) 0xFF)).
