(* ===== verification/VgaTheorems.v ===== *)
(** * The screen: invariant, scrolling and the scrollback refinement *)

From S2P Require Import Prelude Str Vga.
#[local] Open Scope Z_scope.

Record wf_buffer (b : Buffer) : Prop := {
  wb_rows : length b = 25%nat;
  wb_cols : Forall (λ r, length r = 80%nat) b;
}.
#[export] Instance wf_buffer_dec b : Decision (wf_buffer b).
Proof.
  refine (cast_if (decide (length b = 25%nat ∧ Forall (λ r, length r = 80%nat) b)));
    [abstract (by split; apply a)|abstract (intros [? ?]; by apply n)].
Defined.

Record wf_writer (w : Writer) : Prop := {
  ww_col : 0 ≤ column_position w ≤ 80;
  ww_buffer : wf_buffer (buffer w);
}.

Implicit Types (b : Buffer) (w : Writer).

(** ** Rows *)

Lemma wf_row b r : wf_buffer b → (r < 25)%nat → ∃ row, b !! r = Some row ∧ length row = 80%nat.
Proof.
  intros [Hr Hc] Hlt. destruct (lookup_lt_is_Some_2 b r) as [row Hrow]; [lia|].
  exists row. split; [done|]. by eapply Forall_lookup_1 in Hc.
Qed.

Lemma wf_insert b r row : wf_buffer b → length row = 80%nat → wf_buffer (<[r := row]> b).
Proof.
  intros [Hr Hc] Hl. split; [by rw length_insert|]. by apply Forall_insert.
Qed.

Lemma cell_read_run b r c row v :
  b !! r = Some row → row !! c = Some v →
  runs (cell_read (Z.of_nat r) (Z.of_nat c)) b (λ v' b', v' = v ∧ b' = b).
Proof.
  intros Hr Hc. rw /cell_read. rbind. rw /runs /get_state.
  rlift; [apply idx_Done; [lia|by rw Nat2Z.id]|].
  eapply runs_lift_done; [apply idx_Done; [lia|by rw Nat2Z.id]|done].
Qed.

Lemma cell_write_run b r c row v :
  b !! r = Some row → (c < length row)%nat →
  runs (cell_write (Z.of_nat r) (Z.of_nat c) v) b (λ _ b', b' = <[r := <[c := v]> row]> b).
Proof.
  intros Hr Hc. rw /cell_write. rbind. rw /runs /get_state.
  rlift; [apply idx_Done; [lia|by rw Nat2Z.id]|].
  rlift; [apply set_idx_Done; lia|].
  rlift; [apply set_idx_Done; apply lookup_lt_Some in Hr; lia|].
  rw /runs /put_state !Nat2Z.id //.
Qed.

Lemma seqZ_split_at (a n : Z) dn (x : Z) rest :
  seqZ a n = dn ++ x :: rest → x = a + zlen dn ∧ zlen dn < n.
Proof.
  intros E. assert (seqZ a n !! length dn = Some x) as [-> ?]%lookup_seqZ by by rw E list_lookup_middle.
  done.
Qed.

(** A loop over the columns of row [r] that writes [new] cell by cell; [read]
    may look at the other rows. *)
Lemma row_loop b r row new (read : Z → proc Buffer ScreenChar) :
  b !! r = Some row → length row = 80%nat → length new = 80%nat →
  (∀ c v row', new !! c = Some v →
     runs (read (Z.of_nat c)) (<[r := row']> b) (λ v' b', v' = v ∧ b' = <[r := row']> b)) →
  runs (for_each (λ col, v ← read col; cell_write (Z.of_nat r) col v) (seqZ 0 80)) b
    (λ _ b', b' = <[r := new]> b).
Proof.
  intros Hr Hl Hn Hread. pose proof (lookup_lt_Some _ _ _ Hr) as Hlt.
  eapply runs_mono; [apply (runs_for_each (λ dn b',
    b' = <[r := take (length dn) new ++ drop (length dn) row]> b))|].
  - by rw /= drop_0 list_insert_id.
  - intros dn x rest b1 [-> Hdn]%seqZ_split_at ->. rw Z.add_0_l.
    destruct (lookup_lt_is_Some_2 new (length dn)) as [v Hv]; [lia|].
    rbind. eapply runs_mono; [by apply (Hread _ v)|]. intros v' b2 [-> ->].
    eapply runs_mono; [apply (cell_write_run _ r _ (take (length dn) new ++ drop (length dn) row))|].
    + by rw list_lookup_insert_eq.
    + len.
    + intros [] b3 ->. rw list_insert_insert_eq. f_equal.
      rw length_app /= Nat.add_1_r (take_S_r _ _ _ Hv) insert_app_r_alt; [len|].
      rw -app_assoc. f_equal. rw length_take_le; [lia|]. rw Nat.sub_diag.
      destruct (drop (length dn) row) as [|y ys] eqn:Ed.
      { apply (f_equal length) in Ed. rw length_drop /= in Ed. lia. }
      simpl. f_equal. rw -Nat.add_1_r -drop_drop Ed //.
  - intros [] b1 ->. rw length_seqZ take_ge; [lia|]. rw drop_ge; [lia|]. by rw app_nil_r.
Qed.

Lemma clear_row_run b color r :
  wf_buffer b → (r < 25)%nat →
  runs (clear_row color (Z.of_nat r)) b (λ _ b', b' = <[r := replicate 80 (blank color)]> b).
Proof.
  intros Hb Hr. destruct (wf_row b r Hb Hr) as (row & Hrow & Hl).
  assert (clear_row color (Z.of_nat r) =
    for_each (λ col, v ← (λ _, mret (blank color)) col; cell_write (Z.of_nat r) col v) (seqZ 0 80))
    as -> by reflexivity.
  apply (row_loop b r row); [done..|].
  intros c v row' [-> _]%lookup_replicate. by apply runs_ret.
Qed.

(** Rows [0..n) cleared. *)
Lemma clear_rows_run b color n :
  wf_buffer b → 0 ≤ n ≤ 25 →
  runs (for_each (λ row, clear_row color row) (seqZ 0 n)) b
    (λ _ b', b' = replicate (Z.to_nat n) (replicate 80 (blank color)) ++ drop (Z.to_nat n) b).
Proof.
  intros Hb Hn. pose proof (wb_rows _ Hb) as Hlen. set (row := replicate 80 (blank color)).
  eapply runs_mono; [apply (runs_for_each (λ dn b',
    b' = replicate (length dn) row ++ drop (length dn) b))|].
  - by rw /= drop_0.
  - intros dn x rest b1 [-> Hdn]%seqZ_split_at ->. rw Z.add_0_l.
    eapply runs_mono; [apply clear_row_run; [|lia]|].
    + split; [len|]. apply Forall_app; split; [by apply Forall_replicate|].
      by apply Forall_drop, Hb.
    + intros [] b2 ->. rw length_app /= Nat.add_1_r insert_app_r_alt; [len|].
      rw length_replicate Nat.sub_diag replicate_S_end -app_assoc. f_equal.
      destruct (drop (length dn) b) as [|y ys] eqn:Ed.
      { apply (f_equal length) in Ed. rw length_drop /= in Ed. lia. }
      simpl. f_equal. rw -Nat.add_1_r -drop_drop Ed //.
  - intros [] b1 ->. by rw length_seqZ.
Qed.

(** ** Scrolling *)

Lemma scroll_up_run b :
  wf_buffer b → runs scroll_up b (λ _ b', b' = drop 1 b ++ drop 24 b).
Proof.
  intros Hb. pose proof (wb_rows _ Hb) as Hlen.
  eapply runs_mono; [apply (runs_for_each (λ dn b',
    b' = take (length dn) (drop 1 b) ++ drop (length dn) b))|].
  - by rw /= drop_0.
  - intros dn x rest b1 [-> Hdn]%seqZ_split_at ->. set (k := length dn).
    replace (1 + Z.of_nat k - 1) with (Z.of_nat k) by lia.
    replace (1 + Z.of_nat k) with (Z.of_nat (S k)) by lia.
    destruct (wf_row b k Hb) as (old & Hold & Hol); [lia|].
    destruct (wf_row b (S k) Hb) as (new & Hnew & Hnl); [lia|].
    assert (length (take k (drop 1 b)) = k) as Hk by len.
    eapply runs_mono; [apply (row_loop _ k old new (cell_read (Z.of_nat (S k))))|]; try done.
    + rw lookup_app_r; [lia|]. by rw Hk lookup_drop Nat.sub_diag Nat.add_0_r.
    + intros c v row' Hv. apply (cell_read_run _ _ _ new); [|done].
      rw list_lookup_insert_ne; [lia|]. rw lookup_app_r; [lia|].
      rw Hk lookup_drop. by replace (k + (S k - k))%nat with (S k) by lia.
    + intros [] b2 ->. rw length_app /= Nat.add_1_r insert_app_r_alt; [lia|].
      rw Hk Nat.sub_diag -/k (take_S_r _ _ new); [by rw lookup_drop|].
      rw -app_assoc. f_equal. by rw (drop_S _ _ _ Hold).
  - intros [] b1 ->. rw length_seqZ. f_equal. rw take_ge; [len|done].
Qed.

(** The next row of the screen. *)
Definition blank_row (color : Z) : list ScreenChar := replicate 80 (blank color).

Definition with_buffer w b : Writer :=
  {| column_position := column_position w; writer_color := writer_color w; buffer := b |}.

Lemma on_buffer_run {A} (p : proc Buffer A) w Q :
  runs p (buffer w) (λ a b, Q a (with_buffer w b)) → runs (on_buffer p) w Q.
Proof. rw /runs /on_buffer. by destruct (p (buffer w)) as [[a b]| |]. Qed.

Definition scrolled w : Writer := {|
  column_position := 0; writer_color := writer_color w;
  buffer := drop 1 (buffer w) ++ [blank_row (writer_color w)] |}.

Lemma new_line_run w : wf_writer w → runs new_line w (λ _ w', w' = scrolled w).
Proof.
  intros [_ Hb]. pose proof (wb_rows _ Hb) as Hlen. rw /new_line. rbind. apply on_buffer_run.
  eapply runs_mono; [by apply scroll_up_run|]. intros [] b ->.
  rbind. rw /runs /get_state. rbind. apply on_buffer_run.
  assert (wf_buffer (drop 1 (buffer w) ++ drop 24 (buffer w))) as Hb'.
  { split; [len|]. apply Forall_app; split; by apply Forall_drop, Hb. }
  eapply runs_mono; [by apply (clear_row_run _ _ 24 Hb'); lia|]. intros [] b ->.
  rw /runs /set_column /scrolled /with_buffer /=. f_equal.
  rw insert_app_r_alt; [len|]. f_equal. rw length_drop Hlen /=.
  destruct (drop 24 (buffer w)) as [|y [|z ys]] eqn:Ed; apply (f_equal length) in Ed;
    rw length_drop Hlen /= in Ed; done.
Qed.

Lemma scrolled_wf w : wf_writer w → wf_writer (scrolled w).
Proof.
  intros [_ [Hr Hc]]. split; [simpl; lia|]. split; simpl.
  - len.
  - apply Forall_app; split; [by apply Forall_drop|]. by repeat constructor.
Qed.

(** ** The scrollback *)

(** Everything ever printed, row by row, and the position on the last row. *)
Record Scrollback := { sb_rows : list (list ScreenChar); sb_col : nat; sb_color : Z }.

Definition sb_new_line (t : Scrollback) : Scrollback :=
  {| sb_rows := sb_rows t ++ [blank_row (sb_color t)]; sb_col := 0; sb_color := sb_color t |}.

Definition sb_put (t : Scrollback) (byte : Z) : Scrollback :=
  let c := {| ascii_character := byte; color_code := sb_color t |} in
  {| sb_rows := alter (<[sb_col t := c]>) (pred (length (sb_rows t))) (sb_rows t);
     sb_col := S (sb_col t); sb_color := sb_color t |}.

(** A full row is left before the next character is put. *)
Definition sb_byte (t : Scrollback) (byte : Z) : Scrollback :=
  if byte =? LF then sb_new_line t
  else sb_put (if decide (80 ≤ sb_col t)%nat then sb_new_line t else t) byte.

Definition shown_byte (byte : Z) : Z := if printable byte then byte else 0xfe.

Definition sb_print (t : Scrollback) (s : rstring) : Scrollback :=
  foldl sb_byte t (shown_byte <$> utf8_encode s).

(** The screen is the last 25 rows. *)
Record shows w (t : Scrollback) : Prop := {
  sh_wf : wf_writer w;
  sh_col : column_position w = Z.of_nat (sb_col t);
  sh_color : writer_color w = sb_color t;
  sh_rows : ∃ past, sb_rows t = past ++ buffer w;
}.

Lemma new_line_shows w t : shows w t → shows (scrolled w) (sb_new_line t).
Proof.
  intros [Hwf Hc Hk [past Hp]]. split; [by apply scrolled_wf|done|done|].
  destruct Hwf as [_ [Hr _]]. destruct (buffer w) as [|r0 rs] eqn:Eb; [done|].
  exists (past ++ [r0]). by rw /= Hp Hk Eb /= drop_0 -!app_assoc.
Qed.

Lemma put_run w t byte :
  shows w t → (sb_col t < 80)%nat →
  runs (w ← get_state;
        let col := column_position w in
        on_buffer (cell_write 24 col {| ascii_character := byte; color_code := writer_color w |}) ;;
        col ← lift (chk 64 (col + 1));
        set_column col) w
    (λ _ w', shows w' (sb_put t byte)).
Proof.
  intros [Hwf Hc Hk [past Hp]] Hlt. destruct Hwf as [_ Hb]. pose proof (wb_rows _ Hb) as Hlen.
  destruct (wf_row (buffer w) 24 Hb) as (row & Hrow & Hl); [lia|].
  rbind. rw /runs /get_state /=. rbind. apply on_buffer_run.
  rw Hc Hk. eapply runs_mono; [apply (cell_write_run _ 24 _ row); [done|lia]|].
  intros [] b ->. rlift; [apply chk_Done; lia|]. rw /runs /set_column /with_buffer /=.
  split; simpl; [|lia|done|].
  - split; simpl; [lia|]. apply wf_insert; [done|]. by rw length_insert.
  - exists past. rw Hp length_app Hlen. replace (pred (length past + 25)) with (length past + 24)%nat by lia.
    rw alter_app_r. f_equal. apply list_eq. intros i.
    destruct (decide (i = 24%nat)) as [->|Hi].
    + rw list_lookup_alter_eq Hrow /= list_lookup_insert_eq //. lia.
    + rw list_lookup_alter_ne // list_lookup_insert_ne //.
Qed.

Lemma write_byte_run w t byte :
  shows w t → runs (write_byte byte) w (λ _ w', shows w' (sb_byte t byte)).
Proof.
  intros Hs. rw /write_byte /sb_byte. destruct (byte =? LF).
  { eapply runs_mono; [by apply new_line_run, Hs|]. intros [] w' ->. by apply new_line_shows. }
  rbind. rw /runs /get_state. rbind. pose proof (sh_col _ _ Hs) as Hc.
  pose proof (ww_col _ (sh_wf _ _ Hs)) as Hb. case_decide as Hd.
  - destruct (Z.leb_spec 80 (column_position w)); [|lia].
    eapply runs_mono; [by apply new_line_run, Hs|]. intros [] w' ->.
    apply put_run; [by apply new_line_shows|simpl; lia].
  - destruct (Z.leb_spec 80 (column_position w)); [lia|]. apply runs_ret. apply put_run; [done|lia].
Qed.

Lemma write_string_run w t s :
  shows w t → runs (write_string s) w (λ _ w', shows w' (sb_print t s)).
Proof.
  intros Hs. rw /write_string /sb_print.
  eapply runs_mono; [apply (runs_for_each (λ dn w', shows w' (foldl sb_byte t (shown_byte <$> dn))))|].
  - done.
  - intros dn x rest w1 _ Hw1. rw fmap_app foldl_app /=. by apply write_byte_run.
  - done.
Qed.

Lemma on_writer_run {A} (p : proc Writer A) (s : Screen) Q :
  runs p (WRITER s) (λ a w, Q a {| WRITER := w; crtc_writes := crtc_writes s |}) →
  runs (on_writer p) s Q.
Proof. rw /runs /on_writer. by destruct (p (WRITER s)) as [[a w]| |]. Qed.

Lemma print_refines_run (s : Screen) t text :
  shows (WRITER s) t →
  runs (vga_print text) s (λ _ s',
    shows (WRITER s') (sb_print t text) ∧ crtc_writes s' = crtc_writes s).
Proof.
  intros Hs. apply on_writer_run. eapply runs_mono; [by apply write_string_run|].
  by intros [] w' Hw.
Qed.

(** C20. Printing refines the scrollback: whatever is printed, [print!] returns
    (no cell outside the buffer is touched, no arithmetic overflows) and the
    screen shows the last 25 rows of the scrollback with the text appended,
    lines broken at newlines and after 80 characters and every byte outside
    printable ASCII shown as 0xFE. *)
Theorem print_refines (s : Screen) t text :
  shows (WRITER s) t →
  runs (vga_print text) s (λ _ s',
    shows (WRITER s') (sb_print t text) ∧ crtc_writes s' = crtc_writes s).
Proof. apply print_refines_run. Qed.

(** A newline scrolls: the double loop of [new_line] moves every row up by
    one, blanks the last row in the current colour and returns to column 0. *)
Theorem new_line_scrolls w :
  wf_writer w →
  runs new_line w (λ _ w', buffer w' = drop 1 (buffer w) ++ [blank_row (writer_color w)] ∧
    column_position w' = 0 ∧ writer_color w' = writer_color w).
Proof. intros Hw. eapply runs_mono; [by apply new_line_run|]. by intros [] w' ->. Qed.

(** Erasing undoes printing: after a byte that is not a newline was printed
    before the last column, [delete_byte] brings the column back and leaves a
    blank in the cell; the rest of the screen is as it was. *)
Theorem delete_byte_undoes w byte row :
  wf_writer w → column_position w < 80 → byte ≠ LF → buffer w !! 24%nat = Some row →
  runs (write_byte byte ;; delete_byte) w (λ _ w', w' =
    with_buffer w (<[24%nat := <[Z.to_nat (column_position w) := blank (writer_color w)]> row]> (buffer w))).
Proof.
  intros [Hc Hb] Hlt Hne Hrow. destruct (wf_row (buffer w) 24 Hb) as (row' & E & Hl); [lia|].
  rw Hrow in E. injection E as <-. pose proof (wb_rows _ Hb) as Hlen.
  rbind. rw /write_byte. destruct (Z.eqb_spec byte LF); [done|].
  rbind. rw {1}/runs /get_state. rbind. destruct (Z.leb_spec 80 (column_position w)); [lia|].
  apply runs_ret. rbind. rw {1}/runs /get_state /=. rbind. apply on_buffer_run.
  set (k := Z.to_nat (column_position w)). assert (column_position w = Z.of_nat k) as Ek by lia.
  rw Ek. eapply runs_mono; [apply (cell_write_run _ 24 _ row); [done|lia]|].
  intros [] b ->. rlift; [apply chk_Done; lia|]. rw {1}/runs /set_column /=.
  rw /delete_byte. rbind. rw {1}/runs /get_state /=. destruct (Z.ltb_spec 0 (Z.of_nat k + 1)); [|lia].
  rlift; [apply chk_Done; lia|]. rbind. rw {1}/runs /set_column /=. apply on_buffer_run. simpl.
  replace (Z.of_nat k + 1 - 1) with (Z.of_nat k) by lia.
  eapply runs_mono; [eapply (cell_write_run _ 24)|].
  - rw list_lookup_insert_eq //. lia.
  - len.
  - intros [] b ->. rw /with_buffer /= Ek. f_equal. by rw !list_insert_insert_eq.
Qed.

(** ** The other screen operations keep the screen in order *)

Lemma clear_screen_run (s : Screen) :
  wf_writer (WRITER s) →
  runs clear_screen s (λ _ s', WRITER s' = with_buffer (WRITER s)
    (replicate 24 (blank_row (writer_color (WRITER s))) ++ drop 24 (buffer (WRITER s))) ∧
    crtc_writes s' = crtc_writes s).
Proof.
  intros [_ Hb]. apply on_writer_run. rw /writer_clear. rbind. rw {1}/runs /get_state.
  apply on_buffer_run. by eapply runs_mono; [apply (clear_rows_run _ _ 24 Hb); lia|intros [] b ->].
Qed.

Lemma clear_screen_wf (s : Screen) :
  wf_writer (WRITER s) → runs clear_screen s (λ _ s', wf_writer (WRITER s')).
Proof.
  intros Hw. eapply runs_mono; [by apply clear_screen_run|]. intros [] s' [-> _].
  destruct Hw as [Hc [Hr Hl]]. split; [done|]. split; cbn [with_buffer buffer].
  - len.
  - apply Forall_app; split; [by apply Forall_replicate|by apply Forall_drop].
Qed.

Lemma write_char_at_wf (s : Screen) x y c color :
  wf_writer (WRITER s) → 0 ≤ x → 0 ≤ y →
  runs (write_char_at x y c color) s (λ _ s', wf_writer (WRITER s')).
Proof.
  intros [Hc Hb] Hx Hy. rw /write_char_at /BUFFER_WIDTH /BUFFER_HEIGHT.
  destruct (Z.ltb_spec x 80), (Z.ltb_spec y 25); simpl; try by apply runs_ret.
  destruct (wf_row (buffer (WRITER s)) (Z.to_nat y) Hb) as (row & E & Hl); [lia|].
  apply on_writer_run, on_buffer_run. rw -(Z2Nat.id x) // -(Z2Nat.id y) //.
  eapply runs_mono; [eapply cell_write_run; [done|lia]|]. intros [] b ->. split; [done|].
  apply wf_insert; [done|len].
Qed.

Lemma delete_byte_wf w : wf_writer w → runs delete_byte w (λ _ w', wf_writer w').
Proof.
  intros [Hc Hb]. rw /delete_byte. rbind. rw {1}/runs /get_state.
  destruct (Z.ltb_spec 0 (column_position w)); [|by apply runs_ret].
  rlift; [apply chk_Done; lia|]. rbind. rw {1}/runs /set_column /=. apply on_buffer_run. simpl.
  destruct (wf_row (buffer w) 24 Hb) as (row & E & Hl); [lia|].
  rw -(Z2Nat.id (column_position w - 1)); [lia|].
  eapply runs_mono; [eapply (cell_write_run _ 24); [done|lia]|]. intros [] b ->.
  split; [simpl; lia|]. apply wf_insert; [done|len].
Qed.

(** [clear_screen] blanks rows 0 to 23 only: the last row, where the writer
    prints, keeps its contents, and the column is not reset. *)
Theorem clear_screen_keeps_last_row (s : Screen) :
  wf_writer (WRITER s) →
  runs clear_screen s (λ _ s',
    buffer (WRITER s') = replicate 24 (blank_row (writer_color (WRITER s))) ++ drop 24 (buffer (WRITER s)) ∧
    column_position (WRITER s') = column_position (WRITER s) ∧ crtc_writes s' = crtc_writes s).
Proof.
  intros Hw. eapply runs_mono; [by apply clear_screen_run|]. by intros [] s' [-> ->].
Qed.

Lemma canvas_clear_run b :
  wf_buffer b → runs canvas_clear b (λ _ b', b' = replicate 25 (blank_row 0)).
Proof.
  intros Hb. eapply runs_mono; [apply (clear_rows_run _ 0 25 Hb); lia|]. intros [] b' ->.
  rw drop_ge; [rw (wb_rows _ Hb); lia|]. by rw app_nil_r.
Qed.

(** [TextCanvas::clear] blanks all 25 rows, black on black. *)
Theorem canvas_clear_all b :
  wf_buffer b → runs canvas_clear b (λ _ b', b' = replicate 25 (blank_row 0)).
Proof. apply canvas_clear_run. Qed.

(** ** Plain text *)

Definition plain (c : Z) : Prop := 0x20 ≤ c ≤ 0x7e.

Definition cells (color : Z) (s : rstring) : list ScreenChar :=
  (λ c, {| ascii_character := c; color_code := color |}) <$> s.

Lemma utf8_ascii s : Forall plain s → utf8_encode s = s.
Proof.
  induction 1 as [|c s Hc _ IH]; [done|]. rw /plain in Hc. rw /utf8_encode fmap_cons.
  change (utf8_char c ++ utf8_encode s = c :: s). rw IH /utf8_char.
  by destruct (Z.ltb_spec c 128); [|lia].
Qed.

Lemma shown_plain s : Forall plain s → shown_byte <$> s = s.
Proof.
  induction 1 as [|c s Hc _ IH]; [done|]. rw /plain in Hc. rw fmap_cons IH. f_equal.
  rw /shown_byte /printable. by destruct (Z.leb_spec 32 c), (Z.leb_spec c 126); try lia.
Qed.

(** A run of plain characters that fits on the row. *)
Lemma sb_plain s past row col color :
  Forall plain s → length row = 80%nat → (col + length s ≤ 80)%nat →
  foldl sb_byte {| sb_rows := past ++ [row]; sb_col := col; sb_color := color |} s =
  {| sb_rows := past ++ [splice row col (cells color s)]; sb_col := col + length s; sb_color := color |}.
Proof.
  intros Hs. revert row col. induction Hs as [|c s Hc _ IH]; intros row col Hr Hl; simpl.
  { rw /splice /= !Nat.add_0_r take_drop. done. }
  rw /plain in Hc. rw {2}/sb_byte. rw /LF. destruct (Z.eqb_spec c 10); [lia|].
  simpl in Hl. rw decide_False; [simpl; lia|]. rw /sb_put /= length_app /= Nat.add_1_r.
  change (pred (S (length past))) with (length past). rw -{1}(Nat.add_0_r (length past)) alter_app_r /= IH.
  { len. } { len. }
  f_equal; [|lia]. f_equal. f_equal. rw /splice /cells /= length_fmap.
  set (x := {| ascii_character := c; color_code := color |}).
  rw (take_S_r _ _ x); [by rw list_lookup_insert_eq; [lia|]|]. rw take_insert_ge; [lia|].
  rw -app_assoc /=. f_equal. f_equal. f_equal. rw drop_insert_lt; [lia|]. f_equal. lia.
Qed.

Lemma drop_splice_prefix (row : list ScreenChar) v :
  take (length v) (splice row 0 v) = v.
Proof. by rw /splice /= take_app_length. Qed.

(** A printed line appears on the screen: for every text of at most 80
    printable characters, after [writeln!("\n{}", text)] row 23 starts with the
    text in the current colour. *)
Theorem println_appears (s : Screen) t text :
  shows (WRITER s) t → Forall plain text → (length text ≤ 80)%nat →
  runs (vga_print ([LF] ++ text ++ [LF])) s (λ _ s', ∃ row,
    buffer (WRITER s') !! 23%nat = Some row ∧
    take (length text) row = cells (writer_color (WRITER s)) text).
Proof.
  intros Hs Hp Hl. apply on_writer_run. eapply runs_mono; [by apply write_string_run|].
  intros [] w' Hw'. simpl. revert Hw'. rw /sb_print /utf8_encode !fmap_app !join_app.
  rw -/(utf8_encode text) (utf8_ascii _ Hp) !fmap_app (shown_plain _ Hp) !foldl_app /=.
  rw {2}/sb_byte /= /sb_new_line sb_plain //. intros [[_ Hb] _ _ [past Hr]]. simpl in Hr.
  exists (splice (blank_row (sb_color t)) 0 (cells (sb_color t) text)). split.
  - set (row := splice _ _ _) in *. pose proof (wb_rows _ Hb) as Hlen.
    assert (((sb_rows t ++ [row]) ++ [blank_row (sb_color t)]) !! (length past + 23)%nat = Some row) as E.
    { apply (f_equal length) in Hr as Hn. rw !length_app /= in Hn.
      rw -app_assoc lookup_app_r; [lia|]. by replace (length past + 23 - length (sb_rows t))%nat with 0%nat by lia. }
    rw Hr lookup_app_r in E; [lia|]. rw -E. f_equal. lia.
  - rw -(sh_color _ _ Hs) -{1}(length_fmap (λ c, {| ascii_character := c; color_code := writer_color (WRITER s) |}) text).
    apply drop_splice_prefix.
Qed.

(** The cursor registers: [update_cursor] writes the low byte of the cell
    number to register 0x0F and the high byte to register 0x0E, so that the
    controller holds [y * 80 + x] modulo 65536. *)
Theorem update_cursor_registers (s : Screen) x y :
  0 ≤ x < 2 ^ 32 → 0 ≤ y < 2 ^ 32 →
  runs (update_cursor x y) s (λ _ s', WRITER s' = WRITER s ∧ ∃ lo hi,
    crtc_writes s' = crtc_writes s ++ [(0x3D4, 0x0F); (0x3D5, lo); (0x3D4, 0x0E); (0x3D5, hi)] ∧
    is_byte lo ∧ is_byte hi ∧ lo + 256 * hi = (y * 80 + x) mod 65536).
Proof.
  intros Hx Hy. rw /update_cursor /BUFFER_WIDTH. rlift; [apply chk_Done; lia|].
  rlift; [apply chk_Done; lia|]. set (pos := y * 80 + x). rw /runs /=. split; [done|].
  exists (pos mod 256), (pos / 256 mod 256). rw /wrap /is_byte.
  change 255 with (Z.ones 8). rw !Z.land_ones // !Z.mod_mod // Z.shiftr_div_pow2 // -!app_assoc.
  split; [done|]. change (2 ^ 8) with 256. dlia.
Qed.

(** ** Witnesses *)

Definition boot_buffer : Buffer := replicate 25 (replicate 80 (blank 7)).
Definition boot_screen : Screen := {| WRITER := WRITER_init boot_buffer; crtc_writes := [] |}.
Definition boot_scrollback : Scrollback :=
  {| sb_rows := boot_buffer; sb_col := 0; sb_color := ColorCode_new Green Black |}.

Lemma boot_wf : wf_writer (WRITER boot_screen).
Proof. split; [simpl; lia|]. refine (bool_decide_unpack _ _). vm_compute. exact I. Qed.

Lemma boot_shows : shows (WRITER boot_screen) boot_scrollback.
Proof. split; [exact boot_wf|done|done|by exists []]. Qed.

Lemma print_refines_witness :
  runs (vga_print (str "hello")) boot_screen (λ _ s',
    shows (WRITER s') (sb_print boot_scrollback (str "hello")) ∧ crtc_writes s' = []).
Proof. apply (print_refines boot_screen), boot_shows. Defined.

Lemma new_line_scrolls_witness :
  runs new_line (WRITER boot_screen) (λ _ w', buffer w' = drop 1 boot_buffer ++ [blank_row 2] ∧
    column_position w' = 0 ∧ writer_color w' = 2).
Proof. apply (new_line_scrolls (WRITER boot_screen)), boot_wf. Defined.

Lemma delete_byte_undoes_witness :
  runs (write_byte 65 ;; delete_byte) (WRITER boot_screen) (λ _ w', w' =
    with_buffer (WRITER boot_screen) (<[24%nat := <[0%nat := blank 2]> (replicate 80 (blank 7))]> boot_buffer)).
Proof.
  apply (delete_byte_undoes (WRITER boot_screen) 65 (replicate 80 (blank 7))).
  - exact boot_wf.
  - done.
  - done.
  - reflexivity.
Defined.

Lemma clear_screen_witness :
  runs clear_screen boot_screen (λ _ s',
    buffer (WRITER s') = replicate 24 (blank_row 2) ++ drop 24 boot_buffer ∧
    column_position (WRITER s') = 0 ∧ crtc_writes s' = []).
Proof. apply (clear_screen_keeps_last_row boot_screen), boot_wf. Defined.

Lemma canvas_clear_witness : runs canvas_clear boot_buffer (λ _ b', b' = replicate 25 (blank_row 0)).
Proof. apply (canvas_clear_all boot_buffer), boot_wf. Defined.

Lemma println_appears_witness :
  runs (vga_print ([LF] ++ str "some line" ++ [LF])) boot_screen (λ _ s', ∃ row,
    buffer (WRITER s') !! 23%nat = Some row ∧ take 9 row = cells 2 (str "some line")).
Proof.
  apply (println_appears boot_screen boot_scrollback (str "some line")).
  - exact boot_shows.
  - repeat constructor; done.
  - simpl. lia.
Defined.

Lemma update_cursor_witness :
  runs (update_cursor 5 3) boot_screen (λ _ s', WRITER s' = WRITER boot_screen ∧ ∃ lo hi,
    crtc_writes s' = [] ++ [(0x3D4, 0x0F); (0x3D5, lo); (0x3D4, 0x0E); (0x3D5, hi)] ∧
    is_byte lo ∧ is_byte hi ∧ lo + 256 * hi = (3 * 80 + 5) mod 65536).
Proof. apply (update_cursor_registers boot_screen 5 3); lia. Defined.
