(* ===== verification/Editor.v ===== *)
(** * The editor's text model: src/src/editor/mod.rs

    Lines are Rust strings; the cursor column counts bytes, and every string
    operation checks that it falls between two characters, as the source's
    [String] methods do. *)

From S2P Require Import Prelude Str.
#[local] Open Scope Z_scope.

(** ** Strings indexed by bytes *)

(** The number of characters in the first [i] bytes, if byte [i] starts one or
    ends the string ([is_char_boundary]). *)
Fixpoint char_index (s : rstring) (i : Z) : option nat :=
  if i =? 0 then Some 0%nat
  else match s with
       | [] => None
       | c :: s => if i <? zlen (utf8_char c) then None else S <$> char_index s (i - zlen (utf8_char c))
       end.

(** [String::insert] *)
Definition string_insert (s : rstring) (i c : Z) : outcome rstring :=
  match char_index s i with
  | Some n => Done (take n s ++ c :: drop n s)
  | None => Panic PCharBoundary
  end.

(** [String::split_off]: what stays and what is split off. *)
Definition string_split_off (s : rstring) (i : Z) : outcome (rstring * rstring) :=
  match char_index s i with
  | Some n => Done (take n s, drop n s)
  | None => Panic PCharBoundary
  end.

(** [String::remove] *)
Definition string_remove (s : rstring) (i : Z) : outcome rstring :=
  match char_index s i with
  | Some n => if (n <? length s)%nat then Done (delete n s) else Panic PCharBoundary
  | None => Panic PCharBoundary
  end.

(** [str::lines]: the pieces between line feeds, without the empty piece after
    a final one; a carriage return before a line feed is dropped. *)
Definition strip_cr (s : rstring) : rstring :=
  match last s with
  | Some c => if c =? CR then removelast s else s
  | None => s
  end.

Fixpoint lines_of (pieces : list rstring) : list rstring :=
  match pieces with
  | [] => []
  | [p] => match p with [] => [] | _ => [p] end
  | p :: ps => strip_cr p :: lines_of ps
  end.

Definition str_lines (s : rstring) : list rstring := lines_of (split_char LF s).

(** ** The editor *)

Record Editor := {
  lines : list rstring;
  cursor_x : Z;
  cursor_y : Z;
}.

Definition Editor_new (initial_data : rstring) : Editor :=
  let ls := str_lines initial_data in
  {| lines := match ls with [] => [[]] | _ => ls end; cursor_x := 0; cursor_y := 0 |}.

Implicit Types (e : Editor).

(** [Vec::insert] and [Vec::remove] *)
Definition vec_insert {A} (l : list A) (i : Z) (x : A) : outcome (list A) :=
  if (0 <=? i) && (i <=? zlen l) then Done (take (Z.to_nat i) l ++ x :: drop (Z.to_nat i) l)
  else Panic PIndex.

Definition vec_remove {A} (l : list A) (i : Z) : outcome (A * list A) :=
  x ← idx l i; Done (x, delete (Z.to_nat i) l).

Definition insert_newline e : outcome Editor :=
  current_line ← idx (lines e) (cursor_y e);
  '(kept, new_line_content) ← string_split_off current_line (cursor_x e);
  ls ← set_idx (lines e) (cursor_y e) kept;
  y ← chk 64 (cursor_y e + 1);
  ls ← vec_insert ls y new_line_content;
  Done {| lines := ls; cursor_x := 0; cursor_y := y |}.

Definition insert_char e (c : Z) : outcome Editor :=
  if c =? LF then insert_newline e
  else
    line ← idx (lines e) (cursor_y e);
    line ← string_insert line (cursor_x e) c;
    ls ← set_idx (lines e) (cursor_y e) line;
    x ← chk 64 (cursor_x e + 1);
    Done {| lines := ls; cursor_x := x; cursor_y := cursor_y e |}.

Definition backspace e : outcome Editor :=
  if 0 <? cursor_x e then
    x ← chk 64 (cursor_x e - 1);
    line ← idx (lines e) (cursor_y e);
    line ← string_remove line x;
    ls ← set_idx (lines e) (cursor_y e) line;
    Done {| lines := ls; cursor_x := x; cursor_y := cursor_y e |}
  else if 0 <? cursor_y e then
    '(current_line, ls) ← vec_remove (lines e) (cursor_y e);
    y ← chk 64 (cursor_y e - 1);
    prev_line ← idx ls y;
    ls ← set_idx ls y (prev_line ++ current_line);
    Done {| lines := ls; cursor_x := str_len prev_line; cursor_y := y |}
  else Done e.

Definition move_cursor_left e : outcome Editor :=
  if 0 <? cursor_x e then
    x ← chk 64 (cursor_x e - 1);
    Done {| lines := lines e; cursor_x := x; cursor_y := cursor_y e |}
  else if 0 <? cursor_y e then
    y ← chk 64 (cursor_y e - 1);
    line ← idx (lines e) y;
    Done {| lines := lines e; cursor_x := str_len line; cursor_y := y |}
  else Done e.

Definition move_cursor_right e : outcome Editor :=
  line ← idx (lines e) (cursor_y e);
  if cursor_x e <? str_len line then
    x ← chk 64 (cursor_x e + 1);
    Done {| lines := lines e; cursor_x := x; cursor_y := cursor_y e |}
  else
    last ← chk 64 (zlen (lines e) - 1);
    if cursor_y e <? last then
      y ← chk 64 (cursor_y e + 1);
      Done {| lines := lines e; cursor_x := 0; cursor_y := y |}
    else Done e.

(** The end of [move_cursor_up] and [move_cursor_down]: the column is clamped to
    the length of line [y]. *)
Definition clamp_to e (y : Z) : outcome Editor :=
  line ← idx (lines e) y;
  Done {| lines := lines e;
          cursor_x := if str_len line <? cursor_x e then str_len line else cursor_x e;
          cursor_y := y |}.

Definition move_cursor_up e : outcome Editor :=
  if 0 <? cursor_y e then
    y ← chk 64 (cursor_y e - 1);
    clamp_to e y
  else Done e.

Definition move_cursor_down e : outcome Editor :=
  last ← chk 64 (zlen (lines e) - 1);
  if cursor_y e <? last then
    y ← chk 64 (cursor_y e + 1);
    clamp_to e y
  else Done e.

(** ** Keys *)

(** The part of [pc_keyboard::DecodedKey] the editor distinguishes. *)
Inductive KeyCode := ArrowLeft | ArrowRight | ArrowUp | ArrowDown | KeyW | KeyS | KeyO | KeyL | Escape | OtherKey (n : Z).
Inductive DecodedKey := Unicode (c : Z) | RawKey (k : KeyCode).

#[export] Instance KeyCode_eq : EqDecision KeyCode.
Proof. solve_decision. Defined.
#[export] Instance DecodedKey_eq : EqDecision DecodedKey.
Proof. solve_decision. Defined.

(** The effect of one key that is not Escape. *)
Definition editor_key e (key : DecodedKey) : outcome Editor :=
  match key with
  | Unicode c => if c =? BACKSPACE then backspace e else insert_char e c
  | RawKey ArrowLeft => move_cursor_left e
  | RawKey ArrowRight => move_cursor_right e
  | RawKey ArrowUp => move_cursor_up e
  | RawKey ArrowDown => move_cursor_down e
  | RawKey _ => Done e
  end.

(** What is saved: [editor.lines.join("\n")]. *)
Definition editor_text e : rstring := join [LF] (lines e).

(** ** File names *)

Definition pad (n : nat) (s : list Z) : list Z := take n s ++ replicate (n - length (take n s)) 0x20.

Definition format_fat16_name (name_str ext_str : rstring) : list Z * list Z :=
  (pad 8 (ascii_upper <$> utf8_encode name_str), pad 3 (ascii_upper <$> utf8_encode ext_str)).
