(* ===== verification/EditorTheorems.v ===== *)
(** * The editor as a text with a cursor

    An editor state whose lines are ASCII is a text cut in two at the cursor;
    the theorems show that every key acts on that pair as it should, that no
    operation panics, and what a save followed by a load gives back. *)

From S2P Require Import Prelude Device Str Fat16 FsSpec Editor.
#[local] Open Scope Z_scope.

(** ** The view at the cursor *)

Definition ascii_char (c : Z) : Prop := 0 ≤ c < 128.
Definition line_char (c : Z) : Prop := ascii_char c ∧ c ≠ LF.
Definition ascii_line (s : rstring) : Prop := Forall line_char s.

(** The lines above, the current line cut at the cursor, the lines below. *)
Definition editor_of (pre : list rstring) (l r : rstring) (post : list rstring) : Editor :=
  {| lines := pre ++ (l ++ r) :: post; cursor_x := zlen l; cursor_y := zlen pre |}.

Definition before (pre : list rstring) (l : rstring) : rstring := mjoin ((λ x, x ++ [LF]) <$> pre) ++ l.
Definition after (r : rstring) (post : list rstring) : rstring := r ++ mjoin ((λ x, LF :: x) <$> post).

(** [flat e b a]: the text of [e] is [b ++ a] with the cursor between them. *)
Definition flat (e : Editor) (b a : rstring) : Prop :=
  ∃ pre l r post, e = editor_of pre l r post ∧ b = before pre l ∧ a = after r post ∧
    Forall ascii_line pre ∧ ascii_line l ∧ ascii_line r ∧ Forall ascii_line post.

Lemma utf8_char_ascii c : ascii_char c → utf8_char c = [c].
Proof. intros Hc. rw /ascii_char in Hc. rw /utf8_char. by destruct (Z.ltb_spec c 128); [|lia]. Qed.

Lemma utf8_encode_ascii s : Forall ascii_char s → utf8_encode s = s.
Proof.
  induction 1 as [|c s Hc _ IH]; [done|].
  change (utf8_char c ++ utf8_encode s = c :: s). by rw IH utf8_char_ascii.
Qed.

Lemma ascii_line_char s : ascii_line s → Forall ascii_char s.
Proof. intros H. eapply Forall_impl; [done|]. by intros c [? _]. Qed.

Lemma str_len_ascii s : ascii_line s → str_len s = zlen s.
Proof. intros H. by rw /str_len utf8_encode_ascii; [apply ascii_line_char|]. Qed.

(** Between ASCII characters every byte position is a boundary. *)
Lemma char_index_ascii l r : ascii_line l → char_index (l ++ r) (zlen l) = Some (length l).
Proof.
  induction 1 as [|c l [Hc _] _ IH]; [by destruct r|].
  rw [length (c :: l)]/= Nat2Z.inj_succ. simpl. destruct (Z.eqb_spec (Z.succ (zlen l)) 0); [lia|].
  rw utf8_char_ascii //. change (zlen [c]) with 1. destruct (Z.ltb_spec (Z.succ (zlen l)) 1); [lia|].
  replace (Z.succ (zlen l) - 1) with (zlen l) by lia. by rw IH.
Qed.

Lemma idx_middle {A} (pre : list A) x post : idx (pre ++ x :: post) (zlen pre) = Done x.
Proof. apply idx_Done; [lia|]. by rw Nat2Z.id list_lookup_middle. Qed.

Lemma set_middle {A} (pre : list A) x y post :
  set_idx (pre ++ x :: post) (zlen pre) y = Done (pre ++ y :: post).
Proof. rw set_idx_Done; [len|]. by rw Nat2Z.id insert_app_r_alt // Nat.sub_diag. Qed.

(** ** Each operation on the view *)

Section ops.
Context (pre : list rstring) (l r : rstring) (post : list rstring).

Lemma insert_char_view c :
  ascii_line l → c ≠ LF → zlen l < 2 ^ 63 →
  insert_char (editor_of pre l r post) c = Done (editor_of pre (l ++ [c]) r post).
Proof.
  intros Hl Hc Hb. rw /insert_char. destruct (Z.eqb_spec c LF); [done|]. simpl.
  obind; [apply idx_middle|]. rw /string_insert char_index_ascii // take_app_length drop_app_length.
  obind; [done|]. obind; [apply set_middle|]. obind; [apply chk_Done; lia|].
  rw /editor_of length_app /= -assoc /=. do 2 f_equal. lia.
Qed.

Lemma insert_newline_view :
  ascii_line l → zlen pre < 2 ^ 63 →
  insert_char (editor_of pre l r post) LF = Done (editor_of (pre ++ [l]) [] r post).
Proof.
  intros Hl Hb. rw /insert_char /= /insert_newline /=.
  obind; [apply idx_middle|]. rw /string_split_off char_index_ascii // take_app_length drop_app_length.
  obind; [done|]. simpl. obind; [apply set_middle|]. obind; [apply chk_Done; lia|].
  rw /vec_insert. destruct (Z.leb_spec 0 (zlen pre + 1)); [|lia].
  destruct (Z.leb_spec (zlen pre + 1) (zlen (pre ++ l :: post))) as [_|Hge]; [|revert Hge; len].
  simpl. rw /editor_of length_app /=.
  replace (Z.to_nat (zlen pre + 1)) with (length (pre ++ [l])) by len.
  replace (pre ++ l :: post) with ((pre ++ [l]) ++ post) by by rw -assoc.
  rw take_app_length drop_app_length. do 2 f_equal. lia.
Qed.

Lemma backspace_char_view c :
  ascii_line (l ++ [c]) → zlen l < 2 ^ 63 →
  backspace (editor_of pre (l ++ [c]) r post) = Done (editor_of pre l r post).
Proof.
  intros Hl Hb. apply Forall_app in Hl as [Hl _]. rw /backspace /= length_app /=.
  destruct (Z.ltb_spec 0 (Z.of_nat (length l + 1))); [|lia].
  replace (Z.of_nat (length l + 1) - 1) with (zlen l) by lia.
  obind; [apply chk_Done; lia|]. obind; [apply idx_middle|].
  rw /string_remove -assoc char_index_ascii //. destruct (Nat.ltb_spec (length l) (length (l ++ [c] ++ r))) as [_|Hge].
  2:{ revert Hge. len. }
  obind; [done|]. obind; [apply set_middle|].
  rw delete_middle. done.
Qed.

Lemma backspace_line_view p :
  ascii_line p → zlen pre < 2 ^ 63 →
  backspace (editor_of (pre ++ [p]) [] r post) = Done (editor_of pre p r post).
Proof.
  intros Hp Hb. rw /backspace /= length_app /=.
  destruct (Z.ltb_spec 0 (Z.of_nat (length pre + 1))); [|lia]. rw /vec_remove.
  assert (Z.of_nat (length pre + 1) = zlen (pre ++ [p])) as -> by len.
  rw idx_middle. rw /= Nat2Z.id delete_middle.
  rw length_app /=. replace (Z.of_nat (length pre + 1) - 1) with (zlen pre) by lia.
  obind; [apply chk_Done; lia|]. rw -assoc. obind; [apply idx_middle|]. obind; [apply set_middle|].
  by rw str_len_ascii.
Qed.

Lemma left_char_view c :
  zlen l < 2 ^ 63 →
  move_cursor_left (editor_of pre (l ++ [c]) r post) = Done (editor_of pre l (c :: r) post).
Proof.
  intros Hb. rw /move_cursor_left /= length_app /=.
  destruct (Z.ltb_spec 0 (Z.of_nat (length l + 1))); [|lia].
  replace (Z.of_nat (length l + 1) - 1) with (zlen l) by lia.
  obind; [apply chk_Done; lia|]. rw /editor_of -assoc. done.
Qed.

Lemma left_line_view p :
  ascii_line p → zlen pre < 2 ^ 63 →
  move_cursor_left (editor_of (pre ++ [p]) [] r post) = Done (editor_of pre p [] (r :: post)).
Proof.
  intros Hp Hb. rw /move_cursor_left /= length_app /=.
  destruct (Z.ltb_spec 0 (Z.of_nat (length pre + 1))); [|lia].
  replace (Z.of_nat (length pre + 1) - 1) with (zlen pre) by lia.
  obind; [apply chk_Done; lia|]. rw -assoc /=. obind; [apply idx_middle|].
  by rw /editor_of str_len_ascii // app_nil_r.
Qed.

Lemma right_char_view c :
  ascii_line (l ++ c :: r) → zlen l < 2 ^ 63 →
  move_cursor_right (editor_of pre l (c :: r) post) = Done (editor_of pre (l ++ [c]) r post).
Proof.
  intros Hl Hb. rw /move_cursor_right /=. obind; [apply idx_middle|].
  rw str_len_ascii //. destruct (Z.ltb_spec (zlen l) (zlen (l ++ c :: r))) as [_|Hge]; [|revert Hge; len].
  obind; [apply chk_Done; lia|]. rw /editor_of length_app -assoc /=. do 2 f_equal. lia.
Qed.

Lemma right_line_view q :
  ascii_line l → zlen pre + zlen post < 2 ^ 62 →
  move_cursor_right (editor_of pre l [] (q :: post)) = Done (editor_of (pre ++ [l]) [] q post).
Proof.
  intros Hl Hb. rw /move_cursor_right /= app_nil_r. obind; [apply idx_middle|].
  rw str_len_ascii // Z.ltb_irrefl length_app /=. obind; [apply chk_Done; lia|].
  match goal with |- context [?a <? ?b] => destruct (Z.ltb_spec a b); [|lia] end.
  obind; [apply chk_Done; lia|]. rw /editor_of length_app -assoc /=. do 2 f_equal. lia.
Qed.

Lemma right_end_view :
  ascii_line l → zlen pre < 2 ^ 62 →
  move_cursor_right (editor_of pre l [] []) = Done (editor_of pre l [] []).
Proof.
  intros Hl Hb. rw /move_cursor_right /= app_nil_r. obind; [apply idx_middle|].
  rw str_len_ascii // Z.ltb_irrefl length_app /=. obind; [apply chk_Done; lia|].
  match goal with |- context [?a <? ?b] => destruct (Z.ltb_spec a b); [lia|] end. done.
Qed.
End ops.

(** ** The flat text *)

Lemma before_snoc pre l : before (pre ++ [l]) [] = before pre l ++ [LF].
Proof. by rw /before fmap_app join_app /= !app_nil_r assoc. Qed.
Lemma before_char pre l c : before pre (l ++ [c]) = before pre l ++ [c].
Proof. by rw /before assoc. Qed.
Lemma after_line q post : after [] (q :: post) = LF :: after q post.
Proof. done. Qed.

Lemma mjoin_cons {A} (x : list A) xs : mjoin (x :: xs) = x ++ mjoin xs.
Proof. done. Qed.

Lemma length_before pre l : (length pre + length l ≤ length (before pre l))%nat.
Proof.
  rw /before length_app. assert (length pre ≤ length (mjoin ((λ x, x ++ [LF]) <$> pre)))%nat; [|lia].
  induction pre as [|p pre IH]; [simpl; lia|]. rw fmap_cons mjoin_cons !length_app /=. lia.
Qed.
Lemma length_after r post : (length post + length r ≤ length (after r post))%nat.
Proof.
  rw /after length_app. assert (length post ≤ length (mjoin ((λ x, LF :: x) <$> post)))%nat; [|lia].
  induction post as [|p post IH]; [simpl; lia|]. rw fmap_cons mjoin_cons length_app /=. lia.
Qed.

Lemma join_cut pre x post :
  join [LF] (pre ++ x :: post) = mjoin ((λ y, y ++ [LF]) <$> pre) ++ x ++ mjoin ((λ y, LF :: y) <$> post).
Proof.
  induction pre as [|p pre IH]; simpl.
  - revert x. induction post as [|q post IH]; intros x; simpl; [by rw app_nil_r|].
    by rw -IH.
  - rw -!assoc -IH /=. by destruct pre.
Qed.

(** The text of a flat state. *)
Lemma flat_text e b a : flat e b a → editor_text e = b ++ a.
Proof.
  intros (pre & l & r & post & -> & -> & -> & _). rw /editor_text join_cut /before /after.
  by rw !assoc.
Qed.

(** What a key does to the text around the cursor. *)
Definition flat_key (t : rstring * rstring) (key : DecodedKey) : rstring * rstring :=
  let '(b, a) := t in
  match key with
  | Unicode c => if c =? BACKSPACE then (removelast b, a) else (b ++ [c], a)
  | RawKey ArrowLeft => match last b with Some c => (removelast b, c :: a) | None => (b, a) end
  | RawKey ArrowRight => match a with c :: a => (b ++ [c], a) | [] => (b, a) end
  | RawKey _ => (b, a)
  end.

(** An ASCII key; the vertical arrows are treated apart. *)
Definition ascii_key (key : DecodedKey) : Prop :=
  match key with Unicode c => ascii_char c | _ => True end.
Definition typing_key (key : DecodedKey) : Prop :=
  ascii_key key ∧ key ≠ RawKey ArrowUp ∧ key ≠ RawKey ArrowDown.

Lemma removelast_snoc {A} (l : list A) x : removelast (l ++ [x]) = l.
Proof. apply removelast_last. Qed.

Lemma flat_intro pre l r post :
  Forall ascii_line pre → ascii_line l → ascii_line r → Forall ascii_line post →
  flat (editor_of pre l r post) (before pre l) (after r post).
Proof. intros. by exists pre, l, r, post. Qed.

(** A flat state, its lines ASCII by construction. *)
Ltac flats := apply flat_intro; try done; repeat first [done | apply Forall_app; split | constructor].

Lemma insert_flat e b a c :
  flat e b a → ascii_char c → zlen b < 2 ^ 62 →
  ∃ e', insert_char e c = Done e' ∧ flat e' (b ++ [c]) a.
Proof.
  intros (pre & l & r & post & -> & -> & -> & Hpre & Hl & Hr & Hpost) Hc Hb.
  pose proof (length_before pre l). destruct (decide (c = LF)) as [->|Hn].
  - rw insert_newline_view //; [lia|]. eexists; split; [done|]. rw -before_snoc.
    flats.
  - rw insert_char_view //; [lia|]. eexists; split; [done|]. rw -before_char.
    flats.
Qed.

Lemma backspace_flat e b a :
  flat e b a → zlen b < 2 ^ 62 → ∃ e', backspace e = Done e' ∧ flat e' (removelast b) a.
Proof.
  intros (pre & l & r & post & -> & -> & -> & Hpre & Hl & Hr & Hpost) Hb.
  pose proof (length_before pre l) as Hlb. destruct l as [|c l _] using rev_ind.
  - destruct pre as [|p pre _] using rev_ind; [by eexists; split; [done|]; flats|].
    apply Forall_app in Hpre as [Hpre Hp]. rw Forall_singleton in Hp.
    rw length_app /= in Hlb. rw backspace_line_view //; [lia|]. eexists; split; [done|].
    rw before_snoc removelast_snoc. flats.
  - rw length_app /= in Hlb. rw backspace_char_view //; [lia|]. eexists; split; [done|].
    rw before_char removelast_snoc. apply Forall_app in Hl as [Hl _]. flats.
Qed.

Lemma left_flat e b a :
  flat e b a → zlen b < 2 ^ 62 →
  ∃ e', move_cursor_left e = Done e' ∧
    flat e' (flat_key (b, a) (RawKey ArrowLeft)).1 (flat_key (b, a) (RawKey ArrowLeft)).2.
Proof.
  intros (pre & l & r & post & -> & -> & -> & Hpre & Hl & Hr & Hpost) Hb.
  pose proof (length_before pre l) as Hlb. destruct l as [|c l _] using rev_ind.
  - destruct pre as [|p pre _] using rev_ind; [by eexists; split; [done|]; flats|].
    apply Forall_app in Hpre as [Hpre Hp]. rw Forall_singleton in Hp.
    rw length_app /= in Hlb. rw left_line_view //; [lia|]. eexists; split; [done|].
    rw before_snoc /= last_snoc removelast_snoc /= -after_line. flats.
  - rw length_app /= in Hlb. rw left_char_view //; [lia|]. eexists; split; [done|].
    rw before_char /= last_snoc removelast_snoc /=. apply Forall_app in Hl as [Hl Hc]. rw Forall_singleton in Hc.
    flats.
Qed.

Lemma right_flat e b a :
  flat e b a → zlen b + zlen a < 2 ^ 62 →
  ∃ e', move_cursor_right e = Done e' ∧
    flat e' (flat_key (b, a) (RawKey ArrowRight)).1 (flat_key (b, a) (RawKey ArrowRight)).2.
Proof.
  intros (pre & l & r & post & -> & -> & -> & Hpre & Hl & Hr & Hpost) Hb.
  pose proof (length_before pre l) as Hlb. pose proof (length_after r post) as Hla.
  destruct r as [|c r].
  - destruct post as [|q post].
    + rw right_end_view //; [lia|]. eexists; split; [done|]. flats.
    + pose proof (length_after q post). rw after_line [length (_ :: _)]/= in Hb.
      rw right_line_view //; [lia|]. eexists; split; [done|].
      rw after_line /= -before_snoc. apply Forall_cons in Hpost as [Hq Hpost].
      flats.
  - apply Forall_cons in Hr as [Hc Hr]. rw right_char_view //; [|lia|].
    { apply Forall_app; split; [done|by constructor]. }
    eexists; split; [done|]. rw /= -before_char. flats.
Qed.

(** ** Vertical moves *)

(** Any line of a flat state, cut at any column, is a flat state of the same
    text. *)
Lemma flat_at e b a y x line :
  flat e b a → lines e !! y = Some line → (x ≤ length line)%nat →
  ∃ b' a', flat {| lines := lines e; cursor_x := Z.of_nat x; cursor_y := Z.of_nat y |} b' a' ∧
    b' ++ a' = b ++ a.
Proof.
  intros Hf Hy Hx. pose proof (flat_text _ _ _ Hf) as Ht.
  assert (Forall ascii_line (lines e)) as Hall.
  { destruct Hf as (pre & l & r & post & -> & _ & _ & ? & ? & ? & ?). simpl.
    apply Forall_app; split; [done|]. constructor; [|done]. by apply Forall_app. }
  apply list_elem_of_split_length in Hy as (pre & post & E & ->). rw E in Hall.
  apply Forall_app in Hall as [Hpre [Hline Hpost]%Forall_cons]. rw -(take_drop x line) in Hline.
  apply Forall_app in Hline as [Hl Hr].
  exists (before pre (take x line)), (after (drop x line) post).
  assert ({| lines := lines e; cursor_x := Z.of_nat x; cursor_y := zlen pre |} =
    editor_of pre (take x line) (drop x line) post) as E'.
  { rw /editor_of take_drop E length_take_le //. }
  rw E'. assert (flat (editor_of pre (take x line) (drop x line) post)
    (before pre (take x line)) (after (drop x line) post)) as Hf' by by apply flat_intro.
  split; [done|]. rw -(flat_text _ _ _ Hf') -Ht /editor_text -E'. done.
Qed.

Lemma flat_bounds e b a :
  flat e b a → 0 ≤ cursor_y e < zlen (lines e) ∧ zlen (lines e) ≤ 1 + zlen b + zlen a ∧ 0 ≤ cursor_x e ∧
  Forall ascii_line (lines e).
Proof.
  intros (pre & l & r & post & -> & -> & -> & ? & ? & ? & ?). simpl.
  pose proof (length_before pre l). pose proof (length_after r post). rw length_app /=.
  split_and!; try lia. apply Forall_app; split; [done|]. constructor; [|done]. by apply Forall_app.
Qed.

Lemma clamp_flat e b a y line :
  flat e b a → lines e !! y = Some line →
  ∃ b' a', clamp_to e (Z.of_nat y) = Done {| lines := lines e;
      cursor_x := Z.min (zlen line) (cursor_x e); cursor_y := Z.of_nat y |} ∧
    flat {| lines := lines e; cursor_x := Z.min (zlen line) (cursor_x e); cursor_y := Z.of_nat y |} b' a' ∧
    b' ++ a' = b ++ a.
Proof.
  intros Hf Hy. destruct (flat_bounds _ _ _ Hf) as (_ & _ & Hx & Hall).
  assert (ascii_line line) as Hl by by eapply Forall_lookup_1 in Hall.
  assert (Z.min (zlen line) (cursor_x e) = Z.of_nat (Nat.min (length line) (Z.to_nat (cursor_x e)))) as Em by lia.
  destruct (flat_at e b a y (Nat.min (length line) (Z.to_nat (cursor_x e))) line Hf Hy) as (b' & a' & Hf' & Ht); [lia|].
  rw -Em in Hf'. exists b', a'. split; [|done]. rw /clamp_to.
  obind; [by apply idx_Done; [lia|rw Nat2Z.id]|]. rw str_len_ascii //.
  do 2 f_equal. destruct (Z.ltb_spec (zlen line) (cursor_x e)); lia.
Qed.

Lemma vertical_run e b a (up : bool) :
  flat e b a → zlen b + zlen a < 2 ^ 62 →
  let y := if up then Z.max 0 (cursor_y e - 1) else Z.min (zlen (lines e) - 1) (cursor_y e + 1) in
  ∃ e' b' a', (if up then move_cursor_up e else move_cursor_down e) = Done e' ∧
    flat e' b' a' ∧ b' ++ a' = b ++ a ∧ lines e' = lines e ∧ cursor_y e' = y ∧
    (y ≠ cursor_y e → ∃ line, lines e !! Z.to_nat y = Some line ∧
       cursor_x e' = Z.min (zlen line) (cursor_x e)).
Proof.
  intros Hf Hb. destruct (flat_bounds _ _ _ Hf) as (Hy & Hn & Hx & _).
  assert (∀ y : nat, (y < length (lines e))%nat → ∃ e' b' a', clamp_to e (Z.of_nat y) = Done e' ∧
    flat e' b' a' ∧ b' ++ a' = b ++ a ∧ lines e' = lines e ∧ cursor_y e' = Z.of_nat y ∧
    ∃ line, lines e !! y = Some line ∧ cursor_x e' = Z.min (zlen line) (cursor_x e)) as Hclamp.
  { intros y [line Hl]%lookup_lt_is_Some_2. destruct (clamp_flat e b a y line Hf Hl) as (b' & a' & ? & ? & ?).
    eexists _, b', a'. split_and!; [done..|]. by exists line. }
  destruct up; simpl.
  - rw /move_cursor_up. destruct (Z.ltb_spec 0 (cursor_y e)).
    + destruct (Hclamp (Z.to_nat (cursor_y e - 1))) as (e' & b' & a' & He & ? & ? & ? & Hy' & Hl); [lia|].
      exists e', b', a'. rw Z2Nat.id in He Hy'; [lia..|].
      split; [obind; [apply chk_Done; lia|done]|]. split_and!; try done; [lia|]. intros _.
      replace (Z.max 0 (cursor_y e - 1)) with (cursor_y e - 1) by lia. done.
    + exists e, b, a. split_and!; try done; lia.
  - assert (move_cursor_down e = if cursor_y e <? zlen (lines e) - 1
      then y ← chk 64 (cursor_y e + 1); clamp_to e y else Done e) as ->.
    { rw /move_cursor_down. by obind; [apply chk_Done; lia|]. }
    destruct (Z.ltb_spec (cursor_y e) (zlen (lines e) - 1)).
    + destruct (Hclamp (Z.to_nat (cursor_y e + 1))) as (e' & b' & a' & He & ? & ? & ? & Hy' & Hl); [lia|].
      exists e', b', a'. rw Z2Nat.id in He Hy'; [lia..|].
      split; [obind; [apply chk_Done; lia|done]|]. split_and!; try done; [lia|]. intros _.
      replace (Z.min (zlen (lines e) - 1) (cursor_y e + 1)) with (cursor_y e + 1) by lia. done.
    + exists e, b, a. split_and!; try done; lia.
Qed.

(** The vertical arrows: [move_cursor_up] goes one line up (none on the first
    line) and [move_cursor_down] one line down (none on the last), to the same
    column or the end of a shorter line; neither changes the text. *)
Theorem vertical_moves e b a (up : bool) :
  flat e b a → zlen b + zlen a < 2 ^ 62 →
  let y := if up then Z.max 0 (cursor_y e - 1) else Z.min (zlen (lines e) - 1) (cursor_y e + 1) in
  ∃ e' b' a', (if up then move_cursor_up e else move_cursor_down e) = Done e' ∧
    flat e' b' a' ∧ b' ++ a' = b ++ a ∧ lines e' = lines e ∧ cursor_y e' = y ∧
    (y ≠ cursor_y e → ∃ line, lines e !! Z.to_nat y = Some line ∧
       cursor_x e' = Z.min (zlen line) (cursor_x e)).
Proof. apply vertical_run. Qed.

(** ** Sequences of keys *)

Fixpoint editor_keys e (keys : list DecodedKey) : outcome Editor :=
  match keys with
  | [] => Done e
  | k :: keys => e ← editor_key e k; editor_keys e keys
  end.

Lemma typing_step e b a key :
  flat e b a → typing_key key → zlen b + zlen a < 2 ^ 62 →
  ∃ e', editor_key e key = Done e' ∧ flat e' (flat_key (b, a) key).1 (flat_key (b, a) key).2.
Proof.
  intros Hf [Hk [Hu Hd]] Hb. destruct key as [c|k]; simpl.
  - destruct (c =? BACKSPACE); [apply backspace_flat; [done|lia]|]. apply insert_flat; [done|done|lia].
  - destruct k; try done; try by exists e.
    + apply left_flat; [done|lia].
    + apply right_flat; [done|lia].
Qed.

Lemma length_removelast {A} (l : list A) : (length (removelast l) ≤ length l)%nat.
Proof. destruct l as [|x l _] using rev_ind; [simpl; lia|]. rw removelast_snoc length_app. lia. Qed.

Lemma flat_key_size t key : zlen (flat_key t key).1 + zlen (flat_key t key).2 ≤ zlen t.1 + zlen t.2 + 1.
Proof.
  destruct t as [b a]. pose proof (length_removelast b). destruct key as [c|[]]; simpl; try lia.
  - destruct (c =? BACKSPACE); simpl; [lia|]. rw length_app /=. lia.
  - destruct b as [|x b _] using rev_ind; [simpl; lia|]. rw last_snoc removelast_snoc length_app /=. lia.
  - destruct a; simpl; rw ?length_app /=; lia.
Qed.

Lemma typing_run e b a keys :
  flat e b a → Forall typing_key keys → zlen b + zlen a + zlen keys < 2 ^ 62 →
  ∃ e', editor_keys e keys = Done e' ∧
    flat e' (foldl flat_key (b, a) keys).1 (foldl flat_key (b, a) keys).2.
Proof.
  intros Hf Hk. revert e b a Hf. induction Hk as [|key keys Hk _ IH]; intros e b a Hf Hb.
  { by exists e. }
  rw [length (_ :: _)]/= in Hb. destruct (typing_step e b a key Hf Hk) as (e1 & He1 & Hf1); [lia|].
  pose proof (flat_key_size (b, a) key) as Hs.
  assert (editor_keys e (key :: keys) = editor_keys e1 keys) as -> by by rw /= He1.
  change (foldl flat_key (b, a) (key :: keys)) with (foldl flat_key (flat_key (b, a) key) keys).
  destruct (flat_key (b, a) key) as [b1 a1]. apply IH; [done|].
  change (zlen b1 + zlen a1 ≤ zlen b + zlen a + 1) in Hs. lia.
Qed.

(** C19. Typing refines text editing: from a state that holds the text [b ++ a]
    with the cursor between the two, any sequence of characters, newlines,
    backspaces and horizontal arrows runs without a panic and ends in the state
    that the flat text with the same keys gives. *)
Theorem typing_refines e b a keys :
  flat e b a → Forall typing_key keys → zlen b + zlen a + zlen keys < 2 ^ 62 →
  ∃ e', editor_keys e keys = Done e' ∧
    flat e' (foldl flat_key (b, a) keys).1 (foldl flat_key (b, a) keys).2.
Proof. apply typing_run. Qed.

(** C30. No key sequence breaks the editor: from a state whose lines are ASCII, any
    sequence of ASCII characters, arrows and other keys runs without a panic and
    keeps the invariant (lines ASCII and without line feeds, the cursor on a
    line and within it). *)
Theorem editor_keys_safe e b a keys :
  flat e b a → Forall ascii_key keys → zlen b + zlen a + zlen keys < 2 ^ 62 →
  ∃ e' b' a', editor_keys e keys = Done e' ∧ flat e' b' a'.
Proof.
  intros Hf Hk. revert e b a Hf. induction Hk as [|key keys Hk _ IH]; intros e b a Hf Hb; simpl.
  { by exists e, b, a. }
  simpl in Hb.
  assert (∃ e1 b1 a1, editor_key e key = Done e1 ∧ flat e1 b1 a1 ∧ zlen b1 + zlen a1 ≤ zlen b + zlen a + 1)
    as (e1 & b1 & a1 & -> & Hf1 & Hs1).
  { assert (Hv := vertical_run e b a). destruct (decide (key = RawKey ArrowUp)) as [->|Hu].
    { destruct (Hv true Hf) as (e1 & b1 & a1 & ? & ? & Ht & _); [lia|]. exists e1, b1, a1.
      split_and!; try done. rw -!Nat2Z.inj_add -!length_app Ht. lia. }
    destruct (decide (key = RawKey ArrowDown)) as [->|Hd].
    { destruct (Hv false Hf) as (e1 & b1 & a1 & ? & ? & Ht & _); [lia|]. exists e1, b1, a1.
      split_and!; try done. rw -!Nat2Z.inj_add -!length_app Ht. lia. }
    destruct (typing_step e b a key Hf) as (e1 & ? & ?); [done|lia|].
    eexists e1, _, _. split_and!; try done. apply (flat_key_size (b, a)). }
  simpl. apply (IH e1 b1 a1 Hf1). lia.
Qed.

(** ** Loading and saving *)

Lemma split_char_aux_app sep s t cur :
  Forall (λ c, c ≠ sep) s → split_char_aux sep (s ++ t) cur = split_char_aux sep t (cur ++ s).
Proof.
  intros Hs. revert cur. induction Hs as [|c s Hc _ IH]; intros cur; simpl; [by rw app_nil_r|].
  destruct (Z.eqb_spec c sep); [done|]. by rw IH -assoc.
Qed.

Lemma split_char_sep sep s cur :
  split_char_aux sep ([sep] ++ s) cur = cur :: split_char_aux sep s [].
Proof. simpl. by rw Z.eqb_refl. Qed.

(** Splitting undoes joining. *)
Lemma split_join ls t :
  ls ≠ [] → Forall (Forall (λ c, c ≠ LF)) ls →
  split_char LF (join [LF] ls ++ LF :: t) = ls ++ split_char LF t ∧ split_char LF (join [LF] ls) = ls.
Proof.
  intros Hne Hls. rw /split_char. induction Hls as [|l ls Hl Hls IH]; [done|].
  destruct ls as [|l' ls].
  - simpl. rw split_char_aux_app //. simpl. split; [done|].
    rw -(app_nil_r l) split_char_aux_app //=. by rw app_nil_r.
  - destruct IH as [IH1 IH2]; [done|]. change (join [LF] (l :: l' :: ls)) with (l ++ [LF] ++ join [LF] (l' :: ls)).
    rw -!assoc !(split_char_aux_app LF l) // !split_char_sep IH1 IH2. done.
Qed.

Definition no_cr (s : rstring) : Prop := last s ≠ Some CR.

Lemma strip_cr_id s : no_cr s → strip_cr s = s.
Proof.
  rw /no_cr /strip_cr. destruct (last s) as [c|]; [|done]. intros Hc.
  destruct (Z.eqb_spec c CR); [congruence|done].
Qed.

Lemma lines_of_id ls : Forall no_cr ls → last ls ≠ Some [] → lines_of ls = ls.
Proof.
  induction 1 as [|l ls Hl Hls IH]; [done|]. intros Hlast. destruct ls as [|l' ls].
  - simpl in *. by destruct l.
  - change (strip_cr l :: lines_of (l' :: ls) = l :: l' :: ls). rw strip_cr_id // IH //.
Qed.

Lemma lines_of_snoc_empty ls : Forall no_cr ls → lines_of (ls ++ [[]]) = ls.
Proof.
  induction 1 as [|l ls Hl Hls IH]; [done|]. destruct ls as [|l' ls].
  - by rw /= strip_cr_id.
  - change (strip_cr l :: lines_of ((l' :: ls) ++ [[]]) = l :: l' :: ls). rw strip_cr_id // IH //.
Qed.

(** Saving and loading give the lines back: if no line contains a line feed
    or ends in a carriage return and the last line is not empty (or the text is),
    the editor opened on the saved text has the same lines. *)
Theorem save_load_roundtrip e :
  lines e ≠ [] → Forall (Forall (λ c, c ≠ LF)) (lines e) → Forall no_cr (lines e) →
  last (lines e) ≠ Some [] ∨ lines e = [[]] →
  lines (Editor_new (editor_text e)) = lines e.
Proof.
  intros Hne Hlf Hcr [Hlast|E].
  - rw /Editor_new /editor_text /str_lines. destruct (split_join (lines e) [] Hne Hlf) as [_ ->].
    rw lines_of_id //. simpl. by destruct (lines e).
  - by rw /editor_text E.
Qed.

(** Opening and saving drops the final newline: a file of lines each ended by
    a line feed is saved, untouched, without the last line feed. *)
Theorem open_save_drops_newline ls :
  ls ≠ [] → Forall (Forall (λ c, c ≠ LF)) ls → Forall no_cr ls →
  editor_text (Editor_new (join [LF] ls ++ [LF])) = join [LF] ls.
Proof.
  intros Hne Hlf Hcr. rw /editor_text /Editor_new /str_lines.
  destruct (split_join ls [] Hne Hlf) as [-> _]. change (split_char LF []) with [[] : rstring].
  rw lines_of_snoc_empty //. by destruct ls.
Qed.

(** An ASCII file opens in a flat state with the cursor before its text. *)
Lemma split_pieces s cur :
  Forall ascii_char s → ascii_line cur → Forall ascii_line (split_char_aux LF s cur).
Proof.
  intros Hs. revert cur. induction Hs as [|c s Hc _ IH]; intros cur Hcur; simpl.
  { by constructor. }
  destruct (Z.eqb_spec c LF); [constructor; [done|]; by apply IH; constructor|].
  apply IH. apply Forall_app; split; [done|]. by apply Forall_singleton.
Qed.

Lemma strip_cr_line s : ascii_line s → ascii_line (strip_cr s).
Proof.
  intros Hs. rw /strip_cr. destruct s as [|c s _] using rev_ind; [done|]. rw last_snoc removelast_snoc.
  apply Forall_app in Hs as [Hs Hc]. destruct (c =? CR); [done|]. by apply Forall_app.
Qed.

Lemma lines_of_ascii ls : Forall ascii_line ls → Forall ascii_line (lines_of ls).
Proof.
  induction 1 as [|l ls Hl Hls IH]; [constructor|]. destruct ls as [|l' ls].
  - destruct l; simpl; [constructor|]. by apply Forall_singleton.
  - change (Forall ascii_line (strip_cr l :: lines_of (l' :: ls))).
    constructor; [by apply strip_cr_line|done].
Qed.

Lemma Editor_new_flat data :
  Forall ascii_char data → flat (Editor_new data) [] (editor_text (Editor_new data)).
Proof.
  intros Hd. assert (Forall ascii_line (lines (Editor_new data))) as Hall.
  { assert (Forall ascii_line (str_lines data)) as H.
    { apply lines_of_ascii, split_pieces; [done|constructor]. }
    rw /Editor_new /=. destruct (str_lines data); [|done].
    apply Forall_singleton. constructor. }
  destruct (lines (Editor_new data)) as [|l ls] eqn:E.
  { rw /Editor_new /= in E. by destruct (str_lines data). }
  apply Forall_cons in Hall as [Hl Hls]. exists [], [], l, ls.
  split_and!; try done; try constructor.
  - rw /editor_of /=. rw -E. done.
  - rw /editor_text E /after. apply (join_cut [] l ls).
Qed.

(** Opening, typing and saving: on an ASCII file, any sequence of typing keys
    runs without a panic, and the text that Escape saves is the flat text the
    keys produce from the file's text with the cursor at its start. *)
Theorem edit_session data keys :
  Forall ascii_char data → Forall typing_key keys →
  zlen (editor_text (Editor_new data)) + zlen keys < 2 ^ 62 →
  ∃ e', editor_keys (Editor_new data) keys = Done e' ∧
    let '(b, a) := foldl flat_key ([], editor_text (Editor_new data)) keys in
    editor_text e' = b ++ a.
Proof.
  intros Hd Hk Hb. destruct (typing_run _ _ _ keys (Editor_new_flat data Hd) Hk) as (e' & He & Hf);
    [simpl; lia|]. exists e'. split; [done|]. destruct (foldl _ _ _) as [b a]. by apply flat_text.
Qed.

(** A multi-byte character breaks the column: after one non-ASCII character
    was typed, the next character panics, because the column went up by one and
    now falls inside the first. *)
Theorem multibyte_insert_panics c c' :
  is_char c → 0x80 ≤ c → c' ≠ LF →
  editor_keys (Editor_new []) [Unicode c; Unicode c'] =
    (if c' =? BACKSPACE then Done {| lines := [[]]; cursor_x := 0; cursor_y := 0 |} else Panic PCharBoundary).
Proof.
  intros Hc H80 Hn. simpl. rw /BACKSPACE /insert_char.
  destruct (Z.eqb_spec c 8); [lia|]. rw /LF in Hn |- *. destruct (Z.eqb_spec c 10); [lia|]. simpl.
  assert (1 < zlen (utf8_char c)) as Hl.
  { rw /utf8_char. destruct (Z.ltb_spec c 128); [lia|]. repeat case_match; simpl; lia. }
  destruct (c' =? 8) eqn:Eb.
  - done.
  - destruct (Z.eqb_spec c' 10); [done|]. rw /insert_char /= /string_insert /=.
    destruct (Z.eqb_spec c' 10); [done|]. by destruct (Z.ltb_spec (0 + 1) (zlen (utf8_char c))); [|lia].
Qed.

(** ** File names *)

Lemma pad_length n s : length (pad n s) = n.
Proof. rw /pad length_app length_replicate length_take. lia. Qed.

Lemma pad_bytes n s : Forall is_byte s → Forall is_byte (pad n s).
Proof.
  intros Hs. apply Forall_app; split; [by apply Forall_take|]. apply Forall_replicate. by rw /is_byte.
Qed.

Lemma upper_ascii c : ascii_char c → is_byte (ascii_upper c) ∧ (c ≠ 0 → ascii_upper c ≠ 0 ∧ ascii_upper c ≠ 0xE5).
Proof.
  rw /ascii_char /is_byte /ascii_upper. intros Hc.
  destruct (Z.leb_spec 97 c), (Z.leb_spec c 122); simpl; lia.
Qed.

(** File names: for every ASCII name and extension without NUL characters,
    [format_fat16_name] gives an 8-byte name and a 3-byte extension that the
    directory accepts as a live entry (it starts neither with the unused nor
    with the deleted mark). *)
Theorem format_fat16_name_wf name ext :
  Forall (λ c, ascii_char c ∧ c ≠ 0) name → Forall ascii_char ext →
  wf_name (format_fat16_name name ext).1 (format_fat16_name name ext).2.
Proof.
  intros Hn Hx. assert (Forall ascii_char name) as Hna by (eapply Forall_impl; [done|]; by intros ? [? _]).
  rw /format_fat16_name /= !utf8_encode_ascii //.
  assert (∀ s, Forall ascii_char s → Forall is_byte (ascii_upper <$> s)) as Hup.
  { intros s Hs. apply Forall_fmap. eapply Forall_impl; [done|]. by intros c [? _]%upper_ascii. }
  split; [split; [apply pad_length|by apply pad_bytes, Hup]..|].
  destruct Hn as [|c name [Hc H0] _]; [done|]. rw fmap_cons /pad /=. by apply upper_ascii.
Qed.

(** Names are upper-cased: two spellings that differ only in ASCII case give
    the same directory name. *)
Theorem format_fat16_name_case name ext name' ext' :
  Forall ascii_char (name ++ ext ++ name' ++ ext') →
  to_ascii_uppercase name = to_ascii_uppercase name' →
  to_ascii_uppercase ext = to_ascii_uppercase ext' →
  format_fat16_name name ext = format_fat16_name name' ext'.
Proof.
  rw !Forall_app. intros (H1 & H2 & H3 & H4) Hn Hx.
  rw /format_fat16_name !utf8_encode_ascii //. rw /to_ascii_uppercase in Hn Hx. by rw Hn Hx.
Qed.

(** ** Witnesses *)

Definition demo_editor : Editor := editor_of [str "ab"] (str "c") (str "de") [str "f"].
Lemma demo_flat : flat demo_editor (str "ab" ++ [LF] ++ str "c") (str "de" ++ [LF] ++ str "f").
Proof. exists [str "ab"], (str "c"), (str "de"), [str "f"]. split_and!; try done; repeat constructor; done. Qed.

Lemma vertical_moves_witness :
  ∃ e' b' a', move_cursor_up demo_editor = Done e' ∧
    flat e' b' a' ∧ b' ++ a' = (str "ab" ++ [LF] ++ str "c") ++ str "de" ++ [LF] ++ str "f" ∧
    lines e' = lines demo_editor ∧ cursor_y e' = 0 ∧
    (0 ≠ cursor_y demo_editor → ∃ line, lines demo_editor !! Z.to_nat 0 = Some line ∧
       cursor_x e' = Z.min (zlen line) (cursor_x demo_editor)).
Proof. apply (vertical_moves demo_editor _ _ true demo_flat). done. Defined.

Definition demo_keys : list DecodedKey :=
  [RawKey ArrowLeft; Unicode 120; Unicode LF; RawKey ArrowRight; Unicode BACKSPACE].
Lemma demo_typing : Forall typing_key demo_keys.
Proof. repeat constructor; rw /ascii_char; lia || done. Qed.

Lemma typing_refines_witness :
  ∃ e', editor_keys demo_editor demo_keys = Done e' ∧
    flat e' (str "ab" ++ [LF] ++ str "x" ++ [LF]) (str "de" ++ [LF] ++ str "f").
Proof. apply (typing_refines demo_editor _ _ demo_keys demo_flat demo_typing). done. Defined.

Lemma editor_keys_safe_witness :
  ∃ e' b' a', editor_keys demo_editor (RawKey ArrowUp :: demo_keys) = Done e' ∧ flat e' b' a'.
Proof.
  apply (editor_keys_safe demo_editor _ _ (RawKey ArrowUp :: demo_keys) demo_flat).
  - repeat constructor; rw /ascii_char /=; lia || done.
  - done.
Defined.

Lemma save_load_roundtrip_witness :
  lines (Editor_new (editor_text demo_editor)) = lines demo_editor.
Proof.
  apply (save_load_roundtrip demo_editor).
  - done.
  - repeat constructor; done.
  - repeat constructor; done.
  - left. done.
Defined.

Lemma open_save_drops_newline_witness :
  editor_text (Editor_new (str "ab" ++ [LF])) = str "ab".
Proof.
  apply (open_save_drops_newline [str "ab"]).
  - done.
  - repeat constructor; done.
  - repeat constructor; done.
Defined.

Lemma edit_session_witness :
  ∃ e', editor_keys (Editor_new (str "ab")) [Unicode 120; RawKey ArrowRight; Unicode BACKSPACE] = Done e' ∧
    editor_text e' = str "x" ++ str "b".
Proof.
  apply (edit_session (str "ab") [Unicode 120; RawKey ArrowRight; Unicode BACKSPACE]).
  - repeat constructor; done.
  - repeat constructor; rw /ascii_char; lia || done.
  - done.
Defined.

Lemma multibyte_insert_panics_witness :
  editor_keys (Editor_new []) [Unicode 0xE9; Unicode 97] = Panic PCharBoundary.
Proof.
  apply (multibyte_insert_panics 0xE9 97).
  - left. lia.
  - lia.
  - done.
Defined.

Lemma format_fat16_name_wf_witness :
  wf_name (format_fat16_name (str "notes") (str "txt")).1 (format_fat16_name (str "notes") (str "txt")).2.
Proof. apply (format_fat16_name_wf (str "notes") (str "txt")); repeat constructor; done. Defined.

Lemma format_fat16_name_case_witness :
  format_fat16_name (str "notes") (str "txt") = format_fat16_name (str "NOTES") (str "TXT").
Proof.
  apply (format_fat16_name_case (str "notes") (str "txt") (str "NOTES") (str "TXT")).
  - repeat constructor; done.
  - done.
  - done.
Defined.
