(* ===== verification/Float64.v ===== *)
(** * IEEE 754 binary64 as Rust's [f64]

    The arithmetic is the Standard Library's executable specification of
    floating point at precision 53 and maximal exponent 1024.  The file adds
    what [core] provides on top and the interpreter uses: [str::parse::<f64>]
    (correctly rounded), [Display] (the shortest decimal that reads back as the
    number, without an exponent) and the casts from and to [i64]. *)

From S2P Require Import Prelude Str.
From Stdlib Require Import SpecFloat.
#[local] Open Scope Z_scope.

Definition f64 : Type := spec_float.
Definition prec : Z := 53.
Definition emax : Z := 1024.

#[export] Instance f64_eq_dec : EqDecision f64.
Proof. solve_decision. Defined.

Definition f64_add : f64 → f64 → f64 := SFadd prec emax.
Definition f64_sub : f64 → f64 → f64 := SFsub prec emax.
Definition f64_mul : f64 → f64 → f64 := SFmul prec emax.
Definition f64_div : f64 → f64 → f64 := SFdiv prec emax.
(** [==], [<] and [<=]; all false on NaN. *)
Definition f64_eqb : f64 → f64 → bool := SFeqb.
Definition f64_ltb : f64 → f64 → bool := SFltb.
Definition f64_leb : f64 → f64 → bool := SFleb.

(** [n as f64] for an integer, rounded to nearest even. *)
Definition f64_of_Z (n : Z) : f64 := binary_normalize prec emax n 0 false.

Definition f64_zero : f64 := S754_zero false.
Definition f64_one : f64 := f64_of_Z 1.

(** [x as i64]: truncation, saturating at the bounds, NaN to 0. *)
Definition i64_min : Z := - 2 ^ 63.
Definition i64_max : Z := 2 ^ 63 - 1.
Definition f64_to_i64 (x : f64) : Z :=
  match x with
  | S754_nan | S754_zero _ => 0
  | S754_infinity s => if s then i64_min else i64_max
  | S754_finite s m e =>
    let a := if 0 <=? e then Z.shiftl (Z.pos m) e else Z.pos m / 2 ^ (- e) in
    Z.max i64_min (Z.min i64_max (if s then - a else a))
  end.

(** ** Parsing *)

(** The number [± m * 10 ^ e], correctly rounded.  Far out on either side the
    result is infinite or zero whatever the digits: [m] lies between
    [10 ^ (log2 m / 4)] and [10 ^ (log2 m / 3 + 1)]. *)
Definition round_decimal (neg : bool) (m e : Z) : f64 :=
  match m with
  | Z.pos p =>
    if 400 <? Z.log2 m / 4 + e then S754_infinity neg
    else if Z.log2 m / 3 + 1 + e <? -400 then S754_zero neg
    else if 0 <=? e then
      match m * 10 ^ e with
      | Z.pos q => binary_round prec emax neg q 0
      | _ => S754_zero neg
      end
    else
      let '(mz, ez, lz) := SFdiv_core_binary prec emax m 0 (10 ^ (- e)) 0 in
      binary_round_aux prec emax neg mz ez lz
  | _ => S754_zero neg
  end.

Definition is_digit (c : Z) : bool := (48 <=? c) && (c <=? 57).

(** A run of digits: its value (continuing [acc]), its length, what follows. *)
Fixpoint take_digits (s : rstring) (acc : Z) (n : Z) : Z * Z * rstring :=
  match s with
  | c :: s' => if is_digit c then take_digits s' (10 * acc + (c - 48)) (n + 1) else (acc, n, s)
  | [] => (acc, n, [])
  end.

(** An optional sign. *)
Definition take_sign (s : rstring) : bool * rstring :=
  match s with
  | c :: s' => if c =? 45 then (true, s') else if c =? 43 then (false, s') else (false, s)
  | [] => (false, [])
  end.

(** The exponent part, up to the end of the string. *)
Definition parse_exponent (s : rstring) : option Z :=
  match s with
  | [] => Some 0
  | c :: s =>
    if (c =? 101) || (c =? 69) then
      let '(neg, s) := take_sign s in
      let '(v, n, rest) := take_digits s 0 0 in
      match rest with
      | [] => if n =? 0 then None else Some (if neg then - v else v)
      | _ => None
      end
    else None
  end.

Definition ascii_lower (c : Z) : Z := if (65 <=? c) && (c <=? 90) then c + 32 else c.

(** [str::parse::<f64>] *)
Definition f64_parse (s : rstring) : option f64 :=
  let '(neg, body) := take_sign s in
  let low := ascii_lower <$> body in
  if bool_decide (low = str "inf") || bool_decide (low = str "infinity") then Some (S754_infinity neg)
  else if bool_decide (low = str "nan") then Some S754_nan
  else
    let '(i, ni, rest) := take_digits body 0 0 in
    let '(m, nf, rest) :=
      match rest with
      | 46 :: r => take_digits r i 0
      | _ => (i, 0, rest)
      end in
    if ni + nf =? 0 then None
    else e ← parse_exponent rest; Some (round_decimal neg m (e - nf)).

(** ** Printing *)

(** The decimal point: the least [p] with [num / den < 10 ^ p], searched upwards
    from an estimate below it (a power of two per 0.30103 decimal places). *)
Fixpoint decimal_point (fuel : nat) (num den p : Z) : Z :=
  match fuel with
  | O => p
  | S fuel =>
    if (if 0 <=? p then num <? den * 10 ^ p else num * 10 ^ (- p) <? den) then p
    else decimal_point fuel num den (p + 1)
  end.

(** The closest [n]-digit decimal that reads back as [x = num / den], if there is
    one; its value is the digits times [10 ^ (p - n)]. *)
Definition digits_at (x : f64) (num den p n : Z) : option Z :=
  let k := p - n in
  let '(a, b) := if 0 <=? k then (num, den * 10 ^ k) else (num * 10 ^ (- k), den) in
  let q := a / b in
  let up := 2 * (a - q * b) <=? b in
  let ok d := bool_decide (round_decimal false d k = x) in
  let '(best, other) := if up then (q, q + 1) else (q + 1, q) in
  if ok best then Some best else if ok other then Some other else None.

Fixpoint shortest (fuel : nat) (x : f64) (num den p n : Z) : Z * Z :=
  match digits_at x num den p n, fuel with
  | Some d, _ => (d, n)
  | None, S fuel => shortest fuel x num den p (n + 1)
  | None, O => (0, n)
  end.

Definition place_point (ds : rstring) (p : Z) : rstring :=
  let n := zlen ds in
  if p <=? 0 then str "0." ++ replicate (Z.to_nat (- p)) 48 ++ ds
  else if n <=? p then ds ++ replicate (Z.to_nat (p - n)) 48
  else take (Z.to_nat p) ds ++ [DOT] ++ drop (Z.to_nat p) ds.

(** [f64::to_string]; 17 digits identify every number. *)
Definition f64_show (x : f64) : rstring :=
  match x with
  | S754_nan => str "NaN"
  | S754_infinity s => (if s then str "-" else []) ++ str "inf"
  | S754_zero s => (if s then str "-" else []) ++ str "0"
  | S754_finite s m e =>
    let num := if 0 <=? e then Z.pos m * 2 ^ e else Z.pos m in
    let den := if 0 <=? e then 1 else 2 ^ (- e) in
    let p := decimal_point 8 num den ((Z.log2 num - Z.log2 den - 1) * 30103 / 100000) in
    let '(d, n) := shortest 17 (S754_finite false m e) num den p 1 in
    (if s then str "-" else []) ++ place_point (show_nat d) p
  end.
