(* ===== verification/BTreeMap.v ===== *)
(** * [alloc::collections::BTreeMap]

    An ordered map is the list of its entries in strictly increasing key order.
    [Compare] is the [Ord] trait of the keys and [TotalOrd] its contract; the
    laws of the map are proved from it. *)

From S2P Require Import Prelude.
#[local] Open Scope Z_scope.

Class Compare (K : Type) := kcmp : K → K → comparison.

Class TotalOrd (K : Type) `{!Compare K} := {
  kcmp_eq a b : kcmp a b = Eq ↔ a = b;
  kcmp_flip a b : kcmp b a = CompOpp (kcmp a b);
  kcmp_trans a b c : kcmp a b = Lt → kcmp b c = Lt → kcmp a c = Lt;
}.

Section ops.
Context {K : Type} `{!Compare K} {V : Type}.

Fixpoint bt_get (k : K) (m : list (K * V)) : option V :=
  match m with
  | [] => None
  | (k', v) :: m => match kcmp k k' with Eq => Some v | _ => bt_get k m end
  end.

Fixpoint bt_insert (k : K) (v : V) (m : list (K * V)) : list (K * V) :=
  match m with
  | [] => [(k, v)]
  | (k', v') :: m' =>
    match kcmp k k' with
    | Lt => (k, v) :: m
    | Eq => (k, v) :: m'
    | Gt => (k', v') :: bt_insert k v m'
    end
  end.

Fixpoint bt_remove (k : K) (m : list (K * V)) : list (K * V) :=
  match m with
  | [] => []
  | (k', v') :: m' => match kcmp k k' with Eq => m' | _ => (k', v') :: bt_remove k m' end
  end.

Definition bt_keys (m : list (K * V)) : list K := m.*1.

(** Every key is less than all the keys after it. *)
Fixpoint bt_sorted (m : list (K * V)) : Prop :=
  match m with
  | [] => True
  | (k, _) :: m => Forall (λ e, kcmp k e.1 = Lt) m ∧ bt_sorted m
  end.
End ops.

Section laws.
Context {K : Type} `{!Compare K, !TotalOrd K} {V : Type}.
Implicit Types (m : list (K * V)).

Lemma kcmp_refl (a : K) : kcmp a a = Eq.
Proof. by apply kcmp_eq. Qed.

Lemma kcmp_ne (a b : K) : a ≠ b → kcmp a b ≠ Eq.
Proof. intros Hne H%kcmp_eq. done. Qed.

Lemma kcmp_gt (a b : K) : kcmp a b = Gt → kcmp b a = Lt.
Proof. intros H. by rw kcmp_flip H. Qed.

(** What was inserted is found. *)
Lemma bt_get_insert k v m : bt_get k (bt_insert k v m) = Some v.
Proof.
  induction m as [|[k' v'] m IH]; simpl; [by rw kcmp_refl|].
  destruct (kcmp k k') eqn:E; simpl; rw ?kcmp_refl ?E //.
Qed.

(** Another key is not affected. *)
Lemma bt_get_insert_ne k k' v m : k ≠ k' → bt_get k' (bt_insert k v m) = bt_get k' m.
Proof.
  intros Hne. induction m as [|[k1 v1] m IH]; simpl.
  { destruct (kcmp k' k) eqn:E; [|done..]. apply kcmp_eq in E. congruence. }
  destruct (kcmp k k1) eqn:E; simpl.
  - apply kcmp_eq in E. subst k1. destruct (kcmp k' k) eqn:E'; [|done..].
    apply kcmp_eq in E'. congruence.
  - destruct (kcmp k' k) eqn:E'; [|done..]. apply kcmp_eq in E'. congruence.
  - by rw IH.
Qed.

Lemma bt_insert_keys k v m (P : K → Prop) :
  P k → Forall (λ e, P e.1) m → Forall (λ e, P e.1) (bt_insert k v m).
Proof.
  intros Hk. induction 1 as [|[k1 v1] m H1 Hm IH]; simpl; [by constructor|].
  destruct (kcmp k k1); constructor; try done; by constructor.
Qed.

Lemma bt_sorted_insert k v m : bt_sorted m → bt_sorted (bt_insert k v m).
Proof.
  induction m as [|[k1 v1] m IH]; simpl; [by repeat constructor|]. intros [Hall Hs].
  destruct (kcmp k k1) eqn:E; simpl.
  - apply kcmp_eq in E. by subst.
  - split; [|done]. constructor; [done|]. eapply Forall_impl; [done|]. intros e He. by eapply kcmp_trans.
  - split; [|by apply IH]. apply (bt_insert_keys k v m (λ x, kcmp k1 x = Lt)); [by apply kcmp_gt|done].
Qed.

Lemma bt_get_None k m : Forall (λ e, kcmp k e.1 = Lt) m → bt_get k m = None.
Proof. induction 1 as [|[k1 v1] m H1 _ IH]; simpl in *; [done|]. by rw H1. Qed.

(** A removed key is gone, the others stay. *)
Lemma bt_get_remove k m : bt_sorted m → bt_get k (bt_remove k m) = None.
Proof.
  induction m as [|[k1 v1] m IH]; simpl; [done|]. intros [Hall Hs].
  destruct (kcmp k k1) eqn:E; simpl.
  - apply kcmp_eq in E. subst. by apply bt_get_None.
  - rw E. by apply IH.
  - rw E. by apply IH.
Qed.

Lemma bt_get_remove_ne k k' m : k ≠ k' → bt_get k' (bt_remove k m) = bt_get k' m.
Proof.
  intros Hne. induction m as [|[k1 v1] m IH]; simpl; [done|]. destruct (kcmp k k1) eqn:E; simpl; rw ?IH //.
  apply kcmp_eq in E. subst k1. destruct (kcmp k' k) eqn:E'; [|done..]. apply kcmp_eq in E'. congruence.
Qed.

Lemma bt_remove_keys k m (P : K → Prop) :
  Forall (λ e, P e.1) m → Forall (λ e, P e.1) (bt_remove k m).
Proof.
  induction 1 as [|[k1 v1] m H1 Hm IH]; simpl; [constructor|].
  destruct (kcmp k k1); [done|by constructor..].
Qed.

Lemma bt_sorted_remove k m : bt_sorted m → bt_sorted (bt_remove k m).
Proof.
  induction m as [|[k1 v1] m IH]; simpl; [done|]. intros [Hall Hs].
  destruct (kcmp k k1) eqn:E; simpl; [done| |];
    (split; [by apply (bt_remove_keys k m (λ x, kcmp k1 x = Lt))|by apply IH]).
Qed.

(** In a sorted map a key occurs once. *)
Lemma bt_sorted_NoDup m : bt_sorted m → NoDup (bt_keys m).
Proof.
  rw /bt_keys. induction m as [|[k1 v1] m IH]; simpl; [constructor|]. intros [Hall Hs].
  constructor; [|by apply IH]. intros ([k2 v2] & E & Hin)%list_elem_of_fmap. simpl in E. subst k2.
  eapply Forall_forall in Hall; [|done]. simpl in Hall. by rw kcmp_refl in Hall.
Qed.
End laws.

(** ** Orders *)

#[export] Instance Z_compare : Compare Z := Z.compare.
#[export] Instance Z_total : TotalOrd Z.
Proof.
  split; rw /kcmp /Z_compare.
  - apply Z.compare_eq_iff.
  - intros a b. apply Z.compare_antisym.
  - intros a b c. rw !Z.compare_lt_iff. lia.
Qed.

#[export] Instance bool_compare : Compare bool := λ a b,
  match a, b with false, true => Lt | true, false => Gt | _, _ => Eq end.
#[export] Instance bool_total : TotalOrd bool.
Proof. split; [by intros [] []; split|by intros [] []|by intros [] [] []]. Qed.

(** Lexicographic order: [Ord] of strings, whose UTF-8 bytes compare as their
    characters do. *)
Fixpoint list_compare {A} `{!Compare A} (l1 l2 : list A) : comparison :=
  match l1, l2 with
  | [], [] => Eq
  | [], _ => Lt
  | _, [] => Gt
  | a :: l1, b :: l2 => match kcmp a b with Eq => list_compare l1 l2 | c => c end
  end.
#[export] Instance list_compare_inst {A} `{!Compare A} : Compare (list A) := list_compare.
#[export] Instance list_total {A} `{!Compare A, !TotalOrd A} : TotalOrd (list A).
Proof.
  split; rw /kcmp /list_compare_inst.
  - intros l1. induction l1 as [|a l1 IH]; intros [|b l2]; simpl; try done.
    destruct (kcmp a b) eqn:E.
    + apply kcmp_eq in E. subst. rw IH. naive_solver.
    + split; [done|]. intros [= <- _]. by rw kcmp_refl in E.
    + split; [done|]. intros [= <- _]. by rw kcmp_refl in E.
  - intros l1. induction l1 as [|a l1 IH]; intros [|b l2]; simpl; try done.
    rw (kcmp_flip a b). destruct (kcmp a b); simpl; [apply IH|done..].
  - intros l1. induction l1 as [|a l1 IH]; intros [|b l2] [|c l3]; simpl; try done.
    destruct (kcmp a b) eqn:E1; [|destruct (kcmp b c) eqn:E2|done]; try done.
    + apply kcmp_eq in E1. subst b. destruct (kcmp a c); [|done..]. apply IH.
    + apply kcmp_eq in E2. subst c. by rw E1.
    + intros _ _. by rw (kcmp_trans a b c).
Qed.
