(* ===== verification/HashMap.v ===== *)
(** * The hash map: src/src/hashmap.rs

    A table of 128 buckets.  [get] reduces the hash modulo the number of buckets,
    [put] and [remove] use it as it is. *)

From S2P Require Import Prelude.
#[local] Open Scope Z_scope.

Class Hashable (K : Type) := hash : K → Z.

Section hashmap.
Context {K V : Type} `{!EqDecision K, !Hashable K}.

Record Tuple := { key : K; value : V }.
Record HashMap := { buckets : list (list Tuple) }.

Definition matches (t : Tuple) (k : K) : bool := bool_decide (key t = k).

Definition to_v (t : Tuple) : V := value t.

(** Tuples are equal when their keys are. *)
Definition tuple_eq (t other : Tuple) : Prop := key t = key other.
#[local] Instance tuple_eq_dec t other : Decision (tuple_eq t other) := decide (key t = key other).

Definition HashMap_new : HashMap := {| buckets := replicate 128 [] |}.

(** The first element of a bucket with the key. *)
Fixpoint find_in (bucket : list Tuple) (k : K) : option V :=
  match bucket with
  | [] => None
  | element :: bucket => if matches element k then Some (to_v element) else find_in bucket k
  end.

Definition get (m : HashMap) (k : K) : outcome (option V) :=
  if zlen (buckets m) =? 0 then Panic PDivZero
  else
    let h := hash k mod zlen (buckets m) in
    bucket ← idx (buckets m) h;
    Done (find_in bucket k).

Definition put (m : HashMap) (k : K) (v : V) : outcome HashMap :=
  let h := hash k in
  bucket ← idx (buckets m) h;
  b ← set_idx (buckets m) h (bucket ++ [{| key := k; value := v |}]);
  Done {| buckets := b |}.

Definition remove (m : HashMap) (k : K) (v : V) : outcome HashMap :=
  let h := hash k in
  let r := {| key := k; value := v |} in
  bucket ← idx (buckets m) h;
  b ← set_idx (buckets m) h (filter (λ x, ¬ tuple_eq x r) bucket);
  Done {| buckets := b |}.

(** ** What the operations mean *)

(** The table as [new] makes it. *)
Definition wf_map (m : HashMap) : Prop := length (buckets m) = 128%nat.

(** The content: what [get] answers, when the hash is below 128. *)
Definition content (m : HashMap) (k : K) : option V := buckets m !! Z.to_nat (hash k) ≫= λ b, find_in b k.

Definition small (k : K) : Prop := 0 ≤ hash k < 128.

Lemma get_content m k : wf_map m → small k → get m k = Done (content m k).
Proof.
  intros Hm [Hk1 Hk2]. rw /wf_map in Hm. rw /get /content Hm. change (Z.of_nat 128 =? 0) with false. cbn [negb].
  rw Z.mod_small; [done|]. destruct (lookup_lt_is_Some_2 (buckets m) (Z.to_nat (hash k))) as [b Hb]; [lia|].
  obind; [by apply idx_Done|]. by rw Hb.
Qed.

Lemma find_in_app b1 b2 k :
  find_in (b1 ++ b2) k = match find_in b1 k with Some v => Some v | None => find_in b2 k end.
Proof. induction b1 as [|t b1 IH]; [done|]. simpl. by destruct (matches t k). Qed.

Lemma find_in_filter b k k' v :
  find_in (filter (λ x, ¬ tuple_eq x {| key := k; value := v |}) b) k' = if decide (k' = k) then None else find_in b k'.
Proof.
  induction b as [|t b IH]; [by case_decide|]. rw filter_cons.
  destruct (decide (¬ tuple_eq t {| key := k; value := v |})) as [Hne|He]; simpl; rw IH.
  - rw /tuple_eq /= in Hne. rw /matches. repeat case_decide; repeat case_bool_decide; congruence.
  - rw /matches. repeat case_decide; repeat case_bool_decide; try done. exfalso. apply He. intros Ht. rw /tuple_eq /= in Ht. congruence.
Qed.

Lemma hm_put_run m k v b :
  wf_map m → small k → buckets m !! Z.to_nat (hash k) = Some b →
  put m k v = Done {| buckets := <[Z.to_nat (hash k) := b ++ [{| key := k; value := v |}]]> (buckets m) |}.
Proof.
  intros Hm [Hk1 Hk2] Hb. rw /put. obind; [by apply idx_Done|]. obind; [apply set_idx_Done|done].
  apply lookup_lt_Some in Hb. lia.
Qed.

Lemma hm_remove_run m k v b :
  wf_map m → small k → buckets m !! Z.to_nat (hash k) = Some b →
  remove m k v = Done {| buckets := <[Z.to_nat (hash k) := filter (λ x, ¬ tuple_eq x {| key := k; value := v |}) b]> (buckets m) |}.
Proof.
  intros Hm [Hk1 Hk2] Hb. rw /remove. obind; [by apply idx_Done|]. obind; [apply set_idx_Done|done].
  apply lookup_lt_Some in Hb. lia.
Qed.

(** The content after one bucket changed. *)
Lemma content_insert m k k' b b' :
  wf_map m → small k → small k' → buckets m !! Z.to_nat (hash k) = Some b →
  content {| buckets := <[Z.to_nat (hash k) := b']> (buckets m) |} k' =
    if decide (hash k' = hash k) then find_in b' k' else content m k'.
Proof.
  intros Hm [? ?] [? ?] Hb. rw /content /=. case_decide as E.
  - rw E list_lookup_insert_eq //. by apply lookup_lt_Some in Hb.
  - rw list_lookup_insert_ne //. lia.
Qed.

(** The hash map, for keys whose hash is below 128: [put] and [remove] return a
    table of 128 buckets; after [put] a key that was absent is found with its
    value, a key that was there keeps the value it had, and other keys are
    untouched; after [remove] the key is absent and other keys are untouched. *)
Theorem hashmap_laws m k v k' :
  wf_map m → small k → small k' →
  (∃ m1, put m k v = Done m1 ∧ wf_map m1 ∧
     get m1 k' = Done (if decide (k' = k)
                       then Some (default v (content m k)) else content m k')) ∧
  (∃ m2, remove m k v = Done m2 ∧ wf_map m2 ∧
     get m2 k' = Done (if decide (k' = k) then None else content m k')).
Proof.
  intros Hm Hk Hk'. destruct (lookup_lt_is_Some_2 (buckets m) (Z.to_nat (hash k))) as [b Hb]; [rw Hm; destruct Hk; lia|].
  assert (content m k = find_in b k) as Hc by by rw /content Hb.
  assert (hash k' = hash k → content m k' = find_in b k') as Hc' by by (intros E; rw /content E Hb).
  split; eexists; (split; [by (apply hm_put_run || apply hm_remove_run)|]);
    (assert (∀ b', wf_map {| buckets := <[Z.to_nat (hash k) := b']> (buckets m) |}) as Hw
       by by (intros b'; rw /wf_map /= length_insert)); (split; [apply Hw|]);
    (rw get_content; [apply Hw|done|]); f_equal; rw (content_insert m k k' b) //.
  - rw find_in_app /= {1}/matches /=. destruct (decide (k' = k)) as [->|Hne].
    + rw decide_True // bool_decide_true //= Hc. by destruct (find_in b k).
    + rw bool_decide_false; [congruence|]. case_decide; [|done]. rw Hc' //. by destruct (find_in b k').
  - rw find_in_filter. repeat case_decide; subst; try congruence. by rw Hc'.
Qed.

(** A hash of 128 or more, which [get] takes, stops [put] and [remove]. *)
Theorem large_hash_panics m k v :
  wf_map m → 128 ≤ hash k → put m k v = Panic PIndex ∧ remove m k v = Panic PIndex.
Proof.
  intros Hm Hk. assert (buckets m !! Z.to_nat (hash k) = None) as Hn.
  { apply lookup_ge_None_2. rw Hm. lia. }
  by rw /put /remove /idx Hn.
Qed.
End hashmap.

(** ** Witnesses *)

#[local] Instance Z_hash : Hashable Z := λ z, z.

Lemma hashmap_laws_witness :
  (∃ m1, put HashMap_new 5 true = Done m1 ∧ wf_map m1 ∧ get m1 5 = Done (Some true)) ∧
  (∃ m2, remove HashMap_new 5 true = Done m2 ∧ wf_map m2 ∧ get m2 5 = Done None).
Proof. refine (hashmap_laws HashMap_new 5 true 5 _ _ _); done. Defined.

Lemma large_hash_panics_witness :
  put HashMap_new 200 true = Panic PIndex ∧ remove HashMap_new 200 true = Panic PIndex.
Proof. apply (large_hash_panics HashMap_new 200 true); done. Defined.
