(* ===== verification/Memory.v ===== *)
(** * Physical frames and the heap: src/src/memory.rs, src/src/allocator.rs

    The frame allocator walks the usable regions of the boot loader's memory map;
    [init_heap] maps the pages of the heap to the frames it hands out.  The page
    table (crate x86_64) is a parameter: mapping a page may itself take frames. *)

From S2P Require Import Prelude.
#[local] Open Scope Z_scope.

(** ** The frame allocator *)

Inductive MemoryRegionType := Usable | NotUsable.

(** A region of the memory map, from its start to its end address. *)
Record MemoryRegion := { start_addr : Z; end_addr : Z; region_type : MemoryRegionType }.

Definition is_usable (r : MemoryRegion) : bool := match region_type r with Usable => true | NotUsable => false end.

(** [(start..end).step_by(4096)] *)
Definition step_by_4096 (a b : Z) : list Z := (λ i, a + 4096 * i) <$> seqZ 0 ((b - a + 4095) / 4096).

(** [PhysFrame::containing_address], by the frame's start address. *)
Definition containing_address (addr : Z) : Z := addr - addr mod 4096.

Record BootInfoFrameAllocator := { memory_map : list MemoryRegion; next : Z }.

Definition frame_allocator_init (m : list MemoryRegion) : BootInfoFrameAllocator := {| memory_map := m; next := 0 |}.

Definition usable_frames (f : BootInfoFrameAllocator) : list Z :=
  containing_address <$> (filter is_usable (memory_map f) ≫= λ r, step_by_4096 (start_addr r) (end_addr r)).

(** The trait [FrameAllocator] of the crate x86_64. *)
Class FrameAllocator (F : Type) := allocate_frame : proc F (option Z).

#[export] Instance boot_info_allocate_frame : FrameAllocator BootInfoFrameAllocator := λ f,
  match chk 64 (next f + 1) with
  | Done n => Done (usable_frames f !! Z.to_nat (next f), {| memory_map := memory_map f; next := n |})
  | Panic p => Panic p
  | Hang => Hang
  end.

(** [EmptyFrameAllocator] has no frames to give. *)
Inductive EmptyFrameAllocator := TheEmptyFrameAllocator.

#[export] Instance empty_allocate_frame : FrameAllocator EmptyFrameAllocator := mret None.

(** ** The heap *)

Definition HEAP_START : Z := 0x444444440000.
Definition HEAP_SIZE : Z := 8 * 1024 * 1024.

(** [Page::range_inclusive], by the pages' start addresses. *)
Definition heap_pages : list Z :=
  let first := containing_address HEAP_START in
  let last := containing_address (HEAP_START + HEAP_SIZE - 1) in
  (λ i, first + 4096 * i) <$> seqZ 0 ((last - first) / 4096 + 1).

Section heap.
Context {M F : Type} `{!FrameAllocator F}.
Definition Mem : Type := M * F.

(** [mapper.map_to(page, frame, PRESENT | WRITABLE, frame_allocator)] and the
    [flush] of its result; the error is the crate's. *)
Context (map_to : Z → Z → proc Mem (result unit string)).

Definition on_frames {A} (p : proc F A) : proc Mem A := λ '(m, f),
  match p f with
  | Done (a, f) => Done (a, (m, f))
  | Panic e => Panic e
  | Hang => Hang
  end.

Fixpoint map_pages (pages : list Z) : proc Mem (result unit string) :=
  match pages with
  | [] => mret (Ok tt)
  | page :: pages =>
    frame ← on_frames allocate_frame;
    match frame with
    | None => mret (Err "FrameAllocationFailed"%string)
    | Some frame =>
      r ← map_to page frame;
      match r with
      | Err e => mret (Err e)
      | Ok _ => map_pages pages
      end
    end
  end.

(** [ALLOCATOR.lock().init], of the crate linked_list_allocator. *)
Context (allocator_init : Z → Z → proc Mem unit).

Definition init_heap : proc Mem (result unit string) :=
  r ← map_pages heap_pages;
  match r with
  | Err e => mret (Err e)
  | Ok _ => allocator_init HEAP_START HEAP_SIZE ;; mret (Ok tt)
  end.

(** Maps a page to the frame of the text screen. *)
Definition create_example_mapping (page : Z) : proc Mem unit :=
  r ← map_to page (containing_address 0xb8000);
  match r with
  | Ok _ => mret tt
  | Err _ => λ _, Panic (PExpect "map_to failed")
  end.
End heap.

(** ** Theorems *)

(** A region of physical memory that starts at a frame boundary. *)
Definition region_ok (r : MemoryRegion) : Prop :=
  start_addr r mod 4096 = 0 ∧ 0 ≤ start_addr r ∧ end_addr r ≤ 2 ^ 52.

(** Such regions, none of which overlap. *)
Fixpoint regions_ok (rs : list MemoryRegion) : Prop :=
  match rs with
  | [] => True
  | r :: rs => region_ok r ∧
      Forall (λ r', end_addr r ≤ start_addr r' ∨ end_addr r' ≤ start_addr r) rs ∧ regions_ok rs
  end.

Definition region_frames (r : MemoryRegion) : list Z :=
  containing_address <$> step_by_4096 (start_addr r) (end_addr r).

Lemma usable_frames_bind f :
  usable_frames f = filter is_usable (memory_map f) ≫= region_frames.
Proof.
  rw /usable_frames. induction (filter is_usable (memory_map f)) as [|r rs IH]; [done|].
  by rw !bind_cons fmap_app IH.
Qed.

Lemma elem_region_frames r x :
  start_addr r mod 4096 = 0 → x ∈ region_frames r ↔ ∃ i, 0 ≤ i ∧ x = start_addr r + 4096 * i ∧ x < end_addr r.
Proof.
  intros Ha. rw /region_frames /step_by_4096 -list_fmap_compose. rewrite list_elem_of_fmap. split.
  - intros (i & -> & Hi%elem_of_seqZ). exists i. rw /compose /containing_address. dlia.
  - intros (i & Hi & -> & Hx). exists i. split; [rw /compose /containing_address; dlia|].
    apply elem_of_seqZ. dlia.
Qed.

Lemma NoDup_region_frames r : start_addr r mod 4096 = 0 → NoDup (region_frames r).
Proof.
  intros Ha. rw /region_frames /step_by_4096 -list_fmap_compose. apply NoDup_fmap_2_strong; [|apply NoDup_seqZ].
  intros i j _ _. rw /compose /containing_address. dlia.
Qed.

Lemma regions_ok_filter rs : regions_ok rs → regions_ok (filter is_usable rs).
Proof.
  induction rs as [|r rs IH]; [done|]. intros (Ha & Hd & Hr). rw filter_cons. case_decide; [|by apply IH].
  split; [done|]. split; [|by apply IH]. apply Forall_forall. intros r' [_ Hr']%list_elem_of_filter.
  by eapply Forall_forall in Hd.
Qed.

Lemma regions_ok_elem rs r : regions_ok rs → r ∈ rs → region_ok r.
Proof.
  induction rs as [|r' rs IH]; [intros _ H; by apply not_elem_of_nil in H|].
  intros (Ha & _ & Hr) [->|?]%elem_of_cons; [done|by apply IH].
Qed.

(** Frames of regions that do not overlap are distinct. *)
Lemma NoDup_frames rs : regions_ok rs → NoDup (rs ≫= region_frames).
Proof.
  induction rs as [|r rs IH]; intros Hok; [constructor|]. pose proof Hok as (Ha & Hd & Hr). rw bind_cons.
  apply NoDup_app; split_and!; [by apply NoDup_region_frames, Ha| |by apply IH].
  intros x Hx (r' & Hx' & Hr')%list_elem_of_bind. eapply Forall_forall in Hd; [|done].
  apply (elem_region_frames r) in Hx as (i & ? & -> & ?); [|apply Ha].
  apply (elem_region_frames r') in Hx' as (j & ? & E & ?); [|by apply (regions_ok_elem rs)]. lia.
Qed.

Lemma usable_frames_ok f : regions_ok (memory_map f) → NoDup (usable_frames f).
Proof. intros Hok. rw usable_frames_bind. by apply NoDup_frames, regions_ok_filter. Qed.

(** Virtual addresses are canonical; a page's start address. *)
Definition canonical (a : Z) : Prop := 0 ≤ a < 2 ^ 47 ∨ 2 ^ 64 - 2 ^ 47 ≤ a < 2 ^ 64.
Definition is_page (p : Z) : Prop := canonical p ∧ p mod 4096 = 0.

(** A frame's start address. *)
Definition is_frame (x : Z) : Prop := 0 ≤ x < 2 ^ 52 ∧ x mod 4096 = 0.

(** Frames of usable regions. *)
Definition usable_frame (mm : list MemoryRegion) (x : Z) : Prop :=
  ∃ r i, r ∈ mm ∧ region_type r = Usable ∧ 0 ≤ i ∧ x = start_addr r + 4096 * i ∧ x < end_addr r.

Lemma usable_frames_usable f i x :
  regions_ok (memory_map f) → usable_frames f !! i = Some x → usable_frame (memory_map f) x.
Proof.
  intros Hok Hx%list_elem_of_lookup_2.
  rw usable_frames_bind in Hx. apply list_elem_of_bind in Hx as (r & Hx & [Hu Hr]%list_elem_of_filter).
  apply (elem_region_frames r) in Hx as (j & Hj & -> & He); [|by eapply (regions_ok_elem (memory_map f))].
  exists r, j. split_and!; try done. rw /is_usable in Hu. by destruct (region_type r).
Qed.

Lemma usable_frames_frame f i x : regions_ok (memory_map f) → usable_frames f !! i = Some x → is_frame x.
Proof.
  intros Hok (r & j & Hr & _ & Hj & -> & He)%usable_frames_usable; [|done].
  destruct (regions_ok_elem _ _ Hok Hr) as (? & ? & ?). rw /is_frame. dlia.
Qed.

(** An element of the heap's page range. *)
Lemma elem_heap_pages p : p ∈ heap_pages ↔ ∃ i, 0 ≤ i < 2048 ∧ p = HEAP_START + 4096 * i.
Proof.
  assert (heap_pages = (λ i, HEAP_START + 4096 * i) <$> seqZ 0 2048) as -> by reflexivity.
  rw list_elem_of_fmap. split.
  - intros (i & -> & Hi%elem_of_seqZ). by exists i.
  - intros (i & Hi & ->). exists i. split; [done|]. by apply elem_of_seqZ.
Qed.

Lemma NoDup_heap_pages : NoDup heap_pages.
Proof. apply NoDup_fmap_2; [|apply NoDup_seqZ]. intros i j. lia. Qed.

Lemma heap_page_is_page p : p ∈ heap_pages → is_page p.
Proof. intros (i & Hi & ->)%elem_heap_pages. rw /is_page /canonical /HEAP_START. dlia. Qed.

(** Frames an allocator has not handed out; frames handed out between two states. *)
Definition frames_left (f : BootInfoFrameAllocator) (x : Z) : Prop :=
  ∃ i, next f ≤ Z.of_nat i ∧ usable_frames f !! i = Some x.
Definition frames_taken (f f' : BootInfoFrameAllocator) (x : Z) : Prop :=
  ∃ i, next f ≤ Z.of_nat i < next f' ∧ usable_frames f !! i = Some x.

(** ** What is relied on of the crates *)

Section laws.
Context {M : Type}.
Notation State := (M * BootInfoFrameAllocator)%type.
(** [ready m f]: the page tables are sound, and the frames [f] has left are not
    among them; the frame a page is mapped to; a page for which no entry is in use;
    the frames of page tables; the range the heap allocator manages. *)
Context (ready : M → BootInfoFrameAllocator → Prop) (translates : M → Z → option Z) (unused : M → Z → Prop).
Context (is_table : M → Z → Prop) (heap_range : M → option (Z * Z)).

Record mapped_one (m : M) f (m' : M) f' (page frame : Z) : Prop := {
  mo_ready : ready m' f';
  mo_page : ∀ p, is_page p → translates m' p = if decide (p = page) then Some frame else translates m p;
  mo_unused : ∀ p, is_page p → p ≠ page → unused m p → unused m' p;
  mo_map : memory_map f' = memory_map f;
  mo_next : next f ≤ next f' ≤ next f + 3;
  mo_tables : ∀ x, is_table m' x → is_table m x ∨ frames_taken f f' x;
}.

(** [map_to] on a page for which no entry is in use, with three frames to spare for
    the tables it may have to make: it succeeds, maps the page, leaves all other
    pages alone, and the tables it makes are frames it took from the allocator.
    Nothing is said of the cases in which it fails: no frames left, a page that is
    mapped, a huge page on the way. *)
Definition map_to_spec (map_to : Z → Z → proc State (result unit string)) : Prop := ∀ page frame m f,
  ready m f → regions_ok (memory_map f) → is_page page → is_frame frame → unused m page →
  0 ≤ next f → next f + 3 ≤ zlen (usable_frames f) < 2 ^ 63 →
  runs (map_to page frame) (m, f) (λ r '(m', f'), r = Ok tt ∧ mapped_one m f m' f' page frame).

(** [Heap::init] on the heap's range, every page of which is mapped to a frame that
    is not a page table: it writes to that range only. *)
Definition allocator_init_spec (allocator_init : Z → Z → proc State unit) : Prop := ∀ m f,
  ready m f → (∀ page, page ∈ heap_pages → ∃ x, translates m page = Some x ∧ ¬ is_table m x) →
  runs (allocator_init HEAP_START HEAP_SIZE) (m, f) (λ _ '(m', f'), ready m' f' ∧
    (∀ p, is_page p → translates m' p = translates m p) ∧ heap_range m' = Some (HEAP_START, HEAP_SIZE) ∧ f' = f).
End laws.

Section init_heap.
Context {M : Type}.
Notation State := (M * BootInfoFrameAllocator)%type.
Context (map_to : Z → Z → proc State (result unit string)) (allocator_init : Z → Z → proc State unit).
Context (ready : M → BootInfoFrameAllocator → Prop) (translates : M → Z → option Z) (unused : M → Z → Prop).
Context (is_table : M → Z → Prop) (heap_range : M → option (Z * Z)).
Hypothesis map_to_ok : map_to_spec ready translates unused is_table map_to.
Hypothesis allocator_init_ok : allocator_init_spec ready translates is_table heap_range allocator_init.
(** What [ready] says of the allocator. *)
Hypothesis ready_left : ∀ m f x, ready m f → frames_left f x → ¬ is_table m x.
Hypothesis ready_next : ∀ m f, ready m f → ready m {| memory_map := memory_map f; next := next f + 1 |}.

(** What the loop does: the pages are mapped, in order, to frames that [f] had not
    handed out. *)
Definition maps_to (m m' : M) (pages frames : list Z) : Prop :=
  (∀ i page, pages !! i = Some page → translates m' page = frames !! i) ∧
  ∀ p, is_page p → p ∉ pages → translates m' p = translates m p.

Lemma maps_to_cons m m1 m2 page pages frame frames :
  is_page page → page ∉ pages → (∀ p, is_page p → translates m1 p = if decide (p = page) then Some frame else translates m p) →
  maps_to m1 m2 pages frames → maps_to m m2 (page :: pages) (frame :: frames).
Proof.
  intros Hpg Hnin Hm1 [Hp Ho]. split.
  - intros [|i] q; simpl; [intros [= <-]; by rw Ho // Hm1 // decide_True|apply Hp].
  - intros p Hpp [Hne Hp']%not_elem_of_cons. by rw Ho // Hm1 // decide_False.
Qed.

Record mapped_all (m : M) f (m' : M) f' (pages frames : list Z) : Prop := {
  ma_ready : ready m' f';
  ma_maps : maps_to m m' pages frames;
  ma_length : length frames = length pages;
  ma_distinct : NoDup frames;
  ma_left : ∀ x, x ∈ frames → frames_left f x;
  ma_next : next f ≤ next f';
  ma_tables : ∀ x, is_table m' x → is_table m x ∨ frames_left f x ∧ x ∉ frames;
}.

Lemma mapped_all_cons m f m1 f1 m2 f2 page fr pages frames :
  regions_ok (memory_map f) → 0 ≤ next f → is_page page → page ∉ pages → usable_frames f !! Z.to_nat (next f) = Some fr →
  ¬ is_table m fr → mapped_one ready translates unused is_table m {| memory_map := memory_map f; next := next f + 1 |} m1 f1 page fr →
  mapped_all m1 f1 m2 f2 pages frames → mapped_all m f m2 f2 (page :: pages) (fr :: frames).
Proof.
  intros Hok H0 Hpg Hnin Hfr Hnt [_ Htr _ Hmm Hn Ht] [Hr2 Hmaps Hlen Hnd Hleft Hn2 Ht2]. simpl in Hmm, Hn, Ht.
  assert (NoDup (usable_frames f)) as Hndf by by apply usable_frames_ok.
  assert (usable_frames f1 = usable_frames f) as Hu by by rw /usable_frames Hmm.
  assert (∀ x, frames_left f1 x → frames_left f x ∧ x ≠ fr) as Hl1.
  { intros x (i & Hi & Hx). rw Hu in Hx. split; [exists i; split; [lia|done]|].
    intros ->. pose proof (NoDup_lookup _ _ _ _ Hndf Hfr Hx). lia. }
  split; [done|by eapply maps_to_cons|simpl; lia| | |lia|].
  - constructor; [|done]. by intros [_ ?]%Hleft%Hl1.
  - intros x [->|[? _]%Hleft%Hl1]%elem_of_cons; [exists (Z.to_nat (next f)); split; [lia|done]|done].
  - intros x [[Hx|(i & Hi & Hx)]%Ht|[[Hl Hne]%Hl1 Hx]]%Ht2; [by left|right|right].
    + simpl in Hi. split; [exists i; split; [lia|done]|].
      intros [->|(j & Hj & Hx')%Hleft]%elem_of_cons; [pose proof (NoDup_lookup _ _ _ _ Hndf Hfr Hx); lia|].
      rw Hu in Hx'. pose proof (NoDup_lookup _ _ _ _ Hndf Hx Hx'). lia.
    + split; [done|]. by apply not_elem_of_cons.
Qed.

Lemma map_pages_run pages m f :
  ready m f → NoDup pages → (∀ p, p ∈ pages → is_page p ∧ unused m p) →
  regions_ok (memory_map f) → 0 ≤ next f →
  next f + 4 * zlen pages ≤ zlen (usable_frames f) < 2 ^ 63 →
  runs (map_pages map_to pages) (m, f) (λ r '(m', f'), r = Ok tt ∧ ∃ frames, mapped_all m f m' f' pages frames).
Proof.
  revert m f. induction pages as [|page pages IH]; intros m f Hv Hndp Hun Hok H0 Hlen.
  { apply runs_ret. split; [done|]. exists []. split; [done|by split|done|constructor| |lia|by left].
    intros x Hx. by apply not_elem_of_nil in Hx. }
  apply NoDup_cons in Hndp as [Hnin Hndp].
  rw [length (_ :: _)]/= in Hlen. cbn [map_pages]. rbind. rw {1}/runs /on_frames /allocate_frame /boot_info_allocate_frame.
  rw chk_Done; [lia|]. destruct (lookup_lt_is_Some_2 (usable_frames f) (Z.to_nat (next f))) as [fr Hfr]; [lia|].
  rw Hfr. rbind. destruct (Hun page) as [Hpg Hpu]; [set_solver|].
  set (f0 := {| memory_map := memory_map f; next := next f + 1 |}).
  assert (¬ is_table m fr) as Hnt by (eapply ready_left; [done|]; exists (Z.to_nat (next f)); split; [lia|done]).
  eapply runs_mono; [apply (map_to_ok page fr m f0); [by apply ready_next|done..| |done|simpl; lia|]|].
  { by apply (usable_frames_frame f _ _ Hok Hfr). }
  { change (usable_frames f0) with (usable_frames f). simpl. lia. }
  intros r [m1 f1] [-> H1]. pose proof H1 as [Hv1 _ Hun1 Hmm [Hn1 Hn2] _]. simpl in Hmm, Hn1, Hn2.
  assert (usable_frames f1 = usable_frames f) as Hu by by rw /usable_frames Hmm.
  eapply runs_mono; [apply (IH m1 f1); rw ?Hu; [done|done| |by rw Hmm|lia|lia]|].
  { intros p Hp. destruct (Hun p) as [? ?]; [set_solver|]. split; [done|]. apply Hun1; [done|congruence|done]. }
  intros r [m2 f2] (-> & frames & H2). split; [done|]. exists (fr :: frames). by eapply mapped_all_cons.
Qed.

Lemma init_heap_run m mm :
  ready m (frame_allocator_init mm) → (∀ p, p ∈ heap_pages → unused m p) →
  regions_ok mm → 4 * 2048 ≤ zlen (usable_frames (frame_allocator_init mm)) < 2 ^ 63 →
  runs (init_heap map_to allocator_init) (m, frame_allocator_init mm) (λ r '(m', f'), r = Ok tt ∧ ready m' f' ∧
    heap_range m' = Some (HEAP_START, HEAP_SIZE) ∧ ∃ frames,
    maps_to m m' heap_pages frames ∧ length frames = 2048%nat ∧ NoDup frames ∧
    ∀ x, x ∈ frames → usable_frame mm x).
Proof.
  intros Hv Hun Hok Hn. assert (length heap_pages = 2048%nat) as Hp by done. rbind.
  eapply runs_mono; [apply (map_pages_run heap_pages m (frame_allocator_init mm)); try done|].
  - apply NoDup_heap_pages.
  - intros p Hp'. split; [by apply heap_page_is_page|by apply Hun].
  - intros r [m1 f1] (-> & frames & [Hv1 Hmaps Hl Hnd Hleft _ Htab]). rbind.
    eapply runs_mono; [apply allocator_init_ok; [done|]|].
    { intros page (i & Hi)%list_elem_of_lookup. rw (proj1 Hmaps _ _ Hi).
      destruct (lookup_lt_is_Some_2 frames i) as [x Hx]; [apply lookup_lt_Some in Hi; lia|].
      exists x. split; [done|]. apply list_elem_of_lookup_2 in Hx.
      intros [Ht|[_ ?]]%Htab; [by apply (ready_left m (frame_allocator_init mm) x); [|apply Hleft|]|done]. }
    intros [] [m2 f2] (Hv2 & Htr & Hr & ->). apply runs_ret. split_and!; [done|done|done|]. exists frames.
    split_and!; [|by rw Hl|done|].
    + destruct Hmaps as [H1 H2]. split; intros; rw Htr //; [by eapply heap_page_is_page, list_elem_of_lookup_2|by apply H1|by apply H2].
    + intros x (i & _ & Hx)%Hleft. by apply (usable_frames_usable (frame_allocator_init mm) _ _ Hok Hx).
Qed.

(** Without frames nothing is mapped: the error goes back to the caller. *)
Lemma init_heap_no_frames m (map_to' : Z → Z → proc (M * EmptyFrameAllocator) (result unit string)) ai :
  init_heap map_to' ai (m, TheEmptyFrameAllocator) =
    Done (Err "FrameAllocationFailed"%string, (m, TheEmptyFrameAllocator)).
Proof. done. Qed.
End init_heap.
