(* ===== verification/Paging.v ===== *)
(** * Address translation: src/src/memory.rs

    [translate_addr] walks the four levels of page tables through the mapping of
    physical memory that the boot loader leaves at an offset.  The address
    arithmetic and the decoding of entries belong to the crate x86_64: they are an
    interface with its laws.  The reference is the processor's own translation,
    which knows large pages. *)

From S2P Require Import Prelude Memory.
#[local] Open Scope Z_scope.

Inductive FrameError := FrameNotPresent | HugeFrame.

(** ** The crate x86_64 *)

Class PagingOps := {
  p4_index : Z → Z;
  p3_index : Z → Z;
  p2_index : Z → Z;
  p1_index : Z → Z;
  page_offset : Z → Z;
  virt_add : Z → Z → outcome Z;             (** [VirtAddr + u64] *)
  phys_add : Z → Z → outcome Z;             (** [PhysAddr + u64] *)
  entry_frame : Z → result Z FrameError;    (** [PageTableEntry::frame] *)
}.

(** Entries: the PRESENT and HUGE_PAGE bits and the address field. *)
Definition present (e : Z) : bool := Z.testbit e 0.
Definition huge (e : Z) : bool := Z.testbit e 7.
Definition entry_addr (e : Z) : Z := Z.land e 0xffffffffff000.

Class PagingOk `{!PagingOps} : Prop := {
  p4_index_bits a : p4_index a = (a / 2 ^ 39) mod 512;
  p3_index_bits a : p3_index a = (a / 2 ^ 30) mod 512;
  p2_index_bits a : p2_index a = (a / 2 ^ 21) mod 512;
  p1_index_bits a : p1_index a = (a / 2 ^ 12) mod 512;
  page_offset_bits a : page_offset a = a mod 4096;
  (** canonical addresses of the lower half *)
  virt_add_ok a b : 0 ≤ a → 0 ≤ b → a + b < 2 ^ 47 → virt_add a b = Done (a + b);
  phys_add_ok a b : 0 ≤ a → 0 ≤ b → a + b < 2 ^ 52 → phys_add a b = Done (a + b);
  entry_frame_ok e :
    entry_frame e = if negb (present e) then Err FrameNotPresent
                    else if huge e then Err HugeFrame else Ok (entry_addr e);
}.

(** ** The code *)

Section translate.
Context `{!PagingOps}.
(** The processor: the frame in CR3, and eight bytes at a virtual address. *)
Context {M : Type} (cr3 : M → Z) (load : M → Z → Z).

(** The virtual address of the level 4 table. *)
Definition active_level_4_table (physical_memory_offset : Z) (m : M) : outcome Z :=
  virt_add physical_memory_offset (cr3 m).

Record OffsetPageTable := { level_4_table : Z; phys_offset : Z }.

(** [memory::init] *)
Definition memory_init (physical_memory_offset : Z) (m : M) : outcome OffsetPageTable :=
  table ← active_level_4_table physical_memory_offset m;
  mret {| level_4_table := table; phys_offset := physical_memory_offset |}.

(** [for &index in &table_indexes]: [None] is the early return. *)
Fixpoint walk_tables (physical_memory_offset : Z) (m : M) (frame : Z) (table_indexes : list Z)
    : outcome (option Z) :=
  match table_indexes with
  | [] => mret (Some frame)
  | index :: table_indexes =>
    virt ← virt_add physical_memory_offset frame;
    match entry_frame (load m (virt + 8 * index)) with
    | Ok frame => walk_tables physical_memory_offset m frame table_indexes
    | Err FrameNotPresent => mret None
    | Err HugeFrame => Panic (PExpect "huge pages not supported")
    end
  end.

Definition translate_addr_inner (addr physical_memory_offset : Z) (m : M) : outcome (option Z) :=
  let table_indexes := [p4_index addr; p3_index addr; p2_index addr; p1_index addr] in
  walked ← walk_tables physical_memory_offset m (cr3 m) table_indexes;
  match walked with
  | None => mret None
  | Some frame => p ← phys_add frame (page_offset addr); mret (Some p)
  end.

Definition translate_addr (addr physical_memory_offset : Z) (m : M) : outcome (option Z) :=
  translate_addr_inner addr physical_memory_offset m.
End translate.

(** ** The processor's translation *)

Section hardware.
(** Eight bytes at a physical address. *)
Context (phys : Z → Z).

Definition entry_of (table va level_shift : Z) : Z := phys (table + 8 * ((va / 2 ^ level_shift) mod 512)).

(** A large page of [2 ^ n] bytes. *)
Definition large_page (n e va : Z) : Z := entry_addr e - entry_addr e mod 2 ^ n + va mod 2 ^ n.

(** [None] is a page fault.  The huge bit is reserved at level 4 and selects the
    memory type at level 1. *)
Definition hw_translate (root va : Z) : option Z :=
  let e4 := entry_of root va 39 in
  if negb (present e4) || huge e4 then None else
  let e3 := entry_of (entry_addr e4) va 30 in
  if negb (present e3) then None else
  if huge e3 then Some (large_page 30 e3 va) else
  let e2 := entry_of (entry_addr e3) va 21 in
  if negb (present e2) then None else
  if huge e2 then Some (large_page 21 e2 va) else
  let e1 := entry_of (entry_addr e2) va 12 in
  if negb (present e1) then None else Some (entry_addr e1 + va mod 4096).

(** The walk through small pages only: the frame, when no entry on the way is
    absent or has the huge bit. *)
Fixpoint small_walk (table va : Z) (shifts : list Z) : option Z :=
  match shifts with
  | [] => Some table
  | s :: shifts =>
    let e := entry_of table va s in
    if present e && negb (huge e) then small_walk (entry_addr e) va shifts else None
  end.

Definition LEVELS : list Z := [39; 30; 21; 12].

(** Some entry on the way is present with the huge bit set. *)
Fixpoint meets_huge (table va : Z) (shifts : list Z) : bool :=
  match shifts with
  | [] => false
  | s :: shifts =>
    let e := entry_of table va s in
    present e && (huge e || meets_huge (entry_addr e) va shifts)
  end.

(** [n] levels of tables that lie below [limit]. *)
Fixpoint tables_ok (limit : Z) (n : nat) (table : Z) : Prop :=
  match n with
  | O => True
  | S n => 0 ≤ table ∧ table + 4096 ≤ limit ∧ ∀ i, 0 ≤ i < 512 →
      let e := phys (table + 8 * i) in
      present e → huge e = false → tables_ok limit n (entry_addr e)
  end.

(** The table an entry leads to, and the one at the end of a path of indexes. *)
Definition child (table i : Z) : option Z :=
  let e := phys (table + 8 * i) in if present e && negb (huge e) then Some (entry_addr e) else None.

Fixpoint table_at (table : Z) (path : list Z) : option Z :=
  match path with
  | [] => Some table
  | i :: path => child table i ≫= λ t, table_at t path
  end.

(** Somewhere on the path, after tables that are there, the entry is zero. *)
Definition unused_path (root : Z) (path : list Z) : Prop :=
  ∃ before i after t, path = before ++ i :: after ∧ table_at root before = Some t ∧ phys (t + 8 * i) = 0.
End hardware.

Definition index (i : Z) : Prop := 0 ≤ i < 512.
Definition indexes (va : Z) : list Z := (λ s, (va / 2 ^ s) mod 512) <$> LEVELS.

Lemma small_walk_table_at phys table va shifts :
  small_walk phys table va shifts = table_at phys table ((λ s, (va / 2 ^ s) mod 512) <$> shifts).
Proof.
  revert table. induction shifts as [|s shifts IH]; intros table; [done|]. cbn [small_walk fmap list_fmap table_at].
  rw /child -/(entry_of phys table va s). destruct (present _ && _); [|done]. simpl. apply IH.
Qed.

Lemma table_at_snoc phys table path i :
  table_at phys table (path ++ [i]) = table_at phys table path ≫= λ t, child phys t i.
Proof.
  revert table. induction path as [|j path IH]; intros table; simpl; [by destruct (child phys table i)|].
  destruct (child phys table j); [|done]. apply IH.
Qed.

Lemma table_at_app phys table p1 p2 :
  table_at phys table (p1 ++ p2) = table_at phys table p1 ≫= λ t, table_at phys t p2.
Proof.
  revert table. induction p1 as [|j p1 IH]; intros table; simpl; [done|].
  destruct (child phys table j); [|done]. apply IH.
Qed.

Lemma indexes_index va : Forall index (indexes va).
Proof. repeat constructor; apply Z.mod_pos_bound; lia. Qed.

(** A page is known by its indexes. *)
Lemma indexes_inj p q : is_page p → is_page q → indexes p = indexes q → p = q.
Proof.
  intros [Hp Hpa] [Hq Hqa]. rw /indexes /LEVELS /canonical in Hp, Hq |- *. cbn [fmap list_fmap].
  intros [= H1 H2 H3 H4].
  change (2 ^ 39) with 549755813888 in H1. change (2 ^ 30) with 1073741824 in H2.
  change (2 ^ 21) with 2097152 in H3. change (2 ^ 12) with 4096 in H4.
  change (2 ^ 47) with 140737488355328 in Hp, Hq. change (2 ^ 64) with 18446744073709551616 in Hp, Hq. dlia.
Qed.

Lemma entry_addr_frame e : is_frame (entry_addr e).
Proof.
  rw /entry_addr. assert (0 ≤ Z.land e 0xffffffffff000) by (apply Z.land_nonneg; lia).
  split.
  - split; [done|]. assert (Z.land e 0xffffffffff000 = Z.land (Z.land e 0xffffffffff000) (Z.ones 52)) as ->
      by by rw -Z.land_assoc.
    rw Z.land_ones; [lia|]. by apply Z.mod_pos_bound.
  - change 4096 with (2 ^ 12). rw -Z.land_ones; [lia|]. rw -Z.land_assoc. by rw Z.land_0_r.
Qed.

(** ** Theorems *)

Lemma small_walk_hw phys root va :
  meets_huge phys root va LEVELS = false →
  hw_translate phys root va = (λ f, f + va mod 4096) <$> small_walk phys root va LEVELS.
Proof.
  rw /hw_translate /LEVELS /=. repeat (case: (present _) => //=; case: (huge _) => //=).
Qed.

Lemma small_walk_frame phys root va f : small_walk phys root va LEVELS = Some f → is_frame f.
Proof.
  rw /LEVELS /=. do 4 (destruct (present _ && _); [|done]). intros [= <-]. apply entry_addr_frame.
Qed.

Section theorems.
Context `{!PagingOps, !PagingOk}.
Context {M : Type} (cr3 : M → Z) (load phys : M → Z → Z) (off limit : Z).
(** The boot loader maps physical memory, up to [limit], at the offset. *)
Hypothesis Hoff : 0 ≤ off ∧ off + limit ≤ 2 ^ 47.
Hypothesis offset_mapping : ∀ m a, 0 ≤ a → a + 8 ≤ limit → load m (off + a) = phys m a.

Definition paging_valid (m : M) : Prop := tables_ok (phys m) limit 4 (cr3 m).
Definition page_frame (m : M) (page : Z) : option Z := small_walk (phys m) (cr3 m) page LEVELS.

(** The frames of the page tables: those at the end of paths of up to three
    indexes. *)
Definition at_path (m : M) (path : list Z) : option Z := table_at (phys m) (cr3 m) path.
Definition is_table (m : M) (x : Z) : Prop :=
  ∃ path, (length path ≤ 3)%nat ∧ Forall index path ∧ at_path m path = Some x.
Definition unused (m : M) (page : Z) : Prop := unused_path (phys m) (cr3 m) (indexes page).

(** Page tables in order, with the frame allocator: they lie in the mapped memory,
    no table is used twice, and the frames the allocator has left are memory that
    is not used for tables. *)
Record paging_ready (m : M) (f : BootInfoFrameAllocator) : Prop := {
  pr_tables : ∀ x, is_table m x → is_frame x ∧ x + 4096 ≤ limit;
  pr_tree : ∀ p q x, (length p ≤ 3)%nat → (length q ≤ 3)%nat → Forall index p → Forall index q →
    at_path m p = Some x → at_path m q = Some x → p = q;
  pr_left : ∀ x, frames_left f x → x + 4096 ≤ limit ∧ ¬ is_table m x;
}.

Lemma tables_ok_path m n path t :
  (∀ x, is_table m x → is_frame x ∧ x + 4096 ≤ limit) → (length path + n ≤ 4)%nat → Forall index path →
  at_path m path = Some t → tables_ok (phys m) limit n t.
Proof.
  intros Hall. revert path t. induction n as [|n IH]; intros path t Hn Hp Ht; [done|].
  destruct (Hall t) as [[Hf _] Hl]; [exists path; split_and!; [lia|done|done]|].
  split_and!; [lia|done|]. intros i Hi e Hpr Hh. apply (IH (path ++ [i])).
  - rw length_app /=. lia.
  - apply Forall_app. split; [done|]. by constructor.
  - rw /at_path table_at_snoc -/(at_path m path) Ht /= /child -/e. apply Is_true_true in Hpr. by rw Hpr Hh.
Qed.

Lemma paging_ready_valid m f : paging_ready m f → paging_valid m.
Proof. intros [Ht _ _]. apply (tables_ok_path m 4 [] (cr3 m)); [done|simpl; lia|constructor|done]. Qed.

Lemma paging_ready_next m f :
  paging_ready m f → paging_ready m {| memory_map := memory_map f; next := next f + 1 |}.
Proof.
  intros [Ht Hu Hl]. split; [done|done|]. intros x (i & Hi & Hx). apply Hl. exists i. simpl in Hi. split; [lia|done].
Qed.

Lemma walk_tables_spec m va shifts table :
  tables_ok (phys m) limit (length shifts) table →
  walk_tables load off m table ((λ s, (va / 2 ^ s) mod 512) <$> shifts) =
    if meets_huge (phys m) table va shifts then Panic (PExpect "huge pages not supported")
    else Done (small_walk (phys m) table va shifts).
Proof.
  revert table. induction shifts as [|s shifts IH]; intros table Hok; [done|].
  destruct Hok as (Ht & Hl & Hn). cbn [fmap list_fmap walk_tables].
  assert (0 ≤ (va / 2 ^ s) mod 512 < 512) as Hi by by apply Z.mod_pos_bound.
  obind; [apply virt_add_ok; lia|].
  rw -Z.add_assoc offset_mapping; [lia|lia|]. specialize (Hn _ Hi). rw entry_frame_ok.
  cbn [meets_huge small_walk]. rw /entry_of. simpl in Hn. destruct (present _); [|done]. simpl.
  destruct (huge _); [done|]. simpl. apply IH. by apply Hn.
Qed.

Lemma translate_addr_spec m va :
  paging_valid m →
  translate_addr cr3 load va off m =
    if meets_huge (phys m) (cr3 m) va LEVELS then Panic (PExpect "huge pages not supported")
    else Done ((λ f, f + va mod 4096) <$> page_frame m va).
Proof.
  intros Hv. rw /translate_addr /translate_addr_inner p4_index_bits p3_index_bits p2_index_bits p1_index_bits.
  pose proof (walk_tables_spec m va LEVELS (cr3 m) Hv) as Hw. cbn [fmap list_fmap LEVELS] in Hw.
  rw {}Hw. destruct (meets_huge _ _ _ _); [done|]. rw /page_frame.
  destruct (small_walk _ _ _ _) as [f|] eqn:Hf; [|done]. obind; [done|].
  apply small_walk_frame in Hf as [Hf1 Hf2].
  rw page_offset_bits. obind; [|done]. apply phys_add_ok; dlia.
Qed.

(** C10. Address translation agrees with the processor: on tables that lie in the
    mapped physical memory, [translate_addr] gives for every address what the
    processor's own walk gives, unless the walk meets an entry with the huge bit,
    where it panics; it always comes back. *)
Theorem translate_addr_is_hardware m va :
  paging_valid m →
  translate_addr cr3 load va off m =
    if meets_huge (phys m) (cr3 m) va LEVELS then Panic (PExpect "huge pages not supported")
    else Done (hw_translate (phys m) (cr3 m) va).
Proof.
  intros Hv. rw translate_addr_spec //. destruct (meets_huge _ _ _ _) eqn:Hh; [done|]. by rw small_walk_hw.
Qed.

(** A page's walk does not depend on the offset in it. *)
Lemma page_frame_page m va : page_frame m (va - va mod 4096) = page_frame m va.
Proof.
  rw /page_frame. generalize (cr3 m).
  assert (Forall (λ s, (va - va mod 4096) / 2 ^ s = va / 2 ^ s) LEVELS) as Hs.
  { repeat constructor; simpl; dlia. }
  induction Hs as [|s shifts Hs _ IH]; intros root; [done|]. cbn [small_walk]. rw /entry_of Hs.
  by destruct (present _ && _).
Qed.

(** A frame found by small pages only is what the code answers. *)
Lemma page_frame_translate m va f :
  paging_valid m → page_frame m va = Some f → translate_addr cr3 load va off m = Done (Some (f + va mod 4096)).
Proof.
  intros Hv Hf. rw translate_addr_spec //. rw Hf.
  assert (meets_huge (phys m) (cr3 m) va LEVELS = false) as ->; [|done].
  rw /page_frame in Hf. generalize dependent (cr3 m). clear Hv.
  induction LEVELS as [|s shifts IH]; intros table; [done|]. simpl.
  destruct (present _); [|done]. destruct (huge _); [done|]. simpl. apply IH.
Qed.

Lemma translate_page_frame m va p :
  paging_valid m → translate_addr cr3 load va off m = Done (Some p) → ∃ f, page_frame m va = Some f ∧ p = f + va mod 4096 ∧ is_frame f.
Proof.
  intros Hv. rw translate_addr_spec //. destruct (meets_huge _ _ _ _); [done|].
  destruct (page_frame m va) as [f|] eqn:Hf; [|done]. intros [= <-]. exists f.
  split_and!; [done|done|]. by eapply small_walk_frame.
Qed.

Definition in_heap (a : Z) : Prop := HEAP_START ≤ a < HEAP_START + HEAP_SIZE.

Lemma heap_page a : in_heap a → a - a mod 4096 ∈ heap_pages.
Proof.
  rw /in_heap. intros Ha. apply elem_heap_pages. exists ((a - HEAP_START) / 4096). rw /HEAP_START /HEAP_SIZE in Ha |- *. dlia.
Qed.

Lemma other_page a : canonical a → ¬ in_heap a → is_page (a - a mod 4096) ∧ a - a mod 4096 ∉ heap_pages.
Proof.
  rw /in_heap. intros Ha Hn. split; [rw /is_page /canonical in Ha |- *; dlia|].
  intros (i & Hi & E)%elem_heap_pages. apply Hn. rw /HEAP_START /HEAP_SIZE in E |- *. dlia.
Qed.

Context (map_to : Z → Z → proc (M * BootInfoFrameAllocator) (result unit string)).
Context (allocator_init : Z → Z → proc (M * BootInfoFrameAllocator) unit) (heap_range : M → option (Z * Z)).

Hypothesis map_to_ok : map_to_spec paging_ready page_frame unused is_table map_to.
Hypothesis allocator_init_ok : allocator_init_spec paging_ready page_frame is_table heap_range allocator_init.

(** What the heap's set-up means for addresses. *)
Lemma maps_to_translate m m' mm frames :
  paging_valid m → paging_valid m' → maps_to page_frame m m' heap_pages frames →
  length frames = 2048%nat → NoDup frames → (∀ x, x ∈ frames → usable_frame mm x) →
  (∀ a, in_heap a → ∃ x, usable_frame mm x ∧ translate_addr cr3 load a off m' = Done (Some (x + a mod 4096))) ∧
  (∀ a b p, in_heap a → in_heap b → translate_addr cr3 load a off m' = Done (Some p) →
     translate_addr cr3 load b off m' = Done (Some p) → a = b) ∧
  (∀ a p, canonical a → ¬ in_heap a → translate_addr cr3 load a off m = Done (Some p) →
     translate_addr cr3 load a off m' = Done (Some p)).
Proof.
  intros Hv Hv' [Hmap Hother] Hlen Hnd Hus. split_and!.
  - intros a Ha. destruct (proj1 (list_elem_of_lookup _ _) (heap_page a Ha)) as [i Hi].
    assert (i < length frames)%nat as [x Hx]%lookup_lt_is_Some by (apply lookup_lt_Some in Hi; by rw Hlen).
    exists x. split; [by eapply Hus, list_elem_of_lookup_2|]. apply page_frame_translate; [done|].
    by rw -page_frame_page (Hmap _ _ Hi).
  - intros a b p Ha Hb Ea Eb.
    destruct (proj1 (list_elem_of_lookup _ _) (heap_page a Ha)) as [i Hi].
    destruct (proj1 (list_elem_of_lookup _ _) (heap_page b Hb)) as [j Hj].
    apply translate_page_frame in Ea as (f & Hf & -> & Hff), Eb as (g & Hg & E & Hgf); [|done..].
    rw -page_frame_page (Hmap _ _ Hi) in Hf. rw -page_frame_page (Hmap _ _ Hj) in Hg.
    assert (f = g) as <- by (rw /is_frame in Hff, Hgf; dlia).
    pose proof (NoDup_lookup _ _ _ _ Hnd Hf Hg) as ->. assert (a - a mod 4096 = b - b mod 4096) by congruence. lia.
  - intros a p Hc Hn (f & Hf & -> & _)%translate_page_frame; [|done]. apply page_frame_translate; [done|].
    destruct (other_page a Hc Hn). by rw -page_frame_page Hother // page_frame_page.
Qed.

Lemma heap_run m mm :
  paging_ready m (frame_allocator_init mm) → (∀ p, p ∈ heap_pages → unused m p) →
  regions_ok mm → 4 * 2048 ≤ zlen (usable_frames (frame_allocator_init mm)) < 2 ^ 63 →
  runs (init_heap map_to allocator_init) (m, frame_allocator_init mm) (λ r '(m', f'), r = Ok tt ∧ paging_ready m' f' ∧
    heap_range m' = Some (HEAP_START, HEAP_SIZE) ∧ ∃ frames,
    maps_to page_frame m m' heap_pages frames ∧ length frames = 2048%nat ∧ NoDup frames ∧
    ∀ x, x ∈ frames → usable_frame mm x).
Proof.
  apply (init_heap_run map_to allocator_init paging_ready page_frame unused is_table heap_range map_to_ok allocator_init_ok).
  - intros m0 f x Hr Hx. by apply Hr.
  - apply paging_ready_next.
Qed.

(** C11. The heap is memory of its own: from page tables in order, with at least
    four usable frames per page of the heap and no entry in use for its pages,
    [init_heap] succeeds, and afterwards [translate_addr] sends every address of
    the heap to a frame of a usable region, no two of them to the same physical
    address, and every other address it could translate to where it went before. *)
Theorem heap_translates m mm :
  paging_ready m (frame_allocator_init mm) → (∀ p, p ∈ heap_pages → unused m p) →
  regions_ok mm → 4 * 2048 ≤ zlen (usable_frames (frame_allocator_init mm)) < 2 ^ 63 →
  runs (init_heap map_to allocator_init) (m, frame_allocator_init mm) (λ r '(m', _), r = Ok tt ∧
    (∀ a, in_heap a → ∃ x, usable_frame mm x ∧ translate_addr cr3 load a off m' = Done (Some (x + a mod 4096))) ∧
    (∀ a b p, in_heap a → in_heap b → translate_addr cr3 load a off m' = Done (Some p) →
       translate_addr cr3 load b off m' = Done (Some p) → a = b) ∧
    (∀ a p, canonical a → ¬ in_heap a → translate_addr cr3 load a off m = Done (Some p) →
       translate_addr cr3 load a off m' = Done (Some p))).
Proof.
  intros Hv Hun Hok Hn. eapply runs_mono; [by apply heap_run|].
  intros r [m' f'] (-> & Hv' & _ & frames & Hmaps & Hlen & Hnd & Hus). split; [done|].
  by eapply maps_to_translate; try done; eapply paging_ready_valid.
Qed.
End theorems.
