(* ===== verification/PagingDemo.v ===== *)
(** * A page table in memory

    A concrete crate and memory on which the theorems of Paging.v hold: [map_to]
    walks the tables, takes a frame from the allocator for each table that is
    missing, clears it, links it, and writes the entry of the page. *)

From S2P Require Import Prelude Memory Paging.
#[local] Open Scope Z_scope.

#[export] Instance bits_paging : PagingOps := {|
  p4_index a := (a / 2 ^ 39) mod 512;
  p3_index a := (a / 2 ^ 30) mod 512;
  p2_index a := (a / 2 ^ 21) mod 512;
  p1_index a := (a / 2 ^ 12) mod 512;
  page_offset a := a mod 4096;
  virt_add a b := if decide (a + b < 2 ^ 47) then Done (a + b) else Panic (PExpect "VirtAddr");
  phys_add a b := if decide (a + b < 2 ^ 52) then Done (a + b) else Panic (PExpect "PhysAddr");
  entry_frame e := if negb (present e) then Err FrameNotPresent
                   else if huge e then Err HugeFrame else Ok (entry_addr e);
|}.

#[export] Instance bits_paging_ok : PagingOk.
Proof. split; intros; simpl; try done; by case_decide. Qed.

Lemma entry_addr_div e : entry_addr e = (e / 4096) mod 2 ^ 40 * 4096.
Proof.
  rw -Z.land_ones; [lia|]. change 4096 with (2 ^ 12) at 2. rw -Z.shiftl_mul_pow2; [lia|].
  change 4096 with (2 ^ 12). rw -Z.shiftr_div_pow2; [lia|]. rw /entry_addr.
  change 0xffffffffff000 with (Z.shiftl (Z.ones 40) 12). apply Z.bits_inj'. intros n Hn. rw Z.land_spec.
  destruct (decide (n < 12)).
  - rw !Z.shiftl_spec_low //. apply andb_false_r.
  - rw !Z.shiftl_spec; [lia..|]. rw Z.land_spec Z.shiftr_spec; [lia|]. do 2 f_equal. lia.
Qed.

(** The entry of a frame, present and writable. *)
Lemma frame_entry x : is_frame x → present (x + 3) = true ∧ huge (x + 3) = false ∧ entry_addr (x + 3) = x.
Proof.
  intros [Hx Ha]. split_and!.
  - rw /present Z.bit0_odd. pose proof (Zmod_odd (x + 3)) as Ho. destruct (Z.odd (x + 3)); [done|dlia].
  - rw /huge Z.testbit_odd Z.shiftr_div_pow2; [lia|]. pose proof (Zmod_odd ((x + 3) / 2 ^ 7)) as Ho.
    destruct (Z.odd _); [simpl in Ho; dlia|done].
  - rw entry_addr_div. change (2 ^ 40) with 0x10000000000. dlia.
Qed.

(** ** The mapper *)

(** Memory by words, and the heap allocator's range. *)
Record Ram := { ram : Z → Z; ram_heap : option (Z * Z) }.

Definition demo_cr3 (m : Ram) : Z := 0x1000.
Definition DEMO_OFFSET : Z := 0x18000000000.
Definition LIMIT : Z := 0x4000000.
Definition demo_load (m : Ram) (a : Z) : Z := ram m (a - DEMO_OFFSET).

Definition put (a v : Z) (m : Ram) : Ram :=
  {| ram := λ b, if decide (b = a) then v else ram m b; ram_heap := ram_heap m |}.

(** A frame is cleared and linked from the word at [a]. *)
Definition link_table (a frame : Z) (m : Ram) : Ram :=
  put a (frame + 3) {| ram := λ b, if decide (frame ≤ b < frame + 4096) then 0 else ram m b; ram_heap := ram_heap m |}.

#[local] Notation State := (Ram * BootInfoFrameAllocator)%type.

(** [Mapper::map_to] from the table [t], along the indexes of the page. *)
Fixpoint map_path (t : Z) (path : list Z) (frame : Z) : proc State (result unit string) :=
  match path with
  | [] => mret (Ok tt)
  | [i] => λ '(m, f),
    if ram m (t + 8 * i) =? 0 then Done (Ok tt, (put (t + 8 * i) (frame + 3) m, f))
    else Done (Err "PageAlreadyMapped"%string, (m, f))
  | i :: path => λ '(m, f),
    if ram m (t + 8 * i) =? 0 then
      match allocate_frame f with
      | Done (Some fr, f) => map_path fr path frame (link_table (t + 8 * i) fr m, f)
      | Done (None, f) => Done (Err "FrameAllocationFailed"%string, (m, f))
      | Panic e => Panic e
      | Hang => Hang
      end
    else match child (ram m) t i with
         | Some t' => map_path t' path frame (m, f)
         | None => Done (Err "ParentEntryHugePage"%string, (m, f))
         end
  end.

Definition demo_map_to (page frame : Z) : proc State (result unit string) :=
  λ '(m, f), map_path (demo_cr3 m) (indexes page) frame (m, f).

Definition demo_allocator_init (start size : Z) : proc State unit :=
  λ '(m, f), Done (tt, ({| ram := ram m; ram_heap := Some (start, size) |}, f)).

#[local] Notation at_path := (at_path demo_cr3 ram).
#[local] Notation is_table := (is_table demo_cr3 ram).
#[local] Notation paging_ready := (paging_ready demo_cr3 ram LIMIT).
#[local] Notation unused_at m := (unused_path (ram m) (demo_cr3 m)).

(** ** What one step does to the tables *)

Lemma words_apart t u i j : is_frame t → is_frame u → index i → index j → t + 8 * i = u + 8 * j → t = u ∧ i = j.
Proof. rw /is_frame /index. intros. dlia. Qed.

Lemma child_put a v m t i :
  child (ram (put a v m)) t i =
    if decide (t + 8 * i = a) then (if present v && negb (huge v) then Some (entry_addr v) else None) else child (ram m) t i.
Proof. rw /child /=. by case_decide. Qed.

Lemma zero_child phys t i : phys (t + 8 * i) = 0 → child phys t i = None.
Proof. intros E. by rw /child E. Qed.

Section step.
Context (m : Ram) (f : BootInfoFrameAllocator) (Hready : paging_ready m f).
Context (path : list Z) (t i : Z) (Hpath : Forall index path) (Hi : index i).
Context (Ht : at_path m path = Some t) (Hz : ram m (t + 8 * i) = 0).
Implicit Types (p q : list Z).

Lemma path_frame p u : (length p ≤ 3)%nat → Forall index p → at_path m p = Some u → is_frame u.
Proof. intros Hl Hp Hu. apply (pr_tables _ _ _ _ _ Hready). by exists p. Qed.

(** The word at [t + 8 * i] belongs to one entry of one table. *)
Lemma entry_unique p u j :
  (length path ≤ 3)%nat → (length p ≤ 3)%nat → Forall index p → index j → at_path m p = Some u →
  u + 8 * j = t + 8 * i → p = path ∧ j = i.
Proof.
  intros Hl Hlp Hp Hj Hu E.
  destruct (words_apart u t j i) as [-> ->]; [by apply (path_frame p)|by apply (path_frame path)|done..|].
  split; [|done]. by apply (pr_tree _ _ _ _ _ Hready _ _ t).
Qed.

(** *** A new table *)

Section link.
Context (Hlen : (length path ≤ 2)%nat) (fr : Z) (Hfr : is_frame fr) (Hleft : frames_left f fr).
#[local] Notation m' := (link_table (t + 8 * i) fr m).

Lemma fr_not_table p : (length p ≤ 3)%nat → Forall index p → at_path m p ≠ Some fr.
Proof. intros Hl Hp E. destruct (pr_left _ _ _ _ _ Hready fr Hleft) as [_ Hn]. apply Hn. by exists p. Qed.

Lemma link_word p u j :
  (length p ≤ 3)%nat → Forall index p → index j → at_path m p = Some u →
  ram m' (u + 8 * j) = if decide (p = path ∧ j = i) then fr + 3 else ram m (u + 8 * j).
Proof.
  intros Hl Hp Hj Hu. simpl. destruct (decide (u + 8 * j = t + 8 * i)) as [E|E].
  - rw decide_True //. apply (entry_unique p u j); [lia|done..].
  - rw (decide_False (P := p = path ∧ _)); [intros [-> ->]; congruence|].
    rw decide_False //. intros Hb. apply (fr_not_table p Hl Hp). rw Hu. f_equal.
    pose proof (path_frame p u Hl Hp Hu) as Hu'. pose proof Hfr as Hf'. rw /is_frame in Hu', Hf'. rw /index in Hj. dlia.
Qed.

Lemma link_fresh_word j : index j → ram m' (fr + 8 * j) = 0.
Proof.
  intros Hj. rw /= decide_False.
  - intros E. destruct (words_apart fr t j i) as [E1 _]; [done|by apply (path_frame path); [lia|..]|done..|].
    apply (fr_not_table path); [lia|done|by rw E1].
  - rw decide_True //. rw /index in Hj. lia.
Qed.

Lemma link_at_path p :
  (length p ≤ 4)%nat → Forall index p → at_path m' p = if decide (p = path ++ [i]) then Some fr else at_path m p.
Proof.
  induction p as [|j p IH] using rev_ind; intros Hl Hp.
  { rw decide_False //. intros E. by destruct path. }
  rw length_app /= in Hl. apply Forall_app in Hp as [Hp [Hj _]%Forall_cons].
  rw /at_path !table_at_snoc -!/(at_path m' p) -!/(at_path m p) IH //; [lia|].
  destruct (decide (p = path ++ [i])) as [->|Hne].
  - rw decide_False; [intros E; apply (f_equal length) in E; rw !length_app /= in E; lia|].
    rw /= (zero_child _ fr j); [by apply link_fresh_word|].
    by rw /at_path table_at_snoc -/(at_path m path) Ht /= (zero_child _ t i).
  - destruct (at_path m p) as [u|] eqn:Hu; [|rw decide_False //; intros [-> ->]%app_inj_tail; by rw Ht in Hu].
    cbn [mbind option_bind]. rw /child (link_word p u j) //; [lia|]. destruct (decide (p = path ∧ j = i)) as [[-> ->]|Hn].
    + rw decide_True //. by destruct (frame_entry fr Hfr) as (-> & -> & ->).
    + rw decide_False //. by intros [? ?]%app_inj_tail; apply Hn.
Qed.

Lemma link_tables x : is_table m' x → is_table m x ∨ x = fr.
Proof.
  intros (p & Hl & Hp & Hx). rw link_at_path // in Hx; [lia|]. case_decide; [right; congruence|]. left. by exists p.
Qed.

Lemma link_ready f' :
  (∀ x, frames_left f' x → frames_left f x ∧ x ≠ fr) → paging_ready m' f'.
Proof.
  intros Hf'. pose proof Hready as [Htab Htree Hl]. split.
  - intros x [Hx| ->]%link_tables; [by apply Htab|]. split; [done|]. by apply Hl.
  - intros p q x Hlp Hlq Hp Hq. rw !link_at_path; [lia|done|lia|done|].
    repeat case_decide; subst; try done; [| |by apply Htree].
    + intros [= <-] E. by destruct (fr_not_table q Hlq Hq).
    + intros E [= <-]. by destruct (fr_not_table p Hlp Hp).
  - intros x [Hx Hne]%Hf'. destruct (Hl x Hx) as [? Hnt]. split; [done|]. by intros [?| ->]%link_tables.
Qed.

Lemma link_unused p :
  length p = 4%nat → Forall index p → unused_at m p → unused_at m' p.
Proof.
  intros Hl Hp (q & j & r & u & -> & Hu & H0). apply Forall_app in Hp as [Hq [Hj Hr]%Forall_cons].
  rw length_app /= in Hl. assert (at_path m' q = Some u) as Hu'.
  { rw link_at_path; [lia|done|]. case_decide as E; [|done]. subst.
    rw table_at_snoc -/(at_path m path) Ht /= zero_child // in Hu. }
  destruct (decide (q = path ∧ j = i)) as [[-> ->]|Hn].
  - destruct r as [|k r]; [simpl in Hl; lia|]. apply Forall_cons in Hr as [Hk _].
    exists (path ++ [i]), k, r, fr. split_and!; [by rw -app_assoc| |by apply link_fresh_word].
    rw -/(at_path m' _) link_at_path; [rw length_app /=; lia| |by rw decide_True].
    apply Forall_app. split; [done|]. by constructor.
  - exists q, j, r, u. split_and!; [done|done|]. by rw (link_word q u j) // ?decide_False //; lia.
Qed.
End link.

(** *** The entry of the page *)

Section entry.
Context (Hlen : length path = 3%nat) (frame : Z) (Hframe : is_frame frame).
#[local] Notation m' := (put (t + 8 * i) (frame + 3) m).

Lemma entry_word p u j :
  (length p ≤ 3)%nat → Forall index p → index j → at_path m p = Some u →
  ram m' (u + 8 * j) = if decide (p = path ∧ j = i) then frame + 3 else ram m (u + 8 * j).
Proof.
  intros Hl Hp Hj Hu. simpl. destruct (decide (u + 8 * j = t + 8 * i)) as [E|E].
  - rw decide_True //. apply (entry_unique p u j); [lia|done..].
  - rw (decide_False (P := p = path ∧ _)) //. intros [-> ->]. congruence.
Qed.

Lemma entry_at_path p :
  (length p ≤ 4)%nat → Forall index p → at_path m' p = if decide (p = path ++ [i]) then Some frame else at_path m p.
Proof.
  induction p as [|j p IH] using rev_ind; intros Hl Hp.
  { rw decide_False //. intros E. by destruct path. }
  rw length_app /= in Hl. apply Forall_app in Hp as [Hp [Hj _]%Forall_cons].
  rw /at_path !table_at_snoc -!/(at_path m' p) -!/(at_path m p) IH //; [lia|].
  rw (decide_False (P := p = _)); [intros ->; rw length_app /= in Hl; lia|].
  destruct (at_path m p) as [u|] eqn:Hu; [|rw decide_False //; intros [-> ->]%app_inj_tail; by rw Ht in Hu].
  cbn [mbind option_bind]. rw /child (entry_word p u j) //; [lia|]. destruct (decide (p = path ∧ j = i)) as [[-> ->]|Hn].
  - rw decide_True //. by destruct (frame_entry frame Hframe) as (-> & -> & ->).
  - rw decide_False //. by intros [? ?]%app_inj_tail; apply Hn.
Qed.

Lemma entry_at_short p : (length p ≤ 3)%nat → Forall index p → at_path m' p = at_path m p.
Proof.
  intros Hl Hp. rw entry_at_path; [lia|done|]. rw decide_False //. intros ->. rw length_app /= in Hl. lia.
Qed.

Lemma entry_tables x : is_table m' x → is_table m x.
Proof. intros (p & Hl & Hp & Hx). rw entry_at_short // in Hx. by exists p. Qed.

Lemma entry_ready : paging_ready m' f.
Proof.
  pose proof Hready as [Htab Htree Hl]. split.
  - intros x Hx%entry_tables. by apply Htab.
  - intros p q x Hlp Hlq Hp Hq. rw !entry_at_short //. by apply Htree.
  - intros x Hx. destruct (Hl x Hx) as [? Hnt]. split; [done|]. by intros Hx'%entry_tables.
Qed.

Lemma entry_unused p :
  length p = 4%nat → Forall index p → p ≠ path ++ [i] → unused_at m p → unused_at m' p.
Proof.
  intros Hl Hp Hne (q & j & r & u & -> & Hu & H0). apply Forall_app in Hp as [Hq [Hj Hr]%Forall_cons].
  rw length_app /= in Hl. exists q, j, r, u.
  split_and!; [done|by rw -/(at_path m' q) entry_at_short; [lia|done|]|].
  rw (entry_word q u j) //; [lia|]. rw decide_False //. intros [-> ->]. apply Hne. destruct r; [done|simpl in Hl; lia].
Qed.
End entry.
End step.

(** ** The mapper meets its specification *)

(** What mapping the page at the end of a path does. *)
Record mapped_path (m : Ram) f (m' : Ram) f' (path : list Z) (frame : Z) (n : Z) : Prop := {
  mp_ready : paging_ready m' f';
  mp_at : ∀ p, length p = 4%nat → Forall index p → at_path m' p = if decide (p = path) then Some frame else at_path m p;
  mp_unused : ∀ p, length p = 4%nat → Forall index p → p ≠ path → unused_at m p → unused_at m' p;
  mp_map : memory_map f' = memory_map f;
  mp_next : next f ≤ next f' ≤ next f + n;
  mp_tables : ∀ x, is_table m' x → is_table m x ∨ frames_taken f f' x;
}.

(** A table was made on the way. *)
Lemma mapped_path_link m f path t i fr rest frame m' f' :
  paging_ready m f → Forall index path → index i → (length path + S (length rest) = 4)%nat → rest ≠ [] →
  at_path m path = Some t → ram m (t + 8 * i) = 0 → 0 ≤ next f → is_frame fr → usable_frames f !! Z.to_nat (next f) = Some fr →
  mapped_path (link_table (t + 8 * i) fr m) {| memory_map := memory_map f; next := next f + 1 |} m' f'
    (path ++ i :: rest) frame (zlen rest - 1) →
  mapped_path m f m' f' (path ++ i :: rest) frame (zlen rest).
Proof.
  intros Hr Hp Hi Hl Hne Ht Hz H0 Hfr Hn [Hr' Hat Hun Hmm Hnx Htab]. simpl in Hmm, Hnx, Htab.
  assert (length path ≤ 2)%nat as Hl2 by (destruct rest; [done|simpl in Hl; lia]).
  assert (frames_left f fr) as Hleft by (exists (Z.to_nat (next f)); split; [lia|done]).
  split; [done| | |done|lia|].
  - intros p Hlp Hpi. rw Hat //. case_decide; [done|].
    rw (link_at_path m f Hr path t i Hp Hi Ht Hz Hl2 fr Hfr Hleft p) //; [lia|].
    rw decide_False //. intros ->. rw length_app /= in Hlp. lia.
  - intros p Hlp Hpi Hpn Hu. apply Hun; [done..|]. by apply (link_unused m f Hr path t i Hp Hi Ht Hz Hl2 fr Hfr Hleft).
  - intros x [Hx|(j & Hj & Hx)]%Htab; [|right; exists j; simpl in Hj; split; [lia|done]].
    apply (link_tables m f Hr path t i Hp Hi Ht Hz Hl2 fr Hfr Hleft) in Hx as [Hx| ->]; [by left|].
    right. exists (Z.to_nat (next f)). split; [lia|done].
Qed.

Lemma map_path_last path t i m f frame :
  paging_ready m f → Forall index path → index i → length path = 3%nat → at_path m path = Some t → ram m (t + 8 * i) = 0 →
  is_frame frame → mapped_path m f (put (t + 8 * i) (frame + 3) m) f (path ++ [i]) frame 0.
Proof.
  intros Hr Hp Hi Hl Ht Hz Hf. split; [by apply (entry_ready m f Hr path)| | |done|lia|].
  - intros p Hlp Hpi. rw (entry_at_path m f Hr path t i Hp Hi Ht Hl frame Hf p) //; lia.
  - intros p Hlp Hpi Hne Hu. by apply (entry_unused m f Hr path).
  - intros x Hx. left. by apply (entry_tables m f Hr path t i Hp Hi Ht Hl frame Hf).
Qed.

Lemma map_path_cons t i path frame m f : path ≠ [] →
  map_path t (i :: path) frame (m, f) =
    if ram m (t + 8 * i) =? 0 then
      match allocate_frame f with
      | Done (Some fr, f) => map_path fr path frame (link_table (t + 8 * i) fr m, f)
      | Done (None, f) => Done (Err "FrameAllocationFailed"%string, (m, f))
      | Panic e => Panic e
      | Hang => Hang
      end
    else match child (ram m) t i with
         | Some t' => map_path t' path frame (m, f)
         | None => Done (Err "ParentEntryHugePage"%string, (m, f))
         end.
Proof. by destruct path. Qed.

(** The state in which the walk goes on in a new table. *)
Lemma link_step m f path t i fr :
  paging_ready m f → regions_ok (memory_map f) → Forall index path → index i → (length path ≤ 2)%nat →
  at_path m path = Some t → ram m (t + 8 * i) = 0 → 0 ≤ next f → usable_frames f !! Z.to_nat (next f) = Some fr →
  let m' := link_table (t + 8 * i) fr m in
  paging_ready m' {| memory_map := memory_map f; next := next f + 1 |} ∧ at_path m' (path ++ [i]) = Some fr ∧
  ∀ j rest, index j → unused_path (ram m') fr (j :: rest).
Proof.
  intros Hr Hok Hp Hi Hl Ht Hz H0 Hfr m'. pose proof (usable_frames_frame f _ _ Hok Hfr) as Hf.
  assert (frames_left f fr) as Hleft by (exists (Z.to_nat (next f)); split; [lia|done]).
  split_and!.
  - apply (link_ready m f Hr path); try done. intros x (k & Hk & Hx). simpl in Hk.
    split; [exists k; split; [lia|done]|]. intros ->.
    pose proof (NoDup_lookup _ _ _ _ (usable_frames_ok f Hok) Hfr Hx). lia.
  - rw (link_at_path m f Hr path t i Hp Hi Ht Hz Hl fr Hf Hleft); [rw length_app /=; lia| |by rw decide_True].
    apply Forall_app. split; [done|by constructor].
  - intros j rest Hj. exists [], j, rest, fr. split_and!; [done|done|].
    by apply (link_fresh_word m f Hr path).
Qed.

Lemma map_path_run rest path t m f frame :
  paging_ready m f → regions_ok (memory_map f) → Forall index path → Forall index rest → rest ≠ [] →
  (length path + length rest = 4)%nat → at_path m path = Some t → unused_path (ram m) t rest → is_frame frame →
  0 ≤ next f → next f + (zlen rest - 1) ≤ zlen (usable_frames f) < 2 ^ 63 →
  runs (map_path t rest frame) (m, f) (λ r '(m', f'), r = Ok tt ∧ mapped_path m f m' f' (path ++ rest) frame (zlen rest - 1)).
Proof.
  revert path t m f. induction rest as [|i rest IH]; [done|].
  intros path t m f Hr Hok Hp [Hi Hrest]%Forall_cons _ Hl Ht Hun Hf H0 Hn.
  assert (Forall index (path ++ [i])) as Hpi by (apply Forall_app; split; [done|by constructor]).
  destruct Hun as (q & k & r & u & E & Hu & Hz). destruct (decide (rest = [])) as [->|Hne].
  { destruct q as [|? [|]]; simplify_eq/=. rw /runs /= Hz /=. split; [done|]. apply map_path_last; try done. lia. }
  assert (zlen (i :: rest) - 1 = zlen rest) as Hlen by (simpl; lia). rw Hlen in Hn |- *. simpl in Hl.
  assert (0 < length rest)%nat as Hpos by (destruct rest; [done|simpl; lia]).
  rw /runs map_path_cons //. destruct (Z.eqb_spec (ram m (t + 8 * i)) 0) as [Hz0|Hz0].
  - rw /allocate_frame /boot_info_allocate_frame chk_Done; [lia|].
    destruct (lookup_lt_is_Some_2 (usable_frames f) (Z.to_nat (next f))) as [fr Hfr]; [lia|]. rw Hfr.
    destruct (link_step m f path t i fr) as (Hr1 & Ht1 & Hun1); [done..|lia|done|done|done|done|].
    set (f1 := {| memory_map := memory_map f; next := next f + 1 |}) in *.
    eapply (runs_mono (map_path fr rest frame) (link_table (t + 8 * i) fr m, f1));
      [apply (IH (path ++ [i]) fr _ f1); try done|].
    + rw length_app /=. lia.
    + destruct rest as [|j rest]; [done|]. apply Hun1. by apply Forall_cons in Hrest as [? _].
    + simpl. lia.
    + change (usable_frames f1) with (usable_frames f). simpl. lia.
    + intros r' [m' f'] [-> Hm]. split; [done|]. rw -app_assoc /= in Hm.
      apply (mapped_path_link m f path t i fr); try done. by apply (usable_frames_frame f _ _ Hok Hfr).
  - destruct q as [|k' q]; simplify_eq/=. destruct (child (ram m) t k') as [t'|] eqn:Hc; [|done]. simpl in Hu.
    eapply (runs_mono (map_path t' (q ++ k :: r) frame) (m, f)); [apply (IH (path ++ [k']) t' m f); try done|].
    + rw length_app /=. lia.
    + by rw /at_path table_at_snoc -/(at_path m path) Ht.
    + by exists q, k, r, u.
    + lia.
    + intros r' [m' f'] [-> [H1 H2 H3 H4 H5 H6]]. rw -app_assoc /= in H2 H3. split; [done|]. split; try done. lia.
Qed.

Lemma page_at_path m page : page_frame demo_cr3 ram m page = at_path m (indexes page).
Proof. apply small_walk_table_at. Qed.

Lemma demo_map_to_ok : map_to_spec paging_ready (page_frame demo_cr3 ram) (unused demo_cr3 ram) is_table demo_map_to.
Proof.
  intros page frame m f Hr Hok Hpg Hf Hun H0 Hn.
  eapply (runs_mono (map_path (demo_cr3 m) (indexes page) frame) (m, f));
    [apply (map_path_run (indexes page) [] (demo_cr3 m)); try done; apply indexes_index|].
  intros r [m' f'] [-> [H1 H2 H3 H4 H5 H6]]. split; [done|]. split; [done| | |done|simpl in H5; lia|done].
  - intros p Hp. rw !page_at_path H2 //; [apply indexes_index|].
    destruct (decide (p = page)) as [->|Hne]; [by rw decide_True|]. rw decide_False //. intros E. by apply Hne, indexes_inj.
  - intros p Hp Hne Hu. apply H3; [done|apply indexes_index| |done]. intros E. by apply Hne, indexes_inj.
Qed.

Lemma demo_allocator_init_ok :
  allocator_init_spec paging_ready (page_frame demo_cr3 ram) is_table ram_heap demo_allocator_init.
Proof. intros m f Hr _. rw /runs /=. by destruct Hr. Qed.

(** ** Witnesses *)

(** A level 4 table without entries, and usable memory above it. *)
Definition demo_ram : Ram := {| ram := λ _, 0; ram_heap := None |}.

Definition demo_regions : list MemoryRegion :=
  [ {| start_addr := 0; end_addr := 0x10000; region_type := NotUsable |};
    {| start_addr := 0x10000; end_addr := 0x2010000; region_type := Usable |} ].

Lemma demo_tables x : is_table demo_ram x → x = 0x1000.
Proof. intros ([|i p] & _ & _ & E); [by injection E|done]. Qed.

Lemma demo_ready : paging_ready demo_ram (frame_allocator_init demo_regions).
Proof.
  split.
  - intros x ->%demo_tables. split; [by split|done].
  - intros [|i p] [|j q] x _ _ _ _; by rw /at_path /=.
  - intros x (i & _ & Hx). apply usable_frames_usable in Hx; [|by repeat constructor].
    destruct Hx as (r & j & Hr & Hu & Hj & -> & He). rw /LIMIT.
    repeat (apply elem_of_cons in Hr as [->|Hr]; [simpl in *; try done|]); [|by apply not_elem_of_nil in Hr].
    split; [lia|]. intros E%demo_tables. lia.
Qed.

Lemma demo_unused page : unused demo_cr3 ram demo_ram page.
Proof. eexists [], _, _, 0x1000. by split_and!. Qed.

Lemma demo_offset_mapping (m : Ram) a : demo_load m (DEMO_OFFSET + a) = ram m a.
Proof. rw /demo_load. f_equal. lia. Qed.

Lemma heap_translates_witness :
  runs (init_heap demo_map_to demo_allocator_init) (demo_ram, frame_allocator_init demo_regions) (λ r '(m', _),
    r = Ok tt ∧
    (∀ a, in_heap a → ∃ x, usable_frame demo_regions x ∧
       translate_addr demo_cr3 demo_load a DEMO_OFFSET m' = Done (Some (x + a mod 4096))) ∧
    (∀ a b p, in_heap a → in_heap b → translate_addr demo_cr3 demo_load a DEMO_OFFSET m' = Done (Some p) →
       translate_addr demo_cr3 demo_load b DEMO_OFFSET m' = Done (Some p) → a = b) ∧
    (∀ a p, canonical a → ¬ in_heap a → translate_addr demo_cr3 demo_load a DEMO_OFFSET demo_ram = Done (Some p) →
       translate_addr demo_cr3 demo_load a DEMO_OFFSET m' = Done (Some p))).
Proof.
  apply (heap_translates demo_cr3 demo_load ram DEMO_OFFSET LIMIT) with (heap_range := ram_heap).
  - by rw /DEMO_OFFSET /LIMIT.
  - intros m a _ _. apply demo_offset_mapping.
  - exact demo_map_to_ok.
  - exact demo_allocator_init_ok.
  - exact demo_ready.
  - intros p _. apply demo_unused.
  - by repeat constructor.
  - vm_compute. split; [discriminate|reflexivity].
Defined.

(** A heap page mapped to the frame 0x20000: three tables are made on the way. *)
Definition demo_one : Ram * BootInfoFrameAllocator :=
  match demo_map_to HEAP_START 0x20000 (demo_ram, frame_allocator_init demo_regions) with
  | Done (_, s) => s
  | _ => (demo_ram, frame_allocator_init [])
  end.

Lemma demo_one_ready : paging_ready demo_one.1 demo_one.2 ∧ next demo_one.2 = 3.
Proof.
  split; [|vm_compute; reflexivity].
  assert (runs (demo_map_to HEAP_START 0x20000) (demo_ram, frame_allocator_init demo_regions) (λ r '(m', f'), paging_ready m' f')) as H.
  { eapply runs_mono; [apply demo_map_to_ok; [exact demo_ready|by repeat constructor|..]|].
    - apply heap_page_is_page, elem_heap_pages. by exists 0.
    - by split.
    - apply demo_unused.
    - done.
    - vm_compute. split; [discriminate|reflexivity].
    - by intros r [m' f'] [_ [? _ _ _ _ _]]. }
  rw /runs in H. rw /demo_one. destruct (demo_map_to _ _ _) as [[r [m f]]| |]; done.
Qed.

Lemma translate_addr_is_hardware_witness :
  translate_addr demo_cr3 demo_load (HEAP_START + 5) DEMO_OFFSET demo_one.1 = Done (Some 0x20005) ∧
  translate_addr demo_cr3 demo_load (HEAP_START + 5) DEMO_OFFSET demo_one.1 =
    if meets_huge (ram demo_one.1) (demo_cr3 demo_one.1) (HEAP_START + 5) LEVELS
    then Panic (PExpect "huge pages not supported")
    else Done (hw_translate (ram demo_one.1) (demo_cr3 demo_one.1) (HEAP_START + 5)).
Proof.
  split; [vm_compute; reflexivity|].
  apply (translate_addr_is_hardware demo_cr3 demo_load ram DEMO_OFFSET LIMIT).
  - by rw /DEMO_OFFSET /LIMIT.
  - intros m a _ _. apply demo_offset_mapping.
  - eapply paging_ready_valid, demo_one_ready.
Defined.
