(* ===== verification/Executor.v ===== *)
(** * Tasks and the executor: src/src/task/mod.rs, src/src/task/executor.rs

    Futures are a parameter: polling one may change the machine and wake tasks.
    The bounded queue of the crate crossbeam is an interface with its laws; a list
    implements it. *)

From S2P Require Import Prelude BTreeMap.
#[local] Open Scope Z_scope.

(** ** The bounded queue *)

Class QueueOps (Q : Type → Type) := {
  q_new : ∀ {A}, nat → Q A;
  q_push : ∀ {A}, Q A → A → option (Q A);   (** [None]: full *)
  q_pop : ∀ {A}, Q A → option (A * Q A);
}.

(** First in, first out, up to a capacity. *)
Class QueueOk (Q : Type → Type) `{!QueueOps Q} := {
  q_items : ∀ {A}, Q A → list A;
  q_cap : ∀ {A}, Q A → nat;
  q_new_ok {A} n : q_items (q_new (A := A) n) = [] ∧ q_cap (q_new (A := A) n) = n;
  q_push_some {A} (q q' : Q A) a :
    q_push q a = Some q' → q_items q' = q_items q ++ [a] ∧ q_cap q' = q_cap q;
  q_push_full {A} (q : Q A) a : q_push q a = None ↔ (q_cap q ≤ length (q_items q))%nat;
  q_pop_none {A} (q : Q A) : q_pop q = None ↔ q_items q = [];
  q_pop_some {A} (q q' : Q A) a : q_pop q = Some (a, q') → q_items q = a :: q_items q' ∧ q_cap q' = q_cap q;
}.

(** A list with a capacity. *)
Record ListQueue (A : Type) := { lq_cap : nat; lq_items : list A }.
Arguments lq_cap {_}.
Arguments lq_items {_}.

#[export] Instance ListQueue_ops : QueueOps ListQueue := {|
  q_new A n := {| lq_cap := n; lq_items := [] |};
  q_push A q a := if decide (length (lq_items q) < lq_cap q)%nat
                  then Some {| lq_cap := lq_cap q; lq_items := lq_items q ++ [a] |} else None;
  q_pop A q := match lq_items q with
               | [] => None
               | a :: l => Some (a, {| lq_cap := lq_cap q; lq_items := l |})
               end;
|}.

#[export] Program Instance ListQueue_ok : QueueOk ListQueue := {|
  q_items A := lq_items;
  q_cap A := lq_cap;
|}.
Next Obligation. done. Qed.
Next Obligation. intros A q q' a. simpl. case_decide; [|done]. by intros [= <-]. Qed.
Next Obligation. intros A q a. simpl. case_decide; split; try done; lia. Qed.
Next Obligation. intros A q. simpl. by destruct (lq_items q). Qed.
Next Obligation. intros A q q' a. simpl. destruct (lq_items q); [done|]. by intros [= <- <-]. Qed.

(** ** Executor *)

(** [TaskId] is a [u64] from a counter. *)
Notation TaskId := Z (only parsing).

Section executor.
Context {Q : Type → Type} `{!QueueOps Q}.

(** What is outside the executor but its queue: futures push to the queue through
    their wakers. *)
Context {R Fut : Type}.
Definition World : Type := Q TaskId * R.

(** [Poll<()>]: [None] is [Ready], [Some] the pending future. *)
Context (poll : TaskId → Fut → proc World (option Fut)).

Record Executor := {
  tasks : list (TaskId * Fut);
  waker_cache : list (TaskId * TaskId);   (** a waker is the id it pushes *)
  world : World;
}.

Definition Executor_new (r : R) : Executor :=
  {| tasks := []; waker_cache := []; world := (q_new 100, r) |}.

(** [TaskWaker::wake_task] *)
Definition wake_task (task_id : TaskId) : proc World unit := λ '(q, r),
  match q_push q task_id with
  | Some q => Done (tt, (q, r))
  | None => Panic (PExpect "task_queue full")
  end.

Definition spawn (task_id : TaskId) (future : Fut) (x : Executor) : outcome Executor :=
  match bt_get task_id (tasks x) with
  | Some _ => Panic (PExpect "task with same ID already in tasks")
  | None =>
    match q_push (world x).1 task_id with
    | None => Panic (PExpect "queue full")
    | Some q => Done {| tasks := bt_insert task_id future (tasks x); waker_cache := waker_cache x;
                        world := (q, (world x).2) |}
    end
  end.

(** [waker_cache.entry(task_id).or_insert_with(...)] *)
Definition cached (task_id : TaskId) (cache : list (TaskId * TaskId)) : list (TaskId * TaskId) :=
  match bt_get task_id cache with Some _ => cache | None => bt_insert task_id task_id cache end.

(** The body of the loop, for a popped id. *)
Definition run_task (task_id : TaskId) (x : Executor) : outcome Executor :=
  match bt_get task_id (tasks x) with
  | None => Done x   (* task no longer exists *)
  | Some task =>
    let cache := cached task_id (waker_cache x) in
    match poll task_id task (world x) with
    | Done (None, w) => Done {| tasks := bt_remove task_id (tasks x);
                                waker_cache := bt_remove task_id cache; world := w |}
    | Done (Some task, w) => Done {| tasks := bt_insert task_id task (tasks x); waker_cache := cache; world := w |}
    | Panic p => Panic p
    | Hang => Hang
    end
  end.

(** [while let Some(task_id) = task_queue.pop()]; the fuel bounds the pops. *)
Fixpoint run_ready_tasks (fuel : nat) (x : Executor) : outcome Executor :=
  match fuel with
  | O => Hang
  | S fuel =>
    match q_pop (world x).1 with
    | None => Done x
    | Some (task_id, q) =>
      x ← run_task task_id {| tasks := tasks x; waker_cache := waker_cache x; world := (q, (world x).2) |};
      run_ready_tasks fuel x
    end
  end.

(** [sleep_if_idle], with interrupts off: whether the processor halts. *)
Definition sleep_if_idle (x : Executor) : bool :=
  match q_pop (world x).1 with None => true | Some _ => false end.

(** [Executor::run], for a number of rounds; [halt] is the next interrupt, which ends
    the halt. *)
Fixpoint run (halt : proc World unit) (rounds fuel : nat) (x : Executor) : outcome Executor :=
  match rounds with
  | O => Hang
  | S rounds =>
    x ← run_ready_tasks fuel x;
    if sleep_if_idle x then
      match halt (world x) with
      | Done (_, w) => run halt rounds fuel {| tasks := tasks x; waker_cache := waker_cache x; world := w |}
      | Panic p => Panic p
      | Hang => Hang
      end
    else run halt rounds fuel x
  end.
End executor.

(** ** Task ids *)

(** [Task] *)
Record Task (Fut : Type) := { id : TaskId; future : Fut }.
Arguments id {_}.
Arguments future {_}.

(** [NEXT_ID.fetch_add(1)] on an [AtomicU64], which wraps around. *)
Definition TaskId_new : proc Z TaskId := λ next_id, Done (next_id, wrap 64 (next_id + 1)).

Definition Task_new {Fut} (f : Fut) : proc Z (Task Fut) :=
  i ← TaskId_new; mret {| id := i; future := f |}.

(** [TaskId::new] and [spawn] for each future in turn. *)
Fixpoint spawn_all {Q R Fut} `{!QueueOps Q} (fs : list Fut) (next_id : Z) (x : @Executor Q R Fut)
    : outcome (Z * @Executor Q R Fut) :=
  match fs with
  | [] => Done (next_id, x)
  | f :: fs =>
    match Task_new f next_id with
    | Done (t, next_id) => x ← spawn (id t) (future t) x; spawn_all fs next_id x
    | Panic p => Panic p
    | Hang => Hang
    end
  end.

(** ** Falling asleep *)

(** [sleep_if_idle] step by step: interrupts are off from [disable] to the
    instruction pair that enables them and halts. *)
Inductive SleepPc := Entry | Disabled | Checked (empty : bool) | Halted | Returned.
Record Sleep (Q : Type → Type) := { sl_pc : SleepPc; sl_int : bool; sl_queue : Q TaskId }.
Arguments sl_pc {_}.
Arguments sl_int {_}.
Arguments sl_queue {_}.

Definition sleep_step {Q} `{!QueueOps Q} (s : Sleep Q) : Sleep Q :=
  match sl_pc s with
  | Entry => {| sl_pc := Disabled; sl_int := false; sl_queue := sl_queue s |}
  | Disabled =>
    {| sl_pc := Checked (match q_pop (sl_queue s) with None => true | Some _ => false end);
       sl_int := sl_int s; sl_queue := sl_queue s |}
  | Checked true => {| sl_pc := Halted; sl_int := true; sl_queue := sl_queue s |}       (* enable_and_hlt *)
  | Checked false => {| sl_pc := Returned; sl_int := true; sl_queue := sl_queue s |}    (* enable *)
  | Halted | Returned => s
  end.

(** An interrupt queues ids and ends a halt. *)
Inductive sleep_run {Q} `{!QueueOps Q} : Sleep Q → Sleep Q → Prop :=
  | sl_code s : sleep_run s (sleep_step s)
  | sl_irq s q : sl_int s = true →
      sleep_run s {| sl_pc := match sl_pc s with Halted => Returned | p => p end; sl_int := true; sl_queue := q |}.

(** ** The yielding future *)

(** [YieldNow::poll] in the task [task_id]; the value is whether it is ready. *)
Definition yield_poll {Q R} `{!QueueOps Q} (task_id : TaskId) (yielded : bool) : proc (Q TaskId * R) bool :=
  if yielded then mret true else wake_task task_id ;; mret false.

(** ** Theorems *)

Section laws.
Context {Q : Type → Type} `{!QueueOps Q, !QueueOk Q} {R Fut : Type}.
Context (poll : TaskId → Fut → proc (Q TaskId * R) (option Fut)).
Notation Executor := (@Executor Q R Fut).
Implicit Types (x : Executor) (w : Q TaskId * R).

Definition queued x : list TaskId := q_items (world x).1.

(** The tasks are in order of their ids, and every cached waker belongs to a
    task and pushes its id. *)
Record wf_exec x : Prop := {
  we_tasks : bt_sorted (tasks x);
  we_cache_sorted : bt_sorted (waker_cache x);
  we_cache : ∀ i v, bt_get i (waker_cache x) = Some v → v = i ∧ is_Some (bt_get i (tasks x));
}.

Lemma run_task_wf i x x' : wf_exec x → run_task poll i x = Done x' → wf_exec x'.
Proof.
  intros [Ht Hs Hc]. rw /run_task. destruct (bt_get i (tasks x)) as [f|] eqn:Hf; [|by intros [= <-]].
  set (cache := cached i (waker_cache x)).
  assert (bt_sorted cache ∧ ∀ j v, bt_get j cache = Some v → v = j ∧ is_Some (bt_get j (tasks x))) as [Hcs Hcc].
  { rw /cache /cached. destruct (bt_get i (waker_cache x)) as [v|] eqn:Hv; [done|].
    split; [by apply bt_sorted_insert|]. intros j v' Hj. destruct (decide (i = j)) as [<-|Hne].
    - rw bt_get_insert in Hj. injection Hj as <-. by rw Hf.
    - rw bt_get_insert_ne // in Hj. by apply Hc. }
  destruct (poll i f (world x)) as [[[f'|] w']| |]; intros [= <-]; split; simpl; try done.
  - by apply bt_sorted_insert.
  - intros j v Hj. destruct (Hcc j v Hj) as [-> Hj']. split; [done|].
    destruct (decide (i = j)) as [<-|Hne]; [by rw bt_get_insert|]. by rw bt_get_insert_ne.
  - by apply bt_sorted_remove.
  - by apply bt_sorted_remove.
  - intros j v Hj. destruct (decide (i = j)) as [<-|Hne]; [by rw bt_get_remove in Hj|].
    rw bt_get_remove_ne // in Hj. destruct (Hcc j v Hj) as [-> ?]. split; [done|]. by rw bt_get_remove_ne.
Qed.

(** C32. A round of quiet tasks ends: when polling a task comes back and wakes
    nobody, [run_ready_tasks] returns after at most one poll per queued id, with
    the queue empty (so the processor halts) and the invariant kept: tasks in
    order, a cached waker only for a live task. *)
Theorem run_ready_tasks_round fuel x :
  (∀ i f w, runs (poll i f) w (λ _ w', q_items w'.1 = q_items w.1)) →
  wf_exec x → (length (queued x) < fuel)%nat →
  ∃ x', run_ready_tasks poll fuel x = Done x' ∧ queued x' = [] ∧ sleep_if_idle x' = true ∧ wf_exec x'.
Proof.
  intros Hq. revert x. induction fuel as [|fuel IH]; intros x Hw Hf; [lia|]. cbn [run_ready_tasks].
  destruct (q_pop (world x).1) as [[i q]|] eqn:Hp.
  - destruct (q_pop_some _ _ _ Hp) as [Hi _]. rw /queued Hi /= in Hf.
    set (x1 := {| tasks := tasks x; waker_cache := waker_cache x; world := (q, (world x).2) |}).
    assert (wf_exec x1) as Hw1 by by destruct Hw.
    assert (∃ x2, run_task poll i x1 = Done x2 ∧ queued x2 = q_items q) as (x2 & Hr & Hq2).
    { rw /run_task /=. destruct (bt_get i (tasks x)) as [f|]; [|by exists x1].
      specialize (Hq i f (q, (world x).2)). rw /runs in Hq.
      destruct (poll i f (q, (world x).2)) as [[[f'|] w']| |]; [| |done..]; eexists; (split; [done|done]). }
    destruct (IH x2) as (x' & Hx' & ?); [by eapply run_task_wf|rw Hq2; lia|].
    exists x'. split; [|done]. obind; [exact Hr|done].
  - exists x. pose proof Hp as Hi. apply q_pop_none in Hi. by rw /sleep_if_idle Hp.
Qed.

(** C23. The processor never sleeps on work: however interrupts fall on
    [sleep_if_idle], while the processor is halted the run queue is empty. *)
Theorem never_sleeps_on_work (s s' : Sleep Q) :
  sl_pc s = Entry → rtc sleep_run s s' → sl_pc s' = Halted → q_items (sl_queue s') = [].
Proof.
  intros Hs Hr. pose (inv (s : Sleep Q) := match sl_pc s with
    | Disabled => sl_int s = false
    | Checked b => sl_int s = false ∧ (b = true → q_items (sl_queue s) = [])
    | Halted => q_items (sl_queue s) = []
    | _ => True
    end).
  assert (inv s') as Hi; [|rw /inv in Hi; by intros E; rw E in Hi].
  assert (inv s) as Hi by by rw /inv Hs. clear Hs. induction Hr as [s|s s1 s2 Hst _ IH]; [done|]. apply IH. clear IH.
  destruct s as [p i q]. destruct Hst as [s|s q' Hint]; rw /inv /sleep_step /= in Hi |- *.
  - destruct (sl_pc s) as [| |[]| |] eqn:E; simpl; rw ?E; try done; [|by apply Hi].
    split; [done|]. destruct (q_pop (sl_queue s)) eqn:Hq; [done|]. intros _. by apply q_pop_none.
  - destruct (sl_pc s) as [| |b| |] eqn:E; simpl; try done; [congruence|]. by destruct Hi; congruence.
Qed.

(** Tasks made by [Task::new] get distinct ids, so spawning them does not panic
    while the queue has room. *)
Lemma spawn_all_run (fs : list Fut) n x :
  0 ≤ n → n + zlen fs < 2 ^ 64 → (∀ j, n ≤ j → bt_get j (tasks x) = None) →
  (length (queued x) + length fs ≤ q_cap (world x).1)%nat →
  ∃ x', spawn_all fs n x = Done (n + zlen fs, x') ∧ queued x' = queued x ++ seqZ n (zlen fs) ∧
    (world x').2 = (world x).2 ∧ waker_cache x' = waker_cache x ∧
    (∀ i f, fs !! i = Some f → bt_get (n + Z.of_nat i) (tasks x') = Some f) ∧
    ∀ j, j < n → bt_get j (tasks x') = bt_get j (tasks x).
Proof.
  revert n x. induction fs as [|f fs IH]; intros n x Hn Hlt Hnew Hcap.
  { exists x. rw /= app_nil_r Z.add_0_r. split_and!; done. }
  simpl in Hlt, Hcap. cbn [spawn_all]. rw /Task_new /TaskId_new /mbind /proc_bind /=.
  rw /wrap Z.mod_small; [lia|]. rw /spawn (Hnew n); [lia|].
  destruct (q_push (world x).1 n) as [q|] eqn:Hq; [|apply q_push_full in Hq; rw /queued in Hcap; lia].
  apply q_push_some in Hq as [Hq Hc].
  set (x1 := {| tasks := bt_insert n f (tasks x); waker_cache := waker_cache x; world := (q, (world x).2) |}).
  destruct (IH (n + 1) x1) as (x' & Hx' & Hqd & Hw & Hwc & Hget & Hold); [lia|lia|..].
  { intros j Hj. rw /= bt_get_insert_ne; [lia|]. apply Hnew. lia. }
  { rw /queued /x1 /= Hq Hc length_app /=. rw /queued in Hcap. lia. }
  exists x'. split_and!.
  - rw /outcome_bind Hx'. do 2 f_equal. lia.
  - rw Hqd /queued /x1 /= Hq -assoc. f_equal. rw (seqZ_cons n (Z.of_nat (S (length fs)))); [lia|]. simpl. do 2 f_equal; lia.
  - done.
  - done.
  - intros [|i] f' Hf; simpl in Hf.
    + injection Hf as ->. rw Z.add_0_r Hold; [lia|]. by rw /= bt_get_insert.
    + replace (n + Z.of_nat (S i)) with (n + 1 + Z.of_nat i) by lia. by apply Hget.
  - intros j Hj. rw Hold; [lia|]. rw /= bt_get_insert_ne //. lia.
Qed.

(** C39. A task that always wakes itself keeps the processor busy: if no poll
    removes ids from the queue, and polling the task [id] in a state of [P] leaves
    it pending in a state of [P] with its id queued again, then once the id is
    queued [run_ready_tasks] never returns, so [sleep_if_idle] is never reached. *)
Theorem self_waking_never_idle id (P : Fut → Prop) fuel x f :
  (∀ i g w, match poll i g w with
            | Done (_, w') => ∃ l, q_items w'.1 = q_items w.1 ++ l
            | _ => True
            end) →
  (∀ g w, P g → match poll id g w with
                | Done (Some g', w') => P g' ∧ id ∈ q_items w'.1
                | Done (None, _) => False
                | _ => True
                end) →
  bt_get id (tasks x) = Some f → P f → id ∈ queued x →
  ¬ ∃ x', run_ready_tasks poll fuel x = Done x'.
Proof.
  intros Hall Hid. revert x f. induction fuel as [|fuel IH]; intros x f Hf HP Hin; [by intros []|].
  cbn [run_ready_tasks]. destruct (q_pop (world x).1) as [[i q]|] eqn:Hp.
  2: { apply q_pop_none in Hp. rw /queued Hp in Hin. by apply not_elem_of_nil in Hin. }
  destruct (q_pop_some _ _ _ Hp) as [Hi _]. rw /queued Hi in Hin.
  rw /run_task /=. destruct (bt_get i (tasks x)) as [g|] eqn:Hg.
  2: { apply (IH _ f); [done|done|]. apply elem_of_cons in Hin as [->|Hin]; [congruence|done]. }
  specialize (Hall i g (q, (world x).2)). destruct (decide (i = id)) as [->|Hne].
  - assert (g = f) as -> by congruence. specialize (Hid f (q, (world x).2) HP).
    destruct (poll id f (q, (world x).2)) as [[[g'|] w']| |]; [|done|by intros []..]. destruct Hid as [HP' Hin'].
    apply (IH _ g'); [by rw /= bt_get_insert|done|done].
  - apply elem_of_cons in Hin as [->|Hin]; [done|].
    destruct (poll i g (q, (world x).2)) as [[[g'|] w']| |]; [| |by intros []..]; destruct Hall as [l Hl].
    + apply (IH _ f); [by rw /= bt_get_insert_ne|done|]. rw /queued /= Hl. set_solver.
    + apply (IH _ f); [by rw /= bt_get_remove_ne|done|]. rw /queued /= Hl. set_solver.
Qed.
End laws.

(** ** Witnesses *)

(** A task in a loop of [yield_now().await]: its future is the flag of the
    [YieldNow] it waits for.  When that is ready, the next turn makes a new one. *)
Definition loop_poll (task_id : TaskId) (yielded : bool) : proc (ListQueue TaskId * unit) (option bool) :=
  ready ← yield_poll task_id yielded;
  if ready : bool then yield_poll task_id false ;; mret (Some true) else mret (Some true).

Definition demo_exec : Executor :=
  {| tasks := [(0, false); (1, true)]; waker_cache := []; world := ({| lq_cap := 100; lq_items := [0; 1] |}, tt) |}.

Lemma loop_poll_wakes i g w :
  match loop_poll i g w with
  | Done (Some _, w') => lq_items w'.1 = lq_items w.1 ++ [i]
  | Done (None, _) => False
  | _ => True
  end.
Proof.
  destruct w as [q []]. rw /loop_poll /yield_poll /mbind /proc_bind. destruct g; simpl; by case_decide.
Qed.

Lemma self_waking_never_idle_witness :
  bt_get 1 (tasks demo_exec) = Some true ∧ ¬ ∃ x', run_ready_tasks loop_poll 50 demo_exec = Done x'.
Proof.
  split; [reflexivity|].
  apply (self_waking_never_idle loop_poll 1 (λ _, True) 50 demo_exec true).
  - intros i g w. pose proof (loop_poll_wakes i g w) as H.
    destruct (loop_poll i g w) as [[[g'|] w']| |]; [|done..]. eexists. exact H.
  - intros g w _. pose proof (loop_poll_wakes 1 g w) as H.
    destruct (loop_poll 1 g w) as [[[g'|] w']| |]; [|done..]. split; [done|]. simpl. rw H. set_solver.
  - reflexivity.
  - done.
  - apply elem_of_cons. right. by apply list_elem_of_singleton.
Defined.

Lemma run_ready_tasks_round_witness :
  ∃ x', run_ready_tasks (λ _ (f : bool), mret (if f then None else Some true)) 3 demo_exec = Done x' ∧
    queued x' = [] ∧ sleep_if_idle x' = true ∧ wf_exec x'.
Proof.
  apply (run_ready_tasks_round (λ _ (f : bool), mret (if f then None else Some true)) 3 demo_exec).
  - done.
  - split; [by repeat constructor|done|done].
  - simpl. lia.
Defined.

(** The queue is empty, and stays so until the processor halts. *)
Definition drowsy : Sleep ListQueue := {| sl_pc := Entry; sl_int := true; sl_queue := q_new 100 |}.

Lemma never_sleeps_on_work_witness : q_items (sl_queue (sleep_step (sleep_step (sleep_step drowsy)))) = [].
Proof.
  apply (never_sleeps_on_work drowsy (sleep_step (sleep_step (sleep_step drowsy)))).
  - reflexivity.
  - do 3 (eapply rtc_l; [apply sl_code|]). apply rtc_refl.
  - reflexivity.
Defined.
