(* ===== verification/Lisp.v ===== *)
(** * The Lisp of the shell: data, reader and printer (src/src/parser.rs)

    Function pointers of the source ([RispExp::Func]) are the constructors of
    [Builtin]; maps are ordered maps, as the source's [BTreeMap]s are. *)

From S2P Require Import Prelude Str Float64 BTreeMap.
#[local] Open Scope Z_scope.

(** ** Values *)

Inductive RispKey :=
  | KeyString (s : rstring)
  | KeyNumber (n : Z)
  | KeyBool (b : bool).

(** [#[derive(Ord)]]: by variant, then by value. *)
#[export] Instance RispKey_compare : Compare RispKey := λ a b,
  match a, b with
  | KeyString s, KeyString t => kcmp s t
  | KeyString _, _ => Lt
  | KeyNumber _, KeyString _ => Gt
  | KeyNumber n, KeyNumber m => kcmp n m
  | KeyNumber _, KeyBool _ => Lt
  | KeyBool p, KeyBool q => kcmp p q
  | KeyBool _, _ => Gt
  end.
#[export] Instance RispKey_total : TotalOrd RispKey.
Proof.
  split.
  - intros [s|n|b] [t|m|c]; try (split; done || congruence).
    + change (kcmp s t = Eq ↔ KeyString s = KeyString t). rw kcmp_eq. naive_solver.
    + change (kcmp n m = Eq ↔ KeyNumber n = KeyNumber m). rw kcmp_eq. naive_solver.
    + change (kcmp b c = Eq ↔ KeyBool b = KeyBool c). rw kcmp_eq. naive_solver.
  - intros [s|n|b] [t|m|c]; try done; [apply (kcmp_flip s t)|apply (kcmp_flip n m)|apply (kcmp_flip b c)].
  - intros [s|n|b] [t|m|c] [u|k|d]; try done;
      [apply (kcmp_trans s t u)|apply (kcmp_trans n m k)|apply (kcmp_trans b c d)].
Qed.

(** The functions [default_env] installs. *)
Inductive Builtin :=
  | FAdd | FSub | FEq | FNe | FGt | FGe | FLt | FLe | FMul | FDiv | FAnd
  | FList | FLen | FIndex | FMap | FMkeys.
#[export] Instance Builtin_eq : EqDecision Builtin.
Proof. solve_decision. Defined.

Inductive RispExp :=
  | Bool (b : bool)
  | Symbol (s : rstring)
  | Number (n : f64)
  | Str (s : rstring)
  | List (l : list RispExp)
  | Map (m : list (RispKey * RispExp))
  | Func (f : Builtin)
  | Lambda (params_exp body_exp : RispExp) (captured_env : list (rstring * RispExp))
  | Syscall (cmd : list rstring).

Definition RispEnv : Type := list (rstring * RispExp).

(** ** The tokenizer *)

(** The state of the loop over the characters. *)
Record tok_state := {
  tokens : list rstring;
  current_token : rstring;
  in_string : bool;
  in_comment : bool;
}.

(** [if !current_token.is_empty() { push; clear }] *)
Definition flush (st : tok_state) : tok_state :=
  match current_token st with
  | [] => st
  | t => {| tokens := tokens st ++ [t]; current_token := [];
            in_string := in_string st; in_comment := in_comment st |}
  end.

Definition HASH : Z := 35.
Definition QUOTE : Z := 34.
Definition LPAREN : Z := 40.
Definition RPAREN : Z := 41.

Definition tok_step (st : tok_state) (c : Z) : tok_state :=
  if in_comment st then
    if c =? HASH then {| tokens := tokens st; current_token := current_token st;
                         in_string := in_string st; in_comment := false |}
    else st
  else if in_string st then
    let t := current_token st ++ [c] in
    if c =? QUOTE
    then {| tokens := tokens st ++ [t]; current_token := []; in_string := false; in_comment := false |}
    else {| tokens := tokens st; current_token := t; in_string := true; in_comment := false |}
  else if c =? HASH then
    let st := flush st in
    {| tokens := tokens st; current_token := current_token st; in_string := false; in_comment := true |}
  else if c =? QUOTE then
    let st := flush st in
    {| tokens := tokens st; current_token := current_token st ++ [c]; in_string := true; in_comment := false |}
  else if (c =? LPAREN) || (c =? RPAREN) then
    let st := flush st in
    {| tokens := tokens st ++ [[c]]; current_token := current_token st; in_string := false; in_comment := false |}
  else if is_whitespace c then flush st
  else {| tokens := tokens st; current_token := current_token st ++ [c]; in_string := false; in_comment := false |}.

Definition tok_start : tok_state :=
  {| tokens := []; current_token := []; in_string := false; in_comment := false |}.

Definition tokenize (expr : rstring) : list rstring := tokens (flush (foldl tok_step tok_start expr)).

(** ** The parser *)

Definition starts_with (c : Z) (s : rstring) : bool := match s with x :: _ => x =? c | [] => false end.
Definition ends_with (c : Z) (s : rstring) : bool := match last s with Some x => x =? c | None => false end.

(** [token[1..token.len() - 1]] between two quotes; on the one-character token it
    is the slice [1..0], which panics. *)
Definition parse_atom (token : rstring) : outcome RispExp :=
  if bool_decide (token = str "true") then Done (Bool true)
  else if bool_decide (token = str "false") then Done (Bool false)
  else if starts_with QUOTE token && ends_with QUOTE token then
    if (length token <? 2)%nat then Panic PIndex
    else Done (Str (removelast (tail token)))
  else match f64_parse token with
       | Some v => Done (Number v)
       | None => Done (Symbol token)
       end.

Definition TOKEN_OPEN : rstring := [LPAREN].
Definition TOKEN_CLOSE : rstring := [RPAREN].

(** [parse] and [read_seq] call each other; [read_seq] collects in [res]. *)
Fixpoint parse (fuel : nat) (toks : list rstring)
    : outcome (result (RispExp * list rstring) rstring) :=
  match fuel with
  | O => Hang
  | S fuel =>
    match toks with
    | [] => Done (Err (str "could not get token"))
    | token :: rest =>
      if bool_decide (token = TOKEN_OPEN) then read_seq fuel rest []
      else if bool_decide (token = TOKEN_CLOSE) then Done (Err (str "unexpected `)`"))
      else a ← parse_atom token; Done (Ok (a, rest))
    end
  end
with read_seq (fuel : nat) (xs : list rstring) (res : list RispExp)
    : outcome (result (RispExp * list rstring) rstring) :=
  match fuel with
  | O => Hang
  | S fuel =>
    match xs with
    | [] => Done (Err (str "could not find closing `)`"))
    | next_token :: rest =>
      if bool_decide (next_token = TOKEN_CLOSE) then Done (Ok (List res, rest))
      else
        r ← parse fuel xs;
        match r with
        | Err e => Done (Err e)
        | Ok (exp, new_xs) => read_seq fuel new_xs (res ++ [exp])
        end
    end
  end.

(** Two calls per token at most, and one to end. *)
Definition parse_fuel (toks : list rstring) : nat := 2 * length toks + 1.

Definition parse_tokens (toks : list rstring) : outcome (result (RispExp * list rstring) rstring) :=
  parse (parse_fuel toks) toks.

(** ** Map keys *)

Definition exp_to_key (exp : RispExp) : result RispKey rstring :=
  match exp with
  | Str s => Ok (KeyString s)
  | Number n => Ok (KeyNumber (f64_to_i64 n))
  | Bool b => Ok (KeyBool b)
  | _ => Err (str "only strings, numbers, and bools can be map keys")
  end.

Definition key_to_exp (key : RispKey) : RispExp :=
  match key with
  | KeyString s => Str s
  | KeyNumber n => Number (f64_of_Z n)
  | KeyBool b => Bool b
  end.

(** ** The printer *)

Definition show_bool (b : bool) : rstring := if b then str "true" else str "false".
Definition show_int (n : Z) : rstring := if n <? 0 then str "-" ++ show_nat (- n) else show_nat n.

Definition show_key (k : RispKey) : rstring :=
  match k with
  | KeyString s => [QUOTE] ++ s ++ [QUOTE]
  | KeyNumber n => show_int n
  | KeyBool b => show_bool b
  end.

Fixpoint to_string (e : RispExp) : rstring :=
  match e with
  | Bool b => show_bool b
  | Symbol s => s
  | Number n => f64_show n
  | Str s => s
  | List l => [LPAREN] ++ join [SPACE] ((fix go l := match l with [] => [] | x :: l => to_string x :: go l end) l) ++ [RPAREN]
  | Map m =>
    str "{" ++ join (str ", ") ((fix go m := match m with
                                             | [] => []
                                             | (k, v) :: m => (show_key k ++ str ": " ++ to_string v) :: go m
                                             end) m) ++ str "}"
  | Func _ => str "<Function>"
  | Lambda _ _ _ => str "<Lambda>"
  | Syscall cmd => str "<Syscall: [" ++ join (str ", ") cmd ++ str "]>"
  end.
