(* ===== verification/LispTheorems.v ===== *)
(** * The Lisp reader: totality and the print/read round trip *)

From S2P Require Import Prelude Str Float64 BTreeMap Lisp.
#[local] Open Scope Z_scope.

(** ** The parser always answers *)

Lemma parse_atom_no_hang t : parse_atom t ≠ Hang.
Proof. rw /parse_atom. repeat case_match; done. Qed.

(** With the fuel of [parse_fuel] neither function runs out, and what is left of
    the tokens after an expression is a proper part of them. *)
Lemma parse_total n :
  (∀ fuel toks, (length toks ≤ n)%nat → (2 * length toks + 1 ≤ fuel)%nat →
     parse fuel toks ≠ Hang ∧
     ∀ e rest, parse fuel toks = Done (Ok (e, rest)) → (length rest < length toks)%nat) ∧
  (∀ fuel xs res, (length xs ≤ n)%nat → (2 * length xs + 2 ≤ fuel)%nat →
     read_seq fuel xs res ≠ Hang ∧
     ∀ e rest, read_seq fuel xs res = Done (Ok (e, rest)) → (length rest < length xs)%nat).
Proof.
  induction n as [|n [IHp IHs]].
  { split; intros [|fuel] [|t ts] *; simpl; intros; try lia; done. }
  assert (∀ fuel toks, (length toks ≤ S n)%nat → (2 * length toks + 1 ≤ fuel)%nat →
     parse fuel toks ≠ Hang ∧
     ∀ e rest, parse fuel toks = Done (Ok (e, rest)) → (length rest < length toks)%nat) as Hp.
  { intros [|fuel] [|t ts]; simpl; intros Hn Hf; try lia; [done|].
    destruct (bool_decide (t = TOKEN_OPEN)).
    { destruct (IHs fuel ts [] ltac:(lia) ltac:(lia)) as [H1 H2]. split; [done|].
      intros e rest H. specialize (H2 e rest H). lia. }
    destruct (bool_decide (t = TOKEN_CLOSE)); [done|].
    pose proof (parse_atom_no_hang t) as Ha. destruct (parse_atom t) as [a|p|]; [|done..].
    simpl. split; [done|]. intros e rest [= <- <-]. lia. }
  split; [exact Hp|].
  intros [|fuel] [|t ts] res; simpl; intros Hn Hf; try lia; [done|].
  destruct (bool_decide (t = TOKEN_CLOSE)).
  { split; [done|]. intros e rest [= _ <-]. lia. }
  destruct (Hp fuel (t :: ts)) as [H1 H2]; simpl; [lia..|].
  destruct (parse fuel (t :: ts)) as [[[e xs]|err]|p|]; [|done..]. simpl.
  specialize (H2 e xs eq_refl). simpl in H2.
  destruct (IHs fuel xs (res ++ [e])) as [H3 H4]; [lia..|]. split; [done|].
  intros e' rest H. specialize (H4 e' rest H). lia.
Qed.

(** C24. The parser terminates: on every list of tokens [parse] gives an
    expression, an error or a panic, and an expression leaves fewer tokens than
    it was given. *)
Theorem parse_terminates toks :
  parse_tokens toks ≠ Hang ∧
  ∀ e rest, parse_tokens toks = Done (Ok (e, rest)) → (length rest < length toks)%nat.
Proof. destruct (parse_total (length toks)) as [H _]. apply H; rw /parse_fuel; lia. Qed.

(** ** The characters of a token *)

(** A character that is part of a token wherever it stands. *)
Definition token_char (c : Z) : bool :=
  negb ((c =? HASH) || (c =? QUOTE) || (c =? LPAREN) || (c =? RPAREN) || is_whitespace c).

Definition is_token (t : rstring) : Prop := t ≠ [] ∧ Forall (λ c, token_char c = true) t.
#[export] Instance is_token_dec t : Decision (is_token t).
Proof. rw /is_token. apply _. Defined.

(** Outside strings and comments. *)
Definition outside (st : tok_state) : Prop := in_string st = false ∧ in_comment st = false.

(** ... and between two tokens, with [ts] read so far. *)
Definition between (ts : list rstring) : tok_state :=
  {| tokens := ts; current_token := []; in_string := false; in_comment := false |}.

Definition pending (ts : list rstring) (t : rstring) : tok_state :=
  {| tokens := ts; current_token := t; in_string := false; in_comment := false |}.

Lemma tok_step_char ts t c : token_char c = true → tok_step (pending ts t) c = pending ts (t ++ [c]).
Proof.
  rw /token_char /tok_step /=.
  destruct (c =? HASH), (c =? QUOTE), (c =? LPAREN), (c =? RPAREN), (is_whitespace c); done.
Qed.

Lemma tok_token ts t u :
  Forall (λ c, token_char c = true) u → foldl tok_step (pending ts t) u = pending ts (t ++ u).
Proof.
  intros Hu. revert t. induction Hu as [|c u Hc _ IH]; intros t; simpl; [by rw app_nil_r|].
  by rw tok_step_char // IH -assoc.
Qed.

Lemma flush_pending ts t : t ≠ [] → flush (pending ts t) = between (ts ++ [t]).
Proof. by destruct t. Qed.

Lemma outside_pending st : outside st → st = pending (tokens st) (current_token st).
Proof. destruct st as [? ? ? ?]. intros [H1 H2]. simpl in *. by subst. Qed.

Lemma flush_outside st : outside st → outside (flush st).
Proof. intros [H1 H2]. rw /flush. by destruct (current_token st). Qed.

Lemma step_space st : outside st → tok_step st SPACE = flush st.
Proof. intros [H1 H2]. by rw /tok_step H1 H2. Qed.

Lemma step_close st ts :
  outside st → flush st = between ts → tok_step st RPAREN = between (ts ++ [TOKEN_CLOSE]).
Proof. intros [H1 H2] Hf. by rw /tok_step H1 H2 /= Hf. Qed.

(** ** Readable expressions *)

Lemma RispExp_list_ind (P : RispExp → Prop) :
  (∀ l, Forall P l → P (List l)) → (∀ e, (∀ l, e ≠ List l) → P e) → ∀ e, P e.
Proof.
  intros Hl Ho. fix IH 1. intros [b|s|n|s|l|m|f|p bd c|cmd]; try by apply Ho.
  apply Hl. induction l as [|x l IHl]; constructor; [apply IH|exact IHl].
Qed.

(** An atom that reads back from its printed form. *)
Definition readable_atom (e : RispExp) : Prop :=
  is_token (to_string e) ∧ parse_atom (to_string e) = Done e.

(** Lists of readable atoms, nested. *)
Fixpoint readable (e : RispExp) : Prop :=
  match e with
  | List l => (fix go l := match l with [] => True | x :: l => readable x ∧ go l end) l
  | _ => readable_atom e
  end.

Lemma readable_list l : readable (List l) ↔ Forall readable l.
Proof.
  induction l as [|x l IH]; [by split|]. simpl. rw Forall_cons -IH. done.
Qed.

Lemma readable_other e : (∀ l, e ≠ List l) → readable e → readable_atom e.
Proof. destruct e; try done. intros H. by destruct (H l). Qed.

(** The tokens of an expression. *)
Fixpoint toks (e : RispExp) : list rstring :=
  match e with
  | List l => [TOKEN_OPEN] ++ (fix go l := match l with [] => [] | x :: l => toks x ++ go l end) l ++ [TOKEN_CLOSE]
  | _ => [to_string e]
  end.

Definition toks_all (l : list RispExp) : list rstring := mjoin (toks <$> l).

Lemma toks_list l : toks (List l) = [TOKEN_OPEN] ++ toks_all l ++ [TOKEN_CLOSE].
Proof. simpl. do 2 f_equal. induction l as [|x l IH]; [done|]. by rw IH. Qed.

Lemma to_string_list l : to_string (List l) = [LPAREN] ++ join [SPACE] (to_string <$> l) ++ [RPAREN].
Proof. reflexivity. Qed.

Lemma toks_other e : (∀ l, e ≠ List l) → toks e = [to_string e].
Proof. destruct e; try done. intros H. by destruct (H l). Qed.

(** ** Tokenizing what was printed *)

Definition prints (e : RispExp) : Prop :=
  ∀ ts, outside (foldl tok_step (between ts) (to_string e)) ∧
        flush (foldl tok_step (between ts) (to_string e)) = between (ts ++ toks e).

Lemma prints_seq l ts :
  Forall prints l →
  outside (foldl tok_step (between ts) (join [SPACE] (to_string <$> l))) ∧
  flush (foldl tok_step (between ts) (join [SPACE] (to_string <$> l))) = between (ts ++ toks_all l).
Proof.
  intros Hl. revert ts. induction Hl as [|e l He Hl IH]; intros ts; [by rw app_nil_r|].
  destruct l as [|e' l]; [rw /toks_all /= app_nil_r; apply He|].
  change (join [SPACE] (to_string <$> e :: e' :: l))
    with (to_string e ++ [SPACE] ++ join [SPACE] (to_string <$> e' :: l)).
  destruct (He ts) as [Ho Hf]. rw !foldl_app. set (st := foldl _ _ (to_string e)) in *.
  change (foldl tok_step st [SPACE]) with (tok_step st SPACE). rw step_space // Hf.
  change (toks_all (e :: e' :: l)) with (toks e ++ toks_all (e' :: l)). rw assoc. apply IH.
Qed.

Lemma readable_prints e : readable e → prints e.
Proof.
  induction e as [l IH|e He] using RispExp_list_ind; intros Hr ts.
  - rw readable_list in Hr. rw to_string_list toks_list !foldl_app.
    change (foldl tok_step (between ts) [LPAREN]) with (between (ts ++ [TOKEN_OPEN])).
    set (st := foldl tok_step (between (ts ++ [TOKEN_OPEN])) (join [SPACE] (to_string <$> l))).
    change (foldl tok_step st [RPAREN]) with (tok_step st RPAREN).
    assert (Forall prints l) as Hp.
    { apply Forall_forall. intros x Hx. rw !Forall_forall in IH Hr. auto. }
    destruct (prints_seq l (ts ++ [TOKEN_OPEN]) Hp) as [Ho Hf].
    rw (step_close _ _ Ho Hf) -!assoc. done.
  - destruct (readable_other e He Hr) as [[Hne Ht] _]. rw toks_other //.
    change (between ts) with (pending ts []). rw tok_token //. split; [done|].
    by apply flush_pending.
Qed.

(** ** Parsing the tokens back *)

Lemma is_token_not_paren t : is_token t → t ≠ TOKEN_OPEN ∧ t ≠ TOKEN_CLOSE.
Proof. intros [_ Ht]. split; intros ->; by apply Forall_cons in Ht as [? _]. Qed.

Definition reads (e : RispExp) : Prop := ∀ fuel rest,
  (2 * length (toks e) ≤ fuel)%nat → parse fuel (toks e ++ rest) = Done (Ok (e, rest)).

Lemma toks_head e : readable e → ∃ t ts, toks e = t :: ts ∧ t ≠ TOKEN_CLOSE.
Proof.
  destruct e; try (intros [Ht _]; eexists _, []; split; [done|by apply is_token_not_paren]).
  intros _. rw toks_list. by eexists TOKEN_OPEN, _.
Qed.

Lemma read_seq_back l : Forall reads l → Forall readable l → ∀ fuel res rest,
  (2 * length (toks_all l) + 1 ≤ fuel)%nat →
  read_seq fuel (toks_all l ++ TOKEN_CLOSE :: rest) res = Done (Ok (List (res ++ l), rest)).
Proof.
  induction 1 as [|e l He _ IH]; intros Hr fuel res rest Hf.
  { destruct fuel; [simpl in Hf; lia|]. by rw app_nil_r. }
  apply Forall_cons in Hr as [Hre Hr]. destruct fuel as [|fuel]; [lia|].
  change (toks_all (e :: l)) with (toks e ++ toks_all l) in Hf |- *. rw length_app in Hf.
  destruct (toks_head e Hre) as (t & ts & Et & Ht).
  assert (1 ≤ length (toks e))%nat as Hl by (rw Et /=; lia).
  rw -assoc. rw {1}Et. simpl. rw bool_decide_false //.
  change (t :: ts ++ toks_all l ++ TOKEN_CLOSE :: rest) with ((t :: ts) ++ toks_all l ++ TOKEN_CLOSE :: rest).
  rw -Et He; [lia|]. simpl. rw IH //; [lia|]. by rw -assoc.
Qed.

Lemma readable_reads e : readable e → reads e.
Proof.
  induction e as [l IH|e He] using RispExp_list_ind; intros Hr fuel rest Hf.
  - rw readable_list in Hr. rw toks_list in Hf |- *. rw !length_app /= in Hf.
    destruct fuel as [|fuel]; [lia|]. simpl. rw -assoc.
    rw (read_seq_back l) //; [|lia].
    apply Forall_forall. intros x Hx. rw !Forall_forall in IH Hr. auto.
  - destruct (readable_other e He Hr) as [Ht Ha]. rw toks_other // in Hf |- *.
    destruct fuel as [|fuel]; [simpl in Hf; lia|]. simpl.
    destruct (is_token_not_paren _ Ht). rw !bool_decide_false // Ha. done.
Qed.

(** C25. Reading undoes printing: for every expression built of lists, booleans,
    symbols and numbers whose printed atoms read back as themselves, tokenizing
    and parsing its printed form gives the expression and leaves nothing. *)
Theorem print_read_roundtrip e :
  readable e → parse_tokens (tokenize (to_string e)) = Done (Ok (e, [])).
Proof.
  intros Hr. destruct (readable_prints e Hr []) as [_ Hf].
  assert (tokenize (to_string e) = toks e) as ->.
  { rw /tokenize. change tok_start with (between []). by rw Hf. }
  rw /parse_tokens /parse_fuel -{2}(app_nil_r (toks e)). by rw (readable_reads e Hr); [lia|].
Qed.

(** An unfinished string panics the kernel: a call whose last token is a lone
    quotation mark, as every string literal with a semicolon leaves behind when
    the program is cut into statements, panics in [parse_atom]. *)
Theorem lone_quote_panics atoms :
  Forall (λ t, is_token t) atoms →
  parse_tokens (TOKEN_OPEN :: atoms ++ [[QUOTE]]) = Panic PIndex.
Proof.
  intros Ha. rw /parse_tokens.
  assert (∀ fuel res, (2 * length atoms + 2 ≤ fuel)%nat →
    read_seq fuel (atoms ++ [[QUOTE]]) res = Panic PIndex) as Hs.
  { induction Ha as [|t atoms Ht _ IH]; intros fuel res Hf.
    - destruct fuel as [|[|fuel]]; [simpl in Hf; lia..|]. done.
    - destruct fuel as [|[|fuel]]; [simpl in Hf; lia..|]. destruct (is_token_not_paren t Ht).
      simpl in Hf |- *. rw !bool_decide_false //. pose proof (parse_atom_no_hang t) as Hh.
      assert (∃ a, parse_atom t = Done a) as [a ->].
      { destruct Ht as [Hne Ht]. rw /parse_atom. repeat case_match; eauto.
        destruct t as [|c [|c' t]]; [done|..]; simpl in *; [|done].
        apply Forall_cons in Ht as [Hc _]. revert Hc. rw /token_char.
        by destruct (c =? QUOTE); [rw orb_true_r|]. }
      change (read_seq (S fuel) (atoms ++ [[QUOTE]]) (res ++ [a]) = Panic PIndex). apply IH. lia. }
  rw /parse_fuel. simpl. rw Hs //. rw length_app /=. lia.
Qed.

(** ** Witnesses *)

(** [(def x (quote (a 2.5 true ())))] *)
Definition demo_exp : RispExp :=
  List [Symbol (str "def"); Symbol (str "x");
        List [Symbol (str "quote"); List [Symbol (str "a"); Number (f64_div (f64_of_Z 5) (f64_of_Z 2));
                                           Bool true; List []]]].

Ltac atom := split; [refine (bool_decide_unpack _ _); vm_compute; exact I|vm_compute; reflexivity].

Ltac atoms := repeat lazymatch goal with
  | |- readable (List _) => apply readable_list
  | |- readable ?e => change (readable_atom e); atom
  | |- Forall _ [] => apply Forall_nil_2
  | |- Forall _ (_ :: _) => apply Forall_cons_2
  end.

Lemma demo_readable : readable demo_exp.
Proof. unfold demo_exp. atoms. Qed.

Lemma print_read_roundtrip_witness :
  parse_tokens (tokenize (str "(def x (quote (a 2.5 true ())))")) = Done (Ok (demo_exp, [])).
Proof. apply (print_read_roundtrip demo_exp demo_readable). Defined.

Lemma lone_quote_panics_witness :
  parse_tokens (tokenize (str "(sys echo " ++ [QUOTE])) = Panic PIndex.
Proof.
  apply (lone_quote_panics [str "sys"; str "echo"]).
  repeat constructor; try done.
Defined.
