(* ===== verification/LispEval.v ===== *)
(** * The Lisp evaluator: src/src/parser.rs

    [eval] mutates its environment and runs shell commands; it is a computation
    on the pair of the environment and the rest of the machine [W].  [fuel]
    bounds the recursion depth and the iterations of a loop; a computation that
    needs more is not distinguished from one that does not end. *)

From S2P Require Import Prelude Str Float64 BTreeMap Lisp.
#[local] Open Scope Z_scope.

(** ** Built-in functions *)

Definition parse_single_float (exp : RispExp) : result f64 rstring :=
  match exp with
  | Number num => Ok num
  | _ => Err (str "expected a number")
  end.

(** [iter().map(f).collect::<Result<Vec<_>, _>>()]: the first error wins. *)
Fixpoint collect {A B E} (f : A → result B E) (l : list A) : result (list B) E :=
  match l with
  | [] => Ok []
  | x :: l =>
    match f x with
    | Err e => Err e
    | Ok y => match collect f l with Ok ys => Ok (y :: ys) | Err e => Err e end
    end
  end.

Definition parse_list_of_floats (args : list RispExp) : result (list f64) rstring :=
  collect parse_single_float args.

(** The [?] operator in a function that may also panic. *)
Definition or_return {A B} (r : result A rstring) (k : A → outcome (result B rstring)) : outcome (result B rstring) :=
  match r with Ok a => k a | Err e => Done (Err e) end.
#[local] Notation "x '←!' r ; k" := (or_return r (λ x, k)) (at level 100, r at next level, k at level 200, right associativity).

(** [.first().ok_or(msg)] *)
Definition first_or {A} (l : list A) (msg : rstring) : result A rstring :=
  match head l with Some x => Ok x | None => Err msg end.

(** [l[1..]] *)
Definition rest_of {A} (l : list A) : outcome (list A) := slice l 1 (zlen l).

Definition ONE_NUMBER : rstring := str "expected at least one number".

(** The function [f] of [ensure_tonicity!]: the check holds between neighbours. *)
Fixpoint monotone (fuel : nat) (check : f64 → f64 → bool) (prev : f64) (xs : list f64) : outcome bool :=
  match fuel with
  | O => Hang
  | S fuel =>
    match head xs with
    | Some x => if check prev x then xs ← rest_of xs; monotone fuel check x xs else Done false
    | None => Done true
    end
  end.

Definition ensure_tonicity (check : f64 → f64 → bool) (args : list RispExp) : outcome (result RispExp rstring) :=
  floats ←! parse_list_of_floats args;
  first ←! first_or floats ONE_NUMBER;
  rest ← rest_of floats;
  b ← monotone (S (length rest)) check first rest;
  Done (Ok (Bool b)).

(** The length of a vector, at most [isize::MAX], as [i64]. *)
Definition len_i64 {A} (l : list A) : Z := Z.min (zlen l) i64_max.

(** [!!]: a list by position, counted from the end when negative, or a map by
    key, with the empty string for a missing key. *)
Definition builtin_index (args : list RispExp) : outcome (result RispExp rstring) :=
  if negb (zlen args =? 2) then Done (Err (str "!! requires exactly 2 arguments"))
  else
    collection ← idx args 0;
    index_exp ← idx args 1;
    match collection with
    | List l =>
      idx_f ←! parse_single_float index_exp;
      let i := f64_to_i64 idx_f in
      i ← (if i <? 0 then chk_i (len_i64 l + i) else Done i);
      if (0 <=? i) && (i <? zlen l) then v ← idx l i; Done (Ok v)
      else Done (Err (str "index out of bounds"))
    | Map m =>
      key ←! exp_to_key index_exp;
      Done (Ok (default (Str []) (bt_get key m)))
    | _ => Done (Err (str "!! only works on lists, strings, and maps"))
    end.

(** The loop of [map]: [args[i]] is a key, [args[i + 1]] its value. *)
Fixpoint map_loop (fuel : nat) (args : list RispExp) (i : Z) (m : list (RispKey * RispExp)) : outcome (result RispExp rstring) :=
  match fuel with
  | O => Hang
  | S fuel =>
    if i <? zlen args then
      k ← idx args i;
      key ←! exp_to_key k;
      v ← idx args (i + 1);
      map_loop fuel args (i + 2) (bt_insert key v m)
    else Done (Ok (Map m))
  end.

Definition builtin_map (args : list RispExp) : outcome (result RispExp rstring) :=
  if negb (zlen args mod 2 =? 0) then Done (Err (str "map requires an even number of arguments"))
  else map_loop (S (length args)) args 0 [].

Definition builtin_mkeys (args : list RispExp) : result RispExp rstring :=
  match args with
  | [] => Err (str "mkeys requires 1 argument")
  | Map m :: _ => Ok (List (key_to_exp <$> bt_keys m))
  | _ => Err (str "mkeys only works on maps")
  end.

Definition builtin_len (args : list RispExp) : result RispExp rstring :=
  match args with
  | [] => Err (str "len requires 1 argument")
  | List l :: _ => Ok (Number (f64_of_Z (zlen l)))
  | Str s :: _ => Ok (Number (f64_of_Z (str_len s)))
  | _ => Err (str "len only works on lists and strings")
  end.

Definition apply_builtin (f : Builtin) (args : list RispExp) : outcome (result RispExp rstring) :=
  match f with
  | FAdd =>
    floats ←! parse_list_of_floats args;
    Done (Ok (Number (foldl f64_add f64_zero floats)))
  | FSub =>
    floats ←! parse_list_of_floats args;
    first ←! first_or floats ONE_NUMBER;
    rest ← rest_of floats;
    Done (Ok (Number (f64_sub first (foldl f64_add f64_zero rest))))
  | FEq => ensure_tonicity f64_eqb args
  | FNe => ensure_tonicity (λ a b, negb (f64_eqb a b)) args
  | FGt => ensure_tonicity (λ a b, f64_ltb b a) args
  | FGe => ensure_tonicity (λ a b, f64_leb b a) args
  | FLt => ensure_tonicity f64_ltb args
  | FLe => ensure_tonicity f64_leb args
  | FMul =>
    floats ←! parse_list_of_floats args;
    Done (Ok (Number (foldl f64_mul f64_one floats)))
  | FDiv =>
    floats ←! parse_list_of_floats args;
    first ←! first_or floats ONE_NUMBER;
    rest ← rest_of floats;
    Done (Ok (Number (foldl f64_div first rest)))
  | FAnd =>
    floats ←! parse_list_of_floats args;
    first ←! first_or floats ONE_NUMBER;
    rest ← rest_of floats;
    Done (Ok (Number (f64_of_Z (foldl (λ acc a, Z.land acc (f64_to_i64 a)) (f64_to_i64 first) rest))))
  | FList => Done (Ok (List args))
  | FLen => Done (builtin_len args)
  | FIndex => builtin_index args
  | FMap => builtin_map args
  | FMkeys => Done (builtin_mkeys args)
  end.

Definition env_insert_all (l : list (rstring * RispExp)) (env : RispEnv) : RispEnv :=
  foldl (λ env '(k, v), bt_insert k v env) env l.

Definition default_env : RispEnv :=
  env_insert_all
    [ (str "+", Func FAdd); (str "-", Func FSub); (str "=", Func FEq); (str "!=", Func FNe);
      (str ">", Func FGt); (str ">=", Func FGe); (str "<", Func FLt); (str "<=", Func FLe);
      (str "*", Func FMul); (str "/", Func FDiv); (str "&", Func FAnd); (str "list", Func FList);
      (str "[]", List []); (str "len", Func FLen); (str "!!", Func FIndex); (str "map", Func FMap);
      (str "mkeys", Func FMkeys) ] [].

Definition env_get (k : rstring) (env : RispEnv) : option RispExp := bt_get k env.

(** ** Lambdas *)

Definition parse_list_of_symbol_strings (form : RispExp) : result (list rstring) rstring :=
  match form with
  | List l => collect (λ x, match x with
                            | Symbol s => Ok s
                            | _ => Err (str "expected symbols in the argument list")
                            end) l
  | _ => Err (str "expected args form to be a list")
  end.

Definition env_for_lambda (params : RispExp) (evaluated_args : list RispExp) (outer_env : RispEnv)
    : result RispEnv rstring :=
  match parse_list_of_symbol_strings params with
  | Err e => Err e
  | Ok ks =>
    if negb (length ks =? length evaluated_args)%nat then
      Err (str "expected " ++ show_nat (zlen ks) ++ str " arguments, got " ++ show_nat (zlen evaluated_args))
    else Ok (env_insert_all (zip ks evaluated_args) outer_env)
  end.

Definition eval_lambda_args (arg_forms : list RispExp) (captured_env : RispEnv) : result RispExp rstring :=
  match arg_forms with
  | [] => Err (str "expected args form")
  | [_] => Err (str "expected second form")
  | [params_exp; body_exp] => Ok (Lambda params_exp body_exp captured_env)
  | _ => Err (str "fn definition can only have two forms ")
  end.

(** [env.clone()] overlaid with the captured environment. *)
Definition merge_env (env captured : RispEnv) : RispEnv := env_insert_all captured env.

(** ** Running commands *)

Record Success := { success_code : rstring; print_code : bool }.

(** The outcome of [run_cmd] and, when it finds the command, of its future. *)
Inductive CmdResult :=
  | LookupFailed (error_code : rstring)
  | CmdFailed (error_code : rstring)
  | CmdOk (s : Success).

(** The text of an argument of [sys]. *)
Definition cmd_part (arg : RispExp) : result rstring rstring :=
  match arg with
  | Symbol s => Ok s
  | Number n => Ok (f64_show n)
  | Bool b => Ok (show_bool b)
  | Str s => Ok s
  | List _ | Map _ => Ok (to_string arg)
  | _ => Err (str "sys args must evaluate to symbols, numbers, bools, strings, lists, or maps")
  end.

(** ** The evaluator *)

Section eval.
Context {W : Type} `{!Console W}.
Context (run_cmd : list rstring → proc W CmdResult).

(** A computation that can fail with a [RispErr::Reason]. *)
Definition ev (A : Type) : Type := proc (RispEnv * W) (result A rstring).

Definition of_result {A} (r : result A rstring) : ev A := λ s, Done (r, s).
Definition ok {A} (a : A) : ev A := of_result (Ok a).
Definition fail {A} (e : rstring) : ev A := of_result (Err e).
(** The [?] operator. *)
Definition try_bind {A B} (m : ev A) (k : A → ev B) : ev B := λ s,
  match m s with
  | Done (Ok a, s) => k a s
  | Done (Err e, s) => Done (Err e, s)
  | Panic e => Panic e
  | Hang => Hang
  end.
Notation "x '←?' m ; k" := (try_bind m (λ x, k)) (at level 100, m at next level, k at level 200, right associativity).

Definition lift_outcome {A} (o : outcome (result A rstring)) : ev A := λ s,
  match o with
  | Done r => Done (r, s)
  | Panic e => Panic e
  | Hang => Hang
  end.

(** A step that may panic. *)
Definition may_panic {A} (o : outcome A) : ev A := lift_outcome (o ≫= λ a, Done (Ok a)).

Definition get_env : ev RispEnv := λ '(env, w), Done (Ok env, (env, w)).
Definition def_var (k : rstring) (v : RispExp) : ev unit := λ '(env, w), Done (Ok tt, (bt_insert k v env, w)).
Definition on_world {A} (p : proc W A) : ev A := λ '(env, w),
  match p w with
  | Done (a, w) => Done (Ok a, (env, w))
  | Panic e => Panic e
  | Hang => Hang
  end.
(** Run in another environment and come back to the current one. *)
Definition in_env {A} (env' : RispEnv) (m : ev A) : ev A := λ '(env, w),
  match m (env', w) with
  | Done (r, (_, w)) => Done (r, (env, w))
  | Panic e => Panic e
  | Hang => Hang
  end.

Section forms.
(** The evaluator the forms call for their parts. *)
Context (eval : RispExp → ev RispExp).

(** [for arg in arg_forms { evaluated_args.push(eval(arg, env).await?) }] *)
Fixpoint eval_all (args : list RispExp) : ev (list RispExp) :=
  match args with
  | [] => ok []
  | a :: args => v ←? eval a; vs ←? eval_all args; ok (v :: vs)
  end.

(** [arg_forms.get(i).ok_or(msg)?] *)
Definition get_form (args : list RispExp) (i : nat) (msg : rstring) : ev RispExp :=
  match args !! i with Some f => ok f | None => fail msg end.

Definition eval_if (args : list RispExp) : ev RispExp :=
  test_form ←? get_form args 0 (str "expected test form");
  test_eval ←? eval test_form;
  match test_eval with
  | Bool b =>
    let form_idx := if b then 1%nat else 2%nat in
    res_form ←? get_form args form_idx (str "expected form idx=" ++ show_nat (Z.of_nat form_idx));
    eval res_form
  | _ => fail (str "unexpected test form='" ++ to_string test_form ++ str "'")
  end.

(** A form that must be a symbol. *)
Definition symbol_form (f : RispExp) (msg : rstring) : ev rstring :=
  match f with Symbol s => ok s | _ => fail msg end.

Definition eval_def (args : list RispExp) : ev RispExp :=
  first ←? get_form args 0 (str "expected first form");
  first_str ←? symbol_form first (str "expected first form to be a symbol");
  second_form ←? get_form args 1 (str "expected second form");
  if (2 <? length args)%nat then fail (str "def can only have two forms ")
  else
    second_eval ←? eval second_form;
    _ ←? def_var first_str second_eval;
    may_panic (idx args 0).

Definition eval_fn (args : list RispExp) : ev RispExp :=
  env ←? get_env;
  of_result (eval_lambda_args args env).

Definition eval_sys (args : list RispExp) : ev RispExp :=
  match args with
  | [] => fail (str "sys expects at least one argument")
  | _ =>
    evaluated_args ←? eval_all args;
    cmd_vec ←? of_result (collect cmd_part evaluated_args);
    r ←? on_world (run_cmd cmd_vec);
    match r with
    | CmdOk success =>
      _ ←? (if print_code success then on_world (println (success_code success)) else ok tt);
      ok (Syscall cmd_vec)
    | CmdFailed e => fail (str "Syscall failed: " ++ e)
    | LookupFailed e => fail (str "Command lookup failed: " ++ e)
    end
  end.

Definition eval_quote (args : list RispExp) : ev RispExp :=
  get_form args 0 (str "expected form to quote").

Fixpoint eval_and (args : list RispExp) : ev RispExp :=
  match args with
  | [] => ok (Bool true)
  | a :: args =>
    res ←? eval a;
    match res with
    | Bool b => if negb b then ok (Bool false) else eval_and args
    | _ => fail (str "and expects booleans")
    end
  end.

Fixpoint eval_or (args : list RispExp) : ev RispExp :=
  match args with
  | [] => ok (Bool false)
  | a :: args =>
    res ←? eval a;
    match res with
    | Bool b => if b then ok (Bool true) else eval_or args
    | _ => fail (str "or expects booleans")
    end
  end.

Fixpoint for_loop (iterations : nat) (condition body : RispExp) : ev RispExp :=
  match iterations with
  | O => λ _, Hang
  | S n =>
    cond_res ←? eval condition;
    match cond_res with
    | Bool true => _ ←? eval body; for_loop n condition body
    | Bool false => ok (Bool false)
    | _ => fail (str "loop condition must be boolean")
    end
  end.

Definition eval_for (iterations : nat) (args : list RispExp) : ev RispExp :=
  condition ←? get_form args 0 (str "expected loop condition");
  body ←? get_form args 1 (str "expected loop body");
  for_loop iterations condition body.

(** The variable a mutating form works on. *)
Definition list_var (sym_name : rstring) : ev (list RispExp) :=
  env ←? get_env;
  match env_get sym_name env with
  | Some (List l) => ok l
  | Some _ => fail (str "'" ++ sym_name ++ str "' is not a list")
  | None => fail (str "undefined variable '" ++ sym_name ++ str "'")
  end.

Definition map_var (sym_name : rstring) : ev (list (RispKey * RispExp)) :=
  env ←? get_env;
  match env_get sym_name env with
  | Some (Map m) => ok m
  | Some _ => fail (str "'" ++ sym_name ++ str "' is not a map")
  | None => fail (str "undefined variable '" ++ sym_name ++ str "'")
  end.

Definition eval_append (args : list RispExp) : ev RispExp :=
  sym_form ←? get_form args 0 (str "expected symbol for append");
  val_form ←? get_form args 1 (str "expected value to append");
  sym_name ←? symbol_form sym_form (str "append requires a variable name (symbol)");
  evaled_val ←? eval val_form;
  current_list ←? list_var sym_name;
  let current_list := current_list ++ [evaled_val] in
  _ ←? def_var sym_name (List current_list);
  ok (List current_list).

Definition eval_pop (args : list RispExp) : ev RispExp :=
  sym_form ←? get_form args 0 (str "expected symbol for pop");
  sym_name ←? symbol_form sym_form (str "pop requires a variable name (symbol)");
  current_list ←? list_var sym_name;
  match last current_list with
  | None => fail (str "cannot pop from an empty list")
  | Some popped_val =>
    _ ←? def_var sym_name (List (removelast current_list));
    ok popped_val
  end.

Definition eval_mset (args : list RispExp) : ev RispExp :=
  sym_form ←? get_form args 0 (str "expected symbol for mset");
  key_form ←? get_form args 1 (str "expected key for mset");
  val_form ←? get_form args 2 (str "expected value for mset");
  sym_name ←? symbol_form sym_form (str "mset requires a variable name (symbol)");
  evaled_key ←? eval key_form;
  key ←? of_result (exp_to_key evaled_key);
  evaled_val ←? eval val_form;
  current_map ←? map_var sym_name;
  _ ←? def_var sym_name (Map (bt_insert key evaled_val current_map));
  ok evaled_val.

Definition eval_mdel (args : list RispExp) : ev RispExp :=
  sym_form ←? get_form args 0 (str "expected symbol for mdel");
  key_form ←? get_form args 1 (str "expected key for mdel");
  sym_name ←? symbol_form sym_form (str "mdel requires a variable name (symbol)");
  evaled_key ←? eval key_form;
  key ←? of_result (exp_to_key evaled_key);
  current_map ←? map_var sym_name;
  _ ←? def_var sym_name (Map (bt_remove key current_map));
  ok (Bool true).

(** [do]: the last value; the empty list when there is no form. *)
Fixpoint eval_do (forms : list RispExp) (last_result : RispExp) : ev RispExp :=
  match forms with
  | [] => ok last_result
  | f :: forms => r ←? eval f; eval_do forms r
  end.

(** Run and drop the result, an error included. *)
Definition ignore {A} (m : ev A) : ev unit := λ s,
  match m s with
  | Done (_, s) => Done (Ok tt, s)
  | Panic e => Panic e
  | Hang => Hang
  end.

Definition eval_error (args : list RispExp) : ev RispExp :=
  msg_form ←? get_form args 0 (str "error requires a message");
  evaled_msg ←? eval msg_form;
  env ←? get_env;
  _ ←? match env_get (str "error") env with
       | Some (Lambda params body captured) =>
         match env_for_lambda params [evaled_msg] (merge_env env captured) with
         | Ok new_env => ignore (in_env new_env (eval body))
         | Err _ => ok tt
         end
       | _ => ok tt
       end;
  fail (match evaled_msg with Str s => s | _ => to_string evaled_msg end).

(** Application of the value of the first form. *)
Definition eval_apply (first_form : RispExp) (args : list RispExp) : ev RispExp :=
  first_eval ←? eval first_form;
  match first_eval with
  | Func f =>
    evaluated_args ←? eval_all args;
    lift_outcome (apply_builtin f evaluated_args)
  | Lambda params body captured =>
    evaluated_args ←? eval_all args;
    env ←? get_env;
    new_env ←? of_result (env_for_lambda params evaluated_args (merge_env env captured));
    in_env new_env (eval body)
  | _ => fail (str "first form must be a function")
  end.
End forms.

(** The names [eval] treats specially in front position. *)
Inductive Special :=
  | SIf | SDef | SFn | SSys | SQuote | SAnd | SOr | SFor | SAppend | SPop | SMset | SMdel | SDo | SError.

Definition specials : list (rstring * Special) :=
  [ (str "if", SIf); (str "def", SDef); (str "fn", SFn); (str "sys", SSys); (str "quote", SQuote);
    (str "and", SAnd); (str "or", SOr); (str "for", SFor); (str "append", SAppend); (str "pop", SPop);
    (str "mset", SMset); (str "mdel", SMdel); (str "do", SDo); (str "error", SError) ].

Definition special_of (form : RispExp) : option Special :=
  match form with
  | Symbol s => snd <$> find (λ e, bool_decide (e.1 = s)) specials
  | _ => None
  end.

Fixpoint eval (fuel : nat) (exp : RispExp) : ev RispExp :=
  match fuel with
  | O => λ _, Hang
  | S fuel =>
    match exp with
    | Bool _ | Number _ | Str _ | Map _ => ok exp
    | Symbol k =>
      env ←? get_env;
      match env_get k env with
      | Some v => ok v
      | None => fail (str "unexpected symbol k='" ++ k ++ str "'")
      end
    | List [] => fail (str "expected a non-empty list")
    | List list =>
      first_form ←? may_panic (unwrap (head list));
      let args := tail list in
      let eval := eval fuel in
      match special_of first_form with
      | Some SIf => eval_if eval args
      | Some SDef => eval_def eval args
      | Some SFn => eval_fn args
      | Some SSys => eval_sys eval args
      | Some SQuote => eval_quote args
      | Some SAnd => eval_and eval args
      | Some SOr => eval_or eval args
      | Some SFor => eval_for eval fuel args
      | Some SAppend => eval_append eval args
      | Some SPop => eval_pop args
      | Some SMset => eval_mset eval args
      | Some SMdel => eval_mdel eval args
      | Some SDo => eval_do eval args (List [])
      | Some SError => eval_error eval args
      | None => eval_apply eval first_form args
      end
    | Func _ | Lambda _ _ _ | Syscall _ => fail (str "unexpected form")
    end
  end.

(** ** Programs *)

Definition parse_eval (fuel : nat) (expr : rstring) : ev RispExp :=
  p ←? lift_outcome (parse_tokens (tokenize expr));
  eval fuel p.1.

(** The arguments after the program: booleans to [b0], [b1], ..., numbers to
    [n0], [n1], ...; anything else is dropped. *)
Fixpoint bind_args (args : list rstring) (b_count n_count : Z) (env : RispEnv) : RispEnv :=
  match args with
  | [] => env
  | a :: args =>
    if bool_decide (a = str "true") || bool_decide (a = str "false") then
      bind_args args (b_count + 1) n_count
        (bt_insert (str "b" ++ show_nat b_count) (Bool (bool_decide (a = str "true"))) env)
    else match f64_parse a with
         | Some v => bind_args args b_count (n_count + 1)
                       (bt_insert (str "n" ++ show_nat n_count) (Number v) env)
         | None => bind_args args b_count n_count env
         end
  end.

(** The environment a program starts in. *)
Definition initial_env (syscalls : list rstring) (args : list rstring) : RispEnv :=
  let env := env_insert_all ((λ call, (call, Symbol call)) <$> syscalls) default_env in
  let env := env_insert_all [(str "n0", Number f64_zero); (str "b0", Bool false);
                             (str "n1", Number f64_zero); (str "b1", Bool false)] env in
  bind_args args 0 0 env.

(** The statements run in order, whatever fails; the last error is kept. *)
Fixpoint run_statements (fuel : nat) (codes : list rstring) (error : option rstring)
    : proc (RispEnv * W) (option rstring) :=
  match codes with
  | [] => λ s, Done (error, s)
  | code :: codes => λ s,
    match parse_eval fuel code s with
    | Done (Ok _, s) => run_statements fuel codes error s
    | Done (Err msg, s) => run_statements fuel codes (Some msg) s
    | Panic e => Panic e
    | Hang => Hang
    end
  end.

Definition SEMICOLON : Z := 59.
Definition error_prelude : rstring := str "(def error (fn (s) (sys echo s)))".

(** The part of [interpret] after the environment is set up. *)
Definition run_program (fuel : nat) (env : RispEnv) (program : rstring) : proc W (result Success rstring) := λ w,
  match ignore (parse_eval fuel error_prelude) (env, w) with
  | Done (_, (env, w)) =>
    match removelast (split_char SEMICOLON program) with
    | [] => Done (Err (str "statements must end with a semicolon"), w)
    | codes =>
      match run_statements fuel codes None (env, w) with
      | Done (None, (_, w)) => Done (Ok {| success_code := str "worked"; print_code := false |}, w)
      | Done (Some msg, (_, w)) => Done (Err msg, w)
      | Panic e => Panic e
      | Hang => Hang
      end
    end
  | Panic e => Panic e
  | Hang => Hang
  end.

Definition interpret (get_command_list : proc W (list rstring)) (fuel : nat) (expr : list rstring)
    : proc W (result Success rstring) :=
  if zlen expr <? 2 then mret (Err (str "expected at least two params"))
  else
    syscalls ← get_command_list;
    program ← lift (idx expr 1);
    run_program fuel (initial_env syscalls (drop 2 expr)) program.
End eval.
