(* ===== verification/LispEvalTheorems.v ===== *)
(** * The Lisp evaluator: fuel, safety, scoping and the data structures *)

From S2P Require Import Prelude Str Float64 BTreeMap Lisp LispEval.
#[local] Open Scope Z_scope.

(** ** Fuel *)

Section mono.
Context {W : Type}.

(** Wherever [m1] answers, [m2] gives the same answer. *)
Definition mono {A} (m1 m2 : ev (W := W) A) : Prop := ∀ s, m1 s ≠ Hang → m2 s = m1 s.

Lemma mono_refl {A} (m : ev (W := W) A) : mono m m.
Proof. done. Qed.

Lemma mono_hang {A} (m : ev (W := W) A) : mono (λ _, Hang) m.
Proof. by intros s H. Qed.

Lemma mono_try_bind {A B} (m1 m2 : ev (W := W) A) (k1 k2 : A → ev (W := W) B) :
  mono m1 m2 → (∀ a, mono (k1 a) (k2 a)) → mono (try_bind m1 k1) (try_bind m2 k2).
Proof.
  intros Hm Hk s. rw /try_bind. specialize (Hm s). destruct (m1 s) as [[[a|e] s']|p|] eqn:E; intros H.
  - rw Hm //. by apply Hk.
  - by rw Hm.
  - by rw Hm.
  - done.
Qed.

Lemma mono_in_env {A} env (m1 m2 : ev (W := W) A) : mono m1 m2 → mono (in_env env m1) (in_env env m2).
Proof.
  intros Hm [e w]. rw /in_env. specialize (Hm (env, w)).
  destruct (m1 (env, w)) as [[r [? ?]]|p|]; intros H; rw ?Hm //.
Qed.

Lemma mono_ignore {A} (m1 m2 : ev (W := W) A) : mono m1 m2 → mono (ignore m1) (ignore m2).
Proof.
  intros Hm s. rw /ignore. specialize (Hm s). destruct (m1 s) as [[r s']|p|]; intros H; rw ?Hm //.
Qed.
End mono.

Create HintDb lisp.
#[export] Hint Resolve mono_refl mono_hang mono_in_env mono_ignore : lisp.

(** One step of a monotonicity goal: the head of a bind, a case split, or the
    hypothesis on the parts. *)
Ltac mono_step :=
  lazymatch goal with
  | |- mono (try_bind _ _) (try_bind _ _) => apply mono_try_bind; [|intros]
  | |- mono (match ?x with _ => _ end) (match ?x with _ => _ end) => destruct x
  | |- mono _ _ => first [solve [eauto with lisp] | done]
  end.
Ltac mono_tac := repeat mono_step.

Section mono_forms.
Context {W : Type} `{!Console W} (run_cmd : list rstring → proc W CmdResult).
Context (ev1 ev2 : RispExp → ev (W := W) RispExp) (Hev : ∀ e, mono (ev1 e) (ev2 e)).

Lemma mono_eval_all args : mono (eval_all ev1 args) (eval_all ev2 args).
Proof. induction args as [|a args IH]; simpl; mono_tac. Qed.
Lemma mono_and args : mono (eval_and ev1 args) (eval_and ev2 args).
Proof. induction args as [|a args IH]; simpl; mono_tac. Qed.
Lemma mono_or args : mono (eval_or ev1 args) (eval_or ev2 args).
Proof. induction args as [|a args IH]; simpl; mono_tac. Qed.
Lemma mono_do forms r : mono (eval_do ev1 forms r) (eval_do ev2 forms r).
Proof. revert r. induction forms as [|f forms IH]; intros r; simpl; mono_tac. Qed.
Lemma mono_for_loop n m c b : (n ≤ m)%nat → mono (for_loop ev1 n c b) (for_loop ev2 m c b).
Proof.
  revert m. induction n as [|n IH]; intros m Hm; [apply mono_hang|].
  destruct m as [|m]; [lia|]. simpl. mono_tac. apply IH. lia.
Qed.
End mono_forms.
#[export] Hint Resolve mono_eval_all mono_and mono_or mono_do mono_for_loop : lisp.

Section eval_mono.
Context {W : Type} `{!Console W} (run_cmd : list rstring → proc W CmdResult).

Lemma eval_mono n m e : (n ≤ m)%nat → mono (eval run_cmd n e) (eval run_cmd m e).
Proof.
  revert m e. induction n as [|n IH]; intros m e Hnm; [apply mono_hang|].
  destruct m as [|m]; [lia|]. assert (n ≤ m)%nat as Hle by lia.
  assert (∀ e, mono (eval run_cmd n e) (eval run_cmd m e)) as Hev by (intros; by apply IH).
  destruct e as [b|s|x|s|[|f args]|mp|g|p bd c|cmd]; try apply mono_refl. simpl.
  destruct (special_of f) as [[]|]; rw /eval_if /eval_def /eval_sys /eval_for /eval_append
    /eval_mset /eval_mdel /eval_error /eval_apply; mono_tac.
Qed.
End eval_mono.

(** ** Well-formed values *)

(** Every map and every captured environment, at any depth, is in key order. *)
Fixpoint wf_exp (e : RispExp) : Prop :=
  match e with
  | List l => (fix go l := match l with [] => True | x :: l => wf_exp x ∧ go l end) l
  | Map m => bt_sorted m ∧ (fix go m := match m with [] => True | (_, v) :: m => wf_exp v ∧ go m end) m
  | Lambda p b env =>
    wf_exp p ∧ wf_exp b ∧ bt_sorted env ∧
    (fix go m := match m with [] => True | (_, v) :: m => wf_exp v ∧ go m end) env
  | _ => True
  end.

Definition wf_vals {K} (m : list (K * RispExp)) : Prop := Forall (λ e, wf_exp e.2) m.
Definition wf_env (env : RispEnv) : Prop := bt_sorted env ∧ wf_vals env.
Definition wf_map (m : list (RispKey * RispExp)) : Prop := bt_sorted m ∧ wf_vals m.

Lemma wf_list l : wf_exp (List l) ↔ Forall wf_exp l.
Proof. induction l as [|x l IH]; [by split|]. simpl. rw Forall_cons -IH. done. Qed.

Lemma wf_vals_fix {K} (m : list (K * RispExp)) :
  (fix go m := match m with [] => True | (_, v) :: m => wf_exp v ∧ go m end) m ↔ wf_vals m.
Proof. rw /wf_vals. induction m as [|[k v] m IH]; [by split|]. rw Forall_cons -IH. done. Qed.

Lemma wf_map_exp m : wf_exp (Map m) ↔ wf_map m.
Proof. rw /wf_map -(wf_vals_fix m). done. Qed.

Lemma wf_lambda p b env : wf_exp (Lambda p b env) ↔ wf_exp p ∧ wf_exp b ∧ wf_env env.
Proof. rw /wf_env -(wf_vals_fix env). done. Qed.

Section vals.
Context {K : Type} `{!Compare K, !TotalOrd K}.
Implicit Types (m : list (K * RispExp)).

Lemma wf_vals_insert k v m : wf_exp v → wf_vals m → wf_vals (bt_insert k v m).
Proof.
  intros Hv. induction 1 as [|[k1 v1] m H1 Hm IH]; simpl; [by constructor|].
  destruct (kcmp k k1); constructor; try done; by constructor.
Qed.

Lemma wf_vals_remove k m : wf_vals m → wf_vals (bt_remove k m).
Proof.
  induction 1 as [|[k1 v1] m H1 Hm IH]; simpl; [constructor|]. destruct (kcmp k k1); [done|by constructor..].
Qed.

Lemma wf_vals_get k m v : wf_vals m → bt_get k m = Some v → wf_exp v.
Proof.
  induction 1 as [|[k1 v1] m H1 Hm IH]; simpl; [done|]. destruct (kcmp k k1); naive_solver.
Qed.
End vals.

Lemma wf_env_insert k v env : wf_exp v → wf_env env → wf_env (bt_insert k v env).
Proof. intros Hv [Hs Hw]. split; [by apply bt_sorted_insert|by apply wf_vals_insert]. Qed.

Lemma wf_insert_all l env : wf_vals l → wf_env env → wf_env (env_insert_all l env).
Proof.
  intros Hl. revert env. induction Hl as [|[k v] l Hv _ IH]; intros env He; [done|].
  apply IH. by apply wf_env_insert.
Qed.

Lemma wf_merge env captured : wf_env env → wf_env captured → wf_env (merge_env env captured).
Proof. intros He [_ Hc]. by apply wf_insert_all. Qed.

Lemma wf_zip (ks : list rstring) vs : Forall wf_exp vs → wf_vals (zip ks vs).
Proof.
  intros Hv. revert ks. induction Hv as [|v vs Hv _ IH]; intros [|k ks]; simpl; try constructor; [done|].
  apply IH.
Qed.

Lemma wf_env_for_lambda params args env env' :
  Forall wf_exp args → wf_env env → env_for_lambda params args env = Ok env' → wf_env env'.
Proof.
  intros Ha He. rw /env_for_lambda. destruct (parse_list_of_symbol_strings params) as [ks|]; [|done].
  destruct (negb _); [done|]. intros [= <-]. apply wf_insert_all; [by apply wf_zip|done].
Qed.

(** ** The built-in functions *)

(** A built-in gives an answer, and a value it returns is well-formed. *)
Definition answers (o : outcome (result RispExp rstring)) : Prop :=
  ∃ r, o = Done r ∧ match r with Ok v => wf_exp v | Err _ => True end.

Lemma answers_err e : answers (Done (Err e)).
Proof. by exists (Err e). Qed.

Lemma answers_ok v : wf_exp v → answers (Done (Ok v)).
Proof. by exists (Ok v). Qed.

Lemma answers_or_return {A} (r : result A rstring) k :
  (∀ a, r = Ok a → answers (k a)) → answers (or_return r k).
Proof. intros Hk. destruct r as [a|e]; [by apply Hk|apply answers_err]. Qed.

Lemma answers_bind {A} (m : outcome A) a k : m = Done a → answers (k a) → answers (m ≫= k).
Proof. by intros ->. Qed.

Lemma rest_of_cons {A} (x : A) l : rest_of (x :: l) = Done l.
Proof.
  rw /rest_of slice_Done; [cbn [length]; lia|done|]. simpl. f_equal. apply take_ge. lia.
Qed.

Lemma first_or_cons {A} (l : list A) msg x : first_or l msg = Ok x → ∃ l', l = x :: l'.
Proof. destruct l as [|y l]; [done|]. intros [= ->]. by exists l. Qed.

(** What follows [.first().ok_or(...)?] may slice from 1 on. *)
Lemma answers_first_rest {A} (l : list A) msg k :
  (∀ x l', l = x :: l' → answers (k x l')) →
  answers (or_return (first_or l msg) (λ x, rest_of l ≫= k x)).
Proof.
  intros Hk. apply answers_or_return. intros x [l' ->]%first_or_cons. rw rest_of_cons. by apply Hk.
Qed.

(** The check between neighbours. *)
Fixpoint chain (check : f64 → f64 → bool) (prev : f64) (xs : list f64) : bool :=
  match xs with
  | [] => true
  | x :: xs => check prev x && chain check x xs
  end.

Lemma monotone_run fuel check prev xs :
  (length xs < fuel)%nat → monotone fuel check prev xs = Done (chain check prev xs).
Proof.
  revert prev xs. induction fuel as [|fuel IH]; intros prev [|x xs] Hl; simpl in *; try lia; [done|].
  destruct (check prev x); [|done]. rw rest_of_cons /=. apply IH. lia.
Qed.

Lemma ensure_tonicity_answers check args : answers (ensure_tonicity check args).
Proof.
  apply answers_or_return. intros floats _. apply answers_first_rest. intros x l ->.
  rw monotone_run; [lia|]. by apply answers_ok.
Qed.

Lemma f64_to_i64_range x : i64_min ≤ f64_to_i64 x ≤ i64_max.
Proof. rw /i64_min /i64_max. destruct x as [|[]| |]; simpl; rw /i64_min /i64_max; lia. Qed.

Lemma idx_lookup {A} (l : list A) i : 0 ≤ i < zlen l → ∃ v, l !! Z.to_nat i = Some v ∧ idx l i = Done v.
Proof.
  intros Hi. destruct (lookup_lt_is_Some_2 l (Z.to_nat i)) as [v Hv]; [lia|].
  exists v. split; [done|]. apply idx_Done; [lia|done].
Qed.

Lemma list_index_answers l x :
  Forall wf_exp l →
  answers (i ← (if f64_to_i64 x <? 0 then chk_i (len_i64 l + f64_to_i64 x) else Done (f64_to_i64 x));
    if (0 <=? i) && (i <? zlen l) then v ← idx l i; Done (Ok v)
    else Done (Err (str "index out of bounds"))).
Proof.
  intros Hl. pose proof (f64_to_i64_range x) as Hr. rw /i64_min /i64_max in Hr.
  assert (∀ i, answers (if (0 <=? i) && (i <? zlen l) then v ← idx l i; Done (Ok v)
    else Done (Err (str "index out of bounds")))) as Hi.
  { intros i. destruct (Z.leb_spec 0 i), (Z.ltb_spec i (zlen l)); simpl; try apply answers_err.
    destruct (idx_lookup l i) as (v & Hv & ->); [lia|]. apply answers_ok. by eapply Forall_lookup_1 in Hl. }
  destruct (Z.ltb_spec (f64_to_i64 x) 0); [|apply Hi].
  rw chk_i_Done; [|apply Hi]. rw /len_i64 /i64_max /isize_min /isize_max. lia.
Qed.

Lemma builtin_index_answers args : Forall wf_exp args → answers (builtin_index args).
Proof.
  intros Ha. rw /builtin_index. destruct (Z.eqb_spec (zlen args) 2) as [Hl|]; [|apply answers_err].
  destruct args as [|c [|i [|]]]; simpl in Hl; try lia. simpl.
  rw !Forall_cons in Ha. destruct Ha as (Hc & _ & _).
  destruct c as [| | | |l|m| | |]; try apply answers_err.
  - apply wf_list in Hc. apply answers_or_return. intros x _. by apply list_index_answers.
  - apply wf_map_exp in Hc. apply answers_or_return. intros key _. apply answers_ok.
    destruct (bt_get key m) as [u|] eqn:E; [|done]. by eapply wf_vals_get; [apply Hc|].
Qed.

Lemma map_loop_answers fuel args i m :
  Forall wf_exp args → wf_map m → zlen args mod 2 = 0 → i mod 2 = 0 → 0 ≤ i ≤ zlen args →
  zlen args - i < Z.of_nat fuel → answers (map_loop fuel args i m).
Proof.
  intros Ha. revert i m. induction fuel as [|fuel IH]; intros i m [Hs Hm] He Hi H0 Hf; simpl; [lia|].
  destruct (Z.ltb_spec i (zlen args)) as [Hlt|]; [|apply answers_ok; by apply wf_map_exp].
  assert (i + 1 < zlen args) as Hlt' by (pose proof (Z.div_mod (zlen args) 2); pose proof (Z.div_mod i 2); lia).
  destruct (idx_lookup args i) as (k & _ & ->); [lia|]. simpl. apply answers_or_return. intros key _.
  destruct (idx_lookup args (i + 1)) as (v & Hv & ->); [lia|]. simpl. apply IH; try lia.
  - split; [by apply bt_sorted_insert|apply wf_vals_insert; [|done]]. by eapply Forall_lookup_1 in Ha.
  - rw Z.add_mod; [lia|]. by rw Hi.
Qed.

(** No built-in panics or fails to return, whatever its arguments. *)
Lemma apply_builtin_answers f args : Forall wf_exp args → answers (apply_builtin f args).
Proof.
  intros Ha. destruct f; rw /apply_builtin; try apply ensure_tonicity_answers.
  1,3: apply answers_or_return; intros; by apply answers_ok.
  1-3: apply answers_or_return; intros floats _; apply answers_first_rest; intros; by apply answers_ok.
  - apply answers_ok. by apply wf_list.
  - destruct args as [|[] args]; by apply answers_ok || apply answers_err.
  - by apply builtin_index_answers.
  - rw /builtin_map. destruct (Z.eqb_spec (zlen args mod 2) 0) as [He|]; [|apply answers_err].
    apply map_loop_answers; try done || lia. split; [done|apply Forall_nil_2].
  - destruct args as [|[| | | | |m| | |] args]; try apply answers_err. apply answers_ok, wf_list.
    apply Forall_fmap, Forall_true. by intros [].
Qed.

(** ** Safety *)

(** A panic of a shell command or of the console, and not of the evaluator. *)
Definition outside {W : Type} `{!Console W} (run_cmd : list rstring → proc W CmdResult) (p : panic) : Prop :=
  (∃ c w, run_cmd c w = Panic p) ∨ (∃ t (w : W), print t w = Panic p).

Section good.
Context {W : Type} `{!Console W} (run_cmd : list rstring → proc W CmdResult).

(** Started in a well-formed environment, [m] panics only as a command or the
    console does, leaves a well-formed environment, and a value it returns
    satisfies [P]. *)
Definition good {A} (P : A → Prop) (m : ev (W := W) A) : Prop := ∀ env w, wf_env env →
  match m (env, w) with
  | Done (r, (env', _)) => wf_env env' ∧ match r with Ok a => P a | Err _ => True end
  | Panic p => outside run_cmd p
  | Hang => True
  end.

Lemma good_of_result {A} (P : A → Prop) r : (∀ a, r = Ok a → P a) → good P (of_result r).
Proof. intros Hr env w He. split; [done|]. destruct r; auto. Qed.

Lemma good_ok {A} (P : A → Prop) a : P a → good P (ok a).
Proof. intros Ha. apply good_of_result. by intros a' [= <-]. Qed.

Lemma good_fail {A} (P : A → Prop) e : good P (fail e).
Proof. by apply good_of_result. Qed.

Lemma good_hang {A} (P : A → Prop) : good P (λ _, Hang).
Proof. done. Qed.

Lemma good_try_bind {A B} (P : A → Prop) (Q : B → Prop) m k :
  good P m → (∀ a, P a → good Q (k a)) → good Q (try_bind m k).
Proof.
  intros Hm Hk env w He. rw /try_bind. specialize (Hm env w He).
  destruct (m (env, w)) as [[[a|e] [env' w']]|p|]; try done.
  destruct Hm as [He' Ha]. by apply Hk.
Qed.

Lemma good_weaken {A} (P Q : A → Prop) (m : ev A) : good P m → (∀ a, P a → Q a) → good Q m.
Proof.
  intros Hm HPQ env w He. specialize (Hm env w He).
  destruct (m (env, w)) as [[[a|e] [env' w']]|p|]; naive_solver.
Qed.

Lemma good_get_env : good wf_env get_env.
Proof. by intros env w He. Qed.

Lemma good_def_var k v : wf_exp v → good (λ _, True) (def_var k v).
Proof. intros Hv env w He. split; [by apply wf_env_insert|done]. Qed.

Lemma good_on_world {A} (p : proc W A) : (∀ w e, p w = Panic e → outside run_cmd e) → good (λ _, True) (on_world p).
Proof. intros Hp env w He. rw /on_world. specialize (Hp w). destruct (p w) as [[a w']|e|]; auto. Qed.

Lemma good_may_panic {A} (P : A → Prop) (o : outcome A) a : o = Done a → P a → good P (may_panic o).
Proof. intros -> Ha env w He. by split. Qed.

Lemma good_answers o : answers o → good wf_exp (lift_outcome o).
Proof. intros (r & -> & Hr) env w He. by split. Qed.

Lemma good_in_env {A} (P : A → Prop) env' m : wf_env env' → good P m → good P (in_env env' m).
Proof.
  intros He' Hm env w He. rw /in_env. specialize (Hm env' w He').
  destruct (m (env', w)) as [[[a|e] [env1 w']]|p|]; naive_solver.
Qed.

Lemma good_ignore {A} (P : A → Prop) m : good P m → good (λ _, True) (ignore m).
Proof.
  intros Hm env w He. rw /ignore. specialize (Hm env w He).
  destruct (m (env, w)) as [[[a|e] [env1 w']]|p|]; naive_solver.
Qed.

Lemma good_get_form_at args i msg :
  Forall wf_exp args → good (λ f, args !! i = Some f ∧ wf_exp f) (get_form args i msg).
Proof.
  intros Ha. rw /get_form. destruct (args !! i) as [f|] eqn:E; [|apply good_fail].
  apply good_ok. split; [done|]. by eapply Forall_lookup_1 in Ha.
Qed.

Lemma good_get_form args i msg : Forall wf_exp args → good wf_exp (get_form args i msg).
Proof. intros Ha. eapply good_weaken; [by apply good_get_form_at|]. by intros f []. Qed.

Lemma good_symbol_form f msg : good (λ _, True) (symbol_form f msg).
Proof. destruct f; by apply good_ok || apply good_fail. Qed.

Lemma good_list_var k : good (Forall wf_exp) (list_var k).
Proof.
  eapply good_try_bind; [apply good_get_env|]. intros env [_ He]. rw /env_get.
  destruct (bt_get k env) as [v|] eqn:E; [|apply good_fail]. pose proof (wf_vals_get _ _ _ He E) as Hv.
  destruct v; try apply good_fail. apply good_ok. by apply wf_list.
Qed.

Lemma good_map_var k : good wf_map (map_var k).
Proof.
  eapply good_try_bind; [apply good_get_env|]. intros env [_ He]. rw /env_get.
  destruct (bt_get k env) as [v|] eqn:E; [|apply good_fail]. pose proof (wf_vals_get _ _ _ He E) as Hv.
  destruct v; try apply good_fail. apply good_ok. by apply wf_map_exp.
Qed.
End good.

(** One bind of a safety goal, with the fact its head provides. *)
Ltac gbind H := eapply good_try_bind; [eapply H|intros ? ?].
#[export] Hint Resolve good_ok good_fail good_hang good_get_form good_symbol_form good_list_var
  good_map_var good_get_env good_def_var : lisp.

Section good_forms.
Context {W : Type} `{!Console W} (run_cmd : list rstring → proc W CmdResult).
Context (eval : RispExp → ev (W := W) RispExp) (Hev : ∀ e, wf_exp e → good run_cmd wf_exp (eval e)).
Notation good := (good run_cmd).

Lemma good_eval_all args (Hargs : Forall wf_exp args) : good (Forall wf_exp) (eval_all eval args).
Proof.
  induction Hargs as [|a l Ha Hl IH]; simpl; [by apply good_ok|].
  gbind Hev; [done|]. gbind IH. apply good_ok. by constructor.
Qed.

Lemma good_and args (Hargs : Forall wf_exp args) : good wf_exp (eval_and eval args).
Proof.
  induction Hargs as [|a l Ha Hl IH]; simpl; [by apply good_ok|].
  gbind Hev; [done|]. destruct a0 as [[]| | | | | | | |]; simpl; eauto with lisp.
Qed.

Lemma good_or args (Hargs : Forall wf_exp args) : good wf_exp (eval_or eval args).
Proof.
  induction Hargs as [|a l Ha Hl IH]; simpl; [by apply good_ok|].
  gbind Hev; [done|]. destruct a0 as [[]| | | | | | | |]; simpl; eauto with lisp.
Qed.

Lemma good_do args (Hargs : Forall wf_exp args) r : wf_exp r → good wf_exp (eval_do eval args r).
Proof.
  revert r. induction Hargs as [|a l Ha Hl IH]; intros r Hr; simpl; [by apply good_ok|].
  gbind Hev; [done|]. by apply IH.
Qed.

Lemma good_for_loop n c b : wf_exp c → wf_exp b → good wf_exp (for_loop eval n c b).
Proof.
  intros Hc Hb. induction n as [|n IH]; simpl; [apply good_hang|].
  gbind Hev; [done|]. destruct a as [[]| | | | | | | |]; simpl; eauto with lisp.
  gbind Hev; [done|]. done.
Qed.

Lemma good_if args (Hargs : Forall wf_exp args) : good wf_exp (eval_if eval args).
Proof.
  gbind @good_get_form; [done|]. gbind Hev; [done|]. destruct a0; eauto with lisp.
  gbind @good_get_form; [done|]. by apply Hev.
Qed.

Lemma good_def args (Hargs : Forall wf_exp args) : good wf_exp (eval_def eval args).
Proof.
  gbind @good_get_form_at; [done|]. destruct H as [H0 Ha]. gbind @good_symbol_form.
  gbind @good_get_form; [done|]. destruct (2 <? length args)%nat; [apply good_fail|]. gbind Hev; [done|].
  gbind @good_def_var; [done|]. by eapply good_may_panic; [apply idx_Done|].
Qed.

Lemma good_fn args (Hargs : Forall wf_exp args) : good wf_exp (eval_fn (W := W) args).
Proof.
  gbind @good_get_env. apply good_of_result. intros v. rw /eval_lambda_args.
  destruct args as [|p [|b [|]]]; try done. intros [= <-]. rw !Forall_cons in Hargs.
  apply wf_lambda. naive_solver.
Qed.

Lemma good_sys args (Hargs : Forall wf_exp args) : good wf_exp (eval_sys run_cmd eval args).
Proof.
  rw /eval_sys. assert (good wf_exp (try_bind (eval_all eval args) (λ evaluated_args,
    try_bind (of_result (collect cmd_part evaluated_args)) (λ cmd_vec,
      try_bind (on_world (run_cmd cmd_vec)) (λ r,
        match r with
        | CmdOk success => try_bind (if print_code success then on_world (println (success_code success)) else ok tt)
                             (λ _, ok (Syscall cmd_vec))
        | CmdFailed e => fail (str "Syscall failed: " ++ e)
        | LookupFailed e => fail (str "Command lookup failed: " ++ e)
        end))))) as H; [|by destruct args; [apply good_fail|exact H]].
  gbind good_eval_all; [done|]. eapply (good_try_bind _ (λ _, True)); [by apply good_of_result|]. intros cmd _.
  gbind @good_on_world; [intros; left; eauto|]. destruct a0 as [e|e|[c []]]; simpl; eauto with lisp.
  - gbind @good_on_world; [intros; right; eauto|]. by apply good_ok.
  - eapply (good_try_bind _ (λ _, True)); [by apply good_ok|]. intros; by apply good_ok.
Qed.

Lemma good_quote args (Hargs : Forall wf_exp args) : good wf_exp (eval_quote (W := W) args).
Proof. by apply good_get_form. Qed.

Lemma good_for args (Hargs : Forall wf_exp args) n : good wf_exp (eval_for eval n args).
Proof. gbind @good_get_form; [done|]. gbind @good_get_form; [done|]. by apply good_for_loop. Qed.

Lemma good_append args (Hargs : Forall wf_exp args) : good wf_exp (eval_append eval args).
Proof.
  gbind @good_get_form; [done|]. gbind @good_get_form; [done|]. gbind @good_symbol_form.
  gbind Hev; [done|]. gbind @good_list_var.
  assert (wf_exp (List (a3 ++ [a2]))) as Hl by (apply wf_list, Forall_app; by repeat constructor).
  gbind @good_def_var; [done|]. by apply good_ok.
Qed.

Lemma good_pop args (Hargs : Forall wf_exp args) : good wf_exp (eval_pop (W := W) args).
Proof.
  gbind @good_get_form; [done|]. gbind @good_symbol_form. gbind @good_list_var.
  destruct a1 as [|x l _] using rev_ind; [apply good_fail|]. rw last_snoc removelast_last.
  apply Forall_app in H1 as [Hl Hx]. rw Forall_singleton in Hx.
  gbind @good_def_var; [by apply wf_list|]. by apply good_ok.
Qed.

Lemma good_mset args (Hargs : Forall wf_exp args) : good wf_exp (eval_mset eval args).
Proof.
  do 3 (gbind @good_get_form; [done|]). gbind @good_symbol_form. gbind Hev; [done|].
  eapply (good_try_bind _ (λ _, True)); [by apply good_of_result|]. intros key _.
  gbind Hev; [done|]. gbind @good_map_var. destruct H5 as [Hs Hv].
  gbind @good_def_var; [|by apply good_ok]. apply wf_map_exp.
  split; [by apply bt_sorted_insert|by apply wf_vals_insert].
Qed.

Lemma good_mdel args (Hargs : Forall wf_exp args) : good wf_exp (eval_mdel eval args).
Proof.
  do 2 (gbind @good_get_form; [done|]). gbind @good_symbol_form. gbind Hev; [done|].
  eapply (good_try_bind _ (λ _, True)); [by apply good_of_result|]. intros key _.
  gbind @good_map_var. destruct H3 as [Hs Hv].
  gbind @good_def_var; [|by apply good_ok]. apply wf_map_exp.
  split; [by apply bt_sorted_remove|by apply wf_vals_remove].
Qed.

Lemma good_error args (Hargs : Forall wf_exp args) : good wf_exp (eval_error eval args).
Proof.
  gbind @good_get_form; [done|]. gbind Hev; [done|]. gbind @good_get_env.
  eapply (good_try_bind _ (λ _, True)); [|intros; apply good_fail]. rw /env_get.
  destruct (bt_get (str "error") a1) as [v|] eqn:E; [|by apply good_ok].
  pose proof (wf_vals_get _ _ _ (proj2 H1) E) as Hv. destruct v; try by apply good_ok.
  apply wf_lambda in Hv as (_ & Hb & Hc).
  destruct (env_for_lambda _ _ _) as [new_env|] eqn:En; [|by apply good_ok].
  eapply good_ignore, good_in_env; [|by apply Hev].
  eapply wf_env_for_lambda; [| |exact En]; [by repeat constructor|by apply wf_merge].
Qed.

Lemma good_apply args (Hargs : Forall wf_exp args) f : wf_exp f → good wf_exp (eval_apply eval f args).
Proof.
  intros Hf. gbind Hev; [done|]. destruct a as [| | | | | |g|p b c|]; try apply good_fail.
  - gbind good_eval_all; [done|]. by apply good_answers, apply_builtin_answers.
  - apply wf_lambda in H as (_ & Hb & Hc). gbind good_eval_all; [done|]. gbind @good_get_env.
    eapply (good_try_bind _ wf_env); [|intros new_env Hn; apply good_in_env; [done|by apply Hev]].
    apply good_of_result. intros new_env. apply wf_env_for_lambda; [done|by apply wf_merge].
Qed.
End good_forms.

(** What the parser builds is well-formed. *)
Lemma parse_wf fuel :
  (∀ toks e rest, parse fuel toks = Done (Ok (e, rest)) → wf_exp e) ∧
  (∀ xs res e rest, Forall wf_exp res → read_seq fuel xs res = Done (Ok (e, rest)) → wf_exp e).
Proof.
  induction fuel as [|fuel [IHp IHs]]; [done|]. split.
  - intros [|t toks] e rest; simpl; [done|]. destruct (bool_decide (t = TOKEN_OPEN)).
    { apply IHs. constructor. }
    destruct (bool_decide (t = TOKEN_CLOSE)); [done|]. rw /parse_atom.
    repeat (case_match; simpl; try done); intros; by simplify_eq.
  - intros [|t xs] res e rest Hres; simpl; [done|]. destruct (bool_decide (t = TOKEN_CLOSE)).
    { intros [= <- _]. by apply wf_list. }
    destruct (parse fuel (t :: xs)) as [[[e' xs']|err]|p|] eqn:E; [|done..]. simpl.
    apply IHs. apply Forall_app; split; [done|]. apply Forall_singleton. by eapply IHp.
Qed.

Section safety.
Context {W : Type} `{!Console W} (run_cmd : list rstring → proc W CmdResult).
Notation good := (good run_cmd).

Lemma eval_good fuel e : wf_exp e → good wf_exp (eval run_cmd fuel e).
Proof.
  revert e. induction fuel as [|fuel IH]; intros e He; [apply good_hang|].
  destruct e as [b|s|x|s|[|f args]|mp|g|p bd c|cmd]; try by apply good_ok || apply good_fail.
  - simpl. eapply good_try_bind; [apply good_get_env|]. intros env [_ Hv]. rw /env_get.
    destruct (bt_get s env) as [v|] eqn:E; [|apply good_fail]. apply good_ok.
    exact (wf_vals_get _ _ _ Hv E).
  - apply wf_list in He. apply Forall_cons in He as [Hf Hargs]. simpl.
    eapply good_try_bind; [by eapply (good_may_panic _ (λ x, x = f))|]. intros ? ->.
    destruct (special_of f) as [[]|].
    all: first [apply good_if | apply good_def | apply good_fn | apply good_sys | apply good_quote
      | apply good_and | apply good_or | apply good_for | apply good_append | apply good_pop | apply good_mset
      | apply good_mdel | apply good_do | apply good_error | apply good_apply]; done.
Qed.

(** C18. The evaluator does not panic on its own: evaluating any well-formed
    expression in a well-formed environment panics only when a shell command it
    runs or the console it prints to panics, with the same panic; none of the
    indexing, slicing, unwrapping and checked arithmetic in the evaluator and
    its built-in functions does.  The environment and the value that come out
    are well-formed again (every map and environment in key order). *)
Theorem eval_safe fuel e env w :
  wf_exp e → wf_env env →
  match eval run_cmd fuel e (env, w) with
  | Done (r, (env', _)) => wf_env env' ∧ (∀ v, r = Ok v → wf_exp v)
  | Panic p => outside run_cmd p
  | Hang => True
  end.
Proof.
  intros He Henv. pose proof (eval_good fuel e He env w Henv) as H.
  destruct (eval run_cmd fuel e (env, w)) as [[[v|err] [env' w']]|p|]; naive_solver.
Qed.

Lemma wf_default_env : wf_env default_env.
Proof. apply wf_insert_all; [|by split; [|constructor]]. repeat constructor. Qed.

Lemma wf_bind_args args b n env : wf_env env → wf_env (bind_args args b n env).
Proof.
  revert b n env. induction args as [|a args IH]; intros b n env He; simpl; [done|].
  destruct (_ || _); [by apply IH, wf_env_insert|].
  destruct (f64_parse a); [by apply IH, wf_env_insert|by apply IH].
Qed.

Lemma wf_initial_env syscalls args : wf_env (initial_env syscalls args).
Proof.
  apply wf_bind_args, wf_insert_all; [by repeat constructor|]. apply wf_insert_all; [|apply wf_default_env].
  apply Forall_fmap, Forall_true. done.
Qed.

(** A panic of the reader on one of the statements. *)
Definition reader_panics (codes : list rstring) (p : panic) : Prop :=
  ∃ code, code ∈ codes ∧ parse_tokens (tokenize code) = Panic p.

Lemma parse_eval_safe fuel code env w :
  wf_env env →
  match parse_eval run_cmd fuel code (env, w) with
  | Done (_, (env', _)) => wf_env env'
  | Panic p => parse_tokens (tokenize code) = Panic p ∨ outside run_cmd p
  | Hang => True
  end.
Proof.
  intros He. rw /parse_eval /try_bind /lift_outcome.
  destruct (parse_tokens (tokenize code)) as [[[e rest]|err]|p|] eqn:E; [|done|by left|done].
  pose proof (eval_good fuel e (proj1 (parse_wf _) _ _ _ E) env w He) as Hg. simpl.
  destruct (eval run_cmd fuel e (env, w)) as [[r [env' w']]|p|]; naive_solver.
Qed.

Lemma run_statements_safe fuel codes err env w p :
  wf_env env → run_statements run_cmd fuel codes err (env, w) = Panic p →
  reader_panics codes p ∨ outside run_cmd p.
Proof.
  revert err env w. induction codes as [|code codes IH]; intros err env w He; simpl; [done|].
  pose proof (parse_eval_safe fuel code env w He) as Hg.
  assert (reader_panics codes p → reader_panics (code :: codes) p) as Hmono.
  { intros (c & Hc & Hp). exists c. split; [by constructor|done]. }
  destruct (parse_eval run_cmd fuel code (env, w)) as [[[v|e] [env' w']]|p'|]; [| | |done].
  - intros H. destruct (IH _ _ _ Hg H); auto.
  - intros H. destruct (IH _ _ _ Hg H); auto.
  - intros [= ->]. destruct Hg as [Hp|]; [left|by right]. exists code. split; [constructor|done].
Qed.

Lemma run_program_safe fuel env program w p :
  wf_env env → run_program run_cmd fuel env program w = Panic p →
  reader_panics (removelast (split_char SEMICOLON program)) p ∨ outside run_cmd p.
Proof.
  intros He. rw /run_program /ignore. pose proof (parse_eval_safe fuel error_prelude env w He) as Hg.
  destruct (parse_eval run_cmd fuel error_prelude (env, w)) as [[r [env1 w1]]|p1|]; [|..|done].
  - pose proof (run_statements_safe fuel (removelast (split_char SEMICOLON program)) None env1 w1 p Hg) as Hs.
    destruct (removelast _) as [|c codes]; [done|].
    destruct (run_statements _ _ _ _ _) as [[[m|] [? ?]]|p3|]; naive_solver.
  - intros [= ->]. destruct Hg as [Hp|]; [|by right]. vm_compute in Hp. done.
Qed.

(** C17. Where a Lisp program can panic: whatever the arguments of the [lisp]
    command, a panic of [interpret] is a panic of listing the commands, of the
    reader on one of the program's statements, of a shell command the program
    runs, or of the console; the interpreter has no other. *)
Theorem interpret_safe (list_cmds : proc W (list rstring)) fuel (expr : list rstring) w p :
  interpret run_cmd list_cmds fuel expr w = Panic p →
  list_cmds w = Panic p ∨
  (∃ program, expr !! 1%nat = Some program ∧
    reader_panics (removelast (split_char SEMICOLON program)) p) ∨
  outside run_cmd p.
Proof.
  rw /interpret. destruct (Z.ltb_spec (zlen expr) 2) as [|Hl]; [done|].
  destruct expr as [|cmd [|program args]]; simpl in Hl; try lia. rw /mbind /proc_bind.
  destruct (list_cmds w) as [[syscalls w1]|p1|]; [|intros [= ->]; by left|done].
  intros H. right. apply run_program_safe in H; [|apply wf_initial_env].
  destruct H; [left; by exists program|by right].
Qed.
End safety.

(** ** The forms *)

Section forms.
Context {W : Type} `{!Console W} (run_cmd : list rstring → proc W CmdResult).
Implicit Types (s : RispEnv * W).
Notation eval := (eval run_cmd).

Lemma eval_call fuel f args s :
  special_of f = None → eval (S fuel) (List (f :: args)) s = eval_apply (eval fuel) f args s.
Proof. intros Hs. cbn [LispEval.eval]. rw /try_bind /= Hs. done. Qed.

(** C37. A lambda call does not touch the caller's variables: whatever the body
    defines, the environment after the call is the one the argument forms left. *)
Theorem lambda_call_scoping fuel f args params body captured vs s env1 w1 env2 w2 r env3 w3 :
  special_of f = None →
  eval fuel f s = Done (Ok (Lambda params body captured), (env1, w1)) →
  eval_all (eval fuel) args (env1, w1) = Done (Ok vs, (env2, w2)) →
  eval (S fuel) (List (f :: args)) s = Done (r, (env3, w3)) →
  env3 = env2.
Proof.
  intros Hs Hf Ha. rw eval_call // /eval_apply /try_bind Hf Ha /get_env /of_result.
  destruct (env_for_lambda _ _ _) as [new_env|]; [|naive_solver]. rw /in_env.
  destruct (eval fuel body _) as [[? [? ?]]|?|]; naive_solver.
Qed.

(** [and] and [or] stop early: a first operand that decides the result decides
    it for every further operand, none of which is evaluated. *)
Theorem and_or_short_circuit fuel a rest s s' (b : bool) :
  eval fuel a s = Done (Ok (Bool b), s') →
  eval (S fuel) (List (Symbol (if b then str "or" else str "and") :: a :: rest)) s =
    Done (Ok (Bool b), s').
Proof. intros Ha. destruct b; simpl; by rw /try_bind /= Ha. Qed.

(** A defined variable reads back: after [(def x e)] the symbol [x] evaluates
    to the value of [e]. *)
Theorem def_then_read fuel fuel' x e s v env1 w1 :
  eval fuel e s = Done (Ok v, (env1, w1)) →
  ∃ env2, eval (S fuel) (List [Symbol (str "def"); Symbol x; e]) s = Done (Ok (Symbol x), (env2, w1)) ∧
    eval (S fuel') (Symbol x) (env2, w1) = Done (Ok v, (env2, w1)) ∧
    ∀ y, y ≠ x → env_get y env2 = env_get y env1.
Proof.
  intros He. exists (bt_insert x v env1). simpl. rw /eval_def /try_bind /= He. split; [done|].
  rw /env_get bt_get_insert. split; [done|]. intros y Hy. by rw bt_get_insert_ne.
Qed.

(** A map entry reads back: after [(mset m k v)], [(!! m k)] gives the value of
    [v], and every other key of the map keeps its value. *)
Theorem mset_then_index fuel m kf vf s kv key v env1 w1 env2 w2 old :
  eval fuel kf s = Done (Ok kv, (env1, w1)) → exp_to_key kv = Ok key →
  eval fuel vf (env1, w1) = Done (Ok v, (env2, w2)) → env_get m env2 = Some (Map old) →
  ∃ new env3, eval (S fuel) (List [Symbol (str "mset"); Symbol m; kf; vf]) s = Done (Ok v, (env3, w2)) ∧
    env_get m env3 = Some (Map new) ∧ builtin_index [Map new; kv] = Done (Ok v) ∧
    ∀ k', k' ≠ key → bt_get k' new = bt_get k' old.
Proof.
  intros Hk Hkey Hv Hm. exists (bt_insert key v old), (bt_insert m (Map (bt_insert key v old)) env2).
  simpl. rw /eval_mset /try_bind /= Hk /of_result Hkey Hv /map_var /try_bind /= Hm /=.
  split; [done|]. rw /env_get bt_get_insert. split; [done|]. rw /builtin_index /= Hkey /= bt_get_insert. split; [done|].
  intros k' Hk'. by rw bt_get_insert_ne.
Qed.

(** C38. A rule for [for] that includes termination: if from every state of the
    invariant the condition either evaluates to false, in a state satisfying
    [Q], or evaluates to true and the body then runs without error, restores the
    invariant and decreases the measure, the loop returns, in a state satisfying
    [Q]. *)
Theorem for_total fuel cond body (I Q : RispEnv * W → Prop) (measure : RispEnv * W → nat) s :
  (∀ s, I s →
     (∃ s1, eval fuel cond s = Done (Ok (Bool false), s1) ∧ Q s1) ∨
     (∃ s1 v s2, eval fuel cond s = Done (Ok (Bool true), s1) ∧ eval fuel body s1 = Done (Ok v, s2) ∧
        I s2 ∧ (measure s2 < measure s)%nat)) →
  I s → (measure s < fuel)%nat →
  ∃ s', eval (S fuel) (List [Symbol (str "for"); cond; body]) s = Done (Ok (Bool false), s') ∧ Q s'.
Proof.
  intros Hstep HI Hm. change (∃ s', for_loop (eval fuel) fuel cond body s = Done (Ok (Bool false), s') ∧ Q s').
  assert (∀ n s, I s → (measure s < n)%nat →
    ∃ s', for_loop (eval fuel) n cond body s = Done (Ok (Bool false), s') ∧ Q s') as Hloop; [|by apply Hloop].
  clear s HI Hm. induction n as [|n IH]; intros s HI Hm; [lia|]. simpl. rw /try_bind.
  destruct (Hstep s HI) as [(s1 & -> & HQ)|(s1 & v & s2 & -> & -> & HI2 & Hm2)].
  - by exists s1.
  - apply IH; [done|lia].
Qed.
End forms.

(** ** Witnesses *)

(** A machine without state, whose commands all fail. *)
Definition no_cmd : list rstring → proc unit CmdResult := λ _, mret (CmdFailed (str "none")).
#[local] Instance unit_console : Console unit := λ _, mret tt.

Definition call (f : rstring) (args : list RispExp) : RispExp := List (Symbol f :: args).

(** A machine whose commands all panic. *)
Definition boom : list rstring → proc unit CmdResult := λ _ _, Panic POverflow.

Lemma eval_safe_witness :
  match eval no_cmd 5 (call (str "!!") [call (str "list") [Bool true; Number f64_one]; Number (f64_of_Z (-1))])
      (default_env, tt) with
  | Done (r, (env', _)) => wf_env env' ∧ (∀ v, r = Ok v → wf_exp v)
  | Panic p => outside no_cmd p
  | Hang => True
  end ∧ eval boom 5 (call (str "sys") [Str (str "x")]) (default_env, tt) = Panic POverflow ∧
  outside boom POverflow.
Proof.
  split; [|split].
  - apply (eval_safe no_cmd 5 (call (str "!!") [call (str "list") [Bool true; Number f64_one];
      Number (f64_of_Z (-1))]) default_env tt).
    + by repeat split.
    + exact wf_default_env.
  - reflexivity.
  - apply (eval_safe boom 5 (call (str "sys") [Str (str "x")]) default_env tt).
    + by repeat split.
    + exact wf_default_env.
Defined.

Lemma interpret_safe_witness :
  outside boom POverflow.
Proof.
  destruct (interpret_safe boom (mret [str "echo"]) 8 [str "lisp"; str "(sys echo 1);"] tt POverflow)
    as [H|[(program & Hp & code & Hc & H)|H]].
  - vm_compute. reflexivity.
  - discriminate H.
  - injection Hp as <-. vm_compute in Hc. apply list_elem_of_singleton in Hc as ->. vm_compute in H. discriminate H.
  - exact H.
Defined.

Definition one_true : RispExp := Lambda (List [Symbol (str "x")]) (call (str "def") [Symbol (str "x"); Bool true]) [].

(** [(f false)] and then [x] in the caller: the [x] of the body is gone. *)
Lemma lambda_call_scoping_witness :
  ∃ env3, eval no_cmd 5 (call (str "f") [Bool false]) ([(str "f", one_true)], tt) =
      Done (Ok (Symbol (str "x")), (env3, tt)) ∧
    env3 = [(str "f", one_true)] ∧ env_get (str "x") env3 = None.
Proof.
  eexists. split; [vm_compute; reflexivity|]. split; [|reflexivity].
  apply (lambda_call_scoping no_cmd 4 (Symbol (str "f")) [Bool false] (List [Symbol (str "x")])
    (call (str "def") [Symbol (str "x"); Bool true]) [] [Bool false] ([(str "f", one_true)], tt)
    [(str "f", one_true)] tt [(str "f", one_true)] tt (Ok (Symbol (str "x"))) [(str "f", one_true)] tt).
  - reflexivity.
  - reflexivity.
  - reflexivity.
  - vm_compute. reflexivity.
Defined.

Lemma and_or_short_circuit_witness :
  eval no_cmd 2 (call (str "and") [Bool false; Symbol (str "missing")]) ([], tt) =
    Done (Ok (Bool false), ([], tt)).
Proof. apply (and_or_short_circuit no_cmd 1 (Bool false) [Symbol (str "missing")] ([], tt) ([], tt) false). reflexivity. Defined.

Lemma def_then_read_witness :
  ∃ env2, eval no_cmd 2 (call (str "def") [Symbol (str "x"); Bool true]) ([], tt) =
      Done (Ok (Symbol (str "x")), (env2, tt)) ∧
    eval no_cmd 1 (Symbol (str "x")) (env2, tt) = Done (Ok (Bool true), (env2, tt)) ∧
    ∀ y, y ≠ str "x" → env_get y env2 = env_get y [].
Proof. apply (def_then_read no_cmd 1 0 (str "x") (Bool true) ([], tt)). reflexivity. Defined.

Lemma mset_then_index_witness :
  ∃ new env3, eval no_cmd 2 (call (str "mset") [Symbol (str "m"); Str (str "k"); Bool true])
      ([(str "m", Map [])], tt) = Done (Ok (Bool true), (env3, tt)) ∧
    env_get (str "m") env3 = Some (Map new) ∧ builtin_index [Map new; Str (str "k")] = Done (Ok (Bool true)) ∧
    ∀ k', k' ≠ KeyString (str "k") → bt_get k' new = bt_get k' [].
Proof.
  apply (mset_then_index no_cmd 1 (str "m") (Str (str "k")) (Bool true) ([(str "m", Map [])], tt)
    (Str (str "k")) (KeyString (str "k")) (Bool true) [(str "m", Map [])] tt [(str "m", Map [])] tt []);
    reflexivity.
Defined.

(** [(for b (def b false))] from [b = true]. *)
Definition flag_env (b : bool) : RispEnv := [(str "b", Bool b)].
Definition flag_measure (s : RispEnv * unit) : nat :=
  match env_get (str "b") s.1 with Some (Bool true) => 1 | _ => 0 end.

Lemma for_total_witness :
  ∃ s', eval no_cmd 5 (call (str "for") [Symbol (str "b"); call (str "def") [Symbol (str "b"); Bool false]])
      (flag_env true, tt) = Done (Ok (Bool false), s') ∧ s' = (flag_env false, tt).
Proof.
  apply (for_total no_cmd 4 (Symbol (str "b")) (call (str "def") [Symbol (str "b"); Bool false])
    (λ s, ∃ b, s = (flag_env b, tt)) (λ s, s = (flag_env false, tt)) flag_measure (flag_env true, tt)).
  - intros s [[] ->].
    + right. exists (flag_env true, tt), (Symbol (str "b")), (flag_env false, tt).
      split_and!; [vm_compute; reflexivity..|by exists false|vm_compute; lia].
    + left. exists (flag_env false, tt). split; vm_compute; reflexivity.
  - by exists true.
  - vm_compute. lia.
Defined.
