(* ===== verification/LispSemantics.v ===== *)
(** * The language of the Lisp evaluator, as a big-step semantics

    [big_eval e s v s'] says that the expression [e] has the value [v] when evaluated
    in the state [s] (the variables and the machine) and leaves the state [s'].
    The rules say what each form of the language means, without the order of
    the tests and the error messages of [eval] (src/src/parser.rs); an
    evaluation that fails has no derivation.  [eval_is_semantics] shows that
    [eval] returns a value exactly when the rules give it. *)

From S2P Require Import Prelude Str Float64 BTreeMap Lisp LispEval LispEvalTheorems.
#[local] Open Scope Z_scope.

(** A form with the keyword [k] in front. *)
#[local] Notation form k args := (List (Symbol (str k) :: args)).

(** The expressions that stand for themselves. *)
Definition literal (e : RispExp) : Prop :=
  match e with Bool _ | Number _ | Str _ | Map _ => True | _ => False end.

Section semantics.
Context {W : Type} `{!Console W} (run_cmd : list rstring → proc W CmdResult).
Notation state := (RispEnv * W)%type.
Implicit Types (s : state) (w : W) (env : RispEnv).

Inductive big_eval : RispExp → state → RispExp → state → Prop :=
  | BigLiteral e s : literal e → big_eval e s e s
  | BigSymbol k v env w : env_get k env = Some v → big_eval (Symbol k) (env, w) v (env, w)
  | BigIf args test (b : bool) branch v s s1 s2 :
      args !! 0%nat = Some test → big_eval test s (Bool b) s1 →
      args !! (if b then 1 else 2)%nat = Some branch → big_eval branch s1 v s2 →
      big_eval (form "if" args) s v s2
  | BigDef x e v s env w :
      big_eval e s v (env, w) →
      big_eval (form "def" [Symbol x; e]) s (Symbol x) (bt_insert x v env, w)
  | BigFn params body env w :
      big_eval (form "fn" [params; body]) (env, w) (Lambda params body env) (env, w)
  | BigSys args vs cmd success s env w w1 w2 :
      args ≠ [] → big_eval_all args s vs (env, w) → collect cmd_part vs = Ok cmd →
      run_cmd cmd w = Done (CmdOk success, w1) →
      (if print_code success then println (success_code success) w1 = Done (tt, w2) else w2 = w1) →
      big_eval (form "sys" args) s (Syscall cmd) (env, w2)
  | BigQuote e args s : big_eval (form "quote" (e :: args)) s e s
  | BigAnd args b s s' : big_junction true args s b s' → big_eval (form "and" args) s (Bool b) s'
  | BigOr args b s s' : big_junction false args s b s' → big_eval (form "or" args) s (Bool b) s'
  | BigFor cond body args s s' :
      big_loop cond body s s' → big_eval (form "for" (cond :: body :: args)) s (Bool false) s'
  | BigAppend x e args v l s env w :
      big_eval e s v (env, w) → env_get x env = Some (List l) →
      big_eval (form "append" (Symbol x :: e :: args)) s (List (l ++ [v])) (bt_insert x (List (l ++ [v])) env, w)
  | BigPop x args v l env w :
      env_get x env = Some (List (l ++ [v])) →
      big_eval (form "pop" (Symbol x :: args)) (env, w) v (bt_insert x (List l) env, w)
  | BigMset x k e args kv key v m s s1 env w :
      big_eval k s kv s1 → exp_to_key kv = Ok key → big_eval e s1 v (env, w) →
      env_get x env = Some (Map m) →
      big_eval (form "mset" (Symbol x :: k :: e :: args)) s v (bt_insert x (Map (bt_insert key v m)) env, w)
  | BigMdel x k args kv key m s env w :
      big_eval k s kv (env, w) → exp_to_key kv = Ok key → env_get x env = Some (Map m) →
      big_eval (form "mdel" (Symbol x :: k :: args)) s (Bool true) (bt_insert x (Map (bt_remove key m)) env, w)
  | BigDo args vs s s' :
      big_eval_all args s vs s' → big_eval (form "do" args) s (default (List []) (last vs)) s'
  | BigBuiltin f args g vs v s s1 s2 :
      special_of f = None → big_eval f s (Func g) s1 → big_eval_all args s1 vs s2 →
      apply_builtin g vs = Done (Ok v) → big_eval (List (f :: args)) s v s2
  | BigCall f args names body captured vs v s s1 env w env' w' :
      special_of f = None → big_eval f s (Lambda (List (Symbol <$> names)) body captured) s1 →
      big_eval_all args s1 vs (env, w) → length names = length vs →
      big_eval body (env_insert_all (zip names vs) (merge_env env captured), w) v (env', w') →
      big_eval (List (f :: args)) s v (env, w')
(** The arguments, from left to right. *)
with big_eval_all : list RispExp → state → list RispExp → state → Prop :=
  | BigNil s : big_eval_all [] s [] s
  | BigCons e es v vs s s1 s2 :
      big_eval e s v s1 → big_eval_all es s1 vs s2 → big_eval_all (e :: es) s (v :: vs) s2
(** A conjunction ([unit = true]) or a disjunction ([unit = false]). *)
with big_junction : bool → list RispExp → state → bool → state → Prop :=
  | BigUnit unit s : big_junction unit [] s unit s
  | BigDecided unit e es s s1 : big_eval e s (Bool (negb unit)) s1 → big_junction unit (e :: es) s (negb unit) s1
  | BigNext unit e es b s s1 s2 :
      big_eval e s (Bool unit) s1 → big_junction unit es s1 b s2 → big_junction unit (e :: es) s b s2
(** The iterations of a loop. *)
with big_loop : RispExp → RispExp → state → state → Prop :=
  | BigExit cond body s s1 : big_eval cond s (Bool false) s1 → big_loop cond body s s1
  | BigIterate cond body v s s1 s2 s3 :
      big_eval cond s (Bool true) s1 → big_eval body s1 v s2 → big_loop cond body s2 s3 →
      big_loop cond body s s3.

End semantics.

Scheme big_eval_mind := Induction for big_eval Sort Prop
  with big_eval_all_mind := Induction for big_eval_all Sort Prop
  with big_junction_mind := Induction for big_junction Sort Prop
  with big_loop_mind := Induction for big_loop Sort Prop.
Combined Scheme big_mutind from big_eval_mind, big_eval_all_mind, big_junction_mind, big_loop_mind.

(** ** The rules give what the evaluator returns *)

Section equivalence.
Context {W : Type} `{!Console W} (run_cmd : list rstring → proc W CmdResult).
Notation state := (RispEnv * W)%type.
Notation eval := (eval run_cmd).
Notation big_eval := (big_eval run_cmd).
Notation big_eval_all := (big_eval_all run_cmd).
Notation big_junction := (big_junction run_cmd).
Notation big_loop := (big_loop run_cmd).
Implicit Types (s : state).

Lemma try_bind_Ok {A B} (m : ev (W := W) A) (k : A → ev (W := W) B) s b s' :
  try_bind m k s = Done (Ok b, s') → ∃ a s1, m s = Done (Ok a, s1) ∧ k a s1 = Done (Ok b, s').
Proof. rw /try_bind. destruct (m s) as [[[a|e] s1]| |]; naive_solver. Qed.

Lemma get_form_Ok args i msg s f s' :
  get_form (W := W) args i msg s = Done (Ok f, s') → args !! i = Some f ∧ s' = s.
Proof. rw /get_form. destruct (args !! i); [|done]. by intros [= -> ->]. Qed.

Lemma symbol_form_Ok f msg s x s' : symbol_form (W := W) f msg s = Done (Ok x, s') → f = Symbol x ∧ s' = s.
Proof. destruct f; try done. by intros [= -> ->]. Qed.

Lemma list_var_Ok x env (w : W) l s' :
  list_var x (env, w) = Done (Ok l, s') → env_get x env = Some (List l) ∧ s' = (env, w).
Proof. rw /list_var /try_bind /=. destruct (env_get x env) as [[]|]; try done. by intros [= -> <-]. Qed.

Lemma map_var_Ok x env (w : W) m s' :
  map_var x (env, w) = Done (Ok m, s') → env_get x env = Some (Map m) ∧ s' = (env, w).
Proof. rw /map_var /try_bind /=. destruct (env_get x env) as [[]|]; try done. by intros [= -> <-]. Qed.

Lemma on_world_Ok {A} (p : proc W A) env w a s' :
  on_world p (env, w) = Done (Ok a, s') → ∃ w', p w = Done (a, w') ∧ s' = (env, w').
Proof. rw /on_world. destruct (p w) as [[? w']| |]; naive_solver. Qed.

Lemma env_for_lambda_Ok params vs env env' :
  env_for_lambda params vs env = Ok env' →
  ∃ names, params = List (Symbol <$> names) ∧ length names = length vs ∧ env' = env_insert_all (zip names vs) env.
Proof.
  rw /env_for_lambda. destruct params as [| | | |l| | | |]; try done. simpl.
  destruct (collect _ l) as [names|] eqn:E; [|done].
  destruct (Nat.eqb_spec (length names) (length vs)); [|done]. intros [= <-]. exists names. split_and!; [|done..].
  f_equal. clear -E. revert names E. induction l as [|x l IH]; intros names; simpl; [by intros [= <-]|].
  destruct x; try done. destruct (collect _ l) as [ns|]; [|done]. intros [= <-]. simpl. f_equal. by apply IH.
Qed.

(** Undo the binds of a successful computation. *)
Ltac unbind :=
  repeat match goal with
  | H : try_bind _ _ _ = Done (Ok _, _) |- _ => apply try_bind_Ok in H as (? & ? & ? & H)
  | H : get_form _ _ _ _ = Done (Ok _, _) |- _ => apply get_form_Ok in H as [? ?]; simplify_eq
  | H : symbol_form _ _ _ = Done (Ok _, _) |- _ => apply symbol_form_Ok in H as [? ?]; simplify_eq
  | H : list_var _ _ = Done (Ok _, _) |- _ => apply list_var_Ok in H as [? ?]; simplify_eq
  | H : map_var _ _ = Done (Ok _, _) |- _ => apply map_var_Ok in H as [? ?]; simplify_eq
  | H : on_world _ (_, _) = Done (Ok _, _) |- _ => apply on_world_Ok in H as (? & ? & ?); simplify_eq
  | H : ok _ _ = Done (Ok _, _) |- _ => injection H as ? ?; subst
  | H : fail _ _ = Done (Ok _, _) |- _ => discriminate H
  | H : def_var _ _ (_, _) = Done (Ok _, _) |- _ => injection H as ? ?; subst
  | H : get_env (_, _) = Done (Ok _, _) |- _ => injection H as ? ?; subst
  | H : of_result ?r _ = Done (Ok _, _) |- _ => injection H as ? ?; subst
  | s : RispEnv * W |- _ => destruct s
  end.

(** The branch a successful computation takes. *)
Ltac branch H :=
  match type of H with (match ?x with _ => _ end) _ = _ => destruct x; try discriminate H end; unbind.

Section sound_forms.
Context (ev : RispExp → ev (W := W) RispExp).
Context (Hev : ∀ e s v s', ev e s = Done (Ok v, s') → big_eval e s v s').

Lemma sound_all args s vs s' : eval_all ev args s = Done (Ok vs, s') → big_eval_all args s vs s'.
Proof.
  revert s vs. induction args as [|a args IH]; intros s vs H; simpl in H; unbind; [constructor|].
  econstructor; [by apply Hev|by apply IH].
Qed.

Lemma sound_and args s v s' :
  eval_and ev args s = Done (Ok v, s') → ∃ b, v = Bool b ∧ big_junction true args s b s'.
Proof.
  revert s. induction args as [|a args IH]; intros s H; simpl in H; unbind.
  { exists true. split; [done|constructor]. }
  apply Hev in H0. destruct x as [[]| | | | | | | |]; simpl in H; unbind.
  - apply IH in H as (b & -> & Hb). exists b. split; [done|]. by econstructor.
  - exists false. split; [done|]. by apply BigDecided.
Qed.

Lemma sound_or args s v s' :
  eval_or ev args s = Done (Ok v, s') → ∃ b, v = Bool b ∧ big_junction false args s b s'.
Proof.
  revert s. induction args as [|a args IH]; intros s H; simpl in H; unbind.
  { exists false. split; [done|constructor]. }
  apply Hev in H0. destruct x as [[]| | | | | | | |]; simpl in H; unbind.
  - exists true. split; [done|]. by apply BigDecided.
  - apply IH in H as (b & -> & Hb). exists b. split; [done|]. by econstructor.
Qed.

Lemma sound_loop n cond body s v s' :
  for_loop ev n cond body s = Done (Ok v, s') → v = Bool false ∧ big_loop cond body s s'.
Proof.
  revert s. induction n as [|n IH]; intros s H; simpl in H; [done|]. apply try_bind_Ok in H as (c & s1 & Hc & H).
  apply Hev in Hc. destruct c as [[]| | | | | | | |]; unbind.
  - apply IH in H as [-> H]. split; [done|]. eapply BigIterate; [done|by apply Hev|done].
  - split; [done|]. by apply BigExit.
Qed.

Lemma sound_do args r s v s' :
  eval_do ev args r s = Done (Ok v, s') → ∃ vs, big_eval_all args s vs s' ∧ v = default r (last vs).
Proof.
  revert r s. induction args as [|a args IH]; intros r s H; simpl in H; unbind.
  { exists []. split; [constructor|done]. }
  apply IH in H as (vs & Hvs & ->). exists (x :: vs). split; [econstructor; [by apply Hev|done]|].
  rw last_cons. by destruct (last vs).
Qed.

Lemma sound_if args s v s' : eval_if ev args s = Done (Ok v, s') → big_eval (form "if" args) s v s'.
Proof.
  rw /eval_if. intros H. unbind. branch H. eapply BigIf; [done|by apply Hev| |by apply Hev].
  by destruct b.
Qed.

Lemma sound_def args s v s' : eval_def ev args s = Done (Ok v, s') → big_eval (form "def" args) s v s'.
Proof.
  rw /eval_def. intros H. unbind. destruct (Nat.ltb_spec 2 (length args)); [done|]. unbind.
  destruct args as [|a [|b [|]]]; simplify_eq/=; [|lia]. rw /may_panic /= in H. simplify_eq.
  apply BigDef. by apply Hev.
Qed.

Lemma sound_fn args s v s' : eval_fn args s = Done (Ok v, s') → big_eval (form "fn" args) s v s'.
Proof.
  rw /eval_fn. intros H. unbind. destruct args as [|a [|b [|]]]; simplify_eq/=. apply BigFn.
Qed.

Lemma sound_sys args s v s' : eval_sys run_cmd ev args s = Done (Ok v, s') → big_eval (form "sys" args) s v s'.
Proof.
  rw /eval_sys. intros H. assert (args ≠ []) as Hne by (intros ->; done).
  destruct args as [|a args]; [done|]. unbind.
  match goal with H : eval_all _ _ _ = _ |- _ => apply sound_all in H end.
  branch H. destruct (print_code s) eqn:Ep; unbind; eapply BigSys; try eassumption; rw Ep //.
  by match goal with u : unit |- _ => destruct u end.
Qed.

Lemma sound_append args s v s' : eval_append ev args s = Done (Ok v, s') → big_eval (form "append" args) s v s'.
Proof.
  rw /eval_append. intros H. unbind. destruct args as [|a [|b args]]; simplify_eq/=.
  apply BigAppend; [by apply Hev|done].
Qed.

Lemma sound_pop args s v s' : eval_pop args s = Done (Ok v, s') → big_eval (form "pop" args) s v s'.
Proof.
  rw /eval_pop. intros H. unbind. destruct args as [|a args]; simplify_eq/=.
  match type of H with (match last ?l with _ => _ end) _ = _ => destruct l as [|y l _] using rev_ind; [done|] end.
  rw last_snoc removelast_last in H. unbind. by apply BigPop.
Qed.

Lemma sound_mset args s v s' : eval_mset ev args s = Done (Ok v, s') → big_eval (form "mset" args) s v s'.
Proof.
  rw /eval_mset. intros H. unbind. destruct args as [|a [|b [|c args]]]; simplify_eq/=.
  eapply BigMset; [by apply Hev|done|by apply Hev|done].
Qed.

Lemma sound_mdel args s v s' : eval_mdel ev args s = Done (Ok v, s') → big_eval (form "mdel" args) s v s'.
Proof.
  rw /eval_mdel. intros H. unbind. destruct args as [|a [|b args]]; simplify_eq/=.
  eapply BigMdel; [by apply Hev|done|done].
Qed.

Lemma sound_for n args s v s' : eval_for ev n args s = Done (Ok v, s') → big_eval (form "for" args) s v s'.
Proof.
  rw /eval_for. intros H. unbind. destruct args as [|a [|b args]]; simplify_eq/=.
  apply sound_loop in H as [-> H]. by apply BigFor.
Qed.

Lemma error_not_Ok args s v s' : eval_error ev args s ≠ Done (Ok v, s').
Proof. rw /eval_error. intros H. by unbind. Qed.

Lemma sound_apply f args s v s' :
  special_of f = None → eval_apply ev f args s = Done (Ok v, s') → big_eval (List (f :: args)) s v s'.
Proof.
  rw /eval_apply. intros Hs H. unbind. apply Hev in H0. branch H.
  - match goal with H : eval_all _ _ _ = _ |- _ => apply sound_all in H end.
    rw /lift_outcome in H. destruct (apply_builtin _ _) eqn:E; simplify_eq. by eapply BigBuiltin.
  - match goal with H : eval_all _ _ _ = _ |- _ => apply sound_all in H end.
    match goal with H : env_for_lambda _ _ _ = _ |- _ => apply env_for_lambda_Ok in H as (names & -> & Hn & ->) end.
    rw /in_env in H. destruct (ev _ _) as [[? [? ?]]| |] eqn:E; simplify_eq. apply Hev in E. by eapply BigCall.
Qed.
End sound_forms.

(** The keyword of a special form. *)
Definition keyword (sp : Special) : string :=
  match sp with
  | SIf => "if" | SDef => "def" | SFn => "fn" | SSys => "sys" | SQuote => "quote" | SAnd => "and" | SOr => "or"
  | SFor => "for" | SAppend => "append" | SPop => "pop" | SMset => "mset" | SMdel => "mdel" | SDo => "do"
  | SError => "error"
  end.

Lemma special_of_keyword f sp : special_of f = Some sp → f = Symbol (str (keyword sp)).
Proof.
  destruct f as [|k| | | | | | |]; try done. rw /special_of. destruct (find _ specials) as [[k' sp']|] eqn:E; [|done].
  intros [= <-]. apply find_some in E as [Hin Hk]. apply bool_decide_eq_true in Hk as <-. simpl in Hin.
  repeat destruct Hin as [[= <- <-]|Hin]; done.
Qed.

Lemma eval_sound fuel e s v s' : eval fuel e s = Done (Ok v, s') → big_eval e s v s'.
Proof.
  revert e s v s'. induction fuel as [|fuel IH]; intros e s v s' H; [done|].
  destruct e as [b|k|x|t|[|f args]|m|g|p bd c|cmd]; simpl in H; try discriminate H.
  1,3,4,6: injection H as <- <-; by apply BigLiteral.
  - unbind. rw /env_get in H. destruct (bt_get k _) eqn:E; [|done]. injection H as <- <- <-. by apply BigSymbol.
  - rw /try_bind /= in H. destruct (special_of f) as [sp|] eqn:Hs; [|by eapply sound_apply].
    apply special_of_keyword in Hs as ->. destruct sp; simpl.
    + by eapply sound_if.
    + by eapply sound_def.
    + by eapply sound_fn.
    + by eapply sound_sys.
    + rw /eval_quote in H. unbind. destruct args as [|a args]; simplify_eq/=. apply BigQuote.
    + apply (sound_and _ IH) in H as (b & -> & H). by apply BigAnd.
    + apply (sound_or _ IH) in H as (b & -> & H). by apply BigOr.
    + by eapply sound_for.
    + by eapply sound_append.
    + by eapply sound_pop.
    + by eapply sound_mset.
    + by eapply sound_mdel.
    + apply (sound_do _ IH) in H as (vs & H & ->). by apply BigDo.
    + by apply error_not_Ok in H.
Qed.

(** ** The evaluator returns what the rules give *)

(** With enough fuel. *)
Definition eventually (P : nat → Prop) : Prop := ∃ n, ∀ m, (n ≤ m)%nat → P m.

Lemma eventually_and P Q : eventually P → eventually Q → eventually (λ m, P m ∧ Q m).
Proof. intros [n Hn] [k Hk]. exists (n + k)%nat. intros m Hm. split; [apply Hn|apply Hk]; lia. Qed.

Lemma eventually_mono (P Q : nat → Prop) : eventually P → (∀ m, P m → Q m) → eventually Q.
Proof. intros [n Hn] HPQ. exists n. auto. Qed.

Lemma eventually_S (P : nat → Prop) : eventually (λ m, P (S m)) → eventually P.
Proof. intros [n Hn]. exists (S n). intros [|m] Hm; [lia|]. apply Hn. lia. Qed.

Lemma eventually_pred (P : nat → Prop) : eventually P → eventually (λ m, P (S m)).
Proof. intros [n Hn]. exists n. intros m Hm. apply Hn. lia. Qed.

Lemma eventually_const (P : Prop) : P → eventually (λ _, P).
Proof. by exists 0%nat. Qed.

Notation gives e s v s' := (eventually (λ m, eval m e s = Done (Ok v, s'))).

Lemma do_last ev args r s vs s' :
  eval_all ev args s = Done (Ok vs, s') → eval_do (W := W) ev args r s = Done (Ok (default r (last vs)), s').
Proof.
  revert r s vs. induction args as [|a args IH]; intros r s vs H; simpl in *; apply try_bind_Ok in H || idtac.
  - by injection H as <- <-.
  - destruct H as (v & s1 & Hv & H). apply try_bind_Ok in H as (vs' & s2 & Hvs & [= <- <-]).
    rw /try_bind Hv. rw (IH _ _ _ Hvs) last_cons. by destruct (last vs').
Qed.

Lemma env_for_lambda_names names vs env :
  length names = length vs →
  env_for_lambda (List (Symbol <$> names)) vs env = Ok (env_insert_all (zip names vs) env).
Proof.
  intros Hl. rw /env_for_lambda /parse_list_of_symbol_strings.
  assert (∀ names : list rstring, collect (λ x, match x with
    | Symbol s => Ok s | _ => Err (str "expected symbols in the argument list") end) (Symbol <$> names) = Ok names) as E.
  { clear. induction names as [|x names IH]; simpl; [done|]. by rw IH. }
  rw E. by rw (proj2 (Nat.eqb_eq _ _) Hl).
Qed.

Lemma sys_run ev args vs cmd success s env w w1 w2 :
  args ≠ [] → eval_all ev args s = Done (Ok vs, (env, w)) → collect cmd_part vs = Ok cmd →
  run_cmd cmd w = Done (CmdOk success, w1) →
  (if print_code success then println (success_code success) w1 = Done (tt, w2) else w2 = w1) →
  eval_sys run_cmd ev args s = Done (Ok (Syscall cmd), (env, w2)).
Proof.
  intros Hne Ha Hc Hr Hp. rw /eval_sys. destruct args as [|a args]; [done|].
  rw {1}/try_bind Ha {1}/try_bind /of_result Hc {1}/try_bind /on_world Hr /try_bind.
  destruct (print_code success); [by rw Hp|by subst].
Qed.

(** A loop needs fuel for its iterations and for its parts. *)
Definition loop_ends (cond body : RispExp) (s s' : state) : Prop :=
  ∃ n, ∀ m k, (n ≤ m)%nat → (n ≤ k)%nat → for_loop (eval m) k cond body s = Done (Ok (Bool false), s').

(** Run a form on what its parts are known to give. *)
Ltac run_form :=
  cbn [LispEval.eval];
  rw /eval_if /eval_def /eval_fn /eval_sys /eval_quote /eval_for /eval_append /eval_pop /eval_mset /eval_mdel
    /eval_apply /list_var /map_var /get_form /try_bind /of_result /lift_outcome /on_world /in_env /=;
  repeat match goal with
  | H : ?l = Done _ |- context [?l] => rewrite H; simpl
  | H : ?l = None |- context [?l] => rewrite H; simpl
  | H : ?l = Some _ |- context [?l] => rewrite H; simpl
  | H : ?l = Ok _ |- context [?l] => rewrite H; simpl
  end; try done.

(** The premises of a rule, at one fuel. *)
Ltac premises :=
  pose proof (eventually_const True I);
  repeat match goal with
  | H1 : eventually ?P, H2 : eventually ?Q |- _ =>
    let H := fresh "Hprem" in pose proof (eventually_and P Q H1 H2) as H; clear H1 H2
  end;
  match goal with H : eventually _ |- eventually _ => eapply (eventually_mono _ _ H) end;
  let fuel := fresh "fuel" in let Hm := fresh in intros fuel Hm; destruct_and? Hm.

Lemma eval_complete e s v s' : big_eval e s v s' → gives e s v s'.
Proof.
  intros H. revert e s v s' H. apply (big_eval_mind W _ run_cmd
    (λ e s v s' _, gives e s v s')
    (λ args s vs s' _, eventually (λ m, eval_all (eval m) args s = Done (Ok vs, s')))
    (λ u args s b s' _, eventually (λ m, (if u : bool then eval_and (eval m) args s else eval_or (eval m) args s) = Done (Ok (Bool b), s')))
    (λ cond body s s' _, loop_ends cond body s s')); intros; try solve [apply eventually_S; premises; run_form].
  all: try solve [premises; simpl; run_form].
  - exists 1%nat. intros [|m] Hm; [lia|]. by destruct e.
  - apply eventually_S. premises. by eapply sys_run.
  - destruct H as [n Hn]. exists (S n). intros [|m] Hm; [lia|]. run_form. apply Hn; lia.
  - apply eventually_S. premises. run_form. by rw last_snoc removelast_last.
  - apply eventually_S. premises. run_form. by apply do_last.
  - apply eventually_S. premises. run_form. rw env_for_lambda_names //. run_form.
  - by destruct unit; premises.
  - destruct unit; premises; simpl; run_form.
  - destruct unit; premises; simpl; run_form.
  - destruct H as [n Hn]. exists (S n). intros m [|k] Hm Hk; [lia|]. simpl. rw /try_bind Hn //. lia.
  - destruct H as [n1 Hn1], H0 as [n2 Hn2], H1 as [n3 Hn3]. exists (S (n1 + n2 + n3)).
    intros m [|k] Hm Hk; [lia|]. simpl. rw /try_bind Hn1; [lia|]. rw Hn2; [lia|]. apply Hn3; lia.
Qed.

(** C16. The evaluator implements the language: with enough fuel [eval] returns the
    value [v] and the state [s'] exactly when the rules of the language give
    [v] and [s'], for every expression, state and set of commands. *)
Theorem eval_is_semantics e s v s' :
  big_eval e s v s' ↔ ∃ fuel, eval fuel e s = Done (Ok v, s').
Proof.
  split.
  - intros [n Hn]%eval_complete. exists n. by apply Hn.
  - intros [fuel H]. by eapply eval_sound.
Qed.
End equivalence.
