(* ===== verification/Shell.v ===== *)
(** * The command line: src/src/shell.rs *)

From S2P Require Import Prelude Str.
#[local] Open Scope Z_scope.

Record Shell := { current_cmd : rstring; past_cmd : list (list rstring) }.

Definition SHELL_init : Shell := {| current_cmd := []; past_cmd := [] |}.

Implicit Types (sh : Shell).

(** A byte is pushed as the character of the same number. *)
Definition shell_add sh (char : Z) : Shell :=
  {| current_cmd := current_cmd sh ++ [char]; past_cmd := past_cmd sh |}.

(** [String::pop] *)
Definition shell_backspace sh : Shell :=
  {| current_cmd := removelast (current_cmd sh); past_cmd := past_cmd sh |}.

Definition getcmd sh : option (list rstring) :=
  match current_cmd sh with
  | [] => None
  | s => match split_whitespace s with [] => None | params => Some params end
  end.

Definition shell_clear sh : Shell :=
  {| current_cmd := [];
     past_cmd := match getcmd sh with Some c => past_cmd sh ++ [c] | None => past_cmd sh end |}.

(** The text [history] prints: every word followed by a space, a line per
    command. *)
Definition history_text sh : rstring :=
  mjoin ((λ c, mjoin ((λ w, w ++ [SPACE]) <$> c) ++ [LF]) <$> past_cmd sh).

Definition shell_history {S} `{!Console S} sh : proc S unit :=
  for_each (λ i, for_each (λ j, print (j ++ [SPACE])) i ;; print [LF]) (past_cmd sh).

(** ** Splitting at whitespace *)

Definition is_word (w : rstring) : Prop := w ≠ [] ∧ Forall (λ c, is_whitespace c = false) w.
#[export] Instance is_word_dec w : Decision (is_word w).
Proof. rw /is_word. apply _. Defined.

Lemma split_ws_word w s cur :
  Forall (λ c, is_whitespace c = false) w → split_ws_aux (w ++ s) cur = split_ws_aux s (cur ++ w).
Proof.
  intros Hw. revert cur. induction Hw as [|c w Hc _ IH]; intros cur; simpl; [by rw app_nil_r|].
  by rw Hc IH -assoc.
Qed.

(** Words joined by single spaces split into the words. *)
Lemma split_ws_join ws : Forall is_word ws → split_whitespace (join [SPACE] ws) = ws.
Proof.
  rw /split_whitespace. induction 1 as [|w ws [Hne Hw] Hws IH]; [done|]. destruct ws as [|w' ws].
  - simpl. rw -(app_nil_r w) split_ws_word //= app_nil_r. by destruct w.
  - change (join [SPACE] (w :: w' :: ws)) with (w ++ SPACE :: join [SPACE] (w' :: ws)).
    rw split_ws_word // app_nil_l. simpl. rw IH. by destruct w.
Qed.

(** Every word of a split is a word: not empty and without whitespace. *)
Lemma split_ws_words s : Forall is_word (split_whitespace s).
Proof.
  rw /split_whitespace. assert (∀ cur, Forall (λ c, is_whitespace c = false) cur →
    Forall is_word (split_ws_aux s cur)) as H; [|apply H; constructor].
  induction s as [|c s IH]; intros cur Hc; simpl.
  - destruct cur; constructor; [by split|constructor].
  - destruct (is_whitespace c) eqn:E.
    + destruct cur; [by apply IH|]. constructor; [by split|]. by apply IH.
    + apply IH. apply Forall_app; split; [done|]. by apply Forall_singleton.
Qed.

Fixpoint type_line sh (s : rstring) : Shell :=
  match s with [] => sh | c :: s => type_line (shell_add sh c) s end.

Lemma type_line_spec sh s :
  type_line sh s = {| current_cmd := current_cmd sh ++ s; past_cmd := past_cmd sh |}.
Proof.
  revert sh. induction s as [|c s IH]; intros [cur past]; simpl; [by rw app_nil_r|].
  by rw IH /= -assoc.
Qed.

(** The command line gives back the words typed: typing words separated by
    single spaces into an empty line, [getcmd] returns exactly those words, and
    [clear] empties the line and appends them to the history. *)
Theorem typed_words_roundtrip sh ws :
  current_cmd sh = [] → ws ≠ [] → Forall is_word ws →
  getcmd (type_line sh (join [SPACE] ws)) = Some ws ∧
  shell_clear (type_line sh (join [SPACE] ws)) = {| current_cmd := []; past_cmd := past_cmd sh ++ [ws] |}.
Proof.
  intros Hc Hne Hws. assert (getcmd (type_line sh (join [SPACE] ws)) = Some ws) as Hg.
  { rw type_line_spec /getcmd. cbn [current_cmd]. rw Hc app_nil_l.
    pose proof (split_ws_join ws Hws) as Hs. destruct (join [SPACE] ws) as [|c s]; [by subst|].
    rw Hs. by destruct ws. }
  split; [done|]. rw /shell_clear Hg type_line_spec. done.
Qed.

Lemma typed_words_roundtrip_witness :
  getcmd (type_line SHELL_init (join [SPACE] [str "echo"; str "hi"])) = Some [str "echo"; str "hi"] ∧
  shell_clear (type_line SHELL_init (join [SPACE] [str "echo"; str "hi"])) =
    {| current_cmd := []; past_cmd := [] ++ [[str "echo"; str "hi"]] |}.
Proof.
  apply (typed_words_roundtrip SHELL_init [str "echo"; str "hi"]).
  - done.
  - done.
  - refine (bool_decide_unpack _ _). vm_compute. exact I.
Defined.
