(* ===== verification/Kernel.v ===== *)
(** * The machine the commands run on

    One record gathers the global state of the kernel: the drive ([IDE]), the
    screen ([WRITER] and the cursor ports), the mounted filesystem ([FS]), the
    command line ([SHELL]), the queue of decoded key events
    ([KEY_EVENT_QUEUE], src/src/input.rs), the flags and the command table
    ([COMMANDS], src/src/commands.rs).  The record implements the interfaces the
    components are written against: it is a block device and a console, and
    meets their contracts. *)

From S2P Require Import Prelude Device Str Fat16 FsFormat Vga VgaTheorems Editor BTreeMap Shell.
#[local] Open Scope Z_scope.

(** ** Keys *)

Inductive KeyState := Down | Up.

(** [pc_keyboard::KeyEvent] *)
Record KeyEvent := { code : KeyCode; state : KeyState }.

(** ** Commands *)

(** The functions [init_cmds] registers, and a program that [bind] registered. *)
Inductive Command :=
  | CPong | CClear | CHistory | CEcho | CParse | CBind | CRead | CWrite | CShow | CFormatd
  | CMkdir | CCat | CRun | CEdit | CEden | CQuit
  | CBound (lisp_code : rstring).

(** ** State *)

Record Kernel (D : Type) := {
  k_dev : D;
  k_screen : Screen;
  k_fs : option Fat16FileSystem;
  k_shell : Shell;
  k_keys : list KeyEvent;
  k_arrivals : list (list KeyEvent);
  k_pending : bool;
  k_launch_pong : bool;
  k_commands : list (rstring * Command);
}.
Arguments Build_Kernel {_}.
Arguments k_dev {_}.
Arguments k_screen {_}.
Arguments k_fs {_}.
Arguments k_shell {_}.
Arguments k_keys {_}.
Arguments k_arrivals {_}.
Arguments k_pending {_}.
Arguments k_launch_pong {_}.
Arguments k_commands {_}.

Section kernel.
Context {D : Type}.
Implicit Types (k : Kernel D).

Definition set_dev k d : Kernel D :=
  {| k_dev := d; k_screen := k_screen k; k_fs := k_fs k; k_shell := k_shell k; k_keys := k_keys k;
     k_arrivals := k_arrivals k; k_pending := k_pending k; k_launch_pong := k_launch_pong k;
     k_commands := k_commands k |}.
Definition set_screen k s : Kernel D :=
  {| k_dev := k_dev k; k_screen := s; k_fs := k_fs k; k_shell := k_shell k; k_keys := k_keys k;
     k_arrivals := k_arrivals k; k_pending := k_pending k; k_launch_pong := k_launch_pong k;
     k_commands := k_commands k |}.
Definition set_fs k f : Kernel D :=
  {| k_dev := k_dev k; k_screen := k_screen k; k_fs := f; k_shell := k_shell k; k_keys := k_keys k;
     k_arrivals := k_arrivals k; k_pending := k_pending k; k_launch_pong := k_launch_pong k;
     k_commands := k_commands k |}.
Definition set_shell k s : Kernel D :=
  {| k_dev := k_dev k; k_screen := k_screen k; k_fs := k_fs k; k_shell := s; k_keys := k_keys k;
     k_arrivals := k_arrivals k; k_pending := k_pending k; k_launch_pong := k_launch_pong k;
     k_commands := k_commands k |}.
Definition set_keys k q a : Kernel D :=
  {| k_dev := k_dev k; k_screen := k_screen k; k_fs := k_fs k; k_shell := k_shell k; k_keys := q;
     k_arrivals := a; k_pending := k_pending k; k_launch_pong := k_launch_pong k;
     k_commands := k_commands k |}.
Definition set_pending k b : Kernel D :=
  {| k_dev := k_dev k; k_screen := k_screen k; k_fs := k_fs k; k_shell := k_shell k; k_keys := k_keys k;
     k_arrivals := k_arrivals k; k_pending := b; k_launch_pong := k_launch_pong k;
     k_commands := k_commands k |}.
Definition set_launch_pong k b : Kernel D :=
  {| k_dev := k_dev k; k_screen := k_screen k; k_fs := k_fs k; k_shell := k_shell k; k_keys := k_keys k;
     k_arrivals := k_arrivals k; k_pending := k_pending k; k_launch_pong := b;
     k_commands := k_commands k |}.
Definition set_commands k c : Kernel D :=
  {| k_dev := k_dev k; k_screen := k_screen k; k_fs := k_fs k; k_shell := k_shell k; k_keys := k_keys k;
     k_arrivals := k_arrivals k; k_pending := k_pending k; k_launch_pong := k_launch_pong k;
     k_commands := c |}.

(** A computation on one part of the machine. *)
Definition on_part {P A} (get : Kernel D → P) (set : Kernel D → P → Kernel D) (p : proc P A)
    : proc (Kernel D) A := λ k,
  match p (get k) with
  | Done (a, x) => Done (a, set k x)
  | Panic e => Panic e
  | Hang => Hang
  end.

Definition on_screen {A} : proc Screen A → proc (Kernel D) A := on_part k_screen set_screen.
Definition on_shell (f : Shell → Shell) : proc (Kernel D) unit := λ k, Done (tt, set_shell k (f (k_shell k))).

(** [pop_key] *)
Definition pop_key : proc (Kernel D) (option KeyEvent) := λ k,
  match k_keys k with
  | [] => Done (None, k)
  | e :: q => Done (Some e, set_keys k q (k_arrivals k))
  end.

(** [yield_now().await]: before the task runs again, the keyboard task has put
    the next batch of arrivals into the queue.  The arrivals are the schedule of a
    run: at its end the run is cut off, as one that does not come back.  A task
    that polls on without keys is given empty batches. *)
Definition yield_now : proc (Kernel D) unit := λ k,
  match k_arrivals k with
  | [] => Hang
  | b :: bs => Done (tt, set_keys k (k_keys k ++ b) bs)
  end.

(** ** The interfaces *)

Context `{!BlockDevice D}.

#[export] Instance Kernel_device : BlockDevice (Kernel D) := {|
  read_sector lba := on_part k_dev set_dev (read_sector lba);
  write_sector_bytes lba b := on_part k_dev set_dev (write_sector_bytes lba b);
  flush_command := on_part k_dev set_dev flush_command;
  flush_cache := on_part k_dev set_dev flush_cache;
|}.

#[export] Instance Kernel_console : Console (Kernel D) := λ s, on_screen (vga_print s).

Lemma on_part_run {P A} (get : Kernel D → P) set (p : proc P A) k Q :
  runs p (get k) (λ a x, Q a (set k x)) → runs (on_part get set p) k Q.
Proof. rw /runs /on_part. by destruct (p (get k)) as [[a x]| |]. Qed.

Context `{!BlockDeviceOk D}.

(** The drive stores [s] and the screen is in order. *)
Definition kernel_holds k (s : disk) : Prop := holds (k_dev k) s ∧ wf_writer (WRITER (k_screen k)).

#[export] Program Instance Kernel_device_ok : BlockDeviceOk (Kernel D) := {|
  capacity := capacity D;
  holds := kernel_holds;
  flushing k s := flushing (k_dev k) s ∧ wf_writer (WRITER (k_screen k));
|}.
Next Obligation. apply capacity_u28. Qed.
Next Obligation. intros k s l [Hd _] Hl. by eapply holds_sector. Qed.
Next Obligation. intros k s s' [Hd Hw] Hs. split; [by eapply holds_ext|done]. Qed.
Next Obligation.
  intros k s lba [Hd Hw] Hl. apply on_part_run. eapply runs_mono; [by apply read_sector_ok|].
  intros b d' [-> Hd']. split; [done|by split].
Qed.
Next Obligation.
  intros k s lba b [Hd Hw] Hl Hb. apply on_part_run. eapply runs_mono; [by apply write_sector_ok|].
  by intros [] d' Hd'.
Qed.
Next Obligation.
  intros k s [Hd Hw]. apply on_part_run. eapply runs_mono; [by apply flush_command_ok|]. by intros [] d' Hd'.
Qed.
Next Obligation.
  intros k s [Hd Hw]. apply on_part_run. eapply runs_mono; [by apply flush_cache_ok|]. by intros [] d' Hd'.
Qed.

(** The same machine seen from the drive alone: everything but the drive is as
    in [k0].  A computation that only uses the drive meets its contract with this
    reading too, so it leaves the rest of the machine alone. *)
Definition framed_holds (k0 k : Kernel D) (s : disk) : Prop :=
  holds (k_dev k) s ∧ k = set_dev k0 (k_dev k).

Program Definition Kernel_framed (k0 : Kernel D) : BlockDeviceOk (Kernel D) := {|
  capacity := capacity D;
  holds := framed_holds k0;
  flushing k s := flushing (k_dev k) s ∧ k = set_dev k0 (k_dev k);
|}.
Next Obligation. intros. apply capacity_u28. Qed.
Next Obligation. intros k0 k s l [Hd _] Hl. exact (holds_sector (D := D) _ _ _ Hd Hl). Qed.
Next Obligation. intros k0 k s s' [Hd Hw] Hs. split; [exact (holds_ext (D := D) _ _ _ Hd Hs)|done]. Qed.
Next Obligation.
  intros k0 k s lba [Hd Hw] Hl. apply on_part_run. eapply runs_mono; [by apply read_sector_ok|].
  intros b d' [-> Hd']. split; [done|]. split; [done|]. by rw Hw.
Qed.
Next Obligation.
  intros k0 k s lba b [Hd Hw] Hl Hb. apply on_part_run. eapply runs_mono; [by apply write_sector_ok|].
  intros [] d' Hd'. split; [done|]. by rw Hw.
Qed.
Next Obligation.
  intros k0 k s [Hd Hw]. apply on_part_run. eapply runs_mono; [by apply flush_command_ok|].
  intros [] d' Hd'. split; [done|]. by rw Hw.
Qed.
Next Obligation.
  intros k0 k s [Hd Hw]. apply on_part_run. eapply runs_mono; [by apply flush_cache_ok|].
  intros [] d' Hd'. split; [done|]. by rw Hw.
Qed.

(** A screen in order shows some scrollback. *)
Lemma wf_shows w : wf_writer w → shows w
  {| sb_rows := buffer w; sb_col := Z.to_nat (column_position w); sb_color := writer_color w |}.
Proof. intros Hw. split; [done|simpl; destruct Hw; lia|done|by exists []]. Qed.

(** Printing changes the screen only. *)
Lemma print_screen_run t k :
  wf_writer (WRITER (k_screen k)) → runs (print t) k (λ _ k', wf_writer (WRITER (k_screen k')) ∧
    ∃ scr, k' = set_screen k scr ∧ vga_print t (k_screen k) = Done (tt, scr)).
Proof.
  intros Hw. apply on_part_run. rw /runs.
  pose proof (print_refines_run (k_screen k) _ t (wf_shows _ Hw)) as Hr. rw /runs in Hr.
  destruct (vga_print t (k_screen k)) as [[[] scr]| |]; [|done..]. split; [apply Hr|by exists scr].
Qed.

Lemma print_run t k s :
  kernel_holds k s → runs (print t) k (λ _ k', kernel_holds k' s ∧
    ∃ scr, k' = set_screen k scr ∧ vga_print t (k_screen k) = Done (tt, scr)).
Proof.
  intros [Hd Hw]. eapply runs_mono; [by apply print_screen_run|].
  intros [] k' (Hw' & scr & -> & Hp). split; [by split|by exists scr].
Qed.

#[export] Instance Kernel_console_ok : ConsoleOk (Kernel D).
Proof.
  split; intros k s t [Hd Hw]; (eapply runs_mono; [by apply print_screen_run|]);
    intros [] k' (Hw' & scr & -> & _); by split.
Qed.
End kernel.
