(* ===== verification/Keyboard.v ===== *)
(** * The keyboard task: src/src/task/keyboard.rs

    Scancodes come from the interrupt handler ([add_scancode]) and are taken by
    the task [print_keypresses].  An interrupt can fall between any two queue
    operations of the task, so the task is a step machine that interrupts, the
    executor and other tasks interleave with.  The decoder (crate pc_keyboard),
    the queue (crossbeam) and the waker cell (futures-util) are parameters. *)

From S2P Require Import Prelude Editor Kernel Executor.
#[local] Open Scope Z_scope.

(** ** The waker cell *)

Class WakerCellOps (Wk : Type) := {
  wk_new : Wk;
  wk_register : Wk → TaskId → Wk;
  wk_take : Wk → option TaskId * Wk;   (** [wake] takes the waker and calls it *)
}.

Class WakerCellOk (Wk : Type) `{!WakerCellOps Wk} := {
  wk_waker : Wk → option TaskId;
  wk_new_ok : wk_waker wk_new = None;
  wk_register_ok w i : wk_waker (wk_register w i) = Some i;
  wk_take_ok w : (wk_take w).1 = wk_waker w ∧ wk_waker (wk_take w).2 = None;
}.

#[export] Instance option_cell : WakerCellOps (option TaskId) :=
  {| wk_new := None; wk_register _ i := Some i; wk_take w := (w, None) |}.
#[export] Instance option_cell_ok : WakerCellOk (option TaskId).
Proof. by refine {| wk_waker := λ w, w |}. Defined.

(** ** State *)

(** Where the task is: waiting for the executor, before the set-up of the stream,
    or at one of the three operations of [poll_next]. *)
Inductive Pc := Parked | Starting | FirstPop | Registering | SecondPop.
#[export] Instance Pc_eq : EqDecision Pc.
Proof. solve_decision. Defined.

Section keyboard.
Context {Q : Type → Type} `{!QueueOps Q} {Wk : Type} `{!WakerCellOps Wk}.
Context {Dec : Type} (dec_new : Dec) (add_byte : Dec → Z → option KeyEvent * Dec).
(** The id of the task. *)
Context (kid : TaskId).

Record Keyboard := {
  scancode_queue : option (Q Z);       (** [SCANCODE_QUEUE]; [None]: uninitialised *)
  waker : Wk;                          (** [WAKER] *)
  task_queue : Q TaskId;               (** the executor's *)
  pc : Pc;
  keyboard : Dec;
  pushed : list KeyEvent;              (** all that went to [KEY_EVENT_QUEUE] *)
}.

Definition Keyboard_init (tq : Q TaskId) : Keyboard :=
  {| scancode_queue := None; waker := wk_new; task_queue := tq; pc := Parked; keyboard := dec_new; pushed := [] |}.

(** [add_scancode]: whether the code was queued; otherwise a warning is printed. *)
Definition add_scancode (scancode : Z) (k : Keyboard) : outcome (bool * Keyboard) :=
  match scancode_queue k with
  | None => Done (false, k)
  | Some queue =>
    match q_push queue scancode with
    | None => Done (false, k)
    | Some queue =>
      let '(o, cell) := wk_take (waker k) in
      match o with
      | None => Done (true, {| scancode_queue := Some queue; waker := cell; task_queue := task_queue k;
                               pc := pc k; keyboard := keyboard k; pushed := pushed k |})
      | Some id =>
        match q_push (task_queue k) id with
        | None => Panic (PExpect "task_queue full")
        | Some tq => Done (true, {| scancode_queue := Some queue; waker := cell; task_queue := tq;
                                    pc := pc k; keyboard := keyboard k; pushed := pushed k |})
        end
      end
    end
  end.

(** The loop body of [print_keypresses], on a scancode taken from the queue. *)
Definition deliver (scancode : Z) (queue : Q Z) (k : Keyboard) : Keyboard :=
  let '(ev, dec) := add_byte (keyboard k) scancode in
  {| scancode_queue := Some queue; waker := waker k; task_queue := task_queue k; pc := FirstPop;
     keyboard := dec; pushed := pushed k ++ option_list ev |}.

Definition at_pc (k : Keyboard) (p : Pc) : Keyboard :=
  {| scancode_queue := scancode_queue k; waker := waker k; task_queue := task_queue k; pc := p;
     keyboard := keyboard k; pushed := pushed k |}.

(** One operation of the task. *)
Definition task_step (k : Keyboard) : outcome Keyboard :=
  match pc k with
  | Parked => Done k
  | Starting =>
    match scancode_queue k with
    | Some _ => Panic (PExpect "ScancodeStream::new should only be called once")
    | None => Done {| scancode_queue := Some (q_new 100); waker := waker k; task_queue := task_queue k;
                      pc := FirstPop; keyboard := keyboard k; pushed := pushed k |}
    end
  | FirstPop =>
    match scancode_queue k with
    | None => Panic (PExpect "scancode queue not initialized")
    | Some queue =>
      match q_pop queue with
      | Some (scancode, queue) => Done (deliver scancode queue k)
      | None => Done (at_pc k Registering)
      end
    end
  | Registering =>
    Done {| scancode_queue := scancode_queue k; waker := wk_register (waker k) kid; task_queue := task_queue k;
            pc := SecondPop; keyboard := keyboard k; pushed := pushed k |}
  | SecondPop =>
    match scancode_queue k with
    | None => Panic (PExpect "scancode queue not initialized")
    | Some queue =>
      match q_pop queue with
      | Some (scancode, queue) => Done (deliver scancode queue k)
      | None => Done (at_pc k Parked)
      end
    end
  end.

(** The executor popped the task's id: it polls the task. *)
Definition dispatch (tq : Q TaskId) (k : Keyboard) : Keyboard :=
  {| scancode_queue := scancode_queue k; waker := waker k; task_queue := tq;
     pc := match scancode_queue k with None => Starting | Some _ => FirstPop end;
     keyboard := keyboard k; pushed := pushed k |}.

Definition with_tasks (tq : Q TaskId) (k : Keyboard) : Keyboard :=
  {| scancode_queue := scancode_queue k; waker := waker k; task_queue := tq; pc := pc k;
     keyboard := keyboard k; pushed := pushed k |}.

Context `{!QueueOk Q, !WakerCellOk Wk}.

(** ** Interleavings *)

(** The list is the scancodes the handler has queued so far. *)
Inductive kstep : Keyboard * list Z → Keyboard * list Z → Prop :=
  | irq_queued c k k' acc : add_scancode c k = Done (true, k') → kstep (k, acc) (k', acc ++ [c])
  | irq_dropped c k k' acc : add_scancode c k = Done (false, k') → kstep (k, acc) (k', acc)
  | task_runs k k' acc : pc k ≠ Parked → task_step k = Done k' → kstep (k, acc) (k', acc)
  | task_polled k tq acc : pc k = Parked → q_pop (task_queue k) = Some (kid, tq) → kstep (k, acc) (dispatch tq k, acc)
  | other_polled k i tq tq' l acc :
      pc k = Parked → q_pop (task_queue k) = Some (i, tq) → i ≠ kid → q_items tq' = q_items tq ++ l →
      kstep (k, acc) (with_tasks tq' k, acc).

(** What the scancodes decode to. *)
Fixpoint feed (dec : Dec) (cs : list Z) : list KeyEvent * Dec :=
  match cs with
  | [] => ([], dec)
  | c :: cs => let '(ev, dec) := add_byte dec c in let '(evs, dec) := feed dec cs in (option_list ev ++ evs, dec)
  end.

Definition pending (k : Keyboard) : list Z := match scancode_queue k with Some q => q_items q | None => [] end.
Definition runnable (k : Keyboard) : Prop := kid ∈ q_items (task_queue k).

Record kinv (k : Keyboard) (acc : list Z) : Prop := {
  ki_waker : wk_waker (waker k) = None ∨ wk_waker (waker k) = Some kid;
  (** a parked task that nobody will wake has nothing to do *)
  ki_parked : pc k = Parked → runnable k ∨
    (wk_waker (waker k) = Some kid ∧ pending k = [] ∧ is_Some (scancode_queue k));
  ki_second : pc k = SecondPop → runnable k ∨ wk_waker (waker k) = Some kid;
  ki_started : pc k ≠ Parked → pc k ≠ Starting → is_Some (scancode_queue k);
  ki_starting : pc k = Starting → scancode_queue k = None;
  (** the codes taken are a prefix, decoded in order *)
  ki_order : ∃ taken, acc = taken ++ pending k ∧ feed dec_new taken = (pushed k, keyboard k);
}.

Lemma feed_snoc dec cs c evs dec' ev dec'' :
  feed dec cs = (evs, dec') → add_byte dec' c = (ev, dec'') → feed dec (cs ++ [c]) = (evs ++ option_list ev, dec'').
Proof.
  revert dec evs. induction cs as [|d cs IH]; intros dec evs; simpl.
  { intros [= <- <-] ->. by rw app_nil_r. }
  destruct (add_byte dec d) as [ev1 dec1]. destruct (feed dec1 cs) as [evs1 dec2] eqn:E.
  intros [= <- <-] Ha. rw (IH _ _ E Ha). by rw -assoc.
Qed.

(** ** The invariant is kept *)

Lemma irq_queued_inv c k k' acc :
  kinv k acc → add_scancode c k = Done (true, k') → kinv k' (acc ++ [c]).
Proof.
  intros [Hw Hp Hs Hst Hsg (taken & -> & Hf)]. rw /add_scancode.
  destruct (scancode_queue k) as [q|] eqn:Eq; [|done]. destruct (q_push q c) as [q'|] eqn:Hq; [|done].
  destruct (q_push_some _ _ _ Hq) as [Hi _]. destruct (wk_take (waker k)) as [o cell] eqn:Ht.
  pose proof (wk_take_ok (waker k)) as [H1 H2]. rw Ht /= in H1, H2.
  assert (∃ taken', (taken ++ pending k) ++ [c] = taken' ++ q_items q' ∧ feed dec_new taken' = (pushed k, keyboard k)) as Ho.
  { exists taken. rw /pending Eq Hi -assoc. done. }
  destruct o as [i|].
  - destruct (q_push (task_queue k) i) as [tq|] eqn:Htq; [|done]. intros [= <-].
    destruct (q_push_some _ _ _ Htq) as [Hti _]. assert (i = kid) as -> by (destruct Hw; congruence).
    assert (kid ∈ q_items tq) as Hrun by (rw Hti; set_solver).
    split; simpl; try done; eauto.
    intros E. apply Hsg in E. congruence.
  - intros [= <-]. split; simpl; try done; eauto.
    + intros E. destruct (Hp E) as [?|(E1 & _)]; [by left|congruence].
    + intros E. destruct (Hs E) as [?|E1]; [by left|congruence].
    + intros E. apply Hsg in E. congruence.
Qed.

Lemma irq_dropped_inv c k k' acc : kinv k acc → add_scancode c k = Done (false, k') → kinv k' acc.
Proof.
  intros Hk. rw /add_scancode. destruct (scancode_queue k) as [q|]; [|by intros [= <-]].
  destruct (q_push q c) as [q'|]; [|by intros [= <-]]. destruct (wk_take (waker k)) as [[i|] cell]; [|done].
  by destruct (q_push (task_queue k) i).
Qed.

(** Taking a scancode. *)
Lemma deliver_inv k acc q c q' :
  kinv k acc → scancode_queue k = Some q → q_pop q = Some (c, q') → kinv (deliver c q' k) acc.
Proof.
  intros [Hw _ _ _ _ (taken & -> & Hf)] Eq Hq. destruct (q_pop_some _ _ _ Hq) as [Hi _].
  rw /deliver. destruct (add_byte (keyboard k) c) as [ev dec] eqn:Ha.
  split; simpl; try done. exists (taken ++ [c]). split; [|by eapply feed_snoc].
  rw /pending Eq Hi /=. by rw -assoc.
Qed.

Lemma task_step_inv k k' acc : kinv k acc → pc k ≠ Parked → task_step k = Done k' → kinv k' acc.
Proof.
  intros Hk Hpc. pose proof Hk as [Hw Hp Hs Hst Hsg Ho]. rw /task_step. destruct (pc k) eqn:Epc; [done|..].
  - destruct (scancode_queue k) as [q|] eqn:Eq; [done|]. intros [= <-].
    destruct (q_new_ok (Q := Q) (A := Z) 100) as [Hn _].
    split; simpl; try done. rw /pending Eq in Ho. rw /pending /= Hn. done.
  - destruct (scancode_queue k) as [q|] eqn:Eq; [|done]. destruct (q_pop q) as [[c q']|] eqn:Hq; intros [= <-].
    + by eapply deliver_inv.
    + by split.
  - intros [= <-]. split; simpl; try done.
    + right. apply wk_register_ok.
    + intros _. right. apply wk_register_ok.
    + intros _ _. by apply Hst.
  - destruct (scancode_queue k) as [q|] eqn:Eq; [|done]. destruct (q_pop q) as [[c q']|] eqn:Hq; intros [= <-].
    + by eapply deliver_inv.
    + apply q_pop_none in Hq. split; simpl; try done. intros _. destruct (Hs eq_refl) as [?|?]; [by left|right].
      rw /pending /= Eq. by split_and!.
Qed.

Lemma kstep_inv st st' : kstep st st' → kinv st.1 st.2 → kinv st'.1 st'.2.
Proof.
  intros [c k k' acc Ha|c k k' acc Ha|k k' acc Hpc Ht|k tq acc Hpc Hq|k i tq tq' l acc Hpc Hq Hne Hl] Hk; simpl in *.
  - by eapply irq_queued_inv.
  - by eapply irq_dropped_inv.
  - by eapply task_step_inv.
  - destruct Hk as [Hw _ _ _ _ Ho]. rw /dispatch. split; simpl; try done.
    all: destruct (scancode_queue k); try done; by eauto.
  - destruct Hk as [Hw Hp _ _ _ Ho]. split; simpl; try done; try congruence.
    intros _. destruct (Hp Hpc) as [Hr|?]; [left|by right]. destruct (q_pop_some _ _ _ Hq) as [Hi _].
    rw /runnable Hi in Hr. rw /runnable /= Hl. apply elem_of_cons in Hr as [->|?]; [done|set_solver].
Qed.

(** C14. No key is lost: from boot, with the task spawned, after any interleaving of
    keyboard interrupts, steps of the keyboard task and polls of other tasks in
    which the run queue does not overflow, the events handed to the programs are
    what the decoder makes, in order, of a prefix of the scancodes the handler
    queued; the rest is still in the scancode queue; and if any is, the task is
    running or is in the run queue. *)
Theorem no_key_lost tq k acc :
  kid ∈ q_items tq → rtc kstep (Keyboard_init tq, []) (k, acc) →
  (∃ taken, acc = taken ++ pending k ∧ (feed dec_new taken).1 = pushed k) ∧
  (pending k ≠ [] → pc k ≠ Parked ∨ runnable k).
Proof.
  intros Htq Hr.
  assert (kinv (k, acc).1 (k, acc).2) as [_ Hp _ _ _ (taken & Ha & Hf)].
  { assert (∀ st, kinv st.1 st.2 → ∀ st', rtc kstep st st' → kinv st'.1 st'.2) as Hrtc.
    { intros st Hst st' Hrs. induction Hrs as [|st st1 st2 Hs _ IH]; [done|]. by apply IH, (kstep_inv st). }
    apply (Hrtc (Keyboard_init tq, [])); [|done]. split; simpl; try done.
    - left. apply wk_new_ok.
    - by left.
    - by exists []. }
  simpl in *. split; [exists taken; by rw Hf|]. intros Hne. destruct (decide (runnable k)); [by right|left].
  intros Hpc. destruct (Hp Hpc) as [?|(_ & ? & _)]; done.
Qed.
End keyboard.

(** ** Witness *)

(** A decoder that makes an event of every code. *)
Definition demo_add_byte (u : unit) (c : Z) : option KeyEvent * unit :=
  (Some {| code := OtherKey c; state := Down |}, u).

Definition demo_tasks : ListQueue TaskId := {| lq_cap := 100; lq_items := [0] |}.

(** The interrupt falls after the first look at the empty queue and before the
    waker is registered; the second look finds the code. *)
Definition demo_keyboard : @Keyboard ListQueue (option TaskId) unit :=
  {| scancode_queue := Some {| lq_cap := 100; lq_items := [] |}; waker := Some 0;
     task_queue := {| lq_cap := 100; lq_items := [] |}; pc := FirstPop; keyboard := tt;
     pushed := [{| code := OtherKey 30; state := Down |}] |}.

Lemma no_key_lost_witness :
  (∃ taken, [30] = taken ++ pending demo_keyboard ∧ (feed demo_add_byte tt taken).1 = pushed demo_keyboard) ∧
  (pending demo_keyboard ≠ [] → pc demo_keyboard ≠ Parked ∨ runnable 0 demo_keyboard).
Proof.
  apply (no_key_lost tt demo_add_byte 0 demo_tasks demo_keyboard [30]).
  - by apply list_elem_of_singleton.
  - eapply rtc_l; [by eapply task_polled|]. eapply rtc_l; [by eapply task_runs|].
    eapply rtc_l; [by eapply task_runs|]. eapply rtc_l; [by eapply (irq_queued _ _ 30)|].
    eapply rtc_l; [by eapply task_runs|]. eapply rtc_l; [by eapply task_runs|].
    apply rtc_refl.
Defined.
