(* ===== verification/Interrupts.v ===== *)
(** * Interrupts: src/src/interrupts.rs, and the locks of src/src/vga_buffer.rs

    The handlers, the descriptor table and the interrupt controllers; and the
    screen operations at the grain at which an interrupt can fall: the masking of
    interrupts, the spin lock, one access to the writer at a time.  The crates
    pic8259 and x86_64 are interfaces with their laws. *)

From S2P Require Import Prelude Str Vga Editor Kernel Executor Keyboard.
#[local] Open Scope Z_scope.

(** ** The interrupt controllers *)

Definition PIC_1_OFFSET : Z := 32.
Definition PIC_2_OFFSET : Z := PIC_1_OFFSET + 8.

Inductive InterruptIndex := Timer | KeyboardIrq | AtaPrimary | AtaSecondary.

Definition as_u8 (i : InterruptIndex) : Z :=
  match i with
  | Timer => PIC_1_OFFSET
  | KeyboardIrq => PIC_1_OFFSET + 1
  | AtaPrimary => PIC_1_OFFSET + 14
  | AtaSecondary => PIC_1_OFFSET + 15
  end.

(** [usize::from(self.as_u8())] *)
Definition as_usize (i : InterruptIndex) : Z := as_u8 i.

Class PicOps (P : Type) := {
  pics_new : Z → Z → P;
  pics_initialize : P → P;
  notify_end_of_interrupt : P → Z → P;
  pics_accept : P → Z → P;   (** the processor takes the interrupt of a vector *)
}.

(** A chip has an interrupt in service from its acceptance to the end of interrupt
    it is sent; an interrupt of the second chip occupies the first too. *)
Class PicOk (P : Type) `{!PicOps P} := {
  pics_offsets : P → Z * Z;
  first_busy : P → bool;
  second_busy : P → bool;
  pics_initialize_ok o1 o2 :
    let p := pics_initialize (pics_new o1 o2) in
    pics_offsets p = (o1, o2) ∧ first_busy p = false ∧ second_busy p = false;
  pics_offsets_kept p v :
    pics_offsets (notify_end_of_interrupt p v) = pics_offsets p ∧ pics_offsets (pics_accept p v) = pics_offsets p;
  notify_first p v : let '(o, o2) := pics_offsets p in o ≤ v < o + 8 → ¬ o2 ≤ v < o2 + 8 →
    first_busy (notify_end_of_interrupt p v) = false ∧ second_busy (notify_end_of_interrupt p v) = second_busy p;
  notify_second p v : let o := (pics_offsets p).2 in o ≤ v < o + 8 →
    first_busy (notify_end_of_interrupt p v) = false ∧ second_busy (notify_end_of_interrupt p v) = false;
  accept_first p v : let o := (pics_offsets p).1 in o ≤ v < o + 8 → second_busy (pics_accept p v) = second_busy p;
}.

(** ** The descriptor table *)

Definition DOUBLE_FAULT_IST_INDEX : Z := 0.

Inductive Handler :=
  | breakpoint_handler | double_fault_handler | page_fault_handler
  | timer_interrupt_handler | keyboard_interrupt_handler | ata_interrupt_handler.

Record Gate := { gate_handler : Handler; gate_stack : option Z }.

(** [set_handler_fn] on the entry of a vector, [set_stack_index] on an entry that
    was set. *)
Class IdtOps (I : Type) := {
  idt_new : I;
  set_handler_fn : I → Z → Handler → I;
  set_stack_index : I → Z → Z → I;
  idt_gate : I → Z → option Gate;   (** what the processor finds *)
}.

Class IdtOk (I : Type) `{!IdtOps I} : Prop := {
  idt_new_ok v : idt_gate (idt_new (I := I)) v = None;
  set_handler_ok (i : I) v h v' :
    idt_gate (set_handler_fn i v h) v' =
      if decide (v' = v) then Some {| gate_handler := h; gate_stack := None |} else idt_gate i v';
  set_stack_ok (i : I) v n v' :
    idt_gate (set_stack_index i v n) v' =
      if decide (v' = v) then (λ g, {| gate_handler := gate_handler g; gate_stack := Some n |}) <$> idt_gate i v'
      else idt_gate i v';
}.

(** The vectors the processor gives its exceptions. *)
Definition BREAKPOINT : Z := 3.
Definition DOUBLE_FAULT : Z := 8.
Definition PAGE_FAULT : Z := 14.

Definition IDT {I} `{!IdtOps I} : I :=
  let idt := idt_new in
  let idt := set_handler_fn idt BREAKPOINT breakpoint_handler in
  let idt := set_stack_index (set_handler_fn idt DOUBLE_FAULT double_fault_handler) DOUBLE_FAULT DOUBLE_FAULT_IST_INDEX in
  let idt := set_handler_fn idt (as_usize Timer) timer_interrupt_handler in
  let idt := set_handler_fn idt (as_usize KeyboardIrq) keyboard_interrupt_handler in
  let idt := set_handler_fn idt (as_usize AtaPrimary) ata_interrupt_handler in
  set_handler_fn idt PAGE_FAULT page_fault_handler.

(** ** The processor and what handlers share with the code they interrupt *)

Section cpu.
Context {Q : Type → Type} `{!QueueOps Q} {Wk : Type} `{!WakerCellOps Wk} {Dec : Type}.
Context {P : Type} `{!PicOps P} {I : Type} `{!IdtOps I}.
Notation Kb := (@Keyboard Q Wk Dec).

Record Cpu := {
  int_flag : bool;           (** interrupts are enabled *)
  saved_flags : list bool;   (** one per [without_interrupts] being run *)
  writer_lock : bool;        (** [WRITER] is held *)
  pics_lock : bool;          (** [PICS] is held *)
  screen : Screen;
  pics : P;
  kb : Kb;
  idt : I;                   (** the loaded table *)
}.

Definition set_int (b : bool) (saved : list bool) (c : Cpu) : Cpu :=
  {| int_flag := b; saved_flags := saved; writer_lock := writer_lock c; pics_lock := pics_lock c;
     screen := screen c; pics := pics c; kb := kb c; idt := idt c |}.
Definition set_writer (l : bool) (s : Screen) (c : Cpu) : Cpu :=
  {| int_flag := int_flag c; saved_flags := saved_flags c; writer_lock := l; pics_lock := pics_lock c;
     screen := s; pics := pics c; kb := kb c; idt := idt c |}.
Definition set_pics (l : bool) (p : P) (c : Cpu) : Cpu :=
  {| int_flag := int_flag c; saved_flags := saved_flags c; writer_lock := writer_lock c; pics_lock := l;
     screen := screen c; pics := p; kb := kb c; idt := idt c |}.
Definition set_kb (k : Kb) (c : Cpu) : Cpu :=
  {| int_flag := int_flag c; saved_flags := saved_flags c; writer_lock := writer_lock c; pics_lock := pics_lock c;
     screen := screen c; pics := pics c; kb := k; idt := idt c |}.

(** ** Code as a sequence of steps *)

Inductive instr :=
  | EnterWithout               (** [without_interrupts]: remember the flag, disable *)
  | LeaveWithout               (** enable again if they were enabled *)
  | LockWriter
  | OnWriter (p : proc Screen unit)
  | UnlockWriter
  | LockPics
  | EndOfInterrupt (v : Z)
  | UnlockPics
  | KeyTask (p : Kb → outcome Kb).

(** A spin lock that is held is never released while its taker spins: there is one
    processor, and the holder is the taker or the code it interrupted. *)
Definition step (i : instr) : proc Cpu unit := λ c,
  match i with
  | EnterWithout => Done (tt, set_int false (int_flag c :: saved_flags c) c)
  | LeaveWithout =>
    match saved_flags c with
    | b :: saved => Done (tt, set_int (b || int_flag c) saved c)
    | [] => Done (tt, c)
    end
  | LockWriter => if writer_lock c then Hang else Done (tt, set_writer true (screen c) c)
  | OnWriter p =>
    match p (screen c) with
    | Done (_, s) => Done (tt, set_writer (writer_lock c) s c)
    | Panic e => Panic e
    | Hang => Hang
    end
  | UnlockWriter => Done (tt, set_writer false (screen c) c)
  | LockPics => if pics_lock c then Hang else Done (tt, set_pics true (pics c) c)
  | EndOfInterrupt v => Done (tt, set_pics (pics_lock c) (notify_end_of_interrupt (pics c) v) c)
  | UnlockPics => Done (tt, set_pics false (pics c) c)
  | KeyTask p =>
    match p (kb c) with
    | Done k => Done (tt, set_kb k c)
    | Panic e => Panic e
    | Hang => Hang
    end
  end.

Definition exec (code : list instr) : proc Cpu unit := for_each step code.

(** ** The screen operations *)

Definition masked (body : list instr) : list instr := EnterWithout :: body ++ [LeaveWithout].
Definition locked (ops : list (proc Screen unit)) : list instr := LockWriter :: (OnWriter <$> ops) ++ [UnlockWriter].

(** [_print]: a byte at a time. *)
Definition print_code (s : rstring) : list instr :=
  masked (locked ((λ byte, on_writer (write_byte (if printable byte then byte else 0xfe))) <$> utf8_encode s)).
Definition backspace_code : list instr := masked (locked [Vga.backspace]).
Definition write_char_at_code (x y c color : Z) : list instr := masked (locked [write_char_at x y c color]).
Definition clear_screen_code : list instr := masked (locked [clear_screen]).

(** The command [clear]: [WRITER.lock().clear()], without masking. *)
Definition clear_command_code : list instr := locked [clear_screen].

(** ** The handlers *)

Definition end_of_interrupt (i : InterruptIndex) : list instr := [LockPics; EndOfInterrupt (as_u8 i); UnlockPics].

(** [add_scancode] with the warnings it prints. *)
Definition scancode_warning (k : Kb) : rstring :=
  match scancode_queue k with
  | None => str "WARNING: scancode queue uninitialized"
  | Some _ => str "WARNING: scancode queue full; dropping keyboard input"
  end.

Definition irq_add_scancode (scancode : Z) : proc Cpu unit := λ c,
  match add_scancode scancode (kb c) with
  | Done (true, k) => Done (tt, set_kb k c)
  | Done (false, k) => exec (print_code (scancode_warning (kb c) ++ [LF])) (set_kb k c)
  | Panic e => Panic e
  | Hang => Hang
  end.

(** What an exception carries: the printed forms of the stack frame, of the error
    code and of the address in CR2; and what port 0x60 reads. *)
Record Cause := { frame_text : rstring; error_text : rstring; cr2_text : rstring; port60 : Z }.

Definition println_code (s : rstring) : list instr := print_code (s ++ [LF]).

(** [hlt_loop] *)
Definition hlt_loop : proc Cpu unit := λ _, Hang.

Definition breakpoint_body (x : Cause) : proc Cpu unit :=
  exec (println_code (str "EXCEPTION: BREAKPOINT" ++ [LF] ++ frame_text x)).

(** The printed stack frame follows in the message of the panic. *)
Definition double_fault_body (x : Cause) : proc Cpu unit := λ _, Panic (PExpect "EXCEPTION: DOUBLE FAULT").

Definition page_fault_body (x : Cause) : proc Cpu unit :=
  exec (println_code (str "EXCEPTION: PAGE FAULT")) ;;
  exec (println_code (str "Accessed Address: " ++ cr2_text x)) ;;
  exec (println_code (str "Error Code: " ++ error_text x)) ;;
  exec (println_code (frame_text x)) ;;
  hlt_loop.

Definition timer_body : proc Cpu unit := exec (end_of_interrupt Timer).

Definition keyboard_body (x : Cause) : proc Cpu unit :=
  irq_add_scancode (port60 x) ;; exec (end_of_interrupt KeyboardIrq).

Definition ata_body : proc Cpu unit := exec (end_of_interrupt AtaPrimary).

Definition run_handler (h : Handler) (x : Cause) : proc Cpu unit :=
  match h with
  | breakpoint_handler => breakpoint_body x
  | double_fault_handler => double_fault_body x
  | page_fault_handler => page_fault_body x
  | timer_interrupt_handler => timer_body
  | keyboard_interrupt_handler => keyboard_body x
  | ata_interrupt_handler => ata_body
  end.

(** The processor takes an interrupt: flags are saved, interrupts disabled, the
    handler run, the flags restored.  A vector without a gate ends in the double
    fault handler. *)
Definition interrupt (v : Z) (x : Cause) : proc Cpu unit := λ c,
  match idt_gate (idt c) v with
  | None => run_handler double_fault_handler x c
  | Some g =>
    match run_handler (gate_handler g) x (set_int false (saved_flags c) c) with
    | Done (_, c') => Done (tt, set_int (int_flag c) (saved_flags c) c')
    | Panic e => Panic e
    | Hang => Hang
    end
  end.

(** A maskable interrupt: the controllers first. *)
Definition irq (v : Z) (x : Cause) : proc Cpu unit := λ c, interrupt v x (set_pics (pics_lock c) (pics_accept (pics c) v) c).

(** ** Interleaving *)

(** The interrupts the kernel expects. *)
Definition irq_vectors : list Z := [as_u8 Timer; as_u8 KeyboardIrq; as_u8 AtaPrimary].

(** The running code, or an interrupt when they are enabled. *)
Inductive cstep : list instr * Cpu → list instr * Cpu → Prop :=
  | run_step i code c c' : step i c = Done (tt, c') → cstep (i :: code, c) (code, c')
  | run_irq v x code c c' :
      int_flag c = true → v ∈ irq_vectors → irq v x c = Done (tt, c') → cstep (code, c) (code, c').

(** Somebody spins on a lock that nobody will release. *)
Definition deadlocks (st : list instr * Cpu) : Prop :=
  (∃ i code, st.1 = i :: code ∧ step i st.2 = Hang) ∨
  (∃ v x, int_flag st.2 = true ∧ v ∈ irq_vectors ∧ irq v x st.2 = Hang).

(** The operations of tasks that share something with the handlers. *)
Inductive op :=
  | OPrint (s : rstring)
  | OBackspace
  | OWriteCharAt (x y c color : Z)
  | OClearScreen
  | OKeyTask (p : Kb → outcome Kb).

Definition op_code (o : op) : list instr :=
  match o with
  | OPrint s => print_code s
  | OBackspace => backspace_code
  | OWriteCharAt x y c color => write_char_at_code x y c color
  | OClearScreen => clear_screen_code
  | OKeyTask p => [KeyTask p]
  end.

(** The machine in which operations happen at once. *)
Inductive astep : list op * Cpu → list op * Cpu → Prop :=
  | op_step o ops c c' : exec (op_code o) c = Done (tt, c') → astep (o :: ops, c) (ops, c')
  | op_irq v x ops c c' :
      int_flag c = true → v ∈ irq_vectors → irq v x c = Done (tt, c') → astep (ops, c) (ops, c').
End cpu.
