(* ===== verification/InterruptTheorems.v ===== *)
(** * Interrupts and locks: the theorems

    Masked screen operations never deadlock with the handlers and look atomic to
    them; every interrupt is acknowledged; the command [clear], which does not mask
    interrupts, can deadlock. *)

From S2P Require Import Prelude Str Vga VgaTheorems Editor Kernel Executor Keyboard Interrupts.
#[local] Open Scope Z_scope.

Section theorems.
Context {Q : Type → Type} `{!QueueOps Q} {Wk : Type} `{!WakerCellOps Wk} {Dec : Type}.
Context {P : Type} `{!PicOps P, !PicOk P} {I : Type} `{!IdtOps I, !IdtOk I}.
Notation Kb := (@Keyboard Q Wk Dec).
Notation Cpu := (@Cpu Q Wk Dec P I).
Notation Op := (@op Q Wk Dec).
Notation Ins := (@instr Q Wk Dec).
Implicit Types (c : Cpu).

(** ** Sequences *)

Lemma exec_app (a b : list Ins) c : exec (a ++ b) c = (exec a ;; exec b) c.
Proof.
  revert c. induction a as [|i a IH]; intros c; [done|]. simpl. rw /exec /= /mbind /proc_bind.
  destruct (step i c) as [[[] c1]| |]; [|done..]. specialize (IH c1). by rw /exec /mbind /proc_bind in IH.
Qed.

Lemma exec_cons i (code : list Ins) c : exec (i :: code) c = (step i ;; exec code) c.
Proof. done. Qed.

Definition run_ops (ops : list (proc Screen unit)) : proc Screen unit := for_each (λ p, p) ops.

(** A screen computation, run by the processor. *)
Definition on_cpu_screen (p : proc Screen unit) : proc Cpu unit := λ c,
  match p (screen c) with
  | Done (_, s) => Done (tt, set_writer (writer_lock c) s c)
  | Panic e => Panic e
  | Hang => Hang
  end.

Lemma exec_on_writer ops c : exec (OnWriter <$> ops) c = on_cpu_screen (run_ops ops) c.
Proof.
  revert c. induction ops as [|p ops IH]; intros c; [by destruct c|].
  rw /exec /on_cpu_screen /run_ops /= /mbind /proc_bind /=.
  destruct (p (screen c)) as [[[] s]| |]; [|done..]. rw -/(exec _) IH /on_cpu_screen /run_ops /=.
  by destruct (for_each _ ops s) as [[[] s']| |].
Qed.

Lemma exec_locked ops c : writer_lock c = false → exec (locked ops) c = on_cpu_screen (run_ops ops) c.
Proof.
  intros Hl. rw /locked exec_cons /mbind /proc_bind {1}/step Hl exec_app /mbind /proc_bind exec_on_writer.
  rw /on_cpu_screen /= Hl. by destruct (run_ops ops (screen c)) as [[[] s]| |].
Qed.

(** A masked operation: the flags are as before when it is over. *)
Lemma exec_masked ops c : writer_lock c = false → exec (masked (locked ops)) c = on_cpu_screen (run_ops ops) c.
Proof.
  intros Hl. rw /masked exec_cons /mbind /proc_bind {1}/step exec_app /mbind /proc_bind exec_locked //.
  rw /on_cpu_screen /=. destruct (run_ops ops (screen c)) as [[[] s]| |]; [|done..].
  rw /exec /= /mbind /proc_bind /= orb_false_r. by destruct c.
Qed.

Lemma run_ops_writer (f : Z → proc Writer unit) l s :
  run_ops ((λ x, on_writer (f x)) <$> l) s = on_writer (for_each f l) s.
Proof.
  revert s. induction l as [|x l IH]; intros s; [by destruct s|]. rw /run_ops /= /mbind /proc_bind.
  rw {1 3}/on_writer. destruct (f x (WRITER s)) as [[[] w]| |]; [|done..]. by rw -/(run_ops _) IH.
Qed.

(** ** Operations *)

(** What an operation does to the screen. *)
Definition op_screen (o : Op) : proc Screen unit :=
  match o with
  | OPrint s => vga_print s
  | OBackspace => Vga.backspace
  | OWriteCharAt x y ch color => write_char_at x y ch color
  | OClearScreen => clear_screen
  | OKeyTask _ => mret tt
  end.

(** Coordinates are [usize]; a step of the keyboard task does not spin. *)
Definition op_ok (o : Op) : Prop :=
  match o with
  | OWriteCharAt x y _ _ => 0 ≤ x ∧ 0 ≤ y
  | OKeyTask p => ∀ k, p k ≠ Hang
  | _ => True
  end.

Definition is_key_task (o : Op) : bool := match o with OKeyTask _ => true | _ => false end.

Lemma run_ops_single p s : run_ops [p] s = p s.
Proof. rw /run_ops /= /mbind /proc_bind. by destruct (p s) as [[[] s']| |]. Qed.

Lemma exec_op (o : Op) c :
  is_key_task o = false → writer_lock c = false → exec (op_code o) c = on_cpu_screen (op_screen o) c.
Proof.
  intros Ho Hl. destruct o; try done; rw /= exec_masked // /on_cpu_screen ?run_ops_single //. by rw run_ops_writer.
Qed.

Lemma op_screen_wf (o : Op) s : op_ok o → wf_writer (WRITER s) → runs (op_screen o) s (λ _ s', wf_writer (WRITER s')).
Proof.
  intros Ho Hw. destruct o as [t| |x y ch color| |p]; simpl.
  - eapply runs_mono; [apply print_refines_run, (wf_shows _ Hw)|]. intros [] s' [Hs _]. apply Hs.
  - apply on_writer_run. eapply runs_mono; [by apply delete_byte_wf|]. done.
  - destruct Ho. by apply write_char_at_wf.
  - by apply clear_screen_wf.
  - by apply runs_ret.
Qed.

(** ** The handlers *)

Definition pics_idle (p : P) : Prop :=
  pics_offsets p = (PIC_1_OFFSET, PIC_2_OFFSET) ∧ first_busy p = false ∧ second_busy p = false.

(** Between operations: interrupts on, locks free, screen in order, nothing in
    service, the kernel's descriptor table loaded. *)
Record idle c : Prop := {
  id_int : int_flag c = true;
  id_saved : saved_flags c = [];
  id_writer : writer_lock c = false;
  id_pics : pics_lock c = false;
  id_screen : wf_writer (WRITER (screen c));
  id_service : pics_idle (pics c);
  id_idt : idt c = IDT;
}.

Lemma exec_eoi i c : pics_lock c = false →
  exec (end_of_interrupt i) c = Done (tt, set_pics false (notify_end_of_interrupt (pics c) (as_u8 i)) c).
Proof. intros Hl. rw /exec /= /mbind /proc_bind /= Hl. done. Qed.

Lemma idt_gate_IDT v : idt_gate (IDT (I := I)) v =
  if decide (v = PAGE_FAULT) then Some {| gate_handler := page_fault_handler; gate_stack := None |}
  else if decide (v = as_u8 AtaPrimary) then Some {| gate_handler := ata_interrupt_handler; gate_stack := None |}
  else if decide (v = as_u8 KeyboardIrq) then Some {| gate_handler := keyboard_interrupt_handler; gate_stack := None |}
  else if decide (v = as_u8 Timer) then Some {| gate_handler := timer_interrupt_handler; gate_stack := None |}
  else if decide (v = DOUBLE_FAULT) then Some {| gate_handler := double_fault_handler; gate_stack := Some DOUBLE_FAULT_IST_INDEX |}
  else if decide (v = BREAKPOINT) then Some {| gate_handler := breakpoint_handler; gate_stack := None |}
  else None.
Proof. rw /IDT !set_handler_ok set_stack_ok !set_handler_ok idt_new_ok. repeat case_decide; done. Qed.

Lemma add_scancode_ends scancode (k : Kb) :
  match add_scancode scancode k with Done _ => True | Panic e => e = PExpect "task_queue full" | Hang => False end.
Proof.
  rw /add_scancode. destruct (scancode_queue k); [|done]. destruct (q_push _ _); [|done].
  destruct (wk_take _) as [[i|] cell]; [|done]. by destruct (q_push _ _).
Qed.

(** Acceptance and end of interrupt leave nothing in service. *)
Lemma eoi_idle p i :
  i ≠ AtaSecondary → pics_idle p → pics_idle (notify_end_of_interrupt (pics_accept p (as_u8 i)) (as_u8 i)).
Proof.
  intros Hi (Ho & _ & H2). pose proof (pics_offsets_kept p (as_u8 i)) as [_ Ha].
  pose proof (pics_offsets_kept (pics_accept p (as_u8 i)) (as_u8 i)) as [Hn _].
  pose proof (accept_first p (as_u8 i)) as A. pose proof (notify_first (pics_accept p (as_u8 i)) (as_u8 i)) as N1.
  pose proof (notify_second (pics_accept p (as_u8 i)) (as_u8 i)) as N2.
  rw Ha Ho /= in N1, N2. rw Ho /= in A. split; [congruence|]. destruct i; try done; simpl in *.
  - destruct N1 as [-> ->]; [done|rw /as_u8 /PIC_2_OFFSET /PIC_1_OFFSET; lia|]. by rw A.
  - destruct N1 as [-> ->]; [done|rw /as_u8 /PIC_2_OFFSET /PIC_1_OFFSET; lia|]. by rw A.
  - by apply N2.
Qed.

(** The screen operations an interrupt does: none, or a warning of [add_scancode]. *)
Definition is_warning (o : Op) : Prop := ∃ k : Kb, o = OPrint (scancode_warning k ++ [LF]).
Definition irq_screen (outs : list Op) (s s' : Screen) : Prop :=
  Forall is_warning outs ∧ (length outs ≤ 1)%nat ∧ run_ops (op_screen <$> outs) s = Done (tt, s').

(** A handler that ends with its end of interrupt, from the state in which the
    processor enters it. *)
Lemma irq_epilogue v i h x c c1 outs :
  idle c → v = as_u8 i → i ≠ AtaSecondary → idt_gate (IDT (I := I)) v = Some {| gate_handler := h; gate_stack := None |} →
  run_handler h x (set_int false (saved_flags c) (set_pics (pics_lock c) (pics_accept (pics c) v) c)) =
    exec (end_of_interrupt i) c1 →
  int_flag c1 = false → writer_lock c1 = false → pics_lock c1 = false → idt c1 = idt c →
  pics c1 = pics_accept (pics c) v → wf_writer (WRITER (screen c1)) → irq_screen outs (screen c) (screen c1) →
  ∃ c', irq v x c = Done (tt, c') ∧ idle c' ∧ kb c' = kb c1 ∧ irq_screen outs (screen c) (screen c').
Proof.
  intros [? ? ? ? ? ? Hidt] -> Hi Hg Hrun H1 H2 H3 H4 H5 H6 H7.
  rw /irq /interrupt /= Hidt Hg. cbn [gate_handler]. rw Hrun exec_eoi //. eexists. split; [done|].
  split; [|done]. split; simpl; try done; [|congruence]. rw H5. by apply eoi_idle.
Qed.

Lemma irq_run v x c :
  idle c → v ∈ irq_vectors →
  match irq v x c with
  | Done (_, c') => idle c' ∧ ∃ outs, irq_screen outs (screen c) (screen c')
  | Panic e => e = PExpect "task_queue full"
  | Hang => False
  end.
Proof.
  intros Hid Hv. pose proof Hid as [Hint Hsv Hw Hp Hs Hpi Hidt].
  assert (irq_screen [] (screen c) (screen c)) as Hquiet by (split_and!; [constructor|simpl; lia|by destruct (screen c)]).
  set (c0 := set_int false (saved_flags c) (set_pics (pics_lock c) (pics_accept (pics c) v) c)).
  rw /irq_vectors in Hv. repeat setoid_rewrite elem_of_cons in Hv.
  destruct Hv as [Hv|[Hv|[Hv|Hv%not_elem_of_nil]]]; [| | |done].
  - edestruct (irq_epilogue v Timer timer_interrupt_handler x c c0 [] Hid Hv) as (c' & -> & ? & _ & ?);
      [done|by subst v; rw idt_gate_IDT|done..|by eauto].
  - assert (idt_gate (IDT (I := I)) v = Some {| gate_handler := keyboard_interrupt_handler; gate_stack := None |}) as Hg
      by by subst v; rw idt_gate_IDT.
    pose proof (add_scancode_ends (port60 x) (kb c)) as He.
    destruct (add_scancode (port60 x) (kb c)) as [[q k]|e|] eqn:Ha; [| |done].
    2: { by rw /irq /interrupt /= Hidt Hg /= /keyboard_body /irq_add_scancode /mbind /proc_bind /= Ha. }
    destruct q.
    + edestruct (irq_epilogue v KeyboardIrq keyboard_interrupt_handler x c (set_kb k c0) [] Hid Hv) as (c' & -> & ? & _ & ?);
        [done|done|by rw /= /keyboard_body /irq_add_scancode /mbind /proc_bind /= Ha|done..|by eauto].
    + set (t := scancode_warning (kb c) ++ [LF]).
      pose proof (op_screen_wf (OPrint t) (screen c) Logic.I Hs) as Hr. apply runs_Done in Hr as ([] & s' & Hr & Hs').
      edestruct (irq_epilogue v KeyboardIrq keyboard_interrupt_handler x c (set_writer false s' (set_kb k c0)) [OPrint t] Hid Hv)
        as (c' & -> & ? & _ & ?); [done|done| |done..| |by eauto].
      * rw /= /keyboard_body /irq_add_scancode /mbind /proc_bind /= Ha. change (print_code _) with (op_code (Q := Q) (Dec := Dec) (Wk := Wk) (OPrint t)).
        rw exec_op //. simpl in Hr. by rw /on_cpu_screen /= Hr Hw.
      * split_and!; [|simpl; lia|by rw run_ops_single]. constructor; [by exists (kb c)|constructor].
  - edestruct (irq_epilogue v AtaPrimary ata_interrupt_handler x c c0 [] Hid Hv) as (c' & -> & ? & _ & ?);
      [done|by subst v; rw idt_gate_IDT|done..|by eauto].
Qed.

(** ** Operations under interrupts *)

Lemma exec_op_idle (o : Op) c :
  idle c → op_ok o →
  match exec (op_code o) c with
  | Done (_, c') => idle c' ∧ op_screen o (screen c) = Done (tt, screen c')
  | Panic _ => is_key_task o = true
  | Hang => False
  end.
Proof.
  intros [? ? Hw ? Hs ? ?] Ho. destruct (is_key_task o) eqn:Hk.
  - destruct o as [| | | |p]; try done. rw /= exec_cons /mbind /proc_bind /=. specialize (Ho (kb c)).
    destruct (p (kb c)); [|done..]. simpl. by split; [split|destruct (screen c)].
  - rw exec_op // /on_cpu_screen. pose proof (op_screen_wf o (screen c) Ho Hs) as (? & s & -> & Hs')%runs_Done.
    destruct x. split; [|done]. by split.
Qed.

Definition code_of (ops : list Op) : list Ins := concat (op_code <$> ops).

Lemma op_code_shape (o : Op) : is_key_task o = false →
  ∃ body, op_code o = (EnterWithout :: body) ++ [LeaveWithout] ∧ LeaveWithout ∉ body.
Proof.
  assert (∀ ops, LeaveWithout ∉ @locked Q Wk Dec ops) as Hn.
  { intros ops. rw /locked. rewrite elem_of_cons elem_of_app list_elem_of_fmap list_elem_of_singleton. naive_solver. }
  destruct o; try done; intros _; rw /= /print_code /backspace_code /write_char_at_code /clear_screen_code /masked; eauto.
Qed.

Lemma leave_last (o : Op) pre i suf : op_code o = pre ++ i :: suf → suf ≠ [] → i ≠ LeaveWithout.
Proof.
  intros E Hne ->. destruct (is_key_task o) eqn:Hk.
  - destruct o; try done. destruct pre as [|? pre]; [by injection E|]. by destruct pre.
  - destruct (op_code_shape o Hk) as (body & Eb & Hb). rw Eb in E.
    destruct (exists_last Hne) as (suf' & z & ->). rw app_comm_cons app_assoc in E.
    apply app_inj_tail in E as [E _]. destruct pre as [|? pre]; [done|]. injection E as _ ->.
    apply Hb. set_solver.
Qed.

Lemma step_masked i c c' : step i c = Done (tt, c') → i ≠ LeaveWithout → int_flag c = false → int_flag c' = false.
Proof.
  intros Hs Hi Hf. destruct i; simpl in Hs; try done; repeat case_match; simplify_eq/=; done.
Qed.

(** In the midst of an operation, or between two. *)
Inductive during (ca : Cpu) : list Op → list Ins → Cpu → Prop :=
  | between ops : during ca ops (code_of ops) ca
  | inside o ops pre suf c :
      op_code o = pre ++ suf → pre ≠ [] → suf ≠ [] → exec pre ca = Done (tt, c) → int_flag c = false →
      during ca (o :: ops) (suf ++ code_of ops) c.

Lemma during_run ca ops i code c c' :
  idle ca → during ca ops (i :: code) c → step i c = Done (tt, c') →
  during ca ops code c' ∨ ∃ o ops', ops = o :: ops' ∧ exec (op_code o) ca = Done (tt, c') ∧ code = code_of ops'.
Proof.
  intros Hid Hd Hs. remember (i :: code) as l eqn:E.
  destruct Hd as [ops|o ops pre suf c Ho Hpre Hsuf Hex Hf].
  - destruct ops as [|o ops]; [done|]. rw /code_of /= in E. destruct (op_code o) as [|j suf] eqn:Ho.
    { destruct (is_key_task o) eqn:Hk; [by destruct o|]. destruct (op_code_shape o Hk) as (? & E1 & _). by rw E1 in Ho. }
    injection E as -> <-. assert (exec [i] ca = Done (tt, c')) as He by by rw exec_cons /mbind /proc_bind Hs.
    destruct suf as [|k suf]; [right; exists o, ops; by rw Ho|]. left.
    eapply (inside _ _ _ [i]); try done. destruct (is_key_task o) eqn:Hk; [by destruct o|].
    destruct (op_code_shape o Hk) as (body & Eb & _). rw Ho in Eb. injection Eb as -> _.
    simpl in Hs. by injection Hs as <-.
  - destruct suf as [|j suf]; [done|]. injection E as -> <-.
    assert (exec (pre ++ [i]) ca = Done (tt, c')) as He.
    { rw exec_app /mbind /proc_bind Hex exec_cons /mbind /proc_bind Hs. done. }
    destruct suf as [|k suf]; [right; exists o, ops; by rw Ho|]. left.
    eapply (inside _ _ _ (pre ++ [i])); try done; [by rw Ho -assoc|by destruct pre|].
    eapply step_masked; [done| |done]. by eapply leave_last.
Qed.

Lemma cstep_sim ops0 c0 ca ops code c code' c' :
  rtc astep (ops0, c0) (ops, ca) → idle ca → during ca ops code c → cstep (code, c) (code', c') →
  ∃ ops' ca', rtc astep (ops0, c0) (ops', ca') ∧ (ca' = ca ∨ astep (ops, ca) (ops', ca')) ∧ during ca' ops' code' c'.
Proof.
  intros Hr Hid Hd Hs. inversion Hs as [i code1 c1 c2 Hst|v x code1 c1 c2 Hf Hv Hirq]; subst.
  - destruct (during_run _ _ _ _ _ _ Hid Hd Hst) as [Hd'|(o & ops' & -> & He & ->)]; [by eauto 6|].
    exists ops', c'. split_and!; [|right; by constructor|constructor].
    eapply rtc_r; [done|]. by constructor.
  - inversion Hd; subst; [|congruence]. exists ops, c'.
    split_and!; [|right; by econstructor|constructor]. eapply rtc_r; [done|]. by econstructor.
Qed.

Lemma astep_idle st st' : astep st st' → idle st.2 → Forall op_ok st.1 → idle st'.2 ∧ Forall op_ok st'.1.
Proof.
  intros [o ops c c' He|v x ops c c' Hf Hv Hirq] Hid Hok; simpl in *.
  - apply Forall_cons in Hok as [Ho Hok]. pose proof (exec_op_idle o c Hid Ho) as H. rw He in H. by destruct H.
  - pose proof (irq_run v x c Hid Hv) as H. rw Hirq in H. by destruct H.
Qed.

Lemma rtc_astep_idle ops c ops' c' :
  idle c → Forall op_ok ops → rtc astep (ops, c) (ops', c') → idle c' ∧ Forall op_ok ops'.
Proof.
  intros Hid Hok Hr. refine (rtc_ind_r (λ st, idle st.2 ∧ Forall op_ok st.1) (ops, c) _ _ (ops', c') Hr); [done|].
  intros st st' _ Hs [? ?]. by apply (astep_idle st).
Qed.

(** Every interleaved run is at, or in the midst of, an atomic one. *)
Lemma csteps_sim ops c st :
  idle c → Forall op_ok ops → rtc cstep (code_of ops, c) st →
  ∃ ops' ca, rtc astep (ops, c) (ops', ca) ∧ idle ca ∧ Forall op_ok ops' ∧ during ca ops' st.1 st.2.
Proof.
  intros Hid Hok Hr.
  refine (rtc_ind_r (λ st, ∃ ops' ca, rtc astep (ops, c) (ops', ca) ∧ idle ca ∧ Forall op_ok ops' ∧ during ca ops' st.1 st.2)
           (code_of ops, c) _ _ st Hr); [exists ops, c; split_and!; [apply rtc_refl|done|done|constructor]|].
  intros [code1 c1] [code2 c2] _ Hs (ops' & ca & Hra & Hida & Hoka & Hd). simpl in *.
  destruct (cstep_sim _ _ _ _ _ _ _ _ Hra Hida Hd Hs) as (ops2 & ca2 & Hra2 & Hor & Hd2).
  exists ops2, ca2. split; [done|]. destruct (rtc_astep_idle _ _ _ _ Hid Hok Hra2). done.
Qed.

Lemma during_no_deadlock ca ops code c :
  idle ca → Forall op_ok ops → during ca ops code c → ¬ deadlocks (code, c).
Proof.
  intros Hid Hok Hd [(i & code' & E & Hh)|(v & x & Hf & Hv & Hh)]; simpl in *.
  - assert (∀ o pre suf, o ∈ ops → op_code o = pre ++ i :: suf → exec pre ca = Done (tt, c) → False) as Hno.
    { intros o pre suf Ho Eo Hpre. rewrite Forall_forall in Hok. pose proof (exec_op_idle o ca Hid (Hok o Ho)) as H.
      by rw Eo exec_app /mbind /proc_bind Hpre exec_cons /mbind /proc_bind Hh in H. }
    destruct Hd as [ops|o ops pre suf c Ho Hpre Hsuf Hex Hf].
    + destruct ops as [|o ops]; [done|]. rw /code_of /= in E. destruct (op_code o) as [|j suf] eqn:Ho.
      { destruct (is_key_task o) eqn:Hk; [by destruct o|]. destruct (op_code_shape o Hk) as (? & E1 & _). by rw E1 in Ho. }
      injection E as -> _. by apply (Hno o [] suf); [set_solver|..].
    + destruct suf as [|j suf]; [done|]. injection E as -> _. by apply (Hno o pre suf); [set_solver|..].
  - inversion Hd; subst; [|congruence]. pose proof (irq_run v x c Hid Hv) as H. by rw Hh in H.
Qed.

(** C7. Masked screen operations never deadlock with the interrupt handlers: while
    any sequence of prints, backspaces, cell writes, clears and steps of the
    keyboard task runs, with interrupts falling between any two steps, neither the
    code nor a handler ever spins on a lock; and whenever interrupts are enabled,
    every interrupt taken before has been acknowledged. *)
Theorem masked_never_deadlock ops c st :
  idle c → Forall op_ok ops → rtc cstep (code_of ops, c) st →
  ¬ deadlocks st ∧ (int_flag st.2 = true → pics_idle (pics st.2)).
Proof.
  intros Hid Hok Hr. destruct (csteps_sim ops c st Hid Hok Hr) as (ops' & ca & _ & Hida & Hoka & Hd).
  destruct st as [code c']. split; [by eapply during_no_deadlock|]. simpl in *.
  inversion Hd; subst; [intros _; apply Hida|congruence].
Qed.

(** Operations and the warnings that fell between them. *)
Inductive merged : list Op → list Op → Prop :=
  | m_nil : merged [] []
  | m_op o ops outs : merged ops outs → merged (o :: ops) (o :: outs)
  | m_warning w ops outs : is_warning w → merged ops outs → merged ops (w :: outs).

Lemma merged_warnings ws ops outs : Forall is_warning ws → merged ops outs → merged ops (ws ++ outs).
Proof. induction 1; [done|]. intros. constructor; [done|]. auto. Qed.

Lemma run_ops_app a b s s1 : run_ops a s = Done (tt, s1) → run_ops (a ++ b) s = run_ops b s1.
Proof.
  revert s. induction a as [|p a IH]; intros s; rw /run_ops /=; [by intros [= <-]|]. rw /mbind /proc_bind.
  destruct (p s) as [[[] s2]| |]; [|done..]. apply IH.
Qed.

Lemma asteps_merged ops c ops' c' :
  idle c → Forall op_ok ops → rtc astep (ops, c) (ops', c') → ops' = [] →
  ∃ outs, merged ops outs ∧ run_ops (op_screen <$> outs) (screen c) = Done (tt, screen c').
Proof.
  intros Hid Hok Hr. remember (ops, c) as st eqn:E. remember (ops', c') as st' eqn:E'.
  revert ops c E Hid Hok E'. induction Hr as [st|st st1 st2 Hs Hr IH]; intros ops c -> Hid Hok E' ->.
  { injection E' as -> ->. exists []. split; [constructor|done]. }
  pose proof (astep_idle _ _ Hs Hid Hok) as [Hid1 Hok1]. destruct st1 as [ops1 c1].
  destruct (IH ops1 c1) as (outs & Hm & Hrun); [done..|].
  inversion Hs as [o ops2 c2 c3 He|v x ops2 c2 c3 Hf Hv Hirq]; subst.
  - apply Forall_cons in Hok as [Ho _]. pose proof (exec_op_idle o c Hid Ho) as H. rw He in H. destruct H as [_ Hsc].
    exists (o :: outs). split; [by constructor|]. rw /run_ops /= /mbind /proc_bind Hsc. exact Hrun.
  - pose proof (irq_run v x c Hid Hv) as H. rw Hirq in H. destruct H as (_ & ws & Hw & _ & Hws).
    exists (ws ++ outs). split; [by apply merged_warnings|]. rw fmap_app (run_ops_app _ _ _ _ Hws). exact Hrun.
Qed.

(** C8. Masked screen operations are atomic: however interrupts fall between their
    steps, the screen ends as after running the operations one after the other,
    with whole warnings of the keyboard handler between some of them. *)
Theorem operations_not_torn ops c c' :
  idle c → Forall op_ok ops → rtc cstep (code_of ops, c) ([], c') →
  ∃ outs, merged ops outs ∧ run_ops (op_screen <$> outs) (screen c) = Done (tt, screen c').
Proof.
  intros Hid Hok Hr. destruct (csteps_sim ops c _ Hid Hok Hr) as (ops' & ca & Hra & _ & _ & Hd). simpl in Hd.
  remember [] as code eqn:E. destruct Hd as [ops'|o ops' pre suf c1 _ _ Hsuf _ _]; [|by destruct suf].
  eapply asteps_merged; [done|done|exact Hra|]. destruct ops' as [|o ops']; [done|]. rw /code_of /= in E.
  apply app_nil in E as [E _]. destruct (is_key_task o) eqn:Hk; [by destruct o|].
  destruct (op_code_shape o Hk) as (? & E1 & _). by rw E1 in E.
Qed.

(** C40. The command [clear] can stop the machine: it holds the writer's lock with
    interrupts enabled, and a scancode that arrives then and is refused makes the
    handler print a warning, for which it waits forever. *)
Theorem clear_command_deadlocks c x k :
  idle c → add_scancode (port60 x) (kb c) = Done (false, k) →
  ∃ st, rtc cstep (clear_command_code, c) st ∧ deadlocks st.
Proof.
  intros Hid Ha. pose proof Hid as [Hint Hsv Hw Hp Hs Hpi Hidt].
  exists ([OnWriter clear_screen; UnlockWriter], set_writer true (screen c) c). split.
  - eapply rtc_l; [|apply rtc_refl]. apply run_step. by rw /= Hw.
  - right. exists (as_u8 KeyboardIrq), x. split_and!; [done|set_solver|].
    rw /irq /interrupt /= Hidt idt_gate_IDT /= /keyboard_body /mbind /proc_bind /irq_add_scancode /= Ha. done.
Qed.

(** Running code without interrupts is one of the interleavings. *)
Lemma exec_cstep (code : list Ins) c c' : exec code c = Done (tt, c') → rtc cstep (code, c) ([], c').
Proof.
  revert c. induction code as [|i code IH]; intros c; [intros [= <-]; apply rtc_refl|].
  rw exec_cons /mbind /proc_bind. destruct (step i c) as [[[] c1]| |] eqn:E; [|done..]. intros H.
  eapply rtc_l; [by apply run_step|]. by apply IH.
Qed.
End theorems.

(** ** Witnesses *)

(** Two chips, and a table that is a map. *)
Record SimPics := { sim_offsets : Z * Z; sim_first : bool; sim_second : bool }.

#[export] Instance SimPics_ops : PicOps SimPics := {|
  pics_new o1 o2 := {| sim_offsets := (o1, o2); sim_first := false; sim_second := false |};
  pics_initialize p := p;
  notify_end_of_interrupt p v :=
    let '(o1, o2) := sim_offsets p in
    if decide (o2 ≤ v < o2 + 8) then {| sim_offsets := (o1, o2); sim_first := false; sim_second := false |}
    else if decide (o1 ≤ v < o1 + 8) then {| sim_offsets := (o1, o2); sim_first := false; sim_second := sim_second p |}
    else p;
  pics_accept p v :=
    {| sim_offsets := sim_offsets p; sim_first := true;
       sim_second := if decide ((sim_offsets p).1 ≤ v < (sim_offsets p).1 + 8) then sim_second p else true |};
|}.

#[export] Program Instance SimPics_ok : PicOk SimPics := {|
  pics_offsets := sim_offsets;
  first_busy := sim_first;
  second_busy := sim_second;
|}.
Next Obligation. done. Qed.
Next Obligation. intros [[o1 o2] b1 b2] v. simpl. by repeat case_decide. Qed.
Next Obligation. intros [[o1 o2] b1 b2] v H1 H2. simpl in *. by rw decide_False // decide_True. Qed.
Next Obligation. intros [[o1 o2] b1 b2] v. simpl. intros H. by rw decide_True. Qed.
Next Obligation. intros [[o1 o2] b1 b2] v. simpl. intros H. by rw decide_True. Qed.

#[export] Instance gmap_idt : IdtOps (gmap Z Gate) := {|
  idt_new := ∅;
  set_handler_fn i v h := <[v := {| gate_handler := h; gate_stack := None |}]> i;
  set_stack_index i v n := match i !! v with
                           | Some g => <[v := {| gate_handler := gate_handler g; gate_stack := Some n |}]> i
                           | None => i
                           end;
  idt_gate i v := i !! v;
|}.

#[export] Instance gmap_idt_ok : IdtOk (gmap Z Gate).
Proof.
  split; simpl.
  - done.
  - intros i v h v'. case_decide; subst; [by rw lookup_insert_eq|by rw lookup_insert_ne].
  - intros i v n v'. case_decide; subst.
    + destruct (i !! v) eqn:E; simpl; [by rw lookup_insert_eq|done].
    + destruct (i !! v); [by rw lookup_insert_ne|done].
Qed.

Notation DemoCpu := (@Cpu ListQueue (option TaskId) unit SimPics (gmap Z Gate)).

(** Before the keyboard task has made its queue. *)
Definition demo_cpu : DemoCpu :=
  {| int_flag := true; saved_flags := []; writer_lock := false; pics_lock := false; screen := boot_screen;
     pics := pics_initialize (pics_new PIC_1_OFFSET PIC_2_OFFSET);
     kb := Keyboard_init tt demo_tasks; idt := IDT |}.

Lemma demo_idle : idle demo_cpu.
Proof. split; try done. apply boot_wf. Qed.

(** A key is pressed before the print, and one while the prompt is printed is
    held back until the print is over. *)
Definition demo_cause : Cause := {| frame_text := []; error_text := []; cr2_text := []; port60 := 30 |}.

Definition final (o : outcome (unit * DemoCpu)) : DemoCpu := match o with Done (_, c) => c | _ => demo_cpu end.
Definition demo_warned : DemoCpu := final (irq (as_u8 KeyboardIrq) demo_cause demo_cpu).
Definition demo_printed : DemoCpu := final (exec (print_code (str "> ")) demo_warned).

Definition demo_ops : list (@op ListQueue (option TaskId) unit) := [OPrint (str "> ")].

Lemma demo_run : rtc cstep (code_of demo_ops, demo_cpu) ([], demo_printed).
Proof.
  eapply rtc_l; [apply (run_irq (as_u8 KeyboardIrq) demo_cause _ demo_cpu demo_warned); [done|set_solver|vm_compute; reflexivity]|].
  apply exec_cstep. vm_compute. reflexivity.
Qed.

Lemma masked_never_deadlock_witness :
  ¬ deadlocks ([], demo_printed) ∧ (int_flag demo_printed = true → pics_idle (pics demo_printed)).
Proof.
  apply (masked_never_deadlock demo_ops demo_cpu ([], demo_printed)).
  - apply demo_idle.
  - repeat constructor.
  - apply demo_run.
Defined.

Lemma operations_not_torn_witness :
  ∃ outs, merged demo_ops outs ∧
    run_ops (op_screen <$> outs) boot_screen = Done (tt, screen demo_printed).
Proof.
  apply (operations_not_torn demo_ops demo_cpu demo_printed).
  - apply demo_idle.
  - repeat constructor.
  - apply demo_run.
Defined.

(** The queue is full: a hundred scancodes were not taken. *)
Definition demo_full : DemoCpu :=
  set_kb {| scancode_queue := Some {| lq_cap := 100; lq_items := replicate 100 30 |}; waker := None;
            task_queue := demo_tasks; pc := Parked; keyboard := tt; pushed := [] |} demo_cpu.

Lemma clear_command_deadlocks_witness : ∃ st, rtc cstep (clear_command_code, demo_full) st ∧ deadlocks st.
Proof.
  apply (clear_command_deadlocks demo_full demo_cause (kb demo_full)).
  - split; try done. apply boot_wf.
  - vm_compute. reflexivity.
Defined.
