(* ===== verification/Startup.v ===== *)
(** * Processor set-up, the serial port and the test harness

    src/src/gdt.rs, src/src/serial.rs, src/src/lib.rs, and the unit tests of
    src/src/lib.rs and src/src/vga_buffer.rs.  Descriptor tables (crate x86_64) are
    an interface with its laws; the serial port (crate uart_16550) is what was sent
    on it.  A test that panics hands its state to the panic handler. *)

From S2P Require Import Prelude Str Vga VgaTheorems Editor Kernel Executor Keyboard Interrupts InterruptTheorems.
#[local] Open Scope Z_scope.

(** ** Segments *)

Definition STACK_SIZE : Z := 4096 * 5.

Record TaskStateSegment := { interrupt_stack_table : list Z }.

(** [TSS], for the address of the static [STACK]. *)
Definition TSS (stack_start : Z) : TaskStateSegment :=
  let stack_end := stack_start + STACK_SIZE in
  {| interrupt_stack_table := <[Z.to_nat DOUBLE_FAULT_IST_INDEX := stack_end]> (replicate 7 0) |}.

Inductive Descriptor := kernel_code_segment | tss_segment (t : TaskStateSegment).

Class GdtOps (G : Type) := {
  gdt_new : G;
  add_entry : G → Descriptor → Z * G;
  gdt_entry : G → Z → option Descriptor;   (** what the processor finds under a selector *)
}.

Class GdtOk (G : Type) `{!GdtOps G} : Prop := {
  add_entry_new (g : G) d : gdt_entry (add_entry g d).2 (add_entry g d).1 = Some d;
  add_entry_old (g : G) d s d' : gdt_entry g s = Some d' → gdt_entry (add_entry g d).2 s = Some d';
}.

Record Selectors := { code_selector : Z; tss_selector : Z }.

Definition GDT {G} `{!GdtOps G} (stack_start : Z) : G * Selectors :=
  let '(code, gdt) := add_entry gdt_new kernel_code_segment in
  let '(tss, gdt) := add_entry gdt (tss_segment (TSS stack_start)) in
  (gdt, {| code_selector := code; tss_selector := tss |}).

(** ** The machine *)

Inductive QemuExitCode := Success | Failed.
Definition exit_code (c : QemuExitCode) : Z := match c with Success => 0x10 | Failed => 0x11 end.

Section startup.
Context {Q : Type → Type} `{!QueueOps Q} {Wk : Type} `{!WakerCellOps Wk} {Dec : Type}.
Context {P : Type} `{!PicOps P} {I : Type} `{!IdtOps I} {G : Type} `{!GdtOps G}.
Notation Cpu := (@Cpu Q Wk Dec P I).
Notation Ins := (@instr Q Wk Dec).

Record Sys := {
  cpu : Cpu;
  gdtr : option G;
  cs_reg : option Z;
  task_reg : option Z;
  serial_out : rstring;             (** sent on SERIAL1 *)
  port_writes : list (Z * Z);
}.

Definition set_cpu (c : Cpu) (s : Sys) : Sys :=
  {| cpu := c; gdtr := gdtr s; cs_reg := cs_reg s; task_reg := task_reg s; serial_out := serial_out s;
     port_writes := port_writes s |}.

Definition on_cpu {A} (p : proc Cpu A) : proc Sys A := λ s,
  match p (cpu s) with
  | Done (a, c) => Done (a, set_cpu c s)
  | Panic e => Panic e
  | Hang => Hang
  end.

(** ** [init] *)

(** [gdt::init] *)
Definition gdt_init (stack_start : Z) : proc Sys unit := λ s,
  let '(gdt, sel) := GDT stack_start in
  Done (tt, {| cpu := cpu s; gdtr := Some gdt; cs_reg := Some (code_selector sel); task_reg := Some (tss_selector sel);
               serial_out := serial_out s; port_writes := port_writes s |}).

(** [interrupts::init_idt] *)
Definition init_idt : proc Sys unit := on_cpu (λ c, Done (tt,
  {| int_flag := int_flag c; saved_flags := saved_flags c; writer_lock := writer_lock c; pics_lock := pics_lock c;
     screen := screen c; pics := pics c; kb := kb c; idt := IDT |})).

(** [PICS.lock().initialize()] *)
Definition init_pics : proc Sys unit := on_cpu (λ c,
  if pics_lock c then Hang else Done (tt, set_pics false (pics_initialize (pics c)) c)).

(** [x86_64::instructions::interrupts::enable] *)
Definition enable : proc Sys unit := on_cpu (λ c, Done (tt, set_int true (saved_flags c) c)).

Definition init_steps (stack_start : Z) : list (proc Sys unit) :=
  [gdt_init stack_start; init_idt; init_pics; enable].

(** [myOS::init] *)
Definition init (stack_start : Z) : proc Sys unit := for_each (λ p, p) (init_steps stack_start).

(** ** Serial port and exit port *)

(** [serial::_print]; masking and lock are taken and given back. *)
Definition serial_print (t : rstring) (s : Sys) : Sys :=
  {| cpu := cpu s; gdtr := gdtr s; cs_reg := cs_reg s; task_reg := task_reg s; serial_out := serial_out s ++ t;
     port_writes := port_writes s |}.
Definition serial_println (t : rstring) (s : Sys) : Sys := serial_print (t ++ [LF]) s.

Definition port_out (port value : Z) (s : Sys) : Sys :=
  {| cpu := cpu s; gdtr := gdtr s; cs_reg := cs_reg s; task_reg := task_reg s; serial_out := serial_out s;
     port_writes := port_writes s ++ [(port, value)] |}.

Definition exit_qemu (c : QemuExitCode) (s : Sys) : Sys := port_out 0xf4 (exit_code c) s.

(** ** Tests *)

(** How a test ends. *)
Inductive TestEnd := Passed (s : Sys) | Panicked (info : rstring) (s : Sys) | Hung.

(** [Testable]: a function and its name. *)
Record Test := { type_name : rstring; body : Sys → TestEnd }.

(** [set_color] to red on black and [write!] of the message, under the lock, with
    interrupts as they are. *)
Definition panic_on_screen (info : rstring) : proc Cpu unit :=
  exec [LockWriter; OnWriter (on_writer (set_color (ColorCode_new Red Black)));
        OnWriter (vga_print info); UnlockWriter].

(** [test_panic_handler], up to its last loop. *)
Definition test_panic_handler (info : rstring) : proc Sys unit := λ s,
  match on_cpu (panic_on_screen info) (serial_print ([27] ++ str "[31m" ++ info ++ [27] ++ str "[0m") s) with
  | Done (_, s) => Done (tt, exit_qemu Failed s)
  | Panic e => Panic e
  | Hang => Hang
  end.

(** [Testable::run] *)
Definition test_run (t : Test) (s : Sys) : TestEnd :=
  match body t (serial_print (type_name t ++ str "..." ++ [9]) s) with
  | Passed s => Passed (serial_println (str "[ok]") s)
  | stopped => stopped
  end.

Fixpoint run_tests (tests : list Test) (s : Sys) : TestEnd :=
  match tests with
  | [] => Passed s
  | t :: tests => match test_run t s with Passed s => run_tests tests s | stopped => stopped end
  end.

(** [test_runner]; a panic of a test goes to the panic handler of the test build. *)
Definition test_runner (tests : list Test) : proc Sys unit := λ s,
  match run_tests tests (serial_println (str "Running " ++ show_nat (zlen tests) ++ str " tests") s) with
  | Passed s => Done (tt, exit_qemu Success s)
  | Panicked info s => test_panic_handler info s
  | Hung => Hang
  end.

(** [test_kernel_main], up to its [hlt_loop]; [test_main] is the call of the runner
    the compiler generates from the [#[test_case]] attributes. *)
Definition test_kernel_main (stack_start : Z) (tests : list Test) : proc Sys unit :=
  init stack_start ;; test_runner tests.

(** ** The unit tests *)

(** A test made of processor code.  A step that panics leaves the processor as the
    steps before it made it, locks included; [info] is what its message prints. *)
Fixpoint code_test (info : rstring) (code : list Ins) (s : Sys) : TestEnd :=
  match code with
  | [] => Passed s
  | i :: code =>
    match step i (cpu s) with
    | Done (_, c) => code_test info code (set_cpu c s)
    | Panic _ => Panicked info s
    | Hang => Hung
    end
  end.

Definition test_println_simple : list Ins := println_code (str "test_println_simple output").

Definition test_println_many : list Ins :=
  concat ((λ _, println_code (str "test_println_many output")) <$> seqZ 0 200).

Definition SAMPLE : rstring := str "Some test string that fits on a single line".

(** [assert_eq!] on every character of row 23. *)
Definition check_row : proc Screen unit :=
  for_each (λ '(i, c),
    screen_char ← on_writer (on_buffer (cell_read (BUFFER_HEIGHT - 2) i));
    if ascii_character screen_char =? c then mret tt else λ _, Panic (PExpect "assertion failed"))
    (zip (seqZ 0 (zlen SAMPLE)) SAMPLE).

Definition test_println_output : list Ins :=
  masked (locked [vga_print ([LF] ++ SAMPLE ++ [LF]); check_row]).

(** [int3] *)
Definition test_breakpoint_exception (info : rstring) (x : Cause) (s : Sys) : TestEnd :=
  match interrupt BREAKPOINT x (cpu s) with
  | Done (_, c) => Passed (set_cpu c s)
  | Panic _ => Panicked info s
  | Hang => Hung
  end.

Definition unit_tests (info : rstring) (x : Cause) : list Test :=
  [ {| type_name := str "myOS::test_breakpoint_exception"; body := test_breakpoint_exception info x |};
    {| type_name := str "myOS::vga_buffer::test_println_simple"; body := code_test info test_println_simple |};
    {| type_name := str "myOS::vga_buffer::test_println_many"; body := code_test info test_println_many |};
    {| type_name := str "myOS::vga_buffer::test_println_output"; body := code_test info test_println_output |} ].
End startup.
