(* ===== verification/StartupTheorems.v ===== *)
(** * Processor set-up and the test harness: the theorems *)

From S2P Require Import Prelude Str Vga VgaTheorems Editor Kernel Executor Keyboard Interrupts InterruptTheorems Startup.
#[local] Open Scope Z_scope.

Section theorems.
Context {Q : Type → Type} `{!QueueOps Q} {Wk : Type} `{!WakerCellOps Wk} {Dec : Type}.
Context {P : Type} `{!PicOps P, !PicOk P} {I : Type} `{!IdtOps I, !IdtOk I} {G : Type} `{!GdtOps G, !GdtOk G}.
Notation Cpu := (@Cpu Q Wk Dec P I).
Notation Sys := (@Sys Q Wk Dec P I G).
Notation Test := (@Test Q Wk Dec P I G).
Notation Op := (@op Q Wk Dec).
Implicit Types (c : Cpu) (s : Sys).

(** ** Set-up *)

(** As the boot loader leaves the processor. *)
Record booted c : Prop := {
  bo_int : int_flag c = false;
  bo_saved : saved_flags c = [];
  bo_writer : writer_lock c = false;
  bo_pics : pics_lock c = false;
  bo_screen : wf_writer (WRITER (screen c));
  bo_service : pics c = pics_new PIC_1_OFFSET PIC_2_OFFSET;
}.

(** The tables a handler depends on: code segment, task segment, and the stack of
    the double fault handler, whose end is at [top]. *)
Definition tables_loaded (top : Z) s : Prop :=
  ∃ gdt cs tr tss gate n, gdtr s = Some gdt ∧
    cs_reg s = Some cs ∧ gdt_entry gdt cs = Some kernel_code_segment ∧
    task_reg s = Some tr ∧ gdt_entry gdt tr = Some (tss_segment tss) ∧
    idt_gate (idt (cpu s)) DOUBLE_FAULT = Some gate ∧ gate_handler gate = double_fault_handler ∧
    gate_stack gate = Some n ∧ interrupt_stack_table tss !! Z.to_nat n = Some top.

Lemma GDT_entries a :
  gdt_entry (G := G) (GDT a).1 (code_selector (GDT (G := G) a).2) = Some kernel_code_segment ∧
  gdt_entry (G := G) (GDT a).1 (tss_selector (GDT (G := G) a).2) = Some (tss_segment (TSS a)).
Proof.
  rw /GDT. destruct (add_entry gdt_new kernel_code_segment) as [code gdt] eqn:E1.
  destruct (add_entry gdt (tss_segment (TSS a))) as [tss gdt'] eqn:E2. simpl.
  pose proof (add_entry_new (G := G) gdt_new kernel_code_segment) as H1. rw E1 /= in H1.
  pose proof (add_entry_new gdt (tss_segment (TSS a))) as H2. rw E2 /= in H2.
  pose proof (add_entry_old gdt (tss_segment (TSS a)) _ _ H1) as H3. by rw E2 /= in H3.
Qed.

(** The state after [init]. *)
Lemma init_run stack_start s :
  booted (cpu s) → runs (init stack_start) s (λ _ s', idle (cpu s') ∧ tables_loaded (stack_start + STACK_SIZE) s' ∧
    serial_out s' = serial_out s ∧ port_writes s' = port_writes s).
Proof.
  intros [Hi Hs Hw Hp Hsc Hpi]. rw /runs /init /= /mbind /proc_bind.
  rw {1}/gdt_init. pose proof (GDT_entries stack_start) as [H1 H2].
  destruct (GDT stack_start) as [gdt sel]. simpl in H1, H2. rw /= /init_pics /on_cpu /= Hp /=.
  split.
  - split; simpl; try done. rw Hpi. apply pics_initialize_ok.
  - split; [|done]. exists gdt, (code_selector sel), (tss_selector sel), (TSS stack_start). simpl.
    rw idt_gate_IDT /=. eexists _, _. split_and!; done.
Qed.

(** C26. Interrupts come on last: after [init], started as the boot loader leaves the
    processor, interrupts are enabled, the descriptor table is the kernel's, the
    controllers deliver to the vectors 32 to 47 and have nothing in service, the
    segment registers hold descriptors of the loaded table, and the double fault
    handler has a stack of its own; and after each proper prefix of its steps
    interrupts are still disabled. *)
Theorem init_ready stack_start s :
  booted (cpu s) →
  runs (init stack_start) s (λ _ s', idle (cpu s') ∧ tables_loaded (stack_start + STACK_SIZE) s') ∧
  ∀ n, (n < 4)%nat → runs (for_each (λ p, p) (take n (init_steps stack_start))) s (λ _ s', int_flag (cpu s') = false).
Proof.
  intros Hb. split; [eapply runs_mono; [by apply init_run|]; by intros [] s' (? & ? & _)|]. destruct Hb as [Hi _ _ Hp _ _]. intros n Hn. rw /runs.
  do 4 (destruct n as [|n]; [rw /= /mbind /proc_bind /gdt_init; destruct (GDT stack_start); by rw /= /init_pics /on_cpu /= ?Hp|]).
  lia.
Qed.

(** ** The test runner *)

(** What each test does: [None] when it passes, otherwise its panic message.
    Tests leave the serial port and the other ports alone. *)
Context (verdict : Test → option rstring).

Definition test_behaves (t : Test) : Prop := ∀ s, idle (cpu s) →
  match body t s, verdict t with
  | Passed s', None => idle (cpu s') ∧ serial_out s' = serial_out s ∧ port_writes s' = port_writes s
  | Panicked info s', Some info' =>
    info = info' ∧ idle (cpu s') ∧ serial_out s' = serial_out s ∧ port_writes s' = port_writes s
  | _, _ => False
  end.

(** The report on the serial port and the exit code. *)
Fixpoint test_report (tests : list Test) : rstring * QemuExitCode :=
  match tests with
  | [] => ([], Success)
  | t :: tests =>
    match verdict t with
    | None => (type_name t ++ str "..." ++ [9] ++ str "[ok]" ++ [LF] ++ (test_report tests).1, (test_report tests).2)
    | Some info => (type_name t ++ str "..." ++ [9] ++ [27] ++ str "[31m" ++ info ++ [27] ++ str "[0m", Failed)
    end
  end.

Lemma panic_handler_run info s :
  idle (cpu s) → runs (test_panic_handler info) s (λ _ s',
    serial_out s' = serial_out s ++ [27] ++ str "[31m" ++ info ++ [27] ++ str "[0m" ∧
    port_writes s' = port_writes s ++ [(0xf4, exit_code Failed)]).
Proof.
  intros [_ _ Hw _ Hs _ _]. rw /runs /test_panic_handler /on_cpu /=.
  change (panic_on_screen info) with (exec (Dec := Dec) (Q := Q) (Wk := Wk) (P := P) (I := I)
    (locked [on_writer (set_color (ColorCode_new Red Black)); vga_print info])).
  rw exec_locked //= /on_cpu_screen /run_ops /= /mbind /proc_bind /=.
  set (s1 := {| WRITER := _; crtc_writes := _ |}).
  assert (wf_writer (WRITER s1)) as Hw1 by by destruct Hs.
  pose proof (print_refines_run s1 _ info (wf_shows _ Hw1)) as ([] & s2 & -> & _)%runs_Done. simpl.
  by rw -?app_assoc.
Qed.

Lemma run_tests_spec tests s :
  idle (cpu s) → Forall test_behaves tests →
  match run_tests tests s with
  | Passed s' => serial_out s' = serial_out s ++ (test_report tests).1 ∧ port_writes s' = port_writes s ∧ (test_report tests).2 = Success
  | Panicked info s' => idle (cpu s') ∧ port_writes s' = port_writes s ∧ (test_report tests).2 = Failed ∧
      serial_out s' ++ [27] ++ str "[31m" ++ info ++ [27] ++ str "[0m" = serial_out s ++ (test_report tests).1
  | Hung => False
  end.
Proof.
  intros Hid Hall. revert s Hid. induction Hall as [|t tests Ht _ IH]; intros s Hid; [by rw /= app_nil_r|].
  cbn [run_tests test_report]. rw /test_run.
  set (s0 := serial_print _ s). specialize (Ht s0 Hid).
  destruct (body t s0) as [s1|info s1|], (verdict t) as [info'|]; try done.
  - destruct Ht as (Hid1 & Hs1 & Hp1). set (s2 := serial_println (str "[ok]") s1).
    specialize (IH s2 Hid1). destruct (run_tests tests s2) as [s'|info s'|]; [| |done].
    + destruct IH as (-> & -> & ->). split_and!; [|done|done]. rw /= Hs1 /=. by rw -?app_assoc.
    + destruct IH as (? & -> & -> & ->). split_and!; [done|done|done|]. rw /= Hs1 /=. by rw -?app_assoc.
  - destruct Ht as (<- & Hid1 & Hs1 & Hp1). split_and!; [done|done|done|]. rw Hs1 /=. by rw -?app_assoc.
Qed.

Lemma test_runner_run tests s :
  idle (cpu s) → Forall test_behaves tests →
  runs (test_runner tests) s (λ _ s',
    serial_out s' = serial_out s ++ (str "Running " ++ show_nat (zlen tests) ++ str " tests" ++ [LF]) ++ (test_report tests).1 ∧
    port_writes s' = port_writes s ++ [(0xf4, exit_code (test_report tests).2)]).
Proof.
  intros Hid Hall. rw /runs /test_runner. set (s0 := serial_println _ s).
  assert (serial_out s0 = serial_out s ++ (str "Running " ++ show_nat (zlen tests) ++ str " tests") ++ [LF]) as Hs0 by done.
  pose proof (run_tests_spec tests s0 Hid Hall) as H. destruct (run_tests tests s0) as [s'|info s'|]; [| |done].
  - destruct H as (Hs & Hp & ->). split; [|by rw /= Hp]. rw /= Hs Hs0. by rw -!app_assoc.
  - destruct H as (Hid' & Hp & -> & Hs). eapply (runs_mono (test_panic_handler info)); [by apply panic_handler_run|].
    intros [] s2 [-> ->]. rw Hs Hp Hs0. by rw -!app_assoc.
Qed.

(** C36. The test runner reports what the tests do: on the serial port the number of
    tests, then name and verdict of each up to the first that panics, whose
    message follows its name; on the exit port the success code if all pass and
    the failure code otherwise. *)
Theorem test_runner_reports tests s :
  idle (cpu s) → Forall test_behaves tests →
  runs (test_runner tests) s (λ _ s',
    serial_out s' = serial_out s ++ (str "Running " ++ show_nat (zlen tests) ++ str " tests" ++ [LF]) ++ (test_report tests).1 ∧
    port_writes s' = port_writes s ++ [(0xf4, exit_code (test_report tests).2)]).
Proof. apply test_runner_run. Qed.
End theorems.

(** ** The unit tests *)

Section unit_tests.
Context {Q : Type → Type} `{!QueueOps Q} {Wk : Type} `{!WakerCellOps Wk} {Dec : Type}.
Context {P : Type} `{!PicOps P, !PicOk P} {I : Type} `{!IdtOps I, !IdtOk I} {G : Type} `{!GdtOps G, !GdtOk G}.
Notation Cpu := (@Cpu Q Wk Dec P I).
Notation Sys := (@Sys Q Wk Dec P I G).
Notation Test := (@Test Q Wk Dec P I G).
Implicit Types (c : Cpu) (s : Sys).

Definition keeps_idle (p : proc Cpu unit) : Prop := ∀ c, idle c → runs p c (λ _ c', idle c').

Lemma println_idle t : keeps_idle (exec (println_code t)).
Proof.
  intros c Hid. pose proof (exec_op_idle (OPrint (t ++ [LF])) c Hid Logic.I) as H.
  rw /runs /println_code. simpl in H. destruct (exec _ c) as [[[] c']| |]; [by destruct H|done..].
Qed.

Lemma keeps_idle_app (a b : list (@instr Q Wk Dec)) :
  keeps_idle (exec a) → keeps_idle (exec b) → keeps_idle (exec (a ++ b)).
Proof.
  intros Ha Hb c Hid. pose proof (Ha c Hid) as ([] & c' & Hx & Hc')%runs_Done.
  rw /runs exec_app /mbind /proc_bind Hx. by apply Hb.
Qed.

Lemma println_many_idle : keeps_idle (exec test_println_many).
Proof.
  rw /test_println_many. induction (seqZ 0 200) as [|n l IH]; [by intros c Hid|].
  apply (keeps_idle_app (println_code _)); [apply println_idle|done].
Qed.

(** The assertions on row 23 hold once the line is there. *)
Lemma check_row_run (sc : Screen) row color :
  buffer (WRITER sc) !! 23%nat = Some row → take (length SAMPLE) row = cells color SAMPLE →
  runs check_row sc (λ _ sc', sc' = sc).
Proof.
  intros Hrow Hcells. apply (runs_for_each (λ _ sc', sc' = sc)); [done|]. intros dn [i ch] rest sc' E ->.
  assert (zip (seqZ 0 (zlen SAMPLE)) SAMPLE !! length dn = Some (i, ch)) as Hz by by rw E list_lookup_middle.
  apply lookup_zip_Some in Hz as [[-> Hi]%lookup_seqZ Hch]. rw Z.add_0_l.
  assert (row !! length dn = Some {| ascii_character := ch; color_code := color |}) as Hc.
  { rw -(lookup_take_lt row (length SAMPLE)); [lia|]. by rw Hcells /cells list_lookup_fmap Hch. }
  rbind. apply on_writer_run, on_buffer_run. eapply runs_mono; [by apply (cell_read_run _ 23 _ row)|].
  intros v b [-> ->]. rw /= Z.eqb_refl. apply runs_ret. by destruct sc as [[]].
Qed.

Lemma println_output_idle : keeps_idle (exec (Q := Q) (Wk := Wk) (Dec := Dec) test_println_output).
Proof.
  intros c [? ? Hw ? Hs ? ?]. rw /runs /test_println_output exec_masked // /on_cpu_screen /run_ops /=.
  pose proof (wf_shows _ Hs) as Hsh.
  assert (runs (vga_print ([LF] ++ SAMPLE ++ [LF])) (screen c) (λ _ sc1, wf_writer (WRITER sc1) ∧ ∃ row,
    buffer (WRITER sc1) !! 23%nat = Some row ∧ take (length SAMPLE) row = cells (writer_color (WRITER (screen c))) SAMPLE)) as Hr.
  { apply runs_and.
    - eapply runs_mono; [by apply print_refines_run|]. intros [] s' [Hsw _]. apply Hsw.
    - apply (println_appears _ _ SAMPLE Hsh); [|simpl; lia]. by repeat constructor. }
  apply runs_Done in Hr as ([] & sc & Hr & Hwf & row & Hrow & Hcells). rw /mbind /proc_bind Hr.
  pose proof (check_row_run sc row _ Hrow Hcells) as ([] & sc' & -> & ->)%runs_Done. simpl. by split.
Qed.

(** The breakpoint handler prints its message and the code goes on. *)
Lemma breakpoint_run x c :
  idle c → runs (interrupt BREAKPOINT x) c (λ _ c', idle c' ∧
    vga_print ((str "EXCEPTION: BREAKPOINT" ++ [LF] ++ frame_text x) ++ [LF]) (screen c) = Done (tt, screen c')).
Proof.
  intros [? ? Hw ? Hs ? Hidt]. set (t := (_ ++ _) ++ [LF]). rw /runs /interrupt Hidt.
  assert (idt_gate (IDT (I := I)) BREAKPOINT = Some {| gate_handler := breakpoint_handler; gate_stack := None |}) as ->
    by by rw idt_gate_IDT.
  cbn [gate_handler run_handler]; rw /breakpoint_body.
  pose proof (op_screen_wf (Q := Q) (Wk := Wk) (Dec := Dec) (OPrint t) (screen c) Logic.I Hs) as ([] & sc & Hr & Hwf)%runs_Done.
  change (println_code _) with (op_code (Q := Q) (Wk := Wk) (Dec := Dec) (OPrint t)).
  rw exec_op // /on_cpu_screen. simpl in *. rw Hr. split; [|done]. by split.
Qed.

(** A test that runs through leaves what its code leaves. *)
Lemma code_test_passes info code s c' :
  exec code (cpu s) = Done (tt, c') → code_test info code s = Passed (set_cpu c' s).
Proof.
  revert s. induction code as [|i code IH]; intros s; simpl.
  - intros [= <-]. by destruct s.
  - rw exec_cons /mbind /proc_bind. destruct (step i (cpu s)) as [[[] c]| |]; [|done..].
    intros Hx. by rw (IH (set_cpu c s)).
Qed.

Lemma code_test_behaves n info code :
  keeps_idle (exec code) → test_behaves (λ _, None) ({| type_name := n; body := code_test info code |} : Test).
Proof.
  intros Hp s Hid. simpl. pose proof (Hp _ Hid) as ([] & c' & Hx & Hc')%runs_Done. by rw (code_test_passes _ _ _ _ Hx).
Qed.

Lemma unit_test_behaves info x (t : Test) : t ∈ unit_tests info x → test_behaves (λ _, None) t.
Proof.
  rw /unit_tests. rewrite !elem_of_cons. intros [->|[->|[->|[->|Hn%not_elem_of_nil]]]]; [|apply code_test_behaves..|done].
  - intros s Hid. pose proof (breakpoint_run x (cpu s) Hid) as ([] & c' & Hx & Hc' & _)%runs_Done.
    by rw /= /test_breakpoint_exception Hx.
  - apply println_idle.
  - apply println_many_idle.
  - apply println_output_idle.
Qed.

(** C27. The kernel passes its own unit tests: started as the boot loader leaves the
    processor, [test_kernel_main] sets the processor up and runs the tests of the
    screen and of the breakpoint exception, in any order and number; all report
    [ok] and the exit code is the success code. *)
Theorem unit_tests_pass stack_start info x (tests : list Test) s :
  booted (cpu s) → (∀ t, t ∈ tests → t ∈ unit_tests info x) →
  runs (test_kernel_main stack_start tests) s (λ _ s',
    serial_out s' = serial_out s ++ (str "Running " ++ show_nat (zlen tests) ++ str " tests" ++ [LF]) ++
      concat ((λ t, type_name t ++ str "..." ++ [9] ++ str "[ok]" ++ [LF]) <$> tests) ∧
    port_writes s' = port_writes s ++ [(0xf4, exit_code Success)]).
Proof.
  intros Hb Ht. rw /test_kernel_main. rbind. eapply runs_mono; [by apply init_run|]. intros [] s1 (Hid & _ & <- & <-).
  eapply runs_mono.
  - apply (test_runner_run (λ _, None)); [done|]. apply Forall_forall. intros t Hin. by eapply unit_test_behaves, Ht.
  - assert (test_report (λ _, None) tests = (concat ((λ t, type_name t ++ str "..." ++ [9] ++ str "[ok]" ++ [LF]) <$> tests), Success)) as ->.
    { clear. induction tests as [|t tests IH]; [done|]. cbn [test_report]. rw IH. cbn [fst snd fmap list_fmap concat].
      by rw -!app_assoc. }
    done.
Qed.
End unit_tests.

(** ** Witnesses *)

(** A table of descriptors after the null descriptor. *)
#[export] Instance list_gdt : GdtOps (list Descriptor) := {|
  gdt_new := [];
  add_entry g d := (8 * (zlen g + 1), g ++ [d]);
  gdt_entry g s := g !! Z.to_nat (s / 8 - 1);
|}.

#[export] Instance list_gdt_ok : GdtOk (list Descriptor).
Proof.
  split; simpl.
  - intros g d. replace (Z.to_nat (8 * (zlen g + 1) / 8 - 1)) with (length g) by dlia. by rw list_lookup_middle.
  - intros g d s d' Hs. by apply lookup_app_l_Some.
Qed.

Notation DemoSys := (@Sys ListQueue (option TaskId) unit SimPics (gmap Z Gate) (list Descriptor)).

Definition demo_sys (c : DemoCpu) : DemoSys :=
  {| cpu := c; gdtr := None; cs_reg := None; task_reg := None; serial_out := []; port_writes := [] |}.

(** The processor as it is handed over: interrupts off, no table loaded. *)
Definition demo_booted : DemoCpu :=
  {| int_flag := false; saved_flags := []; writer_lock := false; pics_lock := false; screen := boot_screen;
     pics := pics_new PIC_1_OFFSET PIC_2_OFFSET; kb := Keyboard_init tt demo_tasks; idt := idt_new |}.

Lemma init_ready_witness :
  runs (init 0x200000) (demo_sys demo_booted) (λ _ s', idle (cpu s') ∧ tables_loaded (0x200000 + STACK_SIZE) s') ∧
  ∀ n, (n < 4)%nat → runs (for_each (λ p, p) (take n (init_steps 0x200000))) (demo_sys demo_booted)
    (λ _ s', int_flag (cpu s') = false).
Proof. apply (init_ready 0x200000 (demo_sys demo_booted)). split; try done. apply boot_wf. Defined.

(** A test that passes, then one that panics. *)
Definition demo_tests : list (@Test ListQueue (option TaskId) unit SimPics (gmap Z Gate) (list Descriptor)) :=
  [ {| type_name := str "a"; body := Passed |};
    {| type_name := str "b"; body := Panicked (str "no") |} ].

Definition demo_verdict (t : @Test ListQueue (option TaskId) unit SimPics (gmap Z Gate) (list Descriptor)) : option rstring :=
  if decide (type_name t = str "a") then None else Some (str "no").

Lemma test_runner_reports_witness :
  test_report demo_verdict demo_tests =
    (str "a..." ++ [9] ++ str "[ok]" ++ [LF] ++ str "b..." ++ [9; 27] ++ str "[31mno" ++ [27] ++ str "[0m", Failed) ∧
  runs (test_runner demo_tests) (demo_sys demo_cpu) (λ _ s',
    serial_out s' = serial_out (demo_sys demo_cpu) ++
      (str "Running " ++ show_nat (zlen demo_tests) ++ str " tests" ++ [LF]) ++ (test_report demo_verdict demo_tests).1 ∧
    port_writes s' = port_writes (demo_sys demo_cpu) ++ [(0xf4, exit_code (test_report demo_verdict demo_tests).2)]).
Proof.
  split; [vm_compute; reflexivity|]. apply (test_runner_reports demo_verdict demo_tests (demo_sys demo_cpu)).
  - apply demo_idle.
  - constructor; [by intros s Hs|]. constructor; [by intros s Hs|]. constructor.
Defined.

Definition demo_units : list (@Test ListQueue (option TaskId) unit SimPics (gmap Z Gate) (list Descriptor)) :=
  unit_tests (str "panicked") demo_cause.

Lemma unit_tests_pass_witness :
  runs (test_kernel_main 0x200000 demo_units) (demo_sys demo_booted) (λ _ s',
    serial_out s' = serial_out (demo_sys demo_booted) ++
      (str "Running " ++ show_nat (zlen demo_units) ++ str " tests" ++ [LF]) ++
      concat ((λ t, type_name t ++ str "..." ++ [9] ++ str "[ok]" ++ [LF]) <$> demo_units) ∧
    port_writes s' = port_writes (demo_sys demo_booted) ++ [(0xf4, exit_code Success)]).
Proof.
  apply (unit_tests_pass 0x200000 (str "panicked") demo_cause demo_units (demo_sys demo_booted)); [|done].
  split; try done. apply boot_wf.
Defined.
