(* ===== verification/Power.v ===== *)
(** * Switching off: src/src/power.rs, src/src/lib.rs ([exit_qemu])

    [shutdown] never returns, so it is a sequence of steps that runs until a port
    write switches the machine off, or to its end, where the processor halts.
    Which ports the platform listens to is a parameter. *)

From S2P Require Import Prelude Device Ide Str Vga VgaTheorems Editor BTreeMap Shell Kernel Startup.
#[local] Open Scope Z_scope.

Section power.
Context {D : Type} `{!BlockDevice D}.

Record Power := {
  pk : Kernel D;
  p_int : bool;                  (** interrupts are enabled *)
  p_fs_lock : bool;
  p_ide_lock : bool;
  p_ports : list (Z * Z);        (** port writes so far *)
}.

Definition with_kernel (k : Kernel D) (p : Power) : Power :=
  {| pk := k; p_int := p_int p; p_fs_lock := p_fs_lock p; p_ide_lock := p_ide_lock p; p_ports := p_ports p |}.

Definition on_kernel (q : proc (Kernel D) unit) : proc Power unit := λ p,
  match q (pk p) with
  | Done (_, k) => Done (tt, with_kernel k p)
  | Panic e => Panic e
  | Hang => Hang
  end.

(** [drop(FS.lock())] *)
Definition drop_fs_lock : proc Power unit := λ p, if p_fs_lock p then Hang else Done (tt, p).

(** [IDE.lock().flush_cache()] *)
Definition locked_flush : proc Power unit := λ p,
  if p_ide_lock p then Hang else on_kernel flush_cache p.

(** [interrupts::disable] *)
Definition disable : proc Power unit := λ p,
  Done (tt, {| pk := pk p; p_int := false; p_fs_lock := p_fs_lock p; p_ide_lock := p_ide_lock p; p_ports := p_ports p |}).

Definition with_ports (writes : list (Z * Z)) (p : Power) : Power :=
  {| pk := pk p; p_int := p_int p; p_fs_lock := p_fs_lock p; p_ide_lock := p_ide_lock p; p_ports := writes |}.

Definition power_out (w : Z * Z) : proc Power unit := λ p, Done (tt, with_ports (p_ports p ++ [w]) p).

Definition teardown : list (proc Power unit) := [drop_fs_lock; locked_flush; disable].

Definition SAFE_TEXT : rstring := str "It is now safe to power off your computer.".

Definition shutdown_steps : list (proc Power unit) :=
  teardown ++
  [power_out (0x604, 0x2000); power_out (0xB004, 0x2000); power_out (0x4004, 0x3400);
   power_out (0xf4, exit_code Startup.Success);
   on_kernel (print (SAFE_TEXT ++ [LF]))].

(** The platform: the writes that switch the machine off. *)
Context (turns_off : Z * Z → bool).

Inductive Ending := SwitchedOff (p : Power) | Halted (p : Power).

(** The steps, until the last port write switched the machine off. *)
Fixpoint run_until_off (steps : list (proc Power unit)) (p : Power) : outcome Ending :=
  if existsb turns_off (p_ports p) then Done (SwitchedOff p)
  else match steps with
       | [] => Done (Halted p)
       | q :: steps =>
         match q p with
         | Done (_, p) => run_until_off steps p
         | Panic e => Panic e
         | Hang => Hang
         end
       end.

Definition shutdown (p : Power) : outcome Ending := run_until_off shutdown_steps p.

(** ** Theorems *)

Definition off_writes : list (Z * Z) := [(0x604, 0x2000); (0xB004, 0x2000); (0x4004, 0x3400); (0xf4, 0x10)].

(** Port writes, up to the one the platform listens to. *)
Lemma run_outs writes rest p :
  existsb turns_off (p_ports p) = false →
  (∃ before w after, writes = before ++ w :: after ∧ turns_off w = true ∧ Forall (λ w, turns_off w = false) before ∧
     run_until_off ((power_out <$> writes) ++ rest) p = Done (SwitchedOff (with_ports (p_ports p ++ before ++ [w]) p))) ∨
  (Forall (λ w, turns_off w = false) writes ∧ existsb turns_off (p_ports p ++ writes) = false ∧
     run_until_off ((power_out <$> writes) ++ rest) p = run_until_off rest (with_ports (p_ports p ++ writes) p)).
Proof.
  revert p. induction writes as [|w writes IH]; intros p Hp.
  { right. rw /= app_nil_r. split_and!; [constructor|done|by destruct p]. }
  cbn [fmap list_fmap app run_until_off]. rw Hp /power_out. destruct (turns_off w) eqn:Hw.
  - left. exists [], w, writes. split_and!; [done|done|constructor|].
    assert (existsb turns_off (p_ports p ++ [w]) = true) as E by by rw existsb_app /= Hw !orb_true_r.
    destruct writes; simpl; [destruct rest|]; by rw /= E.
  - assert (existsb turns_off (p_ports p ++ [w]) = false) as E by by rw existsb_app /= Hw Hp.
    destruct (IH (with_ports (p_ports p ++ [w]) p) E) as [(before & w' & after & -> & H1 & H2 & H3)|(H1 & H2 & H3)].
    + left. exists (w :: before), w', after. split_and!; [done|done|by constructor|].
      etrans; [exact H3|]. simpl. by rw -!app_assoc.
    + right. simpl in H2. rw -app_assoc in H2. split_and!; [by constructor|done|].
      etrans; [exact H3|]. simpl. by rw -!app_assoc.
Qed.

Context `{!BlockDeviceOk D}.
(** The drive has nothing left in its cache. *)
Context (flushed : D → Prop).
Hypothesis flush_cache_flushes : ∀ d s, holds d s → runs flush_cache d (λ _ d', flushed d' ∧ holds d' s).

(** What holds when the machine stops. *)
Record stopped_well (p : Power) (s : disk) (writes : list (Z * Z)) : Prop := {
  sw_flushed : flushed (k_dev (pk p));
  sw_holds : holds (k_dev (pk p)) s;
  sw_masked : p_int p = false;
  sw_ports : p_ports p = writes;
}.

(** C22. Switching off loses no data: from a state in which no lock is held,
    [shutdown] flushes the drive and masks interrupts before it writes to any port;
    the machine stops at the first of the four power-off writes that the platform
    listens to, and if it listens to none the processor halts after the last line
    was printed. *)
Theorem shutdown_safe p s :
  holds (k_dev (pk p)) s → wf_writer (WRITER (k_screen (pk p))) →
  p_fs_lock p = false → p_ide_lock p = false → p_ports p = [] →
  ∃ e, shutdown p = Done e ∧
    match e with
    | SwitchedOff p' => ∃ before w after, off_writes = before ++ w :: after ∧ turns_off w = true ∧
        Forall (λ w, turns_off w = false) before ∧ stopped_well p' s (before ++ [w])
    | Halted p' => Forall (λ w, turns_off w = false) off_writes ∧ stopped_well p' s off_writes ∧
        vga_print (SAFE_TEXT ++ [LF]) (k_screen (pk p)) = Done (tt, k_screen (pk p'))
    end.
Proof.
  intros Hd Hw Hf Hi Hp. pose proof (flush_cache_flushes _ _ Hd) as ([] & d' & Hfl & Hfd & Hh)%runs_Done.
  set (p0 := {| pk := set_dev (pk p) d'; p_int := false; p_fs_lock := false; p_ide_lock := false; p_ports := [] |}).
  assert (shutdown p = run_until_off ((power_out <$> off_writes) ++ [on_kernel (print (SAFE_TEXT ++ [LF]))]) p0) as ->.
  { rw /shutdown /shutdown_steps /teardown. cbn [app run_until_off]. rw Hp /drop_fs_lock Hf. cbn [run_until_off existsb].
    rw Hp /locked_flush Hi /on_kernel /= {1}/on_part Hfl. by rw /= Hp Hf Hi. }
  destruct (run_outs off_writes [on_kernel (print (SAFE_TEXT ++ [LF]))] p0 eq_refl)
    as [(before & w & after & E & H1 & H2 & ->)|(H1 & H2 & ->)].
  - eexists. split; [done|]. exists before, w, after. by split_and!; [..|split].
  - cbn [run_until_off p_ports with_ports]. rw H2. rw /on_kernel /print /Kernel_console /on_screen /on_part /=.
    pose proof (print_refines_run (k_screen (pk p)) _ (SAFE_TEXT ++ [LF]) (wf_shows _ Hw)) as ([] & sc & Hpr & _)%runs_Done.
    rw Hpr. cbn [p_ports with_kernel with_ports]. change (existsb turns_off off_writes = false) in H2. rw H2.
    eexists. split; [done|]. by split_and!; [|split|].
Qed.
End power.

(** ** Witnesses *)

(** QEMU listens to the first port. *)
Definition qemu_off (w : Z * Z) : bool := bool_decide (w = (0x604, 0x2000)).

(** A drive behind its ports, with sectors that are in its cache only. *)
#[local] Instance cached_ports : Ports Drive := sim_ports 65536 2.
#[local] Instance cached_device : BlockDevice Drive := Ata_device 3.
#[local] Instance cached_ata : AtaOk Drive 65536 3 := sim_ok 65536 sim_cap 2 ltac:(lia).
#[local] Instance cached_ok : BlockDeviceOk Drive :=
  Ata_device_ok 65536 3 (or_intror (sim_ignores 65536 sim_cap 2 ltac:(lia))).

Definition cached_drive : Drive := rest sim_disk (dr_regs sim_drive) false.

Definition power_kernel : Kernel Drive :=
  {| k_dev := cached_drive; k_screen := boot_screen; k_fs := None; k_shell := SHELL_init;
     k_keys := []; k_arrivals := []; k_pending := false; k_launch_pong := false; k_commands := [] |}.

Definition demo_power : @Power Drive :=
  {| pk := power_kernel; p_int := true; p_fs_lock := false; p_ide_lock := false; p_ports := [] |}.

Lemma shutdown_safe_witness :
  ∃ e, shutdown qemu_off demo_power = Done e ∧
    match e with
    | SwitchedOff p' => ∃ before w after, off_writes = before ++ w :: after ∧ qemu_off w = true ∧
        Forall (λ w, qemu_off w = false) before ∧ stopped_well (ata_synced 65536 3) p' sim_disk (before ++ [w])
    | Halted p' => Forall (λ w, qemu_off w = false) off_writes ∧ stopped_well (ata_synced 65536 3) p' sim_disk off_writes ∧
        vga_print (SAFE_TEXT ++ [LF]) boot_screen = Done (tt, k_screen (pk p'))
    end.
Proof.
  apply (shutdown_safe qemu_off (ata_synced 65536 3)) with (p := demo_power) (s := sim_disk).
  - intros d s Hd. eapply runs_mono; [exact (ata_flush_run 65536 3 d s Hd)|]. by intros [] d' [].
  - exists sim_disk, (dr_regs sim_drive), false. split; [reflexivity|]. intros l _. split; [done|apply zero_sector_ok].
  - apply boot_wf.
  - reflexivity.
  - reflexivity.
  - reflexivity.
Defined.
