(* ===== verification/Scheduling.v ===== *)
(** * The keyboard task and the shell task under the executor

    src/src/main.rs spawns two tasks: the keyboard task and the shell.  The shell
    wakes itself at every yield, the keyboard task is woken by the interrupt
    handler; both ids go through one first-in first-out queue.  The steps are those
    of Keyboard.v, with the shell as the only other task. *)

From S2P Require Import Prelude Editor Kernel Executor Keyboard.
#[local] Open Scope Z_scope.

Section scheduling.
Context {Q : Type → Type} `{!QueueOps Q, !QueueOk Q} {Wk : Type} `{!WakerCellOps Wk, !WakerCellOk Wk}.
Context {Dec : Type} (dec_new : Dec) (add_byte : Dec → Z → option KeyEvent * Dec).
(** The ids of the keyboard task and of the shell. *)
Context (kid sid : TaskId) (Hids : sid ≠ kid).
Notation Kb := (@Keyboard Q Wk Dec).
Notation St := (Kb * list Z)%type.

(** [yield_now().await] of the shell, as the executor sees it: the id is popped, the
    task polled, and its waker queues the id again. *)
Inductive shell_poll : St → St → Prop :=
  | shell_polled k tq tq' acc :
      pc k = Parked → q_pop (task_queue k) = Some (sid, tq) → q_push tq sid = Some tq' →
      shell_poll (k, acc) (with_tasks tq' k, acc).

(** Everything else: interrupts and the keyboard task. *)
Inductive quiet_step : St → St → Prop :=
  | q_irq c k k' b acc : add_scancode c k = Done (b, k') → quiet_step (k, acc) (k', if b then acc ++ [c] else acc)
  | q_task k k' acc : pc k ≠ Parked → task_step add_byte kid k = Done k' → quiet_step (k, acc) (k', acc)
  | q_polled k tq acc : pc k = Parked → q_pop (task_queue k) = Some (kid, tq) → quiet_step (k, acc) (dispatch tq k, acc).

Definition sstep (x y : St) : Prop := quiet_step x y ∨ shell_poll x y.

Lemma sstep_kstep x y : sstep x y → kstep add_byte kid x y.
Proof.
  intros [[c k k' [] acc Ha|k k' acc Hp Ht|k tq acc Hp Hq]|[k tq tq' acc Hp Hq Hpush]].
  - by apply irq_queued.
  - by eapply irq_dropped.
  - by apply task_runs.
  - by apply task_polled.
  - eapply (other_polled _ _ _ _ _ _ [sid]); [done|done|done|]. by apply q_push_some in Hpush as [-> _].
Qed.

(** ** Invariant: the shell's id is queued once *)

Definition once (l : list TaskId) : Prop := ∃ l1 l2, l = l1 ++ sid :: l2 ∧ sid ∉ l1 ∧ sid ∉ l2.

Record sinv (x : St) : Prop := {
  si_kinv : kinv dec_new add_byte kid x.1 x.2;
  si_once : once (q_items (task_queue x.1));
}.

Lemma once_snoc l i : i ≠ sid → once l → once (l ++ [i]).
Proof. intros Hi (l1 & l2 & -> & H1 & H2). exists l1, (l2 ++ [i]). rw -assoc. set_solver. Qed.

Lemma once_pop i l : i ≠ sid → once (i :: l) → once l.
Proof.
  intros Hi (l1 & l2 & E & H1 & H2). destruct l1 as [|j l1]; [simpl in E; congruence|]. injection E as -> ->.
  exists l1, l2. set_solver.
Qed.

Lemma once_head l : once (sid :: l) → sid ∉ l.
Proof.
  intros (l1 & l2 & E & H1 & H2). destruct l1 as [|j l1]; [by injection E as ->|]. injection E as <- ->. set_solver.
Qed.

(** What an interrupt does to the run queue. *)
Lemma add_scancode_queue c (k k' : Kb) b acc :
  kinv dec_new add_byte kid k acc → add_scancode c k = Done (b, k') →
  pc k' = pc k ∧ (q_items (task_queue k') = q_items (task_queue k) ∨
                  q_items (task_queue k') = q_items (task_queue k) ++ [kid]).
Proof.
  intros Hk. rw /add_scancode. destruct (scancode_queue k) as [q|]; [|by intros [= <- <-]; auto].
  destruct (q_push q c) as [q'|]; [|by intros [= <- <-]; auto].
  pose proof (wk_take_ok (waker k)) as [H1 _]. destruct (wk_take (waker k)) as [[i|] cell]; [|by intros [= <- <-]; auto].
  destruct (q_push (task_queue k) i) as [tq|] eqn:Hq; [|done]. intros [= <- <-]. split; [done|right].
  apply q_push_some in Hq as [Hq _]. simpl in *. rw Hq. destruct (ki_waker _ _ _ _ _ Hk); congruence.
Qed.

Lemma task_step_queue (k k' : Kb) : task_step add_byte kid k = Done k' → task_queue k' = task_queue k.
Proof.
  rw /task_step /deliver. intros H. repeat case_match; simplify_eq/=; done.
Qed.

Lemma sstep_inv x y : sstep x y → sinv x → sinv y.
Proof.
  intros Hs [Hk Ho]. split; [eapply kstep_inv; [by apply sstep_kstep|done]|].
  revert Hk Ho. destruct Hs as [[c k k' b acc Ha|k k' acc Hp Ht|k tq acc Hp Hq]|[k tq tq' acc Hp Hq Hpush]];
    intros Hk Ho; simpl in *.
  - destruct (add_scancode_queue _ _ _ _ _ Hk Ha) as [_ [->| ->]]; [done|]. by apply once_snoc.
  - by rw (task_step_queue _ _ Ht).
  - apply q_pop_some in Hq as [E _]. rw E in Ho. by apply once_pop in Ho.
  - apply q_pop_some in Hq as [E _]. rw E in Ho. apply q_push_some in Hpush as [-> _].
    exists (q_items tq), []. split_and!; [done|by apply once_head|set_solver].
Qed.

Lemma sstep_rtc_inv x y : rtc sstep x y → sinv x → sinv y.
Proof. induction 1; eauto using sstep_inv. Qed.

(** ** Progress *)

(** The first [n] scancodes have been taken from their queue. *)
Definition taken_upto (n : nat) (x : St) : Prop := ∃ taken, x.2 = taken ++ pending x.1 ∧ (n ≤ length taken)%nat.

(** They have, or the keyboard task runs, or the run queue promises that it will. *)
Definition waiting (promise : list TaskId → Prop) (n : nat) (x : St) : Prop :=
  taken_upto n x ∨ pc x.1 ≠ Parked ∨ promise (q_items (task_queue x.1)).

(** It is queued; it is queued ahead of the shell. *)
Definition noticed : nat → St → Prop := waiting (λ l, kid ∈ l).
Definition ahead : nat → St → Prop := waiting (λ l, ∃ l1 l2, l = l1 ++ kid :: l2 ∧ sid ∉ l1).

Lemma sinv_noticed x : sinv x → noticed (length x.2) x.
Proof.
  intros [[_ Hp _ _ _ (taken & Ha & _)] _]. destruct (decide (pc x.1 = Parked)) as [E|]; [|by right; left].
  destruct (Hp E) as [Hr|(_ & Hn & _)]; [by right; right|left]. exists taken. split; [done|]. rw Ha Hn app_nil_r. done.
Qed.

(** Interrupts do not undo it. *)
Lemma taken_upto_irq n c (k k' : Kb) b acc :
  taken_upto n (k, acc) → add_scancode c k = Done (b, k') → taken_upto n (k', if b then acc ++ [c] else acc).
Proof.
  intros (taken & E & Hn) Ha. exists taken. split; [|done]. simpl in *. subst acc. revert Ha. rw /add_scancode /pending.
  destruct (scancode_queue k) as [q|] eqn:Eq; [|intros [= <- <-]; by rw Eq].
  destruct (q_push q c) as [q'|] eqn:Hq; [|intros [= <- <-]; by rw Eq].
  apply q_push_some in Hq as [Hq _]. destruct (wk_take (waker k)) as [[i|] cell].
  - destruct (q_push (task_queue k) i); [|done]. intros [= <- <-]. by rw /= Hq -assoc.
  - intros [= <- <-]. by rw /= Hq -assoc.
Qed.

(** A step of the keyboard task takes codes, and parks only with none left. *)
Lemma task_step_progress n (k k' : Kb) acc :
  sinv (k, acc) → pc k ≠ Parked → task_step add_byte kid k = Done k' →
  (pc k' = Parked → ∀ m, (m ≤ length acc)%nat → taken_upto m (k', acc)) ∧
  (taken_upto n (k, acc) → taken_upto n (k', acc)).
Proof.
  intros Hs Hpc Ht. assert (sinv (k', acc)) as Hs' by (eapply sstep_inv; [left; by apply q_task|done]).
  destruct (si_kinv _ Hs') as [_ _ _ _ _ (taken' & Ha' & _)]. simpl in *.
  assert ((length (pending k') ≤ length (pending k))%nat ∧ (pc k' = Parked → pending k' = [])) as [Hle Hempty].
  { revert Ht. rw /task_step /deliver /at_pc /pending.
    destruct (pc k), (scancode_queue k) as [q|] eqn:Eq; try done; try (intros [= <-]; by rw /= ?Eq).
    - intros [= <-]. simpl. destruct (q_new_ok (Q := Q) (A := Z) 100) as [-> _]. done.
    - destruct (q_pop q) as [[c q']|] eqn:Hq; [|intros [= <-]; by rw /= ?Eq].
      destruct (add_byte (keyboard k) c). intros [= <-]. simpl. apply q_pop_some in Hq as [-> _]. simpl. split; [lia|done].
    - destruct (q_pop q) as [[c q']|] eqn:Hq.
      + destruct (add_byte (keyboard k) c). intros [= <-]. simpl. apply q_pop_some in Hq as [-> _]. simpl. split; [lia|done].
      + intros [= <-]. rw /= ?Eq. apply q_pop_none in Hq. by rw Hq. }
  split.
  - intros Hp m Hm. exists taken'. split; [done|]. rw Ha' Hempty // app_nil_r in Hm. lia.
  - intros (taken & Ha & Hn). exists taken'. split; [done|]. simpl in Ha.
    apply (f_equal length) in Ha, Ha'. rewrite length_app in Ha. rewrite length_app in Ha'. lia.
Qed.

(** A promise lasts as long as the shell is not polled. *)
Lemma waiting_quiet promise n x y :
  (∀ l, promise l → promise (l ++ [kid])) →
  (n ≤ length x.2)%nat → quiet_step x y → sinv x → waiting promise n x → waiting promise n y ∧ (n ≤ length y.2)%nat.
Proof.
  intros Hpr Hn Hs Hi Ha. revert Hn Hi Ha.
  destruct Hs as [c k k' b acc Hc|k k' acc Hp Ht|k tq acc Hp Hq]; intros Hn Hi Ha; simpl in *.
  - split; [|destruct b; len]. destruct (add_scancode_queue _ _ _ _ _ (si_kinv _ Hi) Hc) as [Hpc Hq].
    destruct Ha as [Ha|[Ha|Ha]]; simpl in *.
    + left. by apply (taken_upto_irq n c k).
    + right. left. simpl. congruence.
    + right. right. simpl. destruct Hq as [->| ->]; auto.
  - split; [|done]. destruct (task_step_progress n _ _ _ Hi Hp Ht) as [Hpark Hkeep]. destruct (decide (pc k' = Parked)).
    + left. by apply Hpark.
    + right. by left.
  - split; [|done]. right. left. simpl. by destruct (scancode_queue k).
Qed.

(** A poll of the shell sends it behind the keyboard task. *)
Lemma shell_poll_ahead n x y : shell_poll x y → sinv x → noticed n x → ahead n y.
Proof.
  intros Hs. destruct Hs as [k tq tq' acc Hp Hq Hpush]. intros [_ Ho] Ha. simpl in *.
  apply q_pop_some in Hq as [E _]. rw E in Ho. apply once_head in Ho. apply q_push_some in Hpush as [Hpush _].
  destruct Ha as [Ha|[Ha|Ha]]; simpl in *; [by left|done|]. right. right. simpl. rw E in Ha.
  apply elem_of_cons in Ha as [->|Ha]; [done|]. apply list_elem_of_split in Ha as (l1 & l2 & El).
  exists l1, (l2 ++ [sid]). rw Hpush El -assoc. split; [done|]. rw El in Ho. set_solver.
Qed.

(** When the shell is polled and the keyboard task was ahead, it has run. *)
Lemma shell_poll_taken n x y : shell_poll x y → ahead n x → taken_upto n x.
Proof.
  intros Hs. destruct Hs as [k tq tq' acc Hp Hq Hpush]. intros [Ha|[Ha|(l1 & l2 & E & Hl)]]; simpl in *; [done..|].
  apply q_pop_some in Hq as [E' _]. rw E' in E. destruct l1 as [|i l1]; [simpl in E; congruence|]. injection E as <- _. set_solver.
Qed.

Lemma quiet_rtc promise n x y :
  (∀ l, promise l → promise (l ++ [kid])) → rtc quiet_step x y → sinv x → (n ≤ length x.2)%nat → waiting promise n x →
  sinv y ∧ (n ≤ length y.2)%nat ∧ waiting promise n y.
Proof.
  intros Hpr Hr. induction Hr as [x|x y z Hs _ IH]; intros Hi Hn HR; [done|].
  destruct (waiting_quiet _ _ _ _ Hpr Hn Hs Hi HR) as [? ?]. apply IH; [|done|done]. eapply sstep_inv; [by left|done].
Qed.

(** The scancodes queued so far only grow. *)
Lemma quiet_prefix x y : rtc quiet_step x y → x.2 `prefix_of` y.2.
Proof.
  induction 1 as [x|x y z Hs _ IH]; [done|]. etrans; [|exact IH].
  destruct Hs as [c k k' [] acc _|k k' acc _ _|k tq acc _ _]; simpl; [by apply prefix_app_r|done..].
Qed.

(** From boot, with both tasks spawned: [tq] is the executor's queue. *)
Definition spawned (tq : Q TaskId) : St := (Keyboard_init dec_new tq, []).

Lemma spawned_inv tq : q_items tq = [kid; sid] → sinv (spawned tq).
Proof.
  intros Hq. split; simpl; [split; simpl; try done|].
  - left. apply wk_new_ok.
  - intros _. left. rw /runnable /= Hq. set_solver.
  - by exists [].
  - rw Hq. exists [kid], []. set_solver.
Qed.

(** C15. Keys reach the shell by its next turn but one: whatever scancodes were queued
    at some moment [x], when the shell has been polled once after it and is about
    to be polled again, all of them have been decoded, in order, and the events
    put into the queue the programs read, however interrupts fell in between. *)
Theorem keys_reach_shell tq x x1 x2 x3 x4 :
  q_items tq = [kid; sid] → rtc sstep (spawned tq) x → rtc quiet_step x x1 → shell_poll x1 x2 → rtc quiet_step x2 x3 → shell_poll x3 x4 →
  ∃ more, (feed add_byte dec_new (x.2 ++ more)).1 = pushed x3.1.
Proof.
  intros Htq Hr Hq1 Hp1 Hq2 Hp2.
  assert (sinv x) as Hi by (by eapply sstep_rtc_inv; [|apply spawned_inv]).
  destruct (quiet_rtc (λ l, kid ∈ l) (length x.2) x x1) as (Hi1 & Hn1 & Ha1); [set_solver|done|done|done|by apply sinv_noticed|].
  assert (sinv x2) as Hi2 by (eapply sstep_inv; [by right|done]).
  assert (length x.2 ≤ length x2.2)%nat by by destruct Hp1.
  destruct (quiet_rtc (λ l, ∃ l1 l2, l = l1 ++ kid :: l2 ∧ sid ∉ l1) (length x.2) x2 x3) as (Hi3 & _ & Ha3);
    [|done|done|done|by eapply shell_poll_ahead|].
  { intros l (l1 & l2 & -> & Hl). exists l1, (l2 ++ [kid]). by rw -assoc. }
  destruct (shell_poll_taken _ _ _ Hp2 Ha3) as (taken & E & Hl).
  destruct (si_kinv _ Hi3) as [_ _ _ _ _ (taken' & E' & Hf)].
  assert (taken' = taken) as -> by (rw E in E'; by apply app_inv_tail in E').
  assert (x.2 `prefix_of` x3.2) as [rest Hrest].
  { etrans; [by apply quiet_prefix|]. etrans; [|by apply quiet_prefix]. by destruct Hp1. }
  rw E in Hrest. apply (f_equal (take (length x.2))) in Hrest as Ht.
  rw take_app_le // take_app_length in Ht. exists (drop (length x.2) taken). rw -{1}Ht take_drop. by rw Hf.
Qed.
End scheduling.

(** ** Witness *)

Definition lq (items : list TaskId) : ListQueue TaskId := {| lq_cap := 100; lq_items := items |}.

Definition demo_state (codes : list Z) (w : option TaskId) (ids : list TaskId) (p : Pc) (evs : list KeyEvent)
    : @Keyboard ListQueue (option TaskId) unit :=
  {| scancode_queue := Some {| lq_cap := 100; lq_items := codes |}; waker := w; task_queue := lq ids; pc := p;
     keyboard := tt; pushed := evs |}.

Definition key_event (c : Z) : KeyEvent := {| code := OtherKey c; state := Down |}.

(** A key is pressed while the keyboard task is parked and the shell queued: the
    shell runs first, then the keyboard task, then the shell again. *)
Lemma keys_reach_shell_witness :
  ∃ more, (feed demo_add_byte tt ([30] ++ more)).1 = pushed (demo_state [] (Some 0) [1] Parked [key_event 30]).
Proof.
  apply (keys_reach_shell tt demo_add_byte 0 1) with
    (tq := lq [0; 1]) (x := (demo_state [30] None [1; 0] Parked [], [30])) (x1 := (demo_state [30] None [1; 0] Parked [], [30]))
    (x2 := (demo_state [30] None [0; 1] Parked [], [30]))
    (x3 := (demo_state [] (Some 0) [1] Parked [key_event 30], [30]))
    (x4 := (demo_state [] (Some 0) [1] Parked [key_event 30], [30])).
  - done.
  - reflexivity.
  - eapply rtc_l; [left; by eapply q_polled|]. do 3 (eapply rtc_l; [left; by eapply q_task|]).
    eapply rtc_l; [left; by eapply q_task|]. eapply rtc_l; [left; by eapply (q_irq _ 0 30 _ _ true)|]. apply rtc_refl.
  - apply rtc_refl.
  - by eapply shell_polled.
  - eapply rtc_l; [by eapply q_polled|]. do 4 (eapply rtc_l; [by eapply q_task|]). apply rtc_refl.
  - by eapply shell_polled.
Defined.
