(* ===== verification/Pong.v ===== *)
(** * Pong: src/src/pong.rs

    The game draws on the VGA buffer and reads the key queue; its own state is
    the record [PongGame].  Arithmetic is on [isize] with overflow checks. *)

From S2P Require Import Prelude Device Str Vga VgaTheorems Editor Kernel LispEval.
#[local] Open Scope Z_scope.

Record PongGame := {
  ball_x : Z; ball_y : Z; dx : Z; dy : Z;
  paddle1_y : Z; paddle2_y : Z;
  w_pressed : bool; s_pressed : bool; up_pressed : bool; down_pressed : bool;
}.

Definition PongGame_new : PongGame := {|
  ball_x := 40; ball_y := 12; dx := 1; dy := 1; paddle1_y := 10; paddle2_y := 10;
  w_pressed := false; s_pressed := false; up_pressed := false; down_pressed := false;
|}.

Definition saturating_sub (a b : Z) : Z := Z.max isize_min (Z.min isize_max (a - b)).

(** A paddle under its two keys. *)
Definition move_paddle (y : Z) (up_key down_key : bool) : outcome Z :=
  let y := if up_key then saturating_sub y 1 else y in
  if down_key then
    if y <? 24 - 5 then chk_i (y + 1) else Done y
  else Done y.

(** [for offset in 0..5]: the cells of a paddle that are on the screen. *)
Definition draw_paddle (x y : Z) : proc Buffer unit :=
  for_each (λ offset,
    current_y ← lift (chk_i (y + offset));
    if (0 <=? current_y) && (current_y <? 25)
    then canvas_set_char x current_y 124 (ColorCode_new Cyan Black)
    else mret tt) (seqZ 0 5).

(** [(y - 4..y + 4).contains(&b)] *)
Definition in_paddle (y b : Z) : outcome bool :=
  lo ← chk_i (y - 4);
  hi ← chk_i (y + 4);
  Done ((lo <=? b) && (b <? hi)).

(** The new direction after a possible bounce off a paddle. *)
Definition bounce (lo hi x paddle y d : Z) (towards : bool) : outcome Z :=
  if (lo <=? x) && (x <? hi) then
    hit ← in_paddle paddle y;
    if hit && towards then chk_i (- d) else Done d
  else Done d.

Definition update (g : PongGame) : proc Buffer PongGame :=
  p1 ← lift (move_paddle (paddle1_y g) (w_pressed g) (s_pressed g));
  p2 ← lift (move_paddle (paddle2_y g) (up_pressed g) (down_pressed g));
  canvas_clear ;;
  draw_paddle 2 p1 ;;
  draw_paddle 76 p2 ;;
  canvas_set_char (wrap 64 (ball_x g)) (wrap 64 (ball_y g)) 79 (ColorCode_new White Black) ;;
  x ← lift (chk_i (ball_x g + dx g));
  y ← lift (chk_i (ball_y g + dy g));
  dy' ← lift (if (y <=? 0) || (24 <=? y) then chk_i (- dy g) else Done (dy g));
  dx1 ← lift (bounce 0 5 x p1 y (dx g) (dx g <? 0));
  dx2 ← lift (bounce 76 80 x p2 y dx1 (0 <? dx1));
  mret {| ball_x := x; ball_y := y; dx := dx2; dy := dy'; paddle1_y := p1; paddle2_y := p2;
          w_pressed := w_pressed g; s_pressed := s_pressed g;
          up_pressed := up_pressed g; down_pressed := down_pressed g |}.

(** ** The loop *)

Definition set_key (g : PongGame) (c : KeyCode) (pressed : bool) : PongGame :=
  {| ball_x := ball_x g; ball_y := ball_y g; dx := dx g; dy := dy g;
     paddle1_y := paddle1_y g; paddle2_y := paddle2_y g;
     w_pressed := match c with KeyW => pressed | _ => w_pressed g end;
     s_pressed := match c with KeyS => pressed | _ => s_pressed g end;
     up_pressed := match c with KeyO => pressed | _ => up_pressed g end;
     down_pressed := match c with KeyL => pressed | _ => down_pressed g end |}.

Section run.
Context {D : Type}.

Definition on_vga {A} (p : proc Buffer A) : proc (Kernel D) A := on_screen (on_writer (on_buffer p)).

(** [while let Some(key_event) = pop_key()]: [None] when Escape went down. *)
Fixpoint drain_keys (fuel : nat) (g : PongGame) : proc (Kernel D) (option PongGame) :=
  match fuel with
  | O => λ _, Hang
  | S fuel =>
    key ← pop_key;
    match key with
    | None => mret (Some g)
    | Some ev =>
      match code ev, state ev with
      | Escape, Down => mret None
      | c, Down => drain_keys fuel (set_key g c true)
      | c, Up => drain_keys fuel (set_key g c false)
      end
    end
  end.

(** One more than the keys in the queue. *)
Definition drain (g : PongGame) : proc (Kernel D) (option PongGame) :=
  k ← get_state; drain_keys (S (length (k_keys k))) g.

Definition game_over (msg : rstring) : proc (Kernel D) Success :=
  on_vga canvas_clear ;;
  mret {| success_code := msg; print_code := true |}.

(** The game ends by Escape or when the ball leaves; [wait] has no effect. *)
Fixpoint pong_run (fuel : nat) (g : PongGame) : proc (Kernel D) Success :=
  match fuel with
  | O => λ _, Hang
  | S fuel =>
    r ← drain g;
    match r with
    | None => game_over (str "Game Exited")
    | Some g =>
      g ← on_vga (update g);
      yield_now ;;
      if ball_x g <? 1 then game_over (str "player 2 wins!")
      else if 79 <? ball_x g then game_over (str "player 1 wins!")
      else pong_run fuel g
    end
  end.
End run.

(** ** The ball *)

(** The ball between the rows 0 and 24, moving diagonally, inwards at the top and
    bottom rows; the paddles at row [lo] or below it and not below row 19. *)
Record pong_inv (lo : Z) (g : PongGame) : Prop := {
  pi_y : 0 ≤ ball_y g ≤ 24;
  pi_dx : dx g = 1 ∨ dx g = -1;
  pi_dy : dy g = 1 ∨ dy g = -1;
  pi_top : ball_y g = 0 → dy g = 1;
  pi_bottom : ball_y g = 24 → dy g = -1;
  pi_p1 : lo ≤ paddle1_y g ≤ 19;
  pi_p2 : lo ≤ paddle2_y g ≤ 19;
}.

Lemma move_paddle_Done y u d :
  - 2 ^ 62 ≤ y ≤ 19 → ∃ y', move_paddle y u d = Done y' ∧ y - 1 ≤ y' ≤ 19 ∧
    y' = Z.min (if d then 19 else y) (y - (if u then 1 else 0) + (if d then 1 else 0)).
Proof.
  intros Hy. assert (saturating_sub y 1 = y - 1) as Hs by (rw /saturating_sub /isize_min /isize_max; lia).
  rw /move_paddle Hs. destruct u, d; try (eexists; split; [done|lia]).
  all: match goal with |- context [?a <? ?b] => destruct (Z.ltb_spec a b) end.
  all: try (rw chk_i_Done; [rw /isize_min /isize_max; lia|]); eexists; (split; [done|lia]).
Qed.

Lemma canvas_set_run b x y c col :
  wf_buffer b → 0 ≤ x → 0 ≤ y → runs (canvas_set_char x y c col) b (λ _ b', wf_buffer b').
Proof.
  intros Hb Hx Hy. rw /canvas_set_char. destruct (Z.ltb_spec x 80), (Z.ltb_spec y 25); simpl;
    try by apply runs_ret.
  destruct (wf_row b (Z.to_nat y) Hb) as (row & Hr & Hl); [lia|].
  pose proof (cell_write_run b (Z.to_nat y) (Z.to_nat x) row
    {| ascii_character := c; color_code := col |} Hr ltac:(lia)) as Hw.
  rw !Z2Nat.id in Hw; [done..|]. eapply runs_mono; [exact Hw|]. intros [] b' ->.
  apply wf_insert; [done|]. by rw length_insert.
Qed.

Lemma draw_paddle_run b x y :
  wf_buffer b → 0 ≤ x → - 2 ^ 62 ≤ y ≤ 19 → runs (draw_paddle x y) b (λ _ b', wf_buffer b').
Proof.
  intros Hb Hx Hy. apply (runs_for_each (λ _ b', wf_buffer b')); [done|].
  intros dn o rest b1 [-> Ho]%seqZ_split_at Hb1.
  rlift; [apply chk_i_Done; rw /isize_min /isize_max; lia|].
  destruct (Z.leb_spec 0 (y + (0 + zlen dn))), (Z.ltb_spec (y + (0 + zlen dn)) 25); simpl;
    try by apply runs_ret.
  by apply canvas_set_run.
Qed.

Lemma in_paddle_Done y b : - 2 ^ 62 - 1 ≤ y ≤ 19 → ∃ h, in_paddle y b = Done h.
Proof.
  intros Hy. rw /in_paddle. rw chk_i_Done; [rw /isize_min /isize_max; lia|].
  simpl. rw chk_i_Done; [rw /isize_min /isize_max; lia|]. by eexists.
Qed.

Lemma bounce_Done lo hi x p y d t :
  - 2 ^ 62 - 1 ≤ p ≤ 19 → d = 1 ∨ d = -1 →
  ∃ d', bounce lo hi x p y d t = Done d' ∧ (d' = 1 ∨ d' = -1).
Proof.
  intros Hp Hd. rw /bounce. destruct (_ && _); [|by exists d].
  destruct (in_paddle_Done p y Hp) as [h ->]. simpl. destruct (h && t); [|by exists d].
  rw chk_i_Done; [rw /isize_min /isize_max; lia|]. exists (- d). split; [done|lia].
Qed.

(** One frame. *)
Lemma update_run lo g b :
  wf_buffer b → 0 ≤ ball_x g ≤ 80 → - 2 ^ 62 < lo → pong_inv lo g →
  runs (update g) b (λ g' b', wf_buffer b' ∧ ball_x g' = ball_x g + dx g ∧ pong_inv (lo - 1) g').
Proof.
  intros Hb Hx Hlo [Hy Hdx Hdy Ht Hbt H1 H2]. rw /update.
  destruct (move_paddle_Done (paddle1_y g) (w_pressed g) (s_pressed g)) as (p1 & E1 & Hp1 & _); [lia|].
  destruct (move_paddle_Done (paddle2_y g) (up_pressed g) (down_pressed g)) as (p2 & E2 & Hp2 & _); [lia|].
  rlift; [exact E1|]. rlift; [exact E2|].
  rbind. eapply runs_mono; [by apply canvas_clear_run|]. intros [] b1 ->.
  assert (wf_buffer (replicate 25 (blank_row 0))) as Hb1.
  { split; [done|]. by apply Forall_replicate. }
  rbind. eapply runs_mono; [apply draw_paddle_run; [done|lia..]|]. intros [] b2 Hb2.
  rbind. eapply runs_mono; [apply draw_paddle_run; [done|lia..]|]. intros [] b3 Hb3.
  rbind. eapply runs_mono; [apply canvas_set_run; [done|rw /wrap; apply Z.mod_pos_bound; lia..]|].
  intros [] b4 Hb4.
  rlift; [apply chk_i_Done; rw /isize_min /isize_max; lia|].
  rlift; [apply chk_i_Done; rw /isize_min /isize_max; lia|].
  assert (∃ dy', (if (ball_y g + dy g <=? 0) || (24 <=? ball_y g + dy g) then chk_i (- dy g) else Done (dy g)) =
    Done dy' ∧ dy' = if (ball_y g + dy g <=? 0) || (24 <=? ball_y g + dy g) then - dy g else dy g) as (dy' & Ed & Hd).
  { destruct (_ || _); [|by eexists]. rw chk_i_Done; [rw /isize_min /isize_max; lia|]. by eexists. }
  rlift; [exact Ed|].
  destruct (bounce_Done 0 5 (ball_x g + dx g) p1 (ball_y g + dy g) (dx g) (dx g <? 0)) as (d1 & Eb1 & Hd1);
    [lia|done|].
  rlift; [exact Eb1|].
  destruct (bounce_Done 76 80 (ball_x g + dx g) p2 (ball_y g + dy g) d1 (0 <? d1)) as (d2 & Eb2 & Hd2);
    [lia|done|].
  rlift; [exact Eb2|]. apply runs_ret. split; [done|]. split; [done|].
  revert Hd. destruct (Z.leb_spec (ball_y g + dy g) 0), (Z.leb_spec 24 (ball_y g + dy g)); simpl; intros ->;
    split; simpl; lia.
Qed.

(** ** Games *)

Section games.
Context {D : Type}.
Implicit Types (k : Kernel D).

Definition screen_ok k : Prop := wf_writer (WRITER (k_screen k)).

Lemma on_vga_run {A} (p : proc Buffer A) k Q :
  runs p (buffer (WRITER (k_screen k))) (λ a b, wf_buffer b ∧ ∀ k', screen_ok k' →
    k' = set_screen k {| WRITER := with_buffer (WRITER (k_screen k)) b;
                         crtc_writes := crtc_writes (k_screen k) |} → Q a k') →
  screen_ok k → runs (on_vga p) k Q.
Proof.
  intros Hp [Hc Hb]. apply on_part_run, on_writer_run, on_buffer_run. eapply runs_mono; [exact Hp|].
  intros a b [Hwb HQ]. apply HQ; [|done]. by split.
Qed.

(** Not the key that ends the game. *)
Definition not_escape (ev : KeyEvent) : Prop := code ev ≠ Escape ∨ state ev ≠ Down.

Lemma drain_keys_run fuel g k lo :
  screen_ok k → pong_inv lo g → (length (k_keys k) < fuel)%nat →
  runs (drain_keys fuel g) k (λ r k', screen_ok k' ∧ k_screen k' = k_screen k ∧ k_arrivals k' = k_arrivals k ∧
    ∀ g', r = Some g' → pong_inv lo g' ∧ ball_x g' = ball_x g ∧ dx g' = dx g ∧
                        k_keys k' = [] ∧ Forall not_escape (k_keys k)).
Proof.
  intros Hs. revert g k Hs. induction fuel as [|fuel IH]; intros g k Hs Hg Hf; [lia|]. simpl.
  rbind. rw {1}/runs /pop_key. destruct (k_keys k) as [|ev q] eqn:Eq.
  { apply runs_ret. split_and!; try done. intros g' [= <-]. by split_and!. }
  simpl in Hf.
  assert (∀ c p, pong_inv lo (set_key g c p)) as Hk by (intros; by destruct Hg; split).
  assert (∀ c p, not_escape ev → runs (drain_keys fuel (set_key g c p)) (set_keys k q (k_arrivals k)) (λ r k',
    screen_ok k' ∧ k_screen k' = k_screen k ∧ k_arrivals k' = k_arrivals k ∧
    ∀ g', r = Some g' → pong_inv lo g' ∧ ball_x g' = ball_x g ∧ dx g' = dx g ∧
                        k_keys k' = [] ∧ Forall not_escape (ev :: q))) as Hrec.
  { intros c p Hne. eapply runs_mono.
    { apply (IH (set_key g c p) (set_keys k q (k_arrivals k))); [done|apply Hk|simpl; lia]. }
    intros r k' (? & ? & ? & Hr). split_and!; try done. intros g' Hg'.
    destruct (Hr g' Hg') as (? & ? & ? & ? & ?). split_and!; try done. by constructor. }
  destruct (code ev) eqn:Ec, (state ev) eqn:Es; try (apply Hrec; rw /not_escape Ec Es; by (left + right)).
  apply runs_ret. by split_and!.
Qed.

(** How a game can end. *)
Definition pong_result (s : Success) : Prop :=
  print_code s = true ∧
  (success_code s = str "Game Exited" ∨ success_code s = str "player 1 wins!" ∨
   success_code s = str "player 2 wins!").

Lemma game_over_run msg k :
  screen_ok k → runs (game_over msg) k (λ s k', s = {| success_code := msg; print_code := true |} ∧
    buffer (WRITER (k_screen k')) = replicate 25 (blank_row 0)).
Proof.
  intros Hs. rbind. apply on_vga_run; [|done]. eapply runs_mono; [apply canvas_clear_run, Hs|].
  intros [] b ->. split; [split; [done|by apply Forall_replicate]|]. intros k' Hk' ->. by apply runs_ret.
Qed.

(** C31. Pong is safe: from a start position, for every sequence of key arrivals and
    any number of frames below [2 ^ 61], the game never panics; it ends with one
    of its three results and a blank screen, unless the frames run out before the
    arrivals do or Escape never goes down. *)
Theorem pong_safe fuel k :
  screen_ok k → Z.of_nat fuel < 2 ^ 61 →
  match pong_run fuel PongGame_new k with
  | Done (s, k') => pong_result s ∧ buffer (WRITER (k_screen k')) = replicate 25 (blank_row 0)
  | Panic _ => False
  | Hang => (fuel ≤ length (k_arrivals k))%nat ∨ Forall not_escape (k_keys k ++ mjoin (k_arrivals k))
  end.
Proof.
  intros Hs Hf. assert (∀ fuel g k lo, screen_ok k → pong_inv lo g → 1 ≤ ball_x g ≤ 79 →
    - 2 ^ 61 + Z.of_nat fuel ≤ lo →
    match pong_run fuel g k with
    | Done (s, k') => pong_result s ∧ buffer (WRITER (k_screen k')) = replicate 25 (blank_row 0)
    | Panic _ => False
    | Hang => (fuel ≤ length (k_arrivals k))%nat ∨ Forall not_escape (k_keys k ++ mjoin (k_arrivals k))
    end) as Hall; [|apply (Hall fuel PongGame_new k 10); try done; simpl; [by split; simpl; lia|lia..]].
  clear fuel k Hs Hf. induction fuel as [|fuel IH]; intros g k lo Hs Hg Hx Hlo; [left; simpl; lia|]. cbn [pong_run].
  rw {1}/mbind /proc_bind /drain /mbind /proc_bind /get_state.
  pose proof (drain_keys_run (S (length (k_keys k))) g k lo Hs Hg ltac:(lia)) as Hd. rw /runs in Hd.
  destruct (drain_keys _ g k) as [[[g1|] k1]| |]; [| |done..]; destruct Hd as (Hs1 & _ & Ha1 & Hg1).
  2:{ pose proof (game_over_run (str "Game Exited") k1 Hs1) as Ho. rw /runs in Ho.
      destruct (game_over _ k1) as [[s k2]| |]; [|done..]. destruct Ho as [-> ?]. split; [|done]. by split; [|left]. }
  destruct (Hg1 g1 eq_refl) as (Hi1 & Hx1 & Hdx1 & Hq1 & Hne). rw /mbind /proc_bind.
  assert (runs (on_vga (update g1)) k1 (λ g2 k2, screen_ok k2 ∧ ball_x g2 = ball_x g1 + dx g1 ∧
    pong_inv (lo - 1) g2 ∧ k_keys k2 = [] ∧ k_arrivals k2 = k_arrivals k)) as Hu.
  { apply on_vga_run; [|done]. eapply runs_mono; [eapply (update_run lo); [apply Hs1|lia|lia|done]|].
    intros g2 b (Hb & Hx2 & Hi2). split; [done|]. intros k' Hk' ->. by split_and!. }
  rw /runs in Hu. destruct (on_vga (update g1) k1) as [[g2 k2]| |]; [|done..].
  destruct Hu as (Hs2 & Hx2 & Hi2 & Hq2 & Ha2). pose proof (pi_dx _ _ Hi1) as Hdx. rw /yield_now Ha2.
  destruct (k_arrivals k) as [|batch rest]; [right; by rw app_nil_r|].
  set (k3 := set_keys k2 (k_keys k2 ++ batch) rest). assert (screen_ok k3) as Hs3 by done.
  destruct (Z.ltb_spec (ball_x g2) 1); [|destruct (Z.ltb_spec 79 (ball_x g2))].
  - pose proof (game_over_run (str "player 2 wins!") k3 Hs3) as Ho. rw /runs in Ho.
    destruct (game_over _ k3) as [[s k4]| |]; [|done..]. destruct Ho as [-> ?]. split; [|done]. by split; [|right; right].
  - pose proof (game_over_run (str "player 1 wins!") k3 Hs3) as Ho. rw /runs in Ho.
    destruct (game_over _ k3) as [[s k4]| |]; [|done..]. destruct Ho as [-> ?]. split; [|done]. by split; [|right; left].
  - specialize (IH g2 k3 (lo - 1) Hs3 Hi2 ltac:(lia) ltac:(lia)).
    destruct (pong_run fuel g2 k3) as [[s k4]| |]; [done..|]. destruct IH as [Hl|Hn].
    + left. simpl in Hl |- *. lia.
    + right. apply Forall_app; split; [done|]. by rw /= Hq2 in Hn.
Qed.
End games.

(** A held key drives the paddle off the screen: after [n] frames with the up
    key down the paddle of a new game is at row [10 - n], so from the 15th frame
    on no cell of it is visible. *)
Theorem paddle_leaves_screen (n : nat) :
  Z.of_nat n < 2 ^ 61 →
  Nat.iter n (λ o, y ← o; move_paddle y true false) (Done (paddle1_y PongGame_new)) = Done (10 - Z.of_nat n).
Proof.
  induction n as [|n IH]; intros Hn; [done|]. rw Nat.iter_succ IH; [lia|]. obind; [done|].
  destruct (move_paddle_Done (10 - Z.of_nat n) true false) as (y & -> & _ & ->); [lia|]. f_equal. lia.
Qed.

(** ** Witnesses *)

Definition pong_kernel : Kernel unit :=
  {| k_dev := tt; k_screen := boot_screen; k_fs := None; k_shell := Shell.SHELL_init; k_keys := [];
     k_arrivals := [[]; [{| code := Escape; state := Down |}]]; k_pending := false;
     k_launch_pong := false; k_commands := [] |}.

Lemma pong_safe_witness :
  match pong_run 3 PongGame_new pong_kernel with
  | Done (s, k') => pong_result s ∧ buffer (WRITER (k_screen k')) = replicate 25 (blank_row 0)
  | Panic _ => False
  | Hang => (3 ≤ length (k_arrivals pong_kernel))%nat ∨
            Forall not_escape (k_keys pong_kernel ++ mjoin (k_arrivals pong_kernel))
  end.
Proof.
  apply (pong_safe 3 pong_kernel).
  - exact boot_wf.
  - done.
Defined.

Lemma paddle_leaves_screen_witness :
  Nat.iter 15 (λ o, y ← o; move_paddle y true false) (Done (paddle1_y PongGame_new)) = Done (-5).
Proof. apply (paddle_leaves_screen 15). done. Defined.
