(* ===== verification/Commands.v ===== *)
(** * The commands and the editor session: src/src/commands.rs, src/src/editor/mod.rs,
    src/src/power.rs

    One definition per command function, and [run_editor] with its key loop.  The
    keyboard decoder is the third-party crate [pc_keyboard]: its state and
    [process_keyevent] are parameters.  The loops that wait for keys take fuel. *)

From S2P Require Import Prelude Device Str Fat16 Vga Editor Float64 BTreeMap Lisp LispEval Shell Kernel Pong.
#[local] Open Scope Z_scope.

(** ** Strings *)

(** The length of the ill-formed prefix that [from_utf8_lossy] replaces by one
    replacement character. *)
Definition bad_prefix (l : list Z) : nat :=
  match l with
  | b0 :: b1 :: r =>
    let between lo hi := (lo <=? b1) && (b1 <=? hi) in
    if (0xE0 <=? b0) && (b0 <=? 0xEF) then
      if between (if b0 =? 0xE0 then 0xA0 else 0x80) (if b0 =? 0xED then 0x9F else 0xBF) then 2%nat else 1%nat
    else if (0xF0 <=? b0) && (b0 <=? 0xF4) then
      if between (if b0 =? 0xF0 then 0x90 else 0x80) (if b0 =? 0xF4 then 0x8F else 0xBF) then
        match r with b2 :: _ => if is_cont b2 then 3%nat else 2%nat | [] => 2%nat end
      else 1%nat
    else 1%nat
  | _ => 1%nat
  end.

Fixpoint utf8_lossy_fuel (fuel : nat) (l : list Z) : rstring :=
  match fuel, l with
  | S fuel, _ :: _ =>
    match utf8_step l with
    | Some (c, r) => c :: utf8_lossy_fuel fuel r
    | None => 0xFFFD :: utf8_lossy_fuel fuel (drop (bad_prefix l) l)
    end
  | _, _ => []
  end.
Definition utf8_lossy (l : list Z) : rstring := utf8_lossy_fuel (length l) l.

(** [trim_matches('\0')] *)
Fixpoint trim_start (s : rstring) : rstring :=
  match s with c :: r => if c =? 0 then trim_start r else s | [] => [] end.
Definition trim_nul (s : rstring) : rstring := reverse (trim_start (reverse (trim_start s))).

(** [str::parse::<u32>] *)
Definition parse_u32 (s : rstring) : option Z :=
  let body := match s with 43 :: r => r | _ => s end in
  let '(v, n, rest) := take_digits body 0 0 in
  match rest with
  | [] => if (0 <? n) && (v <? 2 ^ 32) then Some v else None
  | _ => None
  end.

(** [s.find('.')] with the two halves. *)
Fixpoint split_dot (s : rstring) : option (rstring * rstring) :=
  match s with
  | [] => None
  | c :: r => if c =? DOT then Some ([], r)
              else '(a, b) ← split_dot r; Some (c :: a, b)
  end.

(** ** Names *)

Definition resolve_name_ext (args : list rstring) (idx : nat) : option (rstring * rstring * nat) :=
  first ← args !! idx;
  match split_dot first with
  | Some (name, ext) => Some (name, ext, S idx)
  | None => ext ← args !! S idx; Some (first, ext, S (S idx))
  end.

(** The bytes the commands make of a name: upper-cased, cut or padded. *)
Definition fat_name (n : nat) (s : rstring) : list Z :=
  let bytes := utf8_encode (to_ascii_uppercase s) in
  take n bytes ++ drop (length (take n bytes)) (replicate n 0x20).

Definition args_text (args : list rstring) (idx : nat) : rstring := join [SPACE] (drop idx args).

Section commands.
Context {D : Type} `{!BlockDevice D}.
Context {Kbd : Type} (kbd_new : Kbd) (process_keyevent : Kbd → KeyEvent → option DecodedKey * Kbd).
Notation K := (Kernel D).

(** A computation that does not come back. *)
Definition never {A} : proc K A := λ _, Hang.

Definition get_fs : proc K (option Fat16FileSystem) := λ k, Done (k_fs k, k).
Definition succeed (msg : rstring) (p : bool) : proc K (result Success rstring) :=
  mret (Ok {| success_code := msg; print_code := p |}).
Definition cmd_err (msg : rstring) : proc K (result Success rstring) := mret (Err msg).

(** ** Files *)

Definition cat_file (args : list rstring) : proc K (result Success rstring) :=
  match resolve_name_ext args 1 with
  | None => cmd_err (str "Usage: cat <NAME.EXT | NAME EXT>")
  | Some (name_str, ext_str, _) =>
    mount ← get_fs;
    match mount with
    | None => cmd_err (str "File system not mounted!")
    | Some fs =>
      found ← find_file fs (fat_name 8 name_str) (fat_name 3 ext_str);
      match found with
      | None => cmd_err (str "File " ++ name_str ++ str "." ++ ext_str ++ str " not found")
      | Some entry =>
        file_data ← read_file fs entry;
        match utf8_decode file_data with
        | None => cmd_err (str "File contains invalid UTF-8 (might be a binary file)")
        | Some text =>
          println (str "--- " ++ name_str ++ str " ---") ;;
          println text ;;
          println (str "------------") ;;
          succeed (str "File read successfully") false
        end
      end
    end
  end.

Definition make_file (args : list rstring) : proc K (result Success rstring) :=
  let usage := cmd_err (str "Usage: mkdir <NAME.EXT | NAME EXT> <data to write>") in
  match resolve_name_ext args 1 with
  | None => usage
  | Some (name_str, ext_str, next_idx) =>
    if (length args <=? next_idx)%nat then usage
    else
      let data_bytes := utf8_encode (args_text args next_idx) in
      mount ← get_fs;
      match mount with
      | None => cmd_err (str "File system not mounted! Did you run fs::init()?")
      | Some fs =>
        r ← write_new_file fs (fat_name 8 name_str) (fat_name 3 ext_str) data_bytes;
        match r with
        | Ok _ => succeed (str "Created " ++ name_str ++ str "." ++ ext_str ++ str " (" ++
                           show_nat (zlen data_bytes) ++ str " bytes)") true
        | Err e => cmd_err (str "FS Error: " ++ str e)
        end
      end
  end.

Definition edit_file (args : list rstring) : proc K (result Success rstring) :=
  let usage := cmd_err (str "Usage: edit <NAME.EXT | NAME EXT> <data>") in
  match resolve_name_ext args 1 with
  | None => usage
  | Some (name_str, ext_str, next_idx) =>
    if (length args <=? next_idx)%nat then usage
    else
      let data := args_text args next_idx in
      mount ← get_fs;
      match mount with
      | None => cmd_err (str "File system not mounted!")
      | Some fs =>
        r ← overwrite_file fs (fat_name 8 name_str) (fat_name 3 ext_str) (utf8_encode data);
        match r with
        | Ok _ => succeed (str "Worked") false
        | Err e => cmd_err (str e)
        end
      end
  end.

Definition format_disk : proc K (result Success rstring) :=
  r ← format_drive;
  match r with
  | Ok _ => succeed (str "format worked!") true
  | Err _ => cmd_err (str "failed to format!")
  end.

(** ** Sectors *)

Definition read_as_string (args : list rstring) : proc K (result Success rstring) :=
  match args with
  | [_; n] =>
    match parse_u32 n with
    | None => cmd_err (str "needs a number")
    | Some loc =>
      buffer ← read_sector loc;
      match utf8_decode buffer with
      | None => λ _, Panic (PExpect "called `Result::unwrap()` on an `Err` value")
      | Some text => println (trim_nul text) ;; succeed (str "Worked") false
      end
    end
  | _ => cmd_err (str "Needs 2 parameters")
  end.

Definition read_cmd (args : list rstring) : proc K (result Success rstring) :=
  match args with
  | [_; n] =>
    match parse_u32 n with
    | None => cmd_err (str "needs a number")
    | Some loc =>
      res ← read_sector loc;
      for_each (λ b, print (show_nat b ++ [SPACE])) res ;;
      succeed (str "worked") false
    end
  | _ => cmd_err (str "Needs 2 parameters")
  end.

Definition write_cmd (args : list rstring) : proc K (result Success rstring) :=
  match args with
  | _ :: n :: _ :: _ =>
    match parse_u32 n with
    | None => cmd_err (str "Sector index must be a valid u32 number")
    | Some loc =>
      let data_bytes := utf8_encode (args_text args 2) in
      if 512 <? zlen data_bytes
      then cmd_err (str "Data too large: " ++ show_nat (zlen data_bytes) ++ str " bytes (max 512)")
      else
        buffer ← lift (copy_at zero_sector 0 data_bytes);
        write_sector_bytes loc buffer ;;
        succeed (str "Sector written successfully") false
    end
  | _ => cmd_err (str "Usage: write <sector_index> <string_data>")
  end.

(** ** Screen, history, power *)

Definition clear_cmd : proc K (result Success rstring) :=
  on_screen (on_writer writer_clear) ;; succeed (str "worked") false.

Definition history_cmd : proc K (result Success rstring) :=
  k ← get_state;
  shell_history (k_shell k) ;;
  succeed (str "worked") false.

Definition echo_cmd (args : list rstring) : proc K (result Success rstring) :=
  if (length args <? 2)%nat then cmd_err (str "Not enough arguments!")
  else println (args_text args 1) ;; succeed (str "worked") false.

(** [power::shutdown] as on hardware that ignores the power-off ports: flush the
    drive, print the last line, halt for good.  The file Power.v has the ports. *)
Definition shutdown {A} : proc K A :=
  flush_cache ;;
  println (str "It is now safe to power off your computer.") ;;
  never.

Definition quit_cmd : proc K (result Success rstring) :=
  println (str "Shutting down...") ;;
  shutdown.

Definition set_pong_flag (b : bool) : proc K unit := λ k, Done (tt, set_launch_pong k b).

Definition pong_cmd (fuel : nat) : proc K (result Success rstring) :=
  set_pong_flag true ;;
  s ← pong_run fuel PongGame_new;
  set_pong_flag false ;;
  mret (Ok s).

(** ** The editor session *)

(** The trait the editor draws on. *)
Class TerminalDevice (T : Type) := {
  dimensions : Z * Z;
  put_char : Z → Z → Z → proc T unit;
  move_cursor : Z → Z → proc T unit;
  terminal_clear : proc T unit;
}.

#[export] Instance VgaTerminal : TerminalDevice Screen := {|
  dimensions := (80, 25);
  put_char x y c := write_char_at x y (as_u8 c) 0x0F;
  move_cursor := update_cursor;
  terminal_clear := clear_screen;
|}.

Definition editor_draw {T} `{!TerminalDevice T} (e : Editor) : proc T unit :=
  terminal_clear ;;
  for_each (λ '(y, line),
    for_each (λ '(x, c), put_char x y c) (zip (seqZ 0 (zlen line)) line))
    (zip (seqZ 0 (zlen (lines e))) (lines e)) ;;
  move_cursor (cursor_x e) (cursor_y e).

(** The name and extension [run_editor] takes from its arguments. *)
Definition editor_name (args : list rstring) : rstring * rstring :=
  match args !! 1%nat with
  | None => (str "UNNAMED", str "TXT")
  | Some tok =>
    match split_dot tok with
    | Some ne => ne
    | None => (tok, default (str "TXT") (args !! 2%nat))
    end
  end.

Definition load_text (name ext : list Z) : proc K rstring :=
  mount ← get_fs;
  match mount with
  | None => mret []
  | Some fs =>
    found ← find_file fs name ext;
    match found with
    | None => mret []
    | Some entry => bytes ← read_file fs entry; mret (utf8_lossy bytes)
    end
  end.

(** Escape: clear the screen and save; the outcome of the save is dropped. *)
Definition save_text (name ext : list Z) (e : Editor) : proc K unit :=
  on_screen clear_screen ;;
  mount ← get_fs;
  match mount with
  | None => mret tt
  | Some fs =>
    let bytes := utf8_encode (editor_text e) in
    found ← find_file fs name ext;
    match found with
    | Some _ => overwrite_file fs name ext bytes ;; mret tt
    | None => write_new_file fs name ext bytes ;; mret tt
    end
  end.

(** [while let Some(key_event) = pop_key()]: [None] after Escape, otherwise the
    new state and whether to redraw. *)
Fixpoint editor_drain (fuel : nat) (name ext : list Z) (kbd : Kbd) (e : Editor) (redraw : bool)
    : proc K (option (Kbd * Editor * bool)) :=
  match fuel with
  | O => λ _, Hang
  | S fuel =>
    ev ← pop_key;
    match ev with
    | None => mret (Some (kbd, e, redraw))
    | Some key_event =>
      let '(key, kbd) := process_keyevent kbd key_event in
      match key with
      | None => editor_drain fuel name ext kbd e redraw
      | Some key =>
        if decide (key = Unicode ESC) then save_text name ext e ;; mret None
        else e ← lift (editor_key e key); editor_drain fuel name ext kbd e true
      end
    end
  end.

Fixpoint editor_loop (fuel : nat) (name ext : list Z) (kbd : Kbd) (e : Editor) : proc K unit :=
  match fuel with
  | O => λ _, Hang
  | S fuel =>
    k ← get_state;
    r ← editor_drain (S (length (k_keys k))) name ext kbd e false;
    match r with
    | None => mret tt
    | Some (kbd, e, redraw) =>
      (if redraw : bool then on_screen (editor_draw e) else mret tt) ;;
      yield_now ;;
      editor_loop fuel name ext kbd e
    end
  end.

Definition run_editor (fuel : nat) (args : list rstring) : proc K unit :=
  let '(name_arg, ext_arg) := editor_name args in
  let '(name, ext) := format_fat16_name name_arg ext_arg in
  initial_data ← load_text name ext;
  let editor := Editor_new initial_data in
  on_screen (editor_draw editor) ;;
  editor_loop fuel name ext kbd_new editor.

Definition run_edit (fuel : nat) (args : list rstring) : proc K (result Success rstring) :=
  run_editor fuel args ;; succeed (str "Worked") false.
End commands.
