(* ===== verification/Machine.v ===== *)
(** * The command table, the shell task and the boot sequence

    src/src/commands.rs ([init_cmds], [run_cmd], [bind], [run], [parse],
    [shell_task]) and src/src/main.rs ([kernel_main]). *)

From S2P Require Import Prelude Device Str Fat16 Vga Editor Float64 BTreeMap Lisp LispEval Shell Kernel Pong.
From S2P Require Import Commands.
#[local] Open Scope Z_scope.

Section machine.
Context {D : Type} `{!BlockDevice D}.
Context {Kbd : Type} (kbd_new : Kbd) (process_keyevent : Kbd → KeyEvent → option DecodedKey * Kbd).
Notation K := (Kernel D).

(** ** The table *)

Definition builtin_commands : list (rstring * Command) :=
  [ (str "pong", CPong); (str "clear", CClear); (str "history", CHistory); (str "echo", CEcho);
    (str "parse", CParse); (str "bind", CBind); (str "read", CRead); (str "write", CWrite);
    (str "show", CShow); (str "formatd", CFormatd); (str "mkdir", CMkdir); (str "cat", CCat);
    (str "run", CRun); (str "edit", CEdit); (str "eden", CEden); (str "quit", CQuit) ].

Definition init_cmds : proc K unit := λ k,
  Done (tt, set_commands k (foldl (λ m '(n, c), bt_insert n c m) (k_commands k) builtin_commands)).

Definition get_command_list : proc K (list rstring) := λ k, Done (bt_keys (k_commands k), k).

Definition bind_cmd (args : list rstring) : proc K (result Success rstring) := λ k,
  match args with
  | _ :: command_name :: _ :: _ =>
    Done (Ok {| success_code := str "Bound successfully"; print_code := false |},
          set_commands k (bt_insert command_name (CBound (args_text args 2)) (k_commands k)))
  | _ => Done (Err (str "invalid number of args"), k)
  end.

(** ** Programs *)

Section programs.
(** The interpreter the program commands call. *)
Context (interpret : list rstring → proc K (result Success rstring)).

Definition parse_cmd (args : list rstring) : proc K (result Success rstring) :=
  match args with
  | c :: _ :: _ => interpret [c; args_text args 1]
  | _ => cmd_err (str "expected at least two params")
  end.

Definition run_file (args : list rstring) : proc K (result Success rstring) :=
  match resolve_name_ext args 1 with
  | None => cmd_err (str "Usage: run <NAME.EXT | NAME EXT> [args...]")
  | Some (name_str, ext_str, next_idx) =>
    mount ← get_fs;
    match mount with
    | None => cmd_err (str "File system not mounted!")
    | Some fs =>
      found ← find_file fs (fat_name 8 name_str) (fat_name 3 ext_str);
      match found with
      | None => cmd_err (str "Script " ++ name_str ++ str "." ++ ext_str ++ str " not found")
      | Some entry =>
        file_data ← read_file fs entry;
        match utf8_decode file_data with
        | None => cmd_err (str "Script contains invalid text formatting")
        | Some text => interpret (str "exec" :: trim_nul text :: drop next_idx args)
        end
      end
    end
  end.

(** The closure [bind] registers. *)
Definition run_bound (lisp_code : rstring) (runtime_args : list rstring) : proc K (result Success rstring) :=
  interpret (str "exec" :: lisp_code :: drop 1 runtime_args).
End programs.

(** One command; [fuel] bounds the interactive loops. *)
Definition exec_command (fuel : nat) (interpret : list rstring → proc K (result Success rstring))
    (c : Command) (args : list rstring) : proc K (result Success rstring) :=
  match c with
  | CPong => pong_cmd fuel
  | CClear => clear_cmd
  | CHistory => history_cmd
  | CEcho => echo_cmd args
  | CParse => parse_cmd interpret args
  | CBind => bind_cmd args
  | CRead => read_cmd args
  | CWrite => write_cmd args
  | CShow => read_as_string args
  | CFormatd => format_disk
  | CMkdir => make_file args
  | CCat => cat_file args
  | CRun => run_file interpret args
  | CEdit => edit_file args
  | CEden => run_edit kbd_new process_keyevent fuel args
  | CQuit => quit_cmd
  | CBound lisp_code => run_bound interpret lisp_code args
  end.

(** [run_cmd] and, when the command is found, its future. *)
Fixpoint run_cmd (fuel : nat) (cmd : list rstring) : proc K CmdResult :=
  match cmd with
  | [] => mret (CmdOk {| success_code := []; print_code := false |})
  | name :: _ => λ k,
    match bt_get name (k_commands k) with
    | None => Done (LookupFailed (str "'" ++ name ++ str "' command not found"), k)
    | Some c =>
      match fuel with
      | O => Hang
      | S fuel =>
        match exec_command fuel (interpret (run_cmd fuel) get_command_list fuel) c cmd k with
        | Done (Ok s, k) => Done (CmdOk s, k)
        | Done (Err e, k) => Done (CmdFailed e, k)
        | Panic p => Panic p
        | Hang => Hang
        end
      end
    end
  end.

(** ** The shell task *)

(** [COMMAND_PENDING.store(true)] *)
Definition mark_pending : proc K unit := λ k, Done (tt, set_pending k true).

(** One key: backspace, Enter or a character. *)
Definition shell_key (key : DecodedKey) : proc K unit :=
  match key with
  | Unicode c =>
    if c =? BACKSPACE then on_screen Vga.backspace ;; on_shell shell_backspace
    else if c =? LF then print [LF] ;; mark_pending
    else print [c] ;; on_shell (λ sh, shell_add sh (as_u8 c))
  | RawKey _ => mret tt
  end.

Fixpoint shell_drain (fuel : nat) (kbd : Kbd) : proc K Kbd :=
  match fuel with
  | O => λ _, Hang
  | S fuel =>
    ev ← pop_key;
    match ev with
    | None => mret kbd
    | Some key_event =>
      let '(key, kbd) := process_keyevent kbd key_event in
      match key with
      | None => shell_drain fuel kbd
      | Some key => shell_key key ;; shell_drain fuel kbd
      end
    end
  end.

(** [COMMAND_PENDING.swap(false)], then the pending line. *)
Definition take_pending : proc K (option (option (list rstring))) := λ k,
  if k_pending k then
    Done (Some (getcmd (k_shell k)), set_shell (set_pending k false) (shell_clear (k_shell k)))
  else Done (None, k).

(** [cmd_vec[0].trim().is_empty()] *)
Definition all_space (s : rstring) : bool := forallb is_whitespace s.

Definition report (r : CmdResult) : proc K unit :=
  match r with
  | CmdOk s => if print_code s then println (success_code s) else mret tt
  | CmdFailed e | LookupFailed e => println (str "Error: " ++ e)
  end.

Definition shell_exec (fuel : nat) : proc K unit :=
  p ← take_pending;
  match p with
  | None => mret tt
  | Some cmd_opt =>
    match cmd_opt with
    | Some (name :: args) =>
      if all_space name then mret tt
      else r ← run_cmd fuel (name :: args); report r
    | _ => mret tt
    end ;;
    print (str "> ")
  end.

(** One turn of the loop, up to the yield. *)
Definition shell_turn (fuel : nat) (kbd : Kbd) : proc K Kbd :=
  k ← get_state;
  kbd ← shell_drain (S (length (k_keys k))) kbd;
  shell_exec fuel ;;
  mret kbd.

Fixpoint shell_task (turns fuel : nat) (kbd : Kbd) : proc K unit :=
  match turns with
  | O => λ _, Hang
  | S turns => kbd ← shell_turn fuel kbd; yield_now ;; shell_task turns fuel kbd
  end.

(** ** Booting *)

(** [*FS.lock() = Some(fs)], when [init] found a volume. *)
Definition store_mount (m : option Fat16FileSystem) : proc K unit := λ k,
  Done (tt, match m with Some fs => set_fs k (Some fs) | None => k end).

(** The part of [kernel_main] between the set-up of the hardware and the start of
    the executor: mount, register the commands, write the test file.  [init]
    leaves the old mount alone when it finds no volume. *)
Definition boot : proc K (result unit string) :=
  m ← init;
  store_mount m ;;
  init_cmds ;;
  mount ← get_fs;
  match mount with
  | None => λ _, Panic (PExpect "called `Option::unwrap()` on a `None` value")
  | Some fs =>
    res ← write_new_file fs (str "test    ") (str "txt") [12; 12; 15];
    println (match res with Ok _ => str "Ok(())" | Err e => str "Err(" ++ [34] ++ str e ++ [34] ++ str ")" end) ;;
    mret res
  end.
End machine.
