(* ===== verification/Utf8.v ===== *)
(** * UTF-8 and the 8.3 names

    [from_utf8] inverts [as_bytes], so does [from_utf8_lossy] on text; the two
    ways the kernel makes an 8.3 name from a string agree. *)

From S2P Require Import Prelude Device Str Fat16 FsSpec Vga Editor EditorTheorems Float64 BTreeMap Lisp.
From S2P Require Import LispEval Shell Kernel Pong Commands.
#[local] Open Scope Z_scope.

(** Decide the comparison a conditional is about, by linear arithmetic. *)
Ltac cmp := match goal with
  | |- context [?a <? ?b] => destruct (Z.ltb_spec a b); [try lia|try lia]
  | |- context [?a <=? ?b] => destruct (Z.leb_spec a b); [try lia|try lia]
  end; simpl.

Lemma is_cont_low x : is_cont (0x80 + x mod 64) = true.
Proof. rw /is_cont. pose proof (Z.mod_pos_bound x 64). by repeat cmp. Qed.

Lemma two_digits c : c = c / 64 * 64 + c mod 64.
Proof. dlia. Qed.

(** One character read back. *)
Lemma utf8_step_char c r : is_char c → utf8_step (utf8_char c ++ r) = Some (c, r).
Proof.
  intros Hc. rw /is_char in Hc. rw /utf8_char.
  destruct (Z.ltb_spec c 128). { rw /=. by repeat cmp. }
  destruct (Z.ltb_spec c 2048).
  { assert (2 ≤ c / 64 < 32) by dlia. rw /=. repeat cmp. rw is_cont_low. do 2 f_equal. dlia. }
  destruct (Z.ltb_spec c 65536).
  { assert (0 ≤ c / 4096 < 16) by dlia. rw /=. repeat (cmp; [idtac]). rw !is_cont_low /=.
    replace ((224 + c / 4096 - 224) * 4096 + (128 + (c / 64) mod 64 - 128) * 64 + (128 + c mod 64 - 128))
      with c by dlia. by repeat cmp. }
  assert (0 ≤ c / 262144 < 5) by dlia. rw /=. repeat (cmp; [idtac]). rw !is_cont_low /=.
  replace ((240 + c / 262144 - 240) * 262144 + (128 + (c / 4096) mod 64 - 128) * 4096
           + (128 + (c / 64) mod 64 - 128) * 64 + (128 + c mod 64 - 128)) with c by dlia.
  by repeat cmp.
Qed.

Lemma utf8_char_cons c : ∃ b l, utf8_char c = b :: l.
Proof. rw /utf8_char. repeat case_match; eauto. Qed.

Lemma utf8_encode_cons c s : utf8_encode (c :: s) = utf8_char c ++ utf8_encode s.
Proof. done. Qed.

Lemma utf8_length s : (length s ≤ length (utf8_encode s))%nat.
Proof.
  induction s as [|c s IH]; [done|]. rw utf8_encode_cons length_app.
  destruct (utf8_char_cons c) as (b & l & ->). simpl. lia.
Qed.

Lemma utf8_decode_fuel_encode n s :
  Forall is_char s → (length s ≤ n)%nat → utf8_decode_fuel n (utf8_encode s) = Some s.
Proof.
  intros Hs. revert n. induction Hs as [|c s Hc _ IH]; intros n Hn; [by destruct n|].
  destruct n as [|n]; [simpl in Hn; lia|]. rw utf8_encode_cons.
  pose proof (utf8_step_char c (utf8_encode s) Hc) as Hst.
  destruct (utf8_char_cons c) as (b & l & E). rw E in Hst |- *. simpl in Hst |- *.
  rw Hst /= IH; [simpl in Hn; lia|done].
Qed.

Lemma utf8_decode_encode s : Forall is_char s → utf8_decode (utf8_encode s) = Some s.
Proof. intros Hs. apply utf8_decode_fuel_encode; [done|apply utf8_length]. Qed.

Lemma utf8_lossy_fuel_encode n s :
  Forall is_char s → (length s ≤ n)%nat → utf8_lossy_fuel n (utf8_encode s) = s.
Proof.
  intros Hs. revert n. induction Hs as [|c s Hc _ IH]; intros n Hn; [by destruct n|].
  destruct n as [|n]; [simpl in Hn; lia|]. rw utf8_encode_cons.
  pose proof (utf8_step_char c (utf8_encode s) Hc) as Hst.
  destruct (utf8_char_cons c) as (b & l & E). rw E in Hst |- *. simpl in Hst |- *.
  rw Hst IH; [simpl in Hn; lia|done].
Qed.

Lemma utf8_lossy_encode s : Forall is_char s → utf8_lossy (utf8_encode s) = s.
Proof. intros Hs. apply utf8_lossy_fuel_encode; [done|apply utf8_length]. Qed.

Lemma utf8_char_bytes c : is_char c → Forall is_byte (utf8_char c).
Proof.
  intros Hc. rw /is_char in Hc. rw /utf8_char. repeat cmp; repeat constructor; rw /is_byte; try lia; dlia.
Qed.

Lemma utf8_encode_bytes s : Forall is_char s → Forall is_byte (utf8_encode s).
Proof.
  induction 1 as [|c s Hc _ IH]; [constructor|]. rw utf8_encode_cons.
  apply Forall_app; split; [by apply utf8_char_bytes|done].
Qed.

(** ** Names *)

(** Upper-casing the characters and upper-casing the bytes are the same. *)
Lemma upper_char c : is_char c → utf8_char (ascii_upper c) = ascii_upper <$> utf8_char c.
Proof.
  intros Hc. rw /is_char in Hc. assert (∀ x, 128 ≤ x → ascii_upper x = x) as Hhi.
  { intros x Hx. rw /ascii_upper. by repeat cmp. }
  destruct (Z.ltb_spec c 128) as [H|H].
  - assert (utf8_char c = [c]) as -> by (rw /utf8_char; by repeat cmp). simpl.
    rw /utf8_char. assert (ascii_upper c < 128) by (rw /ascii_upper; repeat cmp; lia). by repeat cmp.
  - rw Hhi //. symmetry. rewrite <- (list_fmap_id (utf8_char c)) at 2.
    apply list_fmap_ext. intros i b Hb. apply Hhi.
    assert (Forall (λ b, 128 ≤ b) (utf8_char c)) as Hall.
    { rw /utf8_char. repeat cmp; repeat constructor; dlia. }
    by eapply Forall_lookup_1 in Hall.
Qed.

Lemma upper_encode s : Forall is_char s → utf8_encode (to_ascii_uppercase s) = ascii_upper <$> utf8_encode s.
Proof.
  induction 1 as [|c s Hc _ IH]; [done|]. rw /to_ascii_uppercase fmap_cons !utf8_encode_cons.
  rw fmap_app upper_char //. f_equal. exact IH.
Qed.

Lemma fat_name_pad n s : Forall is_char s → fat_name n s = pad n (ascii_upper <$> utf8_encode s).
Proof.
  intros Hs. rw /fat_name /pad upper_encode //. f_equal. apply drop_replicate.
Qed.

Lemma fat_name_length n s : length (fat_name n s) = n.
Proof. rw /fat_name. len. Qed.

Lemma fat_name_bytes n s : Forall is_char s → Forall is_byte (fat_name n s).
Proof.
  intros Hs. rw fat_name_pad // /pad. apply Forall_app; split.
  - apply Forall_take, Forall_fmap. eapply Forall_impl; [by apply utf8_encode_bytes|].
    intros b Hb. rw /is_byte in Hb. rw /compose /is_byte /ascii_upper. repeat cmp; lia.
  - apply Forall_replicate. done.
Qed.

(** Commands and editor agree on file names: for every name and extension,
    the 8.3 name that [mkdir], [cat], [edit] and [run] build in place is the one
    the editor's [format_fat16_name] gives. *)
Theorem commands_editor_same_name name ext :
  Forall is_char name → Forall is_char ext →
  format_fat16_name name ext = (fat_name 8 name, fat_name 3 ext).
Proof. intros Hn Hx. by rw !fat_name_pad. Qed.

Lemma commands_editor_same_name_witness :
  format_fat16_name (str "notes") (str "c") = (fat_name 8 (str "notes"), fat_name 3 (str "c")).
Proof.
  apply commands_editor_same_name; refine (bool_decide_unpack _ _); vm_compute; exact I.
Defined.
