(* ===== verification/FileCommands.v ===== *)
(** * The file commands: what [mkdir], [edit], [cat] and the editor's save do

    The commands run on the whole machine.  On a machine whose mounted volume
    represents a map from names to contents, they are an insertion, an update
    and a lookup of that map, and leave the rest of the machine alone, but for
    what they print. *)

From S2P Require Import Prelude Device Str Fat16 FatTable FatDir FatFile FsSpec FsTheorems FsOverwrite.
From S2P Require Import FsRefine FsShadow FsMore FsFormat Vga VgaTheorems Editor EditorTheorems Float64.
From S2P Require Import BTreeMap Lisp LispEval Shell Kernel Pong Commands Utf8.
#[local] Open Scope Z_scope.

(** A name of the map, from the strings the user types. *)
Definition key_of (name ext : rstring) : list Z * list Z := (fat_name 8 name, fat_name 3 ext).

(** A name a user can create: [fat_name] gives a slot that is neither free nor
    deleted. *)
Definition usable_name (name ext : rstring) : Prop :=
  Forall is_char name ∧ Forall is_char ext ∧
  byte_at (fat_name 8 name) 0 ≠ 0x00 ∧ byte_at (fat_name 8 name) 0 ≠ 0xE5.
#[export] Instance usable_name_dec name ext : Decision (usable_name name ext).
Proof. rw /usable_name. apply _. Defined.

Lemma usable_wf name ext : usable_name name ext → wf_name (fat_name 8 name) (fat_name 3 ext).
Proof.
  intros (Hn & Hx & H0 & HE). split; [split; [apply fat_name_length|by apply fat_name_bytes]..|done].
Qed.

(** ** The two spellings of a file name *)

Definition no_dot (name : rstring) : Prop := Forall (λ c, c ≠ DOT) name.
#[export] Instance no_dot_dec name : Decision (no_dot name).
Proof. rw /no_dot. apply _. Defined.

Lemma split_dot_app name r : no_dot name → split_dot (name ++ DOT :: r) = Some (name, r).
Proof.
  induction 1 as [|c name Hc _ IH]; [done|]. simpl. destruct (Z.eqb_spec c DOT); [done|]. by rw IH.
Qed.

Lemma split_dot_none name : no_dot name → split_dot name = None.
Proof. induction 1 as [|c name Hc _ IH]; [done|]. simpl. destruct (Z.eqb_spec c DOT); [done|]. by rw IH. Qed.

Lemma resolve_dotted c name ext rest :
  no_dot name → resolve_name_ext (c :: (name ++ DOT :: ext) :: rest) 1 = Some (name, ext, 2%nat).
Proof. intros Hn. rw /resolve_name_ext /=. by rw split_dot_app. Qed.

Lemma resolve_plain c name ext rest :
  no_dot name → resolve_name_ext (c :: name :: ext :: rest) 1 = Some (name, ext, 3%nat).
Proof. intros Hn. rw /resolve_name_ext /=. by rw split_dot_none. Qed.

Section files.
Context {D : Type} `{!BlockDevice D, !BlockDeviceOk D}.
Context (fs : Fat16FileSystem) (Hwf : wf_fs (capacity D) fs).
Implicit Types (k : Kernel D) (s : disk) (m : files).

(** The volume [fs] is mounted, and its disk [s] represents [m]. *)
Record mounted k s m : Prop := {
  mt_fs : k_fs k = Some fs;
  mt_dev : holds (k_dev k) s;
  mt_rep : represents (capacity D) fs s m;
}.

(** Only the drive differs. *)
Definition drive_only k k' s' : Prop := ∃ d', k' = set_dev k d' ∧ holds d' s'.

Lemma framed_drive k k' s : framed_holds k k' s → drive_only k k' s.
Proof. intros [Hd ->]. by eexists. Qed.

Lemma framed_self k s : holds (k_dev k) s → framed_holds k k s.
Proof. intros Hd. split; [done|]. by destruct k. Qed.

(** Searching and reading, on the machine. *)
Lemma kernel_read_run k s m n x :
  mounted k s m →
  runs (find_file fs n x) k (λ o k1, drive_only k k1 s ∧
    match o with
    | None => m !! (n, x) = None
    | Some e => runs (read_file fs e) k1 (λ b k2, m !! (n, x) = Some b ∧ drive_only k k2 s)
    end).
Proof.
  intros [_ Hd Hr]. eapply runs_mono.
  { apply (read_refines_step (D := Kernel D) (BlockDeviceOk0 := Kernel_framed k) fs Hwf k s m n x); [|done].
    by apply framed_self. }
  intros o k1 [Hk1 Ho]. split; [by apply framed_drive|]. destruct o as [e|]; [|done].
  eapply runs_mono; [exact Ho|]. intros b k2 [? Hk2]. split; [done|by apply framed_drive].
Qed.

Lemma kernel_create_run k s m n x data :
  mounted k s m → m !! (n, x) = None → wf_name n x → Forall is_byte data → zlen data < 2 ^ 32 →
  is_Some (empty_slot fs s) → enough (capacity D) fs (free_clusters fs s) data →
  runs (write_new_file fs n x data) k (λ r k', r = Ok tt ∧ ∃ s',
    drive_only k k' s' ∧ mounted k' s' (<[(n, x) := data]> m)).
Proof.
  intros [Hf Hd Hr] Hm Hn Hb Hl Hs He. eapply runs_mono.
  { by apply (write_new_file_refines_step (D := Kernel D) (BlockDeviceOk0 := Kernel_framed k) fs Hwf k s m n x data);
      [apply framed_self|..]. }
  intros r k' (-> & s' & Hk' & Hr'). split; [done|]. exists s'.
  split; [by apply framed_drive|]. destruct Hk' as [Hd' ->]. by split.
Qed.

Lemma kernel_shadow_run k s m n x old data p :
  mounted k s m → m !! (n, x) = Some old → wf_name n x → Forall is_byte data → zlen data < 2 ^ 32 →
  empty_slot fs s = Some p → byte_at (slot_window s p) 0 = 0x00 →
  enough (capacity D) fs (free_clusters fs s) data →
  runs (write_new_file fs n x data) k (λ r k', r = Ok tt ∧ ∃ s', drive_only k k' s' ∧ mounted k' s' m).
Proof.
  intros [Hf Hd Hr] Hm Hn Hb Hl Hp Hp0 He. eapply runs_mono.
  { by eapply (create_existing_step (D := Kernel D) (BlockDeviceOk0 := Kernel_framed k) fs Hwf k s m n x old data p);
      [apply framed_self|..]. }
  intros r k' (-> & s' & Hk' & Hr'). split; [done|]. exists s'.
  split; [by apply framed_drive|]. destruct Hk' as [Hd' ->]. by split.
Qed.

Lemma kernel_overwrite_run k s m n x data e cs :
  mounted k s m → lookup_file fs s n x = Some e → chain (capacity D) fs s (cluster_low e) cs →
  Forall is_byte data → zlen data < 2 ^ 32 → enough (capacity D) fs (reusable fs s cs) data →
  runs (overwrite_file fs n x data) k (λ r k', r = Ok tt ∧ ∃ s',
    drive_only k k' s' ∧ mounted k' s' (<[(n, x) := data]> m)).
Proof.
  intros [Hf Hd Hr] He Hc Hb Hl Hen. eapply runs_mono.
  { by apply (overwrite_file_refines_step (D := Kernel D) (BlockDeviceOk0 := Kernel_framed k) fs Hwf k s m n x
      data e cs); [apply framed_self|..]. }
  intros r k' (-> & s' & Hk' & Hr'). split; [done|]. exists s'.
  split; [by apply framed_drive|]. destruct Hk' as [Hd' ->]. by split.
Qed.

(** Printing, on the machine. *)
Lemma kernel_print_run k t text :
  shows (WRITER (k_screen k)) t →
  runs (print text) k (λ _ k', ∃ scr, k' = set_screen k scr ∧ shows (WRITER scr) (sb_print t text)).
Proof.
  intros Hs. apply on_part_run. eapply runs_mono; [by apply print_refines_run|].
  intros [] scr [Hscr _]. by exists scr.
Qed.

(** The scrollback after some lines. *)
Definition sb_lines (t : Scrollback) (ls : list rstring) : Scrollback :=
  foldl (λ t l, sb_print t (l ++ [LF])) t ls.

(** ** Reading *)

Definition cat_lines (name text : rstring) : list rstring :=
  [str "--- " ++ name ++ str " ---"; text; str "------------"].

(** What [cat] answers, from the map. *)
Definition cat_answer (o : option (list Z)) (name ext : rstring) : result Success rstring :=
  match o with
  | None => Err (str "File " ++ name ++ str "." ++ ext ++ str " not found")
  | Some b =>
    match utf8_decode b with
    | None => Err (str "File contains invalid UTF-8 (might be a binary file)")
    | Some _ => Ok {| success_code := str "File read successfully"; print_code := false |}
    end
  end.

(** What it prints. *)
Definition cat_output (o : option (list Z)) (name : rstring) : list rstring :=
  match o ≫= utf8_decode with Some text => cat_lines name text | None => [] end.

Lemma cat_run k s m t args name ext i :
  mounted k s m → shows (WRITER (k_screen k)) t → resolve_name_ext args 1 = Some (name, ext, i) →
  runs (cat_file args) k (λ r k',
    r = cat_answer (m !! key_of name ext) name ext ∧ mounted k' s m ∧
    shows (WRITER (k_screen k')) (sb_lines t (cat_output (m !! key_of name ext) name))).
Proof.
  intros Hm Ht Ha. pose proof Hm as [Hf _ Hr]. rw /cat_file Ha. rbind. rw {1}/runs /get_fs Hf.
  rbind. eapply runs_mono; [by apply kernel_read_run|].
  intros o k1 [(d1 & -> & Hd1) Ho]. rw /key_of. destruct o as [e|]; [|rw Ho; apply runs_ret; by split_and!].
  rbind. eapply runs_mono; [exact Ho|]. intros b k2 [Hb (d2 & -> & Hd2)]. rw Hb /= /cat_output /=.
  destruct (utf8_decode b) as [text|]; [|apply runs_ret; by split_and!].
  rbind. eapply runs_mono; [by apply (kernel_print_run (set_dev k d2))|]. intros [] k3 (s3 & -> & H3).
  rbind. eapply runs_mono; [by apply (kernel_print_run (set_screen (set_dev k d2) s3))|].
  intros [] k4 (s4 & -> & H4).
  rbind. eapply runs_mono; [by apply (kernel_print_run (set_screen (set_screen (set_dev k d2) s3) s4))|].
  intros [] k5 (s5 & -> & H5). apply runs_ret. by split_and!.
Qed.

(** C29. [cat] is a lookup: on a machine whose volume represents [m], [cat] of a
    name answers and prints what the map holds under its 8.3 name: the text
    between its two rules, the error for a content that is not UTF-8, or the
    error for a name the map does not have; the disk is unchanged. *)
Theorem cat_refines k s m t args name ext i :
  mounted k s m → shows (WRITER (k_screen k)) t → resolve_name_ext args 1 = Some (name, ext, i) →
  runs (cat_file args) k (λ r k',
    r = cat_answer (m !! key_of name ext) name ext ∧ mounted k' s m ∧
    shows (WRITER (k_screen k')) (sb_lines t (cat_output (m !! key_of name ext) name))).
Proof. apply cat_run. Qed.

(** ** Writing *)

(** The room a new file needs. *)
Definition room_for s (data : list Z) : Prop :=
  zlen data < 2 ^ 32 ∧ is_Some (empty_slot fs s) ∧ enough (capacity D) fs (free_clusters fs s) data.

Lemma mkdir_run k s m args name ext i :
  mounted k s m → resolve_name_ext args 1 = Some (name, ext, i) → (i < length args)%nat →
  usable_name name ext → Forall is_char (args_text args i) → m !! key_of name ext = None →
  room_for s (utf8_encode (args_text args i)) →
  runs (make_file args) k (λ r k',
    r = Ok {| success_code := str "Created " ++ name ++ str "." ++ ext ++ str " (" ++
                show_nat (zlen (utf8_encode (args_text args i))) ++ str " bytes)"; print_code := true |} ∧
    ∃ s', drive_only k k' s' ∧ mounted k' s' (<[key_of name ext := utf8_encode (args_text args i)]> m)).
Proof.
  intros Hm Ha Hi Hn Ht Hnone (Hl & Hs & He). pose proof Hm as [Hf _ _]. rw /make_file Ha.
  destruct (Nat.leb_spec (length args) i); [lia|]. rbind. rw {1}/runs /get_fs Hf.
  rbind. eapply runs_mono.
  { apply (kernel_create_run k s m _ _ (utf8_encode (args_text args i)) Hm Hnone); try done.
    - by apply usable_wf.
    - by apply utf8_encode_bytes. }
  intros r k' (-> & Hk'). by apply runs_ret.
Qed.

(** C4. [mkdir], then [cat]: creating a file of a new name, given as [NAME.EXT], with
    some words, and printing it under any spelling of that name, given as two
    words, shows exactly the words, joined by spaces, and the map has gained
    exactly that file. *)
Theorem mkdir_then_cat k s m t c c' name ext words name' ext' :
  mounted k s m → shows (WRITER (k_screen k)) t →
  no_dot name → usable_name name ext → words ≠ [] → Forall is_char (join [SPACE] words) →
  m !! key_of name ext = None → room_for s (utf8_encode (join [SPACE] words)) →
  no_dot name' → key_of name' ext' = key_of name ext →
  runs (make_file (c :: (name ++ DOT :: ext) :: words)) k (λ r k1, (∃ ok, r = Ok ok) ∧
    runs (cat_file [c'; name'; ext']) k1 (λ r' k2,
      r' = Ok {| success_code := str "File read successfully"; print_code := false |} ∧
      shows (WRITER (k_screen k2)) (sb_lines t (cat_lines name' (join [SPACE] words))) ∧
      ∃ s', mounted k2 s' (<[key_of name ext := utf8_encode (join [SPACE] words)]> m))).
Proof.
  intros Hm Ht Hd Hn Hw Hc Hnone Hroom Hd' Hkey.
  eapply runs_mono; [by eapply mkdir_run; [done|by apply resolve_dotted|destruct words; [done|simpl; lia]|..]|].
  intros r k1 (-> & s' & (d' & -> & Hdev) & Hm').
  split; [by eexists|]. eapply runs_mono; [by eapply cat_run; [exact Hm'|exact Ht|by apply resolve_plain]|].
  intros r' k2 (-> & Hm2 & Hs2). rw Hkey lookup_insert_eq /cat_answer /cat_output /= in Hs2 |- *.
  rw /args_text /= utf8_decode_encode // in Hs2 |- *. split_and!; [done..|by exists s'].
Qed.

(** [edit] replaces: on an existing name, when the free clusters and those of
    the old content are enough, [edit] answers success and the map holds the
    words given, joined by spaces, under that name and every other file as
    before; nothing but the drive changes. *)
Theorem edit_refines k s m args name ext i e cs :
  mounted k s m → resolve_name_ext args 1 = Some (name, ext, i) → (i < length args)%nat →
  Forall is_char (args_text args i) →
  lookup_file fs s (fat_name 8 name) (fat_name 3 ext) = Some e →
  chain (capacity D) fs s (cluster_low e) cs →
  zlen (utf8_encode (args_text args i)) < 2 ^ 32 →
  enough (capacity D) fs (reusable fs s cs) (utf8_encode (args_text args i)) →
  runs (edit_file args) k (λ r k',
    r = Ok {| success_code := str "Worked"; print_code := false |} ∧
    ∃ s', drive_only k k' s' ∧ mounted k' s' (<[key_of name ext := utf8_encode (args_text args i)]> m)).
Proof.
  intros Hm Ha Hi Ht Hlk Hc Hl He. pose proof Hm as [Hf _ _]. rw /edit_file Ha.
  destruct (Nat.leb_spec (length args) i); [lia|]. rbind. rw {1}/runs /get_fs Hf.
  rbind. eapply runs_mono.
  { eapply (kernel_overwrite_run k s m _ _ (utf8_encode (args_text args i)) e cs Hm); try done.
    by apply utf8_encode_bytes. }
  intros r k' (-> & Hk'). by apply runs_ret.
Qed.
End files.

(** ** Witnesses *)

(** A machine with the small volume of one file mounted. *)
Definition demo_kernel (keys : list KeyEvent) (arrivals : list (list KeyEvent)) : Kernel MemDisk :=
  {| k_dev := tiny_file_disk; k_screen := boot_screen; k_fs := Some tiny_fs; k_shell := SHELL_init;
     k_keys := keys; k_arrivals := arrivals; k_pending := false; k_launch_pong := false; k_commands := [] |}.

Definition demo_files : files := {[ (tiny_name, tiny_ext) := str "hello" ]}.

Lemma demo_mounted keys arrivals :
  mounted tiny_fs (demo_kernel keys arrivals) (md_sector tiny_file_disk) demo_files.
Proof. split; [done|exact tiny_file_holds|exact tiny_represents]. Qed.

Lemma cat_refines_witness :
  runs (cat_file [str "cat"; str "notes.txt"]) (demo_kernel [] []) (λ r k',
    r = Ok {| success_code := str "File read successfully"; print_code := false |} ∧
    mounted tiny_fs k' (md_sector tiny_file_disk) demo_files ∧
    shows (WRITER (k_screen k')) (sb_lines boot_scrollback (cat_lines (str "notes") (str "hello")))).
Proof.
  apply (cat_refines (D := MemDisk) tiny_fs tiny_wf (demo_kernel [] []) (md_sector tiny_file_disk) demo_files
           boot_scrollback [str "cat"; str "notes.txt"] (str "notes") (str "txt") 2).
  - apply demo_mounted.
  - exact boot_shows.
  - reflexivity.
Defined.

Definition mkdir_args : list rstring := [str "mkdir"; str "todo" ++ DOT :: str "md"; str "buy"; str "milk"].

Lemma mkdir_then_cat_witness :
  runs (make_file mkdir_args) (demo_kernel [] []) (λ r k1, (∃ ok, r = Ok ok) ∧
    runs (cat_file [str "cat"; str "TODO"; str "Md"]) k1 (λ r' k2,
      r' = Ok {| success_code := str "File read successfully"; print_code := false |} ∧
      shows (WRITER (k_screen k2)) (sb_lines boot_scrollback (cat_lines (str "TODO") (str "buy milk"))) ∧
      ∃ s', mounted tiny_fs k2 s' (<[key_of (str "todo") (str "md") := utf8_encode (str "buy milk")]> demo_files))).
Proof.
  apply (mkdir_then_cat (D := MemDisk) tiny_fs tiny_wf (demo_kernel [] []) (md_sector tiny_file_disk) demo_files
           boot_scrollback (str "mkdir") (str "cat") (str "todo") (str "md") [str "buy"; str "milk"]
           (str "TODO") (str "Md")).
  - apply demo_mounted.
  - exact boot_shows.
  - refine (bool_decide_unpack _ _). vm_compute. exact I.
  - refine (bool_decide_unpack _ _). vm_compute. exact I.
  - done.
  - refine (bool_decide_unpack _ _). vm_compute. exact I.
  - vm_compute. reflexivity.
  - split; [done|]. split; [vm_compute; eauto|]. refine (bool_decide_unpack _ _). vm_compute. exact I.
  - refine (bool_decide_unpack _ _). vm_compute. exact I.
  - vm_compute. reflexivity.
Defined.

Lemma edit_refines_witness :
  runs (edit_file [str "edit"; str "notes"; str "txt"; str "bye"]) (demo_kernel [] []) (λ r k',
    r = Ok {| success_code := str "Worked"; print_code := false |} ∧
    ∃ s', drive_only (demo_kernel [] []) k' s' ∧
      mounted tiny_fs k' s' (<[key_of (str "notes") (str "txt") := utf8_encode (str "bye")]> demo_files)).
Proof.
  apply (edit_refines (D := MemDisk) tiny_fs tiny_wf (demo_kernel [] []) (md_sector tiny_file_disk) demo_files
           [str "edit"; str "notes"; str "txt"; str "bye"] (str "notes") (str "txt") 3 tiny_entry [2]).
  - apply demo_mounted.
  - reflexivity.
  - simpl. lia.
  - refine (bool_decide_unpack _ _). vm_compute. exact I.
  - vm_compute. reflexivity.
  - exact tiny_chain.
  - done.
  - refine (bool_decide_unpack _ _). vm_compute. exact I.
Defined.
