(* ===== verification/EditorSession.v ===== *)
(** * The editor session: [run_editor] on the whole machine

    Key events arrive in batches, one batch per yield.  Whatever the batches,
    the session loads the file, applies the keys up to Escape and saves. *)

From S2P Require Import Prelude Device Str Fat16 FatTable FatDir FatFile FsSpec FsTheorems FsOverwrite.
From S2P Require Import FsRefine FsMore FsFormat Vga VgaTheorems Editor EditorTheorems Float64 BTreeMap Lisp.
From S2P Require Import LispEval Shell Kernel Pong Commands Utf8 FileCommands.
#[local] Open Scope Z_scope.

(** ** Drawing *)

Lemma editor_draw_wf (e : Editor) (s : Screen) :
  wf_writer (WRITER s) → 0 ≤ cursor_x e < 2 ^ 50 → 0 ≤ cursor_y e < 2 ^ 50 →
  runs (editor_draw e) s (λ _ s', wf_writer (WRITER s')).
Proof.
  intros Hw Hx Hy. rw /editor_draw. rbind. eapply runs_mono; [by apply clear_screen_wf|]. intros [] s1 H1.
  rbind. eapply runs_mono.
  { apply (runs_for_each (λ _ s, wf_writer (WRITER s)) _ _ s1 H1). intros dn [y line] rest s2 E H2.
    assert (0 ≤ y) as Hy0.
    { assert ((y, line) ∈ zip (seqZ 0 (zlen (lines e))) (lines e)) as Hin by (rw E; set_solver).
      apply elem_of_zip_l in Hin. apply elem_of_seqZ in Hin. lia. }
    apply (runs_for_each (λ _ s, wf_writer (WRITER s)) _ _ s2 H2). intros dn' [x c] rest' s3 E' H3.
    apply write_char_at_wf; [done| |done].
    assert ((x, c) ∈ zip (seqZ 0 (zlen line)) line) as Hin by (rw E'; set_solver).
    apply elem_of_zip_l in Hin. apply elem_of_seqZ in Hin. lia. }
  intros [] s2 H2. rw /= /update_cursor /BUFFER_WIDTH. rlift; [apply chk_Done; lia|].
  rlift; [apply chk_Done; lia|]. done.
Qed.

(** The cursor of a flat state is within the text before it. *)
Lemma flat_cursor e b a : flat e b a → 0 ≤ cursor_x e ≤ zlen b ∧ 0 ≤ cursor_y e ≤ zlen b.
Proof.
  intros (pre & l & r & post & -> & -> & _). rw /before /=. clear.
  assert (length pre ≤ length (mjoin ((λ x, x ++ [LF]) <$> pre)))%nat as Hp.
  { induction pre as [|x pre IH]; [done|]. rw fmap_cons /= !length_app /=. lia. }
  rw length_app. lia.
Qed.

Lemma flat_chars e b a : flat e b a → Forall is_char (editor_text e) ∧ Forall ascii_char (editor_text e).
Proof.
  intros Hf. assert (Forall ascii_char (editor_text e)) as Ha.
  { rw (flat_text _ _ _ Hf). destruct Hf as (pre & l & r & post & -> & -> & -> & Hp & Hl & Hr & Hq).
    assert (∀ s, ascii_line s → Forall ascii_char s) as Hline.
    { intros s Hs. eapply Forall_impl; [exact Hs|]. by intros c [? _]. }
    rw /before /after. rewrite !Forall_app. split_and!; try by apply Hline.
    - apply Forall_join, Forall_fmap. eapply Forall_impl; [exact Hp|]. intros s Hs.
      apply Forall_app; split; [by apply Hline|]. by repeat constructor.
    - apply Forall_join, Forall_fmap. eapply Forall_impl; [exact Hq|]. intros s Hs.
      apply Forall_cons; split; [done|by apply Hline]. }
  split; [|done]. eapply Forall_impl; [exact Ha|]. intros c Hc. left. rw /ascii_char in Hc. lia.
Qed.

Section session.
Context {D : Type} `{!BlockDevice D, !BlockDeviceOk D}.
Context (fs : Fat16FileSystem) (Hwf : wf_fs (capacity D) fs).
Context {Kbd : Type} (kbd_new : Kbd) (process_keyevent : Kbd → KeyEvent → option DecodedKey * Kbd).
Implicit Types (k : Kernel D) (s : disk) (m : files) (kbd : Kbd).

Notation editor_drain := (editor_drain process_keyevent).
Notation editor_loop := (editor_loop process_keyevent).

(** The keys a sequence of events decodes to. *)
Fixpoint decode kbd (evs : list KeyEvent) : list DecodedKey * Kbd :=
  match evs with
  | [] => ([], kbd)
  | ev :: evs =>
    let '(o, kbd) := process_keyevent kbd ev in
    let '(keys, kbd) := decode kbd evs in
    (option_list o ++ keys, kbd)
  end.

Lemma decode_app kbd evs1 evs2 keys kbd' :
  decode kbd (evs1 ++ evs2) = (keys, kbd') →
  ∃ keys1 kbd1 keys2, decode kbd evs1 = (keys1, kbd1) ∧ decode kbd1 evs2 = (keys2, kbd') ∧
    keys = keys1 ++ keys2.
Proof.
  revert kbd keys. induction evs1 as [|ev evs1 IH]; intros kbd keys; simpl.
  { intros H. by exists [], kbd, keys. }
  destruct (process_keyevent kbd ev) as [o kbd0]. destruct (decode kbd0 (evs1 ++ evs2)) as [ks kb] eqn:E.
  intros [= <- <-]. destruct (IH _ _ E) as (keys1 & kbd1 & keys2 & -> & ? & ->).
  exists (option_list o ++ keys1), kbd1, keys2. by rw -assoc.
Qed.

Lemma editor_keys_app e keys1 keys2 e2 :
  editor_keys e (keys1 ++ keys2) = Done e2 →
  ∃ e1, editor_keys e keys1 = Done e1 ∧ editor_keys e1 keys2 = Done e2.
Proof.
  revert e. induction keys1 as [|key keys1 IH]; intros e; simpl; [by eauto|].
  destruct (editor_key e key) as [e0| |]; [|done..]. apply IH.
Qed.

(** ** Loading and saving *)

Lemma load_run k s m n x :
  mounted fs k s m →
  runs (load_text n x) k (λ t k', t = utf8_lossy (default [] (m !! (n, x))) ∧ drive_only k k' s).
Proof.
  intros Hm. pose proof Hm as [Hf _ _]. rw /load_text. rbind. rw {1}/runs /get_fs Hf.
  rbind. eapply runs_mono; [by apply (kernel_read_run fs Hwf)|]. intros o k1 [Hk1 Ho].
  destruct o as [e|]; [|rw Ho; by apply runs_ret]. rbind. eapply runs_mono; [exact Ho|].
  intros b k2 [-> Hk2]. by apply runs_ret.
Qed.

(** The volume can take [data] under the name. *)
Definition can_save s (n x data : list Z) : Prop :=
  match lookup_file fs s n x with
  | None => room_for (D := D) fs s data
  | Some e => ∃ cs, chain (capacity D) fs s (cluster_low e) cs ∧ zlen data < 2 ^ 32 ∧
                    enough (capacity D) fs (reusable fs s cs) data
  end.

Lemma save_run k s m n x e :
  mounted fs k s m → wf_writer (WRITER (k_screen k)) → wf_name n x → Forall is_char (editor_text e) →
  can_save s n x (utf8_encode (editor_text e)) →
  runs (save_text n x e) k (λ _ k', k_keys k' = k_keys k ∧ k_arrivals k' = k_arrivals k ∧
    ∃ s', mounted fs k' s' (<[(n, x) := utf8_encode (editor_text e)]> m)).
Proof.
  intros Hm Hw Hn Hc Hsave. rw /save_text. rbind. apply on_part_run.
  eapply runs_mono; [by apply clear_screen_wf|]. intros [] scr _.
  assert (mounted fs (set_screen k scr) s m) as Hm1 by by destruct Hm.
  rbind. rw {1}/runs /get_fs (mt_fs _ _ _ _ Hm1).
  rbind. eapply runs_mono; [by apply (kernel_read_run fs Hwf)|]. intros o k1 [(d1 & -> & Hd1) Ho].
  assert (mounted fs (set_dev (set_screen k scr) d1) s m) as Hm2 by by destruct Hm1.
  apply utf8_encode_bytes in Hc as Hb. rw /can_save in Hsave.
  assert (o = None → lookup_file fs s n x = None) as Hnone.
  { intros ->. by apply (rp_none _ _ _ _ (mt_rep _ _ _ _ Hm)). }
  destruct o as [e0|].
  - destruct (lookup_file fs s n x) as [e'|] eqn:Hlk.
    + destruct Hsave as (cs & Hch & Hl & He). rbind.
      eapply runs_mono; [by eapply (kernel_overwrite_run fs Hwf _ s m n x _ e' cs Hm2)|].
      intros r k2 (-> & s' & (d2 & -> & _) & Hm3). apply runs_ret. split_and!; [done..|by exists s'].
    + apply runs_Done in Ho as (b & k2 & _ & Hmb & _).
      destruct (rp_some _ _ _ _ (mt_rep _ _ _ _ Hm) n x b Hmb) as (e' & ? & _). congruence.
  - rw Hnone // in Hsave. destruct Hsave as (Hl & Hsl & He). rbind.
    eapply runs_mono; [by apply (kernel_create_run fs Hwf _ s m n x _ Hm2)|].
    intros r k2 (-> & s' & (d2 & -> & _) & Hm3). apply runs_ret. split_and!; [done..|by exists s'].
Qed.

(** ** Draining the queue *)

Notation no_escape := (Forall (λ key, key ≠ Unicode ESC)).

(** The queue ends before Escape: every key is applied. *)
Lemma drain_all evs fuel k n x kbd e redraw keys kbd' e' :
  k_keys k = evs → (length evs < fuel)%nat → decode kbd evs = (keys, kbd') → no_escape keys →
  editor_keys e keys = Done e' →
  ∃ b, editor_drain fuel n x kbd e redraw k = Done (Some (kbd', e', b), set_keys k [] (k_arrivals k)).
Proof.
  revert fuel k kbd e redraw keys. induction evs as [|ev evs IH];
    intros fuel k kbd e redraw keys Hk Hlt Hdec Hne Hrun; (destruct fuel as [|fuel]; [simpl in Hlt; lia|]).
  - simpl in Hdec. injection Hdec as <- <-. simpl in Hrun. injection Hrun as <-. exists redraw.
    rw /= /mbind /proc_bind {1}/pop_key Hk /=. destruct k; simpl in *; by subst.
  - simpl in Hdec, Hlt. destruct (process_keyevent kbd ev) as [o kbd0] eqn:Hp.
    destruct (decode kbd0 evs) as [ks kb] eqn:Hd. injection Hdec as <- <-.
    rw /= /mbind /proc_bind {1}/pop_key Hk Hp. destruct o as [key|]; simpl in Hne, Hrun.
    + apply Forall_cons in Hne as [Hkey Hne]. rw decide_False //.
      destruct (editor_key e key) as [e0| |] eqn:He; [|done..]. simpl.
      eapply (IH _ (set_keys k evs (k_arrivals k))) in Hd as [b Hb]; [exists b; exact Hb|done|lia|done..].
    + eapply (IH _ (set_keys k evs (k_arrivals k))) in Hd as [b Hb]; [exists b; exact Hb|done|lia|done..].
Qed.

(** The queue holds Escape: the keys before it are applied, then the text is
    saved; the events after it stay. *)
Lemma drain_escape evs fuel k n x kbd e redraw keys kbd' ev kbd'' rest e' :
  k_keys k = evs ++ ev :: rest → (length evs < fuel)%nat → decode kbd evs = (keys, kbd') →
  process_keyevent kbd' ev = (Some (Unicode ESC), kbd'') → no_escape keys →
  editor_keys e keys = Done e' →
  editor_drain fuel n x kbd e redraw k = (save_text n x e' ;; mret None) (set_keys k rest (k_arrivals k)).
Proof.
  revert fuel k kbd e redraw keys. induction evs as [|ev0 evs IH];
    intros fuel k kbd e redraw keys Hk Hlt Hdec Hesc Hne Hrun; (destruct fuel as [|fuel]; [simpl in Hlt; lia|]).
  - simpl in Hdec. injection Hdec as <- <-. simpl in Hrun. injection Hrun as <-.
    rw /= /mbind /proc_bind {1}/pop_key Hk /= Hesc. done.
  - simpl in Hdec, Hlt. destruct (process_keyevent kbd ev0) as [o kbd0] eqn:Hp.
    destruct (decode kbd0 evs) as [ks kb] eqn:Hd. injection Hdec as <- <-.
    rw /= /mbind /proc_bind {1}/pop_key Hk /= Hp. destruct o as [key|]; simpl in Hne, Hrun.
    + apply Forall_cons in Hne as [Hkey Hne]. rw decide_False //.
      destruct (editor_key e key) as [e0| |] eqn:He; [|done..]. simpl.
      by eapply (IH _ (set_keys k (evs ++ ev :: rest) (k_arrivals k))); [done|lia|..].
    + by eapply (IH _ (set_keys k (evs ++ ev :: rest) (k_arrivals k))); [done|lia|..].
Qed.

(** Where Escape is, relative to the present queue. *)
Lemma queue_cases (q qs evs : list KeyEvent) ev rest :
  q ++ qs = evs ++ ev :: rest →
  (∃ r, q = evs ++ ev :: r ∧ rest = r ++ qs) ∨ (∃ evs', evs = q ++ evs' ∧ qs = evs' ++ ev :: rest).
Proof.
  intros E. apply app_eq_inv in E as [(l & -> & E)|(l & -> & ->)].
  - destruct l as [|y l]; simplify_eq/=.
    + right. exists []. by rw !app_nil_r.
    + left. by exists l.
  - right. by exists l.
Qed.

(** ** The session *)

(** All events still to come. *)
Definition incoming k : list KeyEvent := k_keys k ++ mjoin (k_arrivals k).

(** The text after typing, from the text around the cursor. *)
Definition typed (t : rstring * rstring) (keys : list DecodedKey) : rstring :=
  (foldl flat_key t keys).1 ++ (foldl flat_key t keys).2.

(** What the session leaves: the text saved, the later events still to come. *)
Definition saved k' m n x (text : rstring) (rest : list KeyEvent) : Prop :=
  incoming k' = rest ∧ ∃ s', mounted fs k' s' (<[(n, x) := utf8_encode text]> m).

Lemma typed_size t keys :
  zlen (foldl flat_key t keys).1 + zlen (foldl flat_key t keys).2 ≤ zlen t.1 + zlen t.2 + zlen keys.
Proof.
  revert t. induction keys as [|key keys IH]; intros t; simpl; [lia|].
  pose proof (flat_key_size t key). specialize (IH (flat_key t key)). lia.
Qed.

(** Escape is in the queue. *)
Lemma loop_escape k s m n x evs ev r kbd kbd' kbd'' keys e b a fuel :
  mounted fs k s m → wf_writer (WRITER (k_screen k)) → wf_name n x →
  k_keys k = evs ++ ev :: r → decode kbd evs = (keys, kbd') →
  process_keyevent kbd' ev = (Some (Unicode ESC), kbd'') →
  flat e b a → Forall typing_key keys → no_escape keys → zlen b + zlen a + zlen keys < 2 ^ 50 →
  can_save s n x (utf8_encode (typed (b, a) keys)) →
  runs (editor_loop (S fuel) n x kbd e) k (λ _ k',
    saved k' m n x (typed (b, a) keys) (r ++ mjoin (k_arrivals k))).
Proof.
  intros Hm Hw Hn Hk Hdec Hesc Hf Hty Hne Hbd Hsv.
  destruct (typing_run e b a keys Hf Hty) as (e' & Hrun & Hf'); [lia|].
  assert (editor_text e' = typed (b, a) keys) as Htxt by by apply flat_text.
  rw -Htxt in Hsv |- *. cbn [Commands.editor_loop]. rbind. rw {1}/runs /get_state. rbind.
  assert (length evs < S (length (k_keys k)))%nat as Hlt by (rw Hk length_app /=; lia).
  rw {1}/runs (drain_escape evs _ k n x kbd e false keys kbd' ev kbd'' r e' Hk Hlt Hdec Hesc Hne Hrun).
  apply (runs_bind (save_text n x e') (λ _, mret None)).
  eapply runs_mono; [apply (save_run (set_keys k r (k_arrivals k)) s m n x e')|]; try done.
  - by destruct Hm.
  - by eapply flat_chars.
  - intros [] k' (Hkk & Hka & Hs'). apply runs_ret. split; [|done]. by rw /incoming Hkk Hka.
Qed.

(** The loop, over the batches. *)
Lemma loop_run n x s m ev rest kbd' kbd'' arr evs keys k e kbd b a fuel :
  k_arrivals k = arr → mounted fs k s m → wf_writer (WRITER (k_screen k)) → wf_name n x →
  incoming k = evs ++ ev :: rest → (length arr < fuel)%nat →
  decode kbd evs = (keys, kbd') → process_keyevent kbd' ev = (Some (Unicode ESC), kbd'') →
  flat e b a → Forall typing_key keys → no_escape keys → zlen b + zlen a + zlen keys < 2 ^ 50 →
  can_save s n x (utf8_encode (typed (b, a) keys)) →
  runs (editor_loop fuel n x kbd e) k (λ _ k', saved k' m n x (typed (b, a) keys) rest).
Proof.
  revert k e kbd b a evs keys fuel. induction arr as [|batch arr IH];
    intros k e kbd b a evs keys [|fuel] Harr Hm Hw Hn Hq Hfuel Hdec Hesc Hf Hty Hne Hbd Hsv; try (simpl in Hfuel; lia).
  all: destruct (queue_cases _ _ _ _ _ Hq) as [(r & Hk & ->)|(evs' & -> & Hk)]; [by eapply loop_escape|].
  { rw Harr in Hk. by destruct evs'. }
  destruct (decode_app _ _ _ _ _ Hdec) as (keys1 & kbd1 & keys2 & Hd1 & Hd2 & ->).
  apply Forall_app in Hty as [Hty1 Hty2]. apply Forall_app in Hne as [Hne1 Hne2]. rw length_app in Hbd.
  destruct (typing_run e b a keys1 Hf Hty1) as (e1 & Hrun1 & Hf1); [lia|].
  pose proof (typed_size (b, a) keys1) as Hsz. rw /typed foldl_app in Hsv |- *.
  destruct (foldl flat_key (b, a) keys1) as [b1 a1]. cbn [fst snd] in Hsz, Hf1.
  pose proof (flat_cursor _ _ _ Hf1) as [Hx Hy].
  cbn [Commands.editor_loop]. rbind. rw {1}/runs /get_state. rbind.
  destruct (drain_all (k_keys k) (S (length (k_keys k))) k n x kbd e false keys1 kbd1 e1) as [rd Hdrain]; try done; [lia|].
  rw {1}/runs Hdrain. rbind.
  apply (runs_mono _ _ (λ _ k1, ∃ scr, k1 = set_screen (set_keys k [] (k_arrivals k)) scr ∧ wf_writer (WRITER scr))).
  { destruct rd; [|apply runs_ret; by exists (k_screen k)]. apply on_part_run.
    eapply runs_mono; [by apply editor_draw_wf; [|lia..]|]. intros [] scr Hscr. by exists scr. }
  intros [] k1 (scr & -> & Hscr). rbind. rw {1}/runs /yield_now /= Harr.
  eapply (IH _ e1 kbd1 b1 a1 evs' keys2); try done.
  - by destruct Hm.
  - rw /incoming /=. by rw Harr in Hk.
  - simpl in Hfuel. lia.
  - lia.
Qed.

(** C5. An editor session edits the file: on a machine whose volume represents
    [m], [eden] on a name opens the ASCII content the map has (none for a new
    name); the events up to Escape, however they are spread over the yields,
    decode to typing keys; the session then ends, and the map holds under the
    name the text those keys make of the opened text, every other file as
    before, and the events after Escape are still to come. *)
Theorem run_editor_saves k s m args name ext data evs ev rest kbd' kbd'' keys fuel :
  mounted fs k s m → wf_writer (WRITER (k_screen k)) →
  editor_name args = (name, ext) → usable_name name ext →
  data = utf8_lossy (default [] (m !! key_of name ext)) → Forall ascii_char data →
  incoming k = evs ++ ev :: rest → (length (k_arrivals k) < fuel)%nat →
  decode kbd_new evs = (keys, kbd') → process_keyevent kbd' ev = (Some (Unicode ESC), kbd'') →
  Forall typing_key keys → no_escape keys →
  zlen (editor_text (Editor_new data)) + zlen keys < 2 ^ 50 →
  can_save s (fat_name 8 name) (fat_name 3 ext)
    (utf8_encode (typed ([], editor_text (Editor_new data)) keys)) →
  runs (run_editor kbd_new process_keyevent fuel args) k (λ _ k',
    saved k' m (fat_name 8 name) (fat_name 3 ext) (typed ([], editor_text (Editor_new data)) keys) rest).
Proof.
  intros Hm Hw Hargs Hn Hdata Hasc Hq Hfuel Hdec Hesc Hty Hne Hbd Hsv.
  pose proof (Editor_new_flat data Hasc) as Hf. pose proof Hn as (Hcn & Hcx & _).
  assert (format_fat16_name name ext = (fat_name 8 name, fat_name 3 ext)) as Hfmt by by rw !fat_name_pad.
  rw /run_editor Hargs Hfmt. rbind. eapply runs_mono; [by apply load_run|].
  intros t k1 [-> (d1 & -> & Hd1)]. rw -Hdata. rbind. apply on_part_run.
  eapply runs_mono; [by apply editor_draw_wf; [|simpl; lia..]|]. intros [] scr Hscr.
  eapply loop_run; try done.
  - by destruct Hm.
  - by apply usable_wf.
Qed.
End session.

(** ** Witness *)

(** A decoder that reads a code as the character of its number. *)
Definition demo_decoder (u : unit) (ev : KeyEvent) : option DecodedKey * unit :=
  (match state ev with
   | Up => None
   | Down => Some (match code ev with OtherKey c => Unicode c | k => RawKey k end)
   end, u).

Definition press (c : Z) : KeyEvent := {| code := OtherKey c; state := Down |}.
Definition press_key (k : KeyCode) : KeyEvent := {| code := k; state := Down |}.

(** A right arrow and an [x] in two batches, then Escape and a late [z]. *)
Definition session_kernel : Kernel MemDisk :=
  demo_kernel [press_key ArrowRight] [[press 120]; []; [press ESC; press 122]].

Lemma run_editor_saves_witness :
  runs (run_editor tt demo_decoder 4 [str "eden"; str "notes.txt"]) session_kernel (λ _ k',
    saved tiny_fs k' demo_files (fat_name 8 (str "notes")) (fat_name 3 (str "txt")) (str "hxello") [press 122]).
Proof.
  apply (run_editor_saves (D := MemDisk) tiny_fs tiny_wf tt demo_decoder session_kernel
           (md_sector tiny_file_disk) demo_files [str "eden"; str "notes.txt"] (str "notes") (str "txt")
           (str "hello") [press_key ArrowRight; press 120] (press ESC) [press 122] tt tt
           [RawKey ArrowRight; Unicode 120] 4).
  - apply demo_mounted.
  - exact boot_wf.
  - reflexivity.
  - refine (bool_decide_unpack _ _). vm_compute. exact I.
  - vm_compute. reflexivity.
  - repeat constructor; done.
  - reflexivity.
  - simpl. lia.
  - reflexivity.
  - reflexivity.
  - repeat constructor; done.
  - repeat constructor; discriminate.
  - done.
  - exists [2]. split; [exact tiny_chain|]. split; [done|]. refine (bool_decide_unpack _ _). vm_compute. exact I.
Defined.
