(* ===== verification/ShellTheorems.v ===== *)
(** * The shell task: from keys to commands

    One turn of [shell_task] drains the key queue into the command line and, when
    Enter was among the keys, runs the line. *)

From S2P Require Import Prelude Device Str Fat16 FatTable FatDir FatFile FsSpec FsTheorems FsOverwrite.
From S2P Require Import FsRefine FsMore FsFormat Vga VgaTheorems Editor EditorTheorems Float64 BTreeMap Lisp.
From S2P Require Import LispEval Shell Kernel Pong Commands Machine Utf8 FileCommands EditorSession.
#[local] Open Scope Z_scope.

#[export] Instance plain_dec c : Decision (plain c).
Proof. rw /plain. apply _. Defined.

(** ** The edited line *)

(** What a key does to the command line. *)
Definition line_key (line : rstring) (key : DecodedKey) : rstring :=
  match key with
  | Unicode c => if c =? BACKSPACE then removelast line else if c =? LF then line else line ++ [as_u8 c]
  | RawKey _ => line
  end.

Definition is_enter (key : DecodedKey) : bool := bool_decide (key = Unicode LF).

(** The characters of the keys. *)
Definition key_chars (keys : list DecodedKey) : rstring :=
  omap (λ key, match key with Unicode c => Some c | RawKey _ => None end) keys.

Lemma sb_print_app t s1 s2 : sb_print t (s1 ++ s2) = sb_print (sb_print t s1) s2.
Proof. by rw /sb_print /utf8_encode fmap_app join_app fmap_app foldl_app. Qed.

Section shell.
Context {D : Type} `{!BlockDevice D, !BlockDeviceOk D}.
Context {Kbd : Type} (kbd_new : Kbd) (process_keyevent : Kbd → KeyEvent → option DecodedKey * Kbd).
Implicit Types (k : Kernel D) (kbd : Kbd).

Notation decode := (decode process_keyevent).
Notation run_cmd := (run_cmd kbd_new process_keyevent).
Notation shell_drain := (shell_drain process_keyevent).
Notation shell_turn := (shell_turn kbd_new process_keyevent).

(** Before the keys, and after them: the line, the flag and the screen. *)
Definition typed_state k (line : rstring) (pending : bool) (scr : Screen) : Kernel D :=
  set_screen (set_pending (set_shell k {| current_cmd := line; past_cmd := past_cmd (k_shell k) |}) pending) scr.

(** The screen follows the keys: it stays in order, and shows the characters
    printed when no backspace was among them. *)
Record follows (scr scr' : Screen) (keys : list DecodedKey) : Prop := {
  fo_wf : wf_writer (WRITER scr');
  fo_shows t : shows (WRITER scr) t → Forall (λ key, key ≠ Unicode BACKSPACE) keys →
               shows (WRITER scr') (sb_print t (key_chars keys));
}.

Lemma follows_nil scr : wf_writer (WRITER scr) → follows scr scr [].
Proof. by split. Qed.

Lemma follows_app scr1 scr2 scr3 keys1 keys2 :
  follows scr1 scr2 keys1 → follows scr2 scr3 keys2 → follows scr1 scr3 (keys1 ++ keys2).
Proof.
  intros [_ H1] [Hw H2]. split; [done|]. intros t Ht [Hk1 Hk2]%Forall_app.
  rw /key_chars omap_app sb_print_app. apply H2; [|done]. by apply H1.
Qed.

Lemma print_follows k c :
  wf_writer (WRITER (k_screen k)) →
  runs (print [c]) k (λ _ k', ∃ scr, k' = set_screen k scr ∧ follows (k_screen k) scr [Unicode c]).
Proof.
  intros Hw. apply on_part_run. rw /runs.
  pose proof (λ t, print_refines_run (k_screen k) t [c]) as Hr. rw /runs in Hr.
  pose proof (Hr _ (wf_shows _ Hw)) as Hr0.
  destruct (vga_print [c] (k_screen k)) as [[[] scr]| |]; [|done..]. exists scr. split; [done|].
  split; [apply Hr0|]. intros t Ht _. by apply Hr.
Qed.

Lemma shell_key_run k key :
  wf_writer (WRITER (k_screen k)) →
  runs (shell_key key) k (λ _ k', ∃ scr, follows (k_screen k) scr [key] ∧
    k' = typed_state k (line_key (current_cmd (k_shell k)) key) (k_pending k || is_enter key) scr).
Proof.
  intros Hw. destruct key as [c|rk]; rw /shell_key /line_key.
  2: { apply runs_ret. exists (k_screen k). split; [split; [done|by intros]|].
       rw /is_enter bool_decide_false // orb_false_r. by destruct k as [???[]]. }
  destruct (Z.eqb_spec c BACKSPACE) as [->|Hb].
  { rbind. apply on_part_run. apply (runs_mono _ _ (λ _ s, wf_writer (WRITER s))); [apply on_writer_run; exact (delete_byte_wf _ Hw)|].
    intros [] scr Hscr. rw {1}/runs /on_shell. exists scr. split.
    - split; [done|]. intros t Ht [? _]%Forall_cons. done.
    - rw /is_enter bool_decide_false // orb_false_r. by destruct k. }
  destruct (Z.eqb_spec c LF) as [->|Hl]; (rbind; eapply runs_mono; [by apply print_follows|]);
    intros [] k1 (scr & -> & Hf).
  - rw {1}/runs /mark_pending. exists scr. split; [done|]. rw /is_enter bool_decide_true // orb_true_r.
    by destruct k as [???[]].
  - rw {1}/runs /on_shell. exists scr. split; [done|]. rw /is_enter bool_decide_false; [congruence|].
    rw orb_false_r. by destruct k.
Qed.

(** ** Draining the queue *)

Lemma drain_run evs fuel k kbd keys kbd' :
  k_keys k = evs → (length evs < fuel)%nat → decode kbd evs = (keys, kbd') →
  wf_writer (WRITER (k_screen k)) →
  runs (shell_drain fuel kbd) k (λ r k', r = kbd' ∧ ∃ scr, follows (k_screen k) scr keys ∧
    k' = set_keys (typed_state k (foldl line_key (current_cmd (k_shell k)) keys)
                     (k_pending k || existsb is_enter keys) scr) [] (k_arrivals k)).
Proof.
  revert fuel k kbd keys. induction evs as [|ev evs IH]; intros fuel k kbd keys Hk Hlt Hdec Hw;
    (destruct fuel as [|fuel]; [simpl in Hlt; lia|]); cbn [Machine.shell_drain].
  { simpl in Hdec. injection Hdec as <- <-. rbind. rw {1}/runs /pop_key Hk. apply runs_ret. split; [done|].
    exists (k_screen k). split; [by apply follows_nil|]. rw /= orb_false_r.
    destruct k as [???[]]; simpl in *; by subst. }
  simpl in Hdec, Hlt. destruct (process_keyevent kbd ev) as [o kbd0] eqn:Hp.
  destruct (decode kbd0 evs) as [ks kb] eqn:Hd. injection Hdec as <- <-.
  rbind. rw {1}/runs /pop_key Hk Hp. set (k1 := set_keys k evs (k_arrivals k)).
  destruct o as [key|].
  - rbind. eapply runs_mono; [by apply (shell_key_run k1)|]. intros [] k2 (scr & Hf & ->).
    eapply runs_mono; [eapply IH; [done|lia|done|apply Hf]|].
    intros r k' (-> & scr' & Hf' & ->). split; [done|]. exists scr'.
    split; [by apply (follows_app _ scr _ [key])|]. rw orb_assoc. by destruct k as [???[]].
  - eapply runs_mono; [by eapply (IH _ k1); [done|lia|..]|].
    intros r k' (-> & scr & Hf & ->). split; [done|]. exists scr. by split.
Qed.

(** The machine when the words of the line are about to run. *)
Definition line_taken k (words : list rstring) (scr : Screen) : Kernel D :=
  set_keys (set_screen (set_pending
    (set_shell k {| current_cmd := []; past_cmd := past_cmd (k_shell k) ++ [words] |}) false) scr) [] (k_arrivals k).

Lemma all_space_word w : is_word w → all_space w = false.
Proof. intros [Hne Hw]. destruct w as [|c w]; [done|]. apply Forall_cons in Hw as [Hc _]. by rw /all_space /= Hc. Qed.

Lemma shell_turn_run fuel k kbd keys kbd' name args :
  wf_writer (WRITER (k_screen k)) → decode kbd (k_keys k) = (keys, kbd') → existsb is_enter keys = true →
  split_whitespace (foldl line_key (current_cmd (k_shell k)) keys) = name :: args →
  ∃ scr, follows (k_screen k) scr keys ∧
    shell_turn fuel kbd k =
      (r ← run_cmd fuel (name :: args); report r ;; print (str "> ") ;; mret kbd')
        (line_taken k (name :: args) scr).
Proof.
  intros Hw Hdec Hent Hsplit. pose proof (split_ws_words (foldl line_key (current_cmd (k_shell k)) keys)) as Hws.
  rw Hsplit in Hws. apply Forall_cons in Hws as [Hname _].
  destruct (runs_Done (shell_drain (S (length (k_keys k))) kbd) k (λ r k', r = kbd' ∧ ∃ scr,
    follows (k_screen k) scr keys ∧
    k' = set_keys (typed_state k (foldl line_key (current_cmd (k_shell k)) keys)
                     (k_pending k || existsb is_enter keys) scr) [] (k_arrivals k))) as [Hr _].
  destruct Hr as (? & ? & Hdrain & -> & scr & Hf & ->); [by eapply drain_run; [done|lia|..]|].
  exists scr. split; [done|]. rw /Machine.shell_turn /mbind /proc_bind /get_state Hdrain.
  rw /shell_exec /mbind /proc_bind /take_pending /=. rw Hent orb_true_r.
  assert (getcmd {| current_cmd := foldl line_key (current_cmd (k_shell k)) keys;
    past_cmd := past_cmd (k_shell k) |} = Some (name :: args)) as Hg.
  { rw /getcmd. cbn [current_cmd]. destruct (foldl line_key _ keys); [done|]. by rw Hsplit. }
  rw /shell_clear Hg /= all_space_word //.
  change (set_shell _ _) with (line_taken k (name :: args) scr).
  destruct (run_cmd fuel (name :: args) _) as [[r k1]| |]; [|done..].
  destruct (report r k1) as [[[] k2]| |]; [|done..]. by destruct (print _ k2) as [[[] k3]| |].
Qed.

(** C6. A turn of the shell runs the typed line: for any sequence of queued events
    (characters, backspaces, Enter, other keys) with an Enter among them, the
    turn is the execution of [run_cmd] on the words of the edited line, then the
    report of its outcome and the prompt; the line is emptied, the words are
    appended to the history, the flag is down and the queue is empty. *)
Theorem shell_turn_runs_line fuel k kbd keys kbd' name args :
  wf_writer (WRITER (k_screen k)) → decode kbd (k_keys k) = (keys, kbd') → existsb is_enter keys = true →
  split_whitespace (foldl line_key (current_cmd (k_shell k)) keys) = name :: args →
  ∃ scr, follows (k_screen k) scr keys ∧
    shell_turn fuel kbd k =
      (r ← run_cmd fuel (name :: args); report r ;; print (str "> ") ;; mret kbd')
        (line_taken k (name :: args) scr).
Proof. apply shell_turn_run. Qed.

(** ** Plain lines *)

Lemma line_plain line cur : Forall plain line → foldl line_key cur (Unicode <$> line) = cur ++ line.
Proof.
  intros Hl. revert cur. induction Hl as [|c line Hc _ IH]; intros cur; [by rw app_nil_r|].
  rw fmap_cons /= IH. rw /plain in Hc. rw /BACKSPACE /LF.
  destruct (Z.eqb_spec c 8); [lia|]. destruct (Z.eqb_spec c 10); [lia|].
  rw /as_u8 /wrap Z.mod_small; [lia|]. by rw -assoc.
Qed.

Lemma chars_unicode line : key_chars (Unicode <$> line) = line.
Proof. induction line as [|c line IH]; [done|]. rw fmap_cons /=. f_equal. exact IH. Qed.

Lemma plain_no_backspace line :
  Forall plain line → Forall (λ key, key ≠ Unicode BACKSPACE) (Unicode <$> (line ++ [LF])).
Proof.
  intros Hl. apply Forall_fmap, Forall_app; split; [|by repeat constructor].
  eapply Forall_impl; [exact Hl|]. intros c Hc [= ->]. rw /plain /BACKSPACE in Hc. lia.
Qed.

(** Typed ahead, two lines become one command: when the queue holds two lines,
    each ended by Enter, the turn runs the words of their concatenation, once. *)
Theorem type_ahead_merges fuel k kbd line1 line2 kbd' name args :
  wf_writer (WRITER (k_screen k)) → current_cmd (k_shell k) = [] →
  Forall plain line1 → Forall plain line2 →
  decode kbd (k_keys k) = (Unicode <$> (line1 ++ [LF] ++ line2 ++ [LF]), kbd') →
  split_whitespace (line1 ++ line2) = name :: args →
  ∃ scr, shell_turn fuel kbd k =
      (r ← run_cmd fuel (name :: args); report r ;; print (str "> ") ;; mret kbd')
        (line_taken k (name :: args) scr).
Proof.
  intros Hw Hc H1 H2 Hdec Hs. destruct (shell_turn_run fuel k kbd _ kbd' name args Hw Hdec) as (scr & _ & E).
  - rw !fmap_app !existsb_app /=. by rw orb_true_r.
  - by rw Hc !fmap_app !foldl_app (line_plain line1) // (line_plain line2) //=.
  - by exists scr.
Qed.

(** C21. [echo], from the keys to the screen: typing [echo] and some words, in
    printable characters, and Enter, shows the line as typed, the words joined by
    single spaces on a line of their own, and the prompt; the history gains the
    command. *)
Theorem echo_end_to_end fuel k kbd ws kbd' t :
  shows (WRITER (k_screen k)) t → current_cmd (k_shell k) = [] →
  bt_get (str "echo") (k_commands k) = Some CEcho →
  ws ≠ [] → Forall is_word ws → Forall plain (join [SPACE] (str "echo" :: ws)) →
  decode kbd (k_keys k) = (Unicode <$> (join [SPACE] (str "echo" :: ws) ++ [LF]), kbd') →
  runs (shell_turn (S fuel) kbd) k (λ r k', r = kbd' ∧
    k_shell k' = {| current_cmd := []; past_cmd := past_cmd (k_shell k) ++ [str "echo" :: ws] |} ∧
    shows (WRITER (k_screen k'))
      (sb_print (sb_lines t [join [SPACE] (str "echo" :: ws); join [SPACE] ws]) (str "> "))).
Proof.
  intros Ht Hc Hecho Hne Hws Hpl Hdec. set (line := join [SPACE] (str "echo" :: ws)) in *.
  destruct (shell_turn_run (S fuel) k kbd _ kbd' (str "echo") ws (sh_wf _ _ Ht) Hdec) as (scr & Hf & E).
  - rw fmap_app existsb_app /=. by rw orb_true_r.
  - rw Hc fmap_app foldl_app (line_plain line) //=. apply split_ws_join. constructor; [|done].
    refine (bool_decide_unpack _ _). vm_compute. exact I.
  - rw /runs E. clear E. pose proof (fo_shows _ _ _ Hf t Ht (plain_no_backspace _ Hpl)) as Hs.
    rw chars_unicode in Hs.
    rw /mbind {1}/proc_bind. cbn [Machine.run_cmd]. change (k_commands (line_taken k (str "echo" :: ws) scr)) with (k_commands k).
    rw Hecho. cbn [exec_command]. rw /echo_cmd. destruct ws as [|w ws]; [done|]. cbn [length Nat.ltb Nat.leb].
    rw /println /args_text. cbn [drop].
    pose proof (kernel_print_run (line_taken k (str "echo" :: w :: ws) scr) _ (join [SPACE] (w :: ws) ++ [LF]) Hs) as Hp.
    rw /runs in Hp. rw /mbind /proc_bind. destruct (print _ _) as [[[] k1]| |]; [|done..].
    destruct Hp as (scr1 & -> & Hs1). cbn -[print].
    pose proof (kernel_print_run (set_screen (line_taken k (str "echo" :: w :: ws) scr) scr1) _ (str "> ") Hs1) as Hp.
    rw /runs in Hp. cbn -[print] in Hp. destruct (print _ _) as [[[] k2]| |]; [|done..].
    destruct Hp as (scr2 & -> & Hs2). done.
Qed.
End shell.

(** ** Witnesses *)

(** The commands a demonstration needs. *)
Definition shell_kernel (keys : rstring) : Kernel MemDisk :=
  set_commands (demo_kernel (press <$> keys) []) [(str "echo", CEcho)].

Lemma shell_turn_runs_line_witness :
  ∃ scr, follows boot_screen scr (Unicode <$> str "clax" ++ [BACKSPACE] ++ [LF]) ∧
    shell_turn tt demo_decoder 2 tt (shell_kernel (str "clax" ++ [BACKSPACE] ++ [LF])) =
      (r ← run_cmd tt demo_decoder 2 [str "cla"]; report r ;; print (str "> ") ;; mret tt)
        (line_taken (shell_kernel (str "clax" ++ [BACKSPACE] ++ [LF])) [str "cla"] scr).
Proof.
  apply (shell_turn_runs_line (D := MemDisk) tt demo_decoder 2
           (shell_kernel (str "clax" ++ [BACKSPACE] ++ [LF])) tt
           (Unicode <$> str "clax" ++ [BACKSPACE] ++ [LF]) tt (str "cla") []).
  - exact boot_wf.
  - reflexivity.
  - reflexivity.
  - reflexivity.
Defined.

(** Two lines, [echo a] and [echo b], run as [echo aecho b]. *)
Definition ahead : rstring := str "echo a" ++ [LF] ++ str "echo b" ++ [LF].

Lemma type_ahead_merges_witness :
  ∃ scr, shell_turn tt demo_decoder 2 tt (shell_kernel ahead) =
      (r ← run_cmd tt demo_decoder 2 [str "echo"; str "aecho"; str "b"]; report r ;; print (str "> ") ;; mret tt)
        (line_taken (shell_kernel ahead) [str "echo"; str "aecho"; str "b"] scr).
Proof.
  apply (type_ahead_merges (D := MemDisk) tt demo_decoder 2 (shell_kernel ahead) tt
           (str "echo a") (str "echo b") tt (str "echo") [str "aecho"; str "b"]).
  - exact boot_wf.
  - reflexivity.
  - refine (bool_decide_unpack _ _). vm_compute. exact I.
  - refine (bool_decide_unpack _ _). vm_compute. exact I.
  - reflexivity.
  - reflexivity.
Defined.

Definition echo_line : rstring := str "echo hi all" ++ [LF].

Lemma echo_end_to_end_witness :
  runs (shell_turn tt demo_decoder 2 tt) (shell_kernel echo_line) (λ r k', r = tt ∧
    k_shell k' = {| current_cmd := []; past_cmd := [[str "echo"; str "hi"; str "all"]] |} ∧
    shows (WRITER (k_screen k'))
      (sb_print (sb_lines boot_scrollback [str "echo hi all"; str "hi all"]) (str "> "))).
Proof.
  apply (echo_end_to_end (D := MemDisk) tt demo_decoder 1 (shell_kernel echo_line) tt
           [str "hi"; str "all"] tt boot_scrollback).
  - exact boot_shows.
  - reflexivity.
  - reflexivity.
  - done.
  - refine (bool_decide_unpack _ _). vm_compute. exact I.
  - refine (bool_decide_unpack _ _). vm_compute. exact I.
  - reflexivity.
Defined.
