(* ===== verification/MachineTheorems.v ===== *)
(** * Commands, programs and booting *)

From S2P Require Import Prelude Device Str Fat16 FatTable FatDir FatFile FsSpec FsTheorems FsOverwrite.
From S2P Require Import FsRefine FsShadow FsMore FsFormat Vga VgaTheorems Editor EditorTheorems Float64.
From S2P Require Import BTreeMap Lisp LispEval Shell Kernel Pong Commands Machine Utf8 FileCommands.
From S2P Require Import EditorSession ShellTheorems.
#[local] Open Scope Z_scope.

Section machine_theorems.
Context {D : Type} `{!BlockDevice D, !BlockDeviceOk D}.
Context {Kbd : Type} (kbd_new : Kbd) (process_keyevent : Kbd → KeyEvent → option DecodedKey * Kbd).
Implicit Types (k : Kernel D) (s : disk) (m : files).

Notation run_cmd := (run_cmd kbd_new process_keyevent).

(** The answer of a command whose function was found. *)
Definition command_result (o : outcome (result Success rstring * Kernel D)) : outcome (CmdResult * Kernel D) :=
  match o with
  | Done (Ok c, k) => Done (CmdOk c, k)
  | Done (Err e, k) => Done (CmdFailed e, k)
  | Panic p => Panic p
  | Hang => Hang
  end.

(** A bound command runs its program: [bind name code...] succeeds, changes the
    meaning of [name] and of no other name, and afterwards [name args...] is the
    interpreter on the code, joined by spaces, with those arguments. *)
Theorem bind_then_run fuel k c name code codes args :
  let lisp := join [SPACE] (code :: codes) in
  ∃ k', bind_cmd (c :: name :: code :: codes) k =
      Done (Ok {| success_code := str "Bound successfully"; print_code := false |}, k') ∧
    k' = set_commands k (k_commands k') ∧
    (∀ other, other ≠ name → bt_get other (k_commands k') = bt_get other (k_commands k)) ∧
    run_cmd (S fuel) (name :: args) k' =
      command_result (interpret (run_cmd fuel) get_command_list fuel (str "exec" :: lisp :: args) k').
Proof.
  intros lisp. eexists. split; [reflexivity|]. split; [done|]. split.
  - intros other Hne. apply (bt_get_insert_ne name other). congruence.
  - cbn [Machine.run_cmd set_commands k_commands]. rw bt_get_insert. cbn [exec_command]. by rw /run_bound.
Qed.

(** A stored script runs: on a machine whose volume holds a text under a name,
    [run] of that name is the interpreter on the text, without the NULs around
    it, and with the arguments after the name. *)
Theorem run_file_interprets fs k s m args name ext i b text interp :
  wf_fs (capacity D) fs → mounted fs k s m → resolve_name_ext args 1 = Some (name, ext, i) →
  m !! key_of name ext = Some b → utf8_decode b = Some text →
  ∃ k', drive_only k k' s ∧
    run_file interp args k = interp (str "exec" :: trim_nul text :: drop i args) k'.
Proof.
  intros Hwf Hm Ha Hb Ht. pose proof (kernel_read_run fs Hwf k s m (fat_name 8 name) (fat_name 3 ext) Hm) as Hr.
  apply runs_Done in Hr as (o & k1 & Hfind & (d1 & -> & Hd1) & Ho). destruct o as [e|].
  2: { rw /key_of in Hb. congruence. }
  apply runs_Done in Ho as (b' & k2 & Hread & Hb' & Hk2). exists k2. split; [done|].
  rw /key_of in Hb. simplify_eq.
  rw /run_file Ha /mbind /proc_bind /get_fs (mt_fs _ _ _ _ Hm) Hfind Hread. by rw Ht.
Qed.

(** [show] on a binary sector stops the kernel: when the sector is not UTF-8,
    the [unwrap] in [read_as_string] panics. *)
Theorem show_binary_panics k s c n lba :
  holds (k_dev k) s → parse_u32 n = Some lba → 0 ≤ lba < capacity D → utf8_decode (s lba) = None →
  read_as_string [c; n] k = Panic (PExpect "called `Result::unwrap()` on an `Err` value").
Proof.
  intros Hd Hn Hl Hu. rw /read_as_string Hn.
  pose proof (read_sector_ok (D := Kernel D) (BlockDeviceOk := Kernel_framed k) k s lba) as Hr.
  apply runs_Done in Hr as (b & k1 & Hread & -> & _); [|by apply framed_self|done].
  rw /mbind /proc_bind Hread. by rw Hu.
Qed.

(** ** Booting *)

(** The table [init_cmds] leaves. *)
Definition boot_table (old : list (rstring * Command)) : list (rstring * Command) :=
  foldl (λ tbl '(n, c), bt_insert n c tbl) old builtin_commands.

(** A name that is there wins. *)
Lemma union_singleton_absorb m i (old new : list Z) : m !! i = Some old → m ∪ {[i := new]} = m.
Proof.
  intros Hi. apply map_eq. intros j. destruct (decide (i = j)) as [<-|Hne].
  - rw Hi. by apply lookup_union_Some_l.
  - by rw lookup_union_l; [apply lookup_singleton_ne|].
Qed.

(** [init] on the machine: the volume it reports; only drive and screen change. *)
Lemma kernel_init_run k s t :
  holds (k_dev k) s → 1 ≤ capacity D → shows (WRITER (k_screen k)) t →
  runs init k (λ o k', o = (if le16 (s 0) 11 =? 512 then Some {| bpb := Bpb_of_bytes (s 0) |} else None) ∧
    ∃ d' scr, k' = set_screen (set_dev k d') scr ∧ holds d' s ∧ ∃ t', shows (WRITER scr) t').
Proof.
  intros Hd Hcap Ht. rw /init. rbind.
  eapply runs_mono; [apply (read_sector_ok (D := Kernel D) (BlockDeviceOk := Kernel_framed k) k s 0);
    [by apply framed_self|simpl; lia]|].
  intros b k1 [-> (d1 & -> & Hd1)%framed_drive]. simpl. destruct (le16 (s 0) 11 =? 512); simpl.
  all: rbind; eapply runs_mono; [by apply (kernel_print_run (set_dev k d1))|].
  all: intros [] k2 (scr & -> & Hs); apply runs_ret; split; [done|]; exists d1, scr; eauto.
Qed.

(** The first boot of a drive that holds no volume stops in a panic: [init]
    leaves the filesystem absent, and [kernel_main] unwraps it to write its test
    file, before the shell starts. *)
Theorem boot_unformatted_panics k s :
  holds (k_dev k) s → 1 ≤ capacity D → wf_writer (WRITER (k_screen k)) → k_fs k = None →
  le16 (s 0) 11 ≠ 512 →
  boot k = Panic (PExpect "called `Option::unwrap()` on a `None` value").
Proof.
  intros Hd Hcap Hw Hf Hne. pose proof (kernel_init_run k s _ Hd Hcap (wf_shows _ Hw)) as Hr.
  apply runs_Done in Hr as (o & k1 & Hinit & -> & d1 & scr & -> & _).
  rw /boot /mbind /proc_bind Hinit. destruct (Z.eqb_spec (le16 (s 0) 11) 512); [done|].
  cbn. by rw Hf.
Qed.

Definition test_file : list Z * list Z := (str "test    ", str "txt").

Lemma boot_mounts_run k s m p :
  let fs := {| bpb := Bpb_of_bytes (s 0) |} in
  holds (k_dev k) s → wf_fs (capacity D) fs → wf_writer (WRITER (k_screen k)) →
  represents (capacity D) fs s m → empty_slot fs s = Some p → byte_at (slot_window s p) 0 = 0x00 →
  enough (capacity D) fs (free_clusters fs s) [12; 12; 15] →
  runs boot k (λ r k', r = Ok tt ∧ k_commands k' = boot_table (k_commands k) ∧
    wf_writer (WRITER (k_screen k')) ∧ ∃ s', mounted fs k' s' (m ∪ {[test_file := [12; 12; 15]]})).
Proof.
  intros fs Hd Hwf Hw Hr Hp Hp0 He. pose proof (wf_bps _ _ Hwf) as Hbps. simpl in Hbps.
  assert (1 ≤ capacity D) as Hcap.
  { destruct Hwf as [_ _ Hres Hfats Hspf Hroot Hc]. rw /data_start /root_start in Hc.
    assert (0 ≤ root_sectors fs) by (apply Z.div_pos; lia). nia. }
  rw /boot. rbind. eapply runs_mono; [by apply (kernel_init_run k s _ Hd Hcap (wf_shows _ Hw))|].
  intros o k1 (-> & d1 & scr & -> & Hd1 & t & Ht). rw Hbps. rbind. rw {1}/runs /store_mount /=.
  rbind. rw {1}/runs /init_cmds. set (k2 := set_commands _ _). rbind. rw {1}/runs /get_fs /=.
  assert (mounted fs k2 s m) as Hm2 by done.
  assert (wf_name test_file.1 test_file.2) as Hn.
  { split; [split; [done|refine (bool_decide_unpack _ _); vm_compute; exact I]..|done]. }
  assert (Forall is_byte [12; 12; 15]) as Hb by (refine (bool_decide_unpack _ _); vm_compute; exact I).
  rbind. apply (runs_mono _ _ (λ r k', r = Ok tt ∧ ∃ s', drive_only k2 k' s' ∧
    mounted fs k' s' (m ∪ {[test_file := [12; 12; 15]]}))).
  { destruct (m !! test_file) as [old|] eqn:Hold.
    - rw (union_singleton_absorb m test_file old) //. by eapply (kernel_shadow_run fs Hwf).
    - rw -(insert_union_singleton_r m test_file) //.
      by apply (kernel_create_run fs Hwf k2 s m test_file.1 test_file.2 [12; 12; 15] Hm2 Hold Hn Hb). }
  intros r k3 (-> & s' & (d3 & -> & Hd3) & Hm3). rbind.
  eapply runs_mono; [by apply (kernel_print_run (set_dev k2 d3))|]. intros [] k4 (scr4 & -> & Hscr).
  apply runs_ret. split_and!; [done|done|apply Hscr|]. exists s'. by destruct Hm3.
Qed.

(** Booting a formatted drive: when the boot sector describes a sound volume
    that represents [m], the next slot was never used and a cluster is free, boot
    reaches the executor with the volume mounted, the sixteen commands in the
    table and the files of [m], to which the test file was added unless the name
    was there. *)
Theorem boot_mounts k s m p :
  let fs := {| bpb := Bpb_of_bytes (s 0) |} in
  holds (k_dev k) s → wf_fs (capacity D) fs → wf_writer (WRITER (k_screen k)) →
  represents (capacity D) fs s m → empty_slot fs s = Some p → byte_at (slot_window s p) 0 = 0x00 →
  enough (capacity D) fs (free_clusters fs s) [12; 12; 15] →
  runs boot k (λ r k', r = Ok tt ∧ k_commands k' = boot_table (k_commands k) ∧
    ∃ s', mounted fs k' s' (m ∪ {[test_file := [12; 12; 15]]})).
Proof.
  intros fs Hd Hwf Hw Hr Hp Hp0 He. eapply runs_mono; [by eapply boot_mounts_run|]. by intros r k' (? & ? & _ & ?).
Qed.
End machine_theorems.

(** ** Witnesses *)

Lemma run_file_interprets_witness :
  ∃ k', drive_only (demo_kernel [] []) k' (md_sector tiny_file_disk) ∧
    run_file (interpret (λ _, never) get_command_list 3) [str "run"; str "notes.txt"; str "a"] (demo_kernel [] []) =
    interpret (λ _, never) get_command_list 3 (str "exec" :: trim_nul (str "hello") :: [str "a"]) k'.
Proof.
  apply (run_file_interprets (D := MemDisk) tiny_fs (demo_kernel [] []) (md_sector tiny_file_disk) demo_files
           [str "run"; str "notes.txt"; str "a"] (str "notes") (str "txt") 2 (str "hello") (str "hello")).
  - exact tiny_wf.
  - apply demo_mounted.
  - reflexivity.
  - vm_compute. reflexivity.
  - reflexivity.
Defined.

(** Sector 1 is the first of the table: F8 FF FF FF. *)
Lemma show_binary_panics_witness :
  read_as_string [str "show"; str "1"] (demo_kernel [] []) =
  Panic (PExpect "called `Result::unwrap()` on an `Err` value").
Proof.
  apply (show_binary_panics (D := MemDisk) (demo_kernel [] []) (md_sector tiny_file_disk) _ _ 1).
  - exact tiny_file_holds.
  - reflexivity.
  - done.
  - vm_compute. reflexivity.
Defined.

(** A machine before boot. *)
Definition power_on (d : MemDisk) : Kernel MemDisk :=
  {| k_dev := d; k_screen := boot_screen; k_fs := None; k_shell := SHELL_init; k_keys := []; k_arrivals := [];
     k_pending := false; k_launch_pong := false; k_commands := [] |}.

Lemma boot_unformatted_panics_witness :
  boot (power_on (blank_disk tiny_cap)) = Panic (PExpect "called `Option::unwrap()` on a `None` value").
Proof.
  apply (boot_unformatted_panics (D := MemDisk) _ (λ _, zero_sector)).
  - apply blank_disk_holds. done.
  - done.
  - exact boot_wf.
  - done.
  - done.
Defined.

(** The small volume with a boot sector. *)
Definition boot_disk : MemDisk :=
  {| md_size := tiny_cap;
     md_data := {[ 0 := [0xEB; 0x3C; 0x90] ++ str "myOS    " ++ [0; 2; 1; 1; 0; 1; 16; 0; 16; 0; 0xF8; 1; 0]
                        ++ replicate 488 0;
                   1 := [0xF8; 0xFF; 0xFF; 0xFF] ++ replicate 508 0 ]} |}.

Lemma boot_bpb : Bpb_of_bytes (md_sector boot_disk 0) = tiny_bpb.
Proof. vm_compute. reflexivity. Qed.

Lemma boot_mounts_witness :
  runs boot (power_on boot_disk) (λ r k', r = Ok tt ∧ k_commands k' = boot_table [] ∧
    ∃ s', mounted {| bpb := Bpb_of_bytes (md_sector boot_disk 0) |} k' s' (∅ ∪ {[test_file := [12; 12; 15]]})).
Proof.
  apply (boot_mounts (D := MemDisk) (power_on boot_disk) (md_sector boot_disk) ∅ (2, 0)).
  - apply (md_holds_self boot_disk). reflexivity.
  - rw boot_bpb. exact tiny_wf.
  - exact boot_wf.
  - rw boot_bpb. apply (represents_empty (capacity MemDisk) tiny_fs), Forall_forall.
    refine (bool_decide_unpack _ _). vm_compute. exact I.
  - rw boot_bpb. vm_compute. reflexivity.
  - vm_compute. reflexivity.
  - rw boot_bpb. refine (bool_decide_unpack _ _). vm_compute. exact I.
Defined.
