(* ===== verification/Boot.v ===== *)
(** * The whole boot: src/src/main.rs

    [kernel_main] from the entry to the start of the executor: processor, memory,
    heap, filesystem, commands, test file, tasks.  The screen is one: the part of
    the machine the commands run on shows the screen of the processor. *)

From S2P Require Import Prelude Device Str Fat16 FatTable FatDir FatFile FsSpec FsTheorems FsRefine FsMore Vga VgaTheorems Editor.
From S2P Require Import BTreeMap Shell Kernel Commands Machine FileCommands MachineTheorems Memory Paging Executor.
From S2P Require Import PagingDemo Keyboard Interrupts InterruptTheorems Startup StartupTheorems.
#[local] Open Scope Z_scope.

(** The futures that are spawned. *)
Inductive KernelTask := print_keypresses | shell_task_future.

(** What the boot loader hands over. *)
Record BootInfo := { boot_memory_map : list MemoryRegion; physical_memory_offset : Z }.

Section boot.
Context {Q : Type → Type} `{!QueueOps Q} {Wk : Type} `{!WakerCellOps Wk} {Dec : Type}.
Context {P : Type} `{!PicOps P} {I : Type} `{!IdtOps I} {G : Type} `{!GdtOps G}.
Context {D : Type} `{!BlockDevice D}.
Context `{!PagingOps} {M : Type} (cr3 : M → Z).
Context (map_to : Z → Z → proc (M * BootInfoFrameAllocator) (result unit string)).
Context (allocator_init : Z → Z → proc (M * BootInfoFrameAllocator) unit).
Notation Sys := (@Sys Q Wk Dec P I G).

Record Main := {
  m_sys : Sys;
  m_mem : M;
  m_frames : BootInfoFrameAllocator;
  m_kernel : Kernel D;
  m_exec : @Executor Q unit KernelTask;
  m_next_id : Z;                          (** [NEXT_ID] *)
}.

Definition main_sys (p : proc Sys unit) : proc Main unit := λ m,
  match p (m_sys m) with
  | Done (_, s) => Done (tt, {| m_sys := s; m_mem := m_mem m; m_frames := m_frames m; m_kernel := m_kernel m;
                                m_exec := m_exec m; m_next_id := m_next_id m |})
  | Panic e => Panic e
  | Hang => Hang
  end.

(** [memory::init], then [BootInfoFrameAllocator::init]; the page table is used by
    [map_to]. *)
Definition main_memory (b : BootInfo) : proc Main unit := λ m,
  match memory_init cr3 (physical_memory_offset b) (m_mem m) with
  | Done _ => Done (tt, {| m_sys := m_sys m; m_mem := m_mem m; m_frames := frame_allocator_init (boot_memory_map b);
                           m_kernel := m_kernel m; m_exec := m_exec m; m_next_id := m_next_id m |})
  | Panic e => Panic e
  | Hang => Hang
  end.

(** [init_heap(...).expect("heap initialization failed")] *)
Definition main_heap : proc Main unit := λ m,
  match init_heap map_to allocator_init (m_mem m, m_frames m) with
  | Done (Ok _, (mem, fr)) => Done (tt, {| m_sys := m_sys m; m_mem := mem; m_frames := fr; m_kernel := m_kernel m;
                                           m_exec := m_exec m; m_next_id := m_next_id m |})
  | Done (Err _, _) => Panic (PExpect "heap initialization failed")
  | Panic e => Panic e
  | Hang => Hang
  end.

(** The filesystem, the commands and the test file, on the processor's screen. *)
Definition main_boot : proc Main unit := λ m,
  let c := cpu (m_sys m) in
  match Machine.boot (set_screen (m_kernel m) (screen c)) with
  | Done (_, k) => Done (tt, {| m_sys := set_cpu (set_writer (writer_lock c) (k_screen k) c) (m_sys m); m_mem := m_mem m;
                                m_frames := m_frames m; m_kernel := k; m_exec := m_exec m; m_next_id := m_next_id m |})
  | Panic e => Panic e
  | Hang => Hang
  end.

(** [Executor::new] and the two [spawn]s. *)
Definition main_tasks : proc Main unit := λ m,
  match spawn_all [print_keypresses; shell_task_future] (m_next_id m) (Executor_new tt) with
  | Done (n, x) => Done (tt, {| m_sys := m_sys m; m_mem := m_mem m; m_frames := m_frames m; m_kernel := m_kernel m;
                                m_exec := x; m_next_id := n |})
  | Panic e => Panic e
  | Hang => Hang
  end.

(** [kernel_main], up to [executor.run()]. *)
Definition kernel_main (stack_start : Z) (b : BootInfo) : proc Main unit :=
  main_sys (Startup.init stack_start) ;;
  main_memory b ;;
  main_heap ;;
  main_boot ;;
  main_tasks.

(** ** Theorems *)

Context `{!QueueOk Q, !PicOk P, !IdtOk I, !GdtOk G, !BlockDeviceOk D, !PagingOk}.
Context (phys : M → Z → Z) (limit : Z) (heap_range : M → option (Z * Z)).
Notation paging_ready := (paging_ready cr3 phys limit).
Notation page_frame := (page_frame cr3 phys).
Notation unused := (unused cr3 phys).
Notation is_table := (is_table cr3 phys).
Hypothesis map_to_ok : map_to_spec paging_ready page_frame unused is_table map_to.
Hypothesis allocator_init_ok : allocator_init_spec paging_ready page_frame is_table heap_range allocator_init.

(** Memory as the boot loader leaves it: page tables in order, no entry in use for
    the heap's pages, a sound memory map with four usable frames per page of the
    heap, the level 4 table within reach of the offset. *)
Record memory_ready (b : BootInfo) (m : M) : Prop := {
  mr_ready : paging_ready m (frame_allocator_init (boot_memory_map b));
  mr_unused : ∀ p, p ∈ heap_pages → unused m p;
  mr_regions : regions_ok (boot_memory_map b);
  mr_frames : 4 * 2048 ≤ zlen (usable_frames (frame_allocator_init (boot_memory_map b))) < 2 ^ 63;
  mr_offset : 0 ≤ physical_memory_offset b ∧ 0 ≤ cr3 m ∧ physical_memory_offset b + cr3 m < 2 ^ 47;
}.

(** The drive as boot needs it: a sound volume that represents [fl], with an unused
    slot and a free cluster. *)
Record volume_ready (s : disk) (fl : files) : Prop := {
  vr_wf : wf_fs (capacity D) {| bpb := Bpb_of_bytes (s 0) |};
  vr_represents : represents (capacity D) {| bpb := Bpb_of_bytes (s 0) |} s fl;
  vr_slot : ∃ p, empty_slot {| bpb := Bpb_of_bytes (s 0) |} s = Some p ∧ byte_at (slot_window s p) 0 = 0x00;
  vr_enough : enough (capacity D) {| bpb := Bpb_of_bytes (s 0) |} (free_clusters {| bpb := Bpb_of_bytes (s 0) |} s) [12; 12; 15];
}.

(** C9. The kernel comes up: from the state the boot loader leaves, with enough
    memory and a formatted drive, [kernel_main] reaches the executor; then interrupts are enabled with
    all tables loaded, every page of the heap is mapped and the allocator has its
    range, the volume is mounted with the test file and the commands are
    registered, and the run queue holds exactly the keyboard task and the shell,
    in this order. *)
Theorem kernel_main_starts stack_start b m s fl :
  booted (cpu (m_sys m)) → memory_ready b (m_mem m) → holds (k_dev (m_kernel m)) s → volume_ready s fl → m_next_id m = 0 →
  runs (kernel_main stack_start b) m (λ _ m',
    idle (cpu (m_sys m')) ∧ tables_loaded (stack_start + STACK_SIZE) (m_sys m') ∧
    heap_range (m_mem m') = Some (HEAP_START, HEAP_SIZE) ∧ (∀ p, p ∈ heap_pages → is_Some (page_frame (m_mem m') p)) ∧
    (∃ s', mounted {| bpb := Bpb_of_bytes (s 0) |} (m_kernel m') s' (fl ∪ {[test_file := [12; 12; 15]]})) ∧
    k_commands (m_kernel m') = boot_table (k_commands (m_kernel m)) ∧
    queued (m_exec m') = [0; 1] ∧ bt_get 0 (tasks (m_exec m')) = Some print_keypresses ∧
    bt_get 1 (tasks (m_exec m')) = Some shell_task_future).
Proof.
  intros Hb [Hv Hun Hreg Hfr (Ho1 & Ho2 & Ho3)] Hd [Hwf Hrep (p & Hp & Hp0) Hen] Hid.
  rw /kernel_main. rbind.
  pose proof (init_run stack_start (m_sys m) Hb) as ([] & s1 & Hi & Hidle & Htab & _)%runs_Done.
  rw {1}/runs /main_sys Hi. rbind. rw {1}/runs /main_memory /memory_init /active_level_4_table /= virt_add_ok //=.
  rbind. pose proof (heap_run cr3 phys limit map_to allocator_init heap_range map_to_ok allocator_init_ok
    (m_mem m) (boot_memory_map b) Hv Hun Hreg Hfr) as (r & [mem fr] & Hh & -> & _ & Hrange & frames & Hmaps & Hlen & _)%runs_Done.
  rw {1}/runs /main_heap /= Hh. rbind. rw {1}/runs /main_boot /=.
  pose proof Hidle as [Hint Hsv Hw Hpl Hsc Hpi Hidt].
  pose proof (boot_mounts_run (set_screen (m_kernel m) (screen (cpu s1))) s fl p Hd Hwf Hsc Hrep Hp Hp0 Hen)
    as (r & k & -> & -> & Hcmd & Hwk & s' & Hm)%runs_Done.
  rw /runs /main_tasks. cbn [m_next_id]. rw Hid.
  destruct (spawn_all_run [print_keypresses; shell_task_future] 0 (Executor_new (Q := Q) tt)) as (x & -> & Hq & _ & _ & Hget & _);
    [done|done|done|rw /queued /=; destruct (q_new_ok (Q := Q) (A := TaskId) 100) as [-> ->]; simpl; lia|].
  simpl. split_and!; try done.
  - intros q (i & Hqi)%list_elem_of_lookup. rw (proj1 Hmaps _ _ Hqi). apply lookup_lt_is_Some_2.
    apply lookup_lt_Some in Hqi. by rw Hlen.
  - by exists s'.
  - rw Hq /queued /=. by destruct (q_new_ok (Q := Q) (A := TaskId) 100) as [-> _].
  - by apply (Hget 0%nat).
  - by apply (Hget 1%nat).
Qed.
End boot.

(** ** Witness *)

Definition demo_boot_info : BootInfo := {| boot_memory_map := demo_regions; physical_memory_offset := DEMO_OFFSET |}.

Definition demo_main : @Main ListQueue (option TaskId) unit SimPics (gmap Z Gate) (list Descriptor) MemDisk Ram :=
  {| m_sys := demo_sys demo_booted; m_mem := demo_ram; m_frames := frame_allocator_init []; m_kernel := power_on boot_disk;
     m_exec := Executor_new tt; m_next_id := 0 |}.

Lemma demo_volume : volume_ready (D := MemDisk) (md_sector boot_disk) ∅.
Proof.
  split.
  - rw boot_bpb. exact tiny_wf.
  - rw boot_bpb. apply (represents_empty (capacity MemDisk) tiny_fs), Forall_forall.
    refine (bool_decide_unpack _ _). vm_compute. exact I.
  - exists (2, 0). rw boot_bpb. vm_compute. done.
  - rw boot_bpb. refine (bool_decide_unpack _ _). vm_compute. exact I.
Qed.

Lemma kernel_main_starts_witness :
  runs (kernel_main demo_cr3 demo_map_to demo_allocator_init 0x200000 demo_boot_info) demo_main (λ _ m',
    idle (cpu (m_sys m')) ∧ tables_loaded (0x200000 + STACK_SIZE) (m_sys m') ∧
    ram_heap (m_mem m') = Some (HEAP_START, HEAP_SIZE) ∧
    (∀ p, p ∈ heap_pages → is_Some (page_frame demo_cr3 ram (m_mem m') p)) ∧
    (∃ s', mounted {| bpb := Bpb_of_bytes (md_sector boot_disk 0) |} (m_kernel m') s' (∅ ∪ {[test_file := [12; 12; 15]]})) ∧
    k_commands (m_kernel m') = boot_table [] ∧
    queued (m_exec m') = [0; 1] ∧ bt_get 0 (tasks (m_exec m')) = Some print_keypresses ∧
    bt_get 1 (tasks (m_exec m')) = Some shell_task_future).
Proof.
  apply (kernel_main_starts demo_cr3 demo_map_to demo_allocator_init ram LIMIT ram_heap).
  - exact demo_map_to_ok.
  - exact demo_allocator_init_ok.
  - split; try done. apply boot_wf.
  - split; [exact demo_ready|intros p _; apply demo_unused|by repeat constructor|vm_compute; split; [discriminate|reflexivity]|done].
  - apply (md_holds_self boot_disk). reflexivity.
  - apply demo_volume.
  - reflexivity.
Defined.
